(* ===== verification/_CoqProject ===== *)
-Q . S2P
Prelude.v
GoStrings.v
GoTime.v
Json.v
Graph.v
Registry.v
Rbac.v
Sequence.v
Tag.v
Stream.v
Network.v
Alert.v
Snowpipe.v
Sharing.v
Catalog.v
AccountUsage.v
Session.v
GoPath.v
TimeTravel.v
TableStore.v
MatView.v
DynamicTable.v
Clone.v
Background.v
Cron.v
Task.v
Binding.v
Stage.v
Regexp.v
Rewriter.v
RewriterSpec.v
Calls.v
Udf.v
ExtFunc.v
CopyInto.v
Engine.v
StageRef.v
Parameters.v
Orchestrator.v
Demo.v
Markers.v
OrchestratorSpec.v
Server.v
Wire.v
ServerSpec.v
Protocol.v
Tls.v
System.v
Concurrent.v
Main.v
