(* ===== verification/Prelude.v ===== *)
(** * MiniFlake: a verification library

    MiniFlake is a local server that speaks Snowflake's protocols on top of DuckDB.  This
    library models its Go code ([cmd/miniflake] and [internal/]) as executable
    definitions and proves what makes each part, and the parts together, correct.  This
    file is its root: after this overview it holds what the others share, the
    result/error monad with its notation, reachability, invariants kept by
    computations, orders of map iteration, 64-bit arithmetic, and lemmas on lists.

    ** The program and its model

    A request of a driver reaches the HTTP server, which decodes it, finds the session
    of its token, fills in its bind variables and gives the statement to the
    orchestrator.  The orchestrator has it rewritten from Snowflake's dialect to
    DuckDB's; what DuckDB cannot run is left by the rewriter in a marker, a comment of a
    known form, for which the orchestrator calls a manager; the rest goes to the engine,
    with the catalog, the streams and the snapshots kept up to date on the way.  Beside
    the requests run the scheduler of tasks, the expiry of sessions and the loops of the
    managers.

    The levels of the library, from the bottom, with the sources below [internal/]:

    - Go itself: [GoStrings] (strings, numbers, quoting), [GoTime] (instants, dates),
      [GoPath] (file paths), [Regexp] (regular expressions, leftmost-first), [Json]
      (structures and JSON values), [Graph] (depth-first search), [Registry] (the class of
      managers that keep named objects), [TableStore] (the class of databases that keep
      tables).
    - Managers, one file each, with the state as a record and one definition per
      operation: [Catalog] (catalog/), [Rbac] (rbac/), [Sequence] (sequence/), [Tag] (tag/),
      [Stream] (stream/), [Network] (network/), [Alert] (alert/), [Snowpipe] (snowpipe/),
      [Sharing] (sharing/), [AccountUsage] (accountusage/), [Session] (session/),
      [TimeTravel] (timetravel/), [MatView] (matview/), [DynamicTable] (dynamictable/),
      [Clone] (clone/), [Cron] and [Task] (task/), [Stage] (stage/), [Udf] (udf/), [ExtFunc]
      (extfunc/), [CopyInto] (copyinto/), [Engine] (engine/); [Background] has the
      goroutines of the dynamic tables, the materialized views and the snapshots.
    - Statements: [Binding] (binding/), [Rewriter], [RewriterSpec] and [Calls] (rewriter/), [StageRef],
      [Parameters] and [Orchestrator] (orchestrator/), [Markers] and [OrchestratorSpec] (the
      way from the rewriter to the handlers; what handlers keep and do), [Demo] (a small
      database and file system to run statements on).
    - The front end: [Server] (server/server.go), [ServerSpec], [Wire] (a driver's reading of
      row sets), [Protocol] (protocol/types.go against the server's messages), [Tls]
      (server/tls.go).
    - The program: [System] (requests, scheduler and expiry as one transition system),
      [Concurrent] (the same with requests that overlap statement by statement) and [Main]
      (cmd/miniflake/main.go, from the flags to the end).

    Names are those of the source; a definition that stands for a part of a function is
    named for what it does.  A method that changes its receiver and may fail is a
    computation [GoM S A]: a state transformer with a value or the text of the [error],
    where changes made before an error stay.  Pointers that outlive a lock are indices
    into a heap ([Sequence], [Stream], [Task]); goroutines that interleave are step
    relations ([Stream], [Sequence], [Alert], [Snowpipe], [Background], [System]).  The order
    in which Go ranges over a map is unspecified: the class [MapRange] gives some
    order, maybe another one at each iteration, and every theorem holds for all.

    ** What is proved

    - The program as a whole: whatever requests, ticks and expiries follow each other,
      and whatever database, file system and decoders answer, every subsystem stays well
      formed ([System.program_keeps_state]); a tick runs each due task and its successors
      once ([program_tick_runs_tasks]), but a task that is its own successor recurses
      forever ([own_successor_never_ends]).  Requests may overlap, their statements
      interleaved; a reset stays alone under the state lock ([requests_interleaved]).  The
      steps of [Concurrent] are made of the definitions of the handler in [Server].
    - The protocol: who may run a statement, that requests touch no session but their
      own, how bulk statements are merged ([ServerSpec]), that row
      sets of typed columns are read back ([Wire]), that clients of the protocol package log
      in, with texts as JSON carries them ([Protocol]), that the port serves TLS and HTTP
      without losing a byte, and what dates a fresh certificate covers ([Tls]).
    - Statements: bind variables cannot change the structure of a statement ([Binding]);
      the rules of the rewriter that use their arguments once come to an end on calls with
      enough arguments, and do not on fewer ([RewriterSpec]); on calls in calls, to any depth,
      the loop of a rule is a translation by recursion, those that repeat arguments included
      ([Calls]); a statement for the orchestrator is rewritten to a marker and arrives as it
      was sent, when it has nothing in it that the later rules rewrite, and a query changes
      nothing ([Markers]); DML on a table named alone reaches its streams, DROP and UNDROP
      are inverse, a reset starts over ([OrchestratorSpec]).
    - Managers: invariants of the reachable states; refinements of abstract
      specifications ([Catalog], [Tag] for names without dots, [Sharing], and [Background], where the manager with its
      loops does nothing that it does not do without); access checks against the role
      hierarchy and address blocks ([Rbac], [Network]); values of sequences and changes of
      streams handed out exactly once under interleaving; the first matching minute of a
      cron schedule; files that stay inside their stage ([Stage], [StageRef], [CopyInto]) and
      are copied whole; what the wiping of the engine removes when its listings succeed.

    Loops of the source that end are proved to end.  Where the source's loop may not
    end, which is that of the rewriter alone, results are optional, and a theorem about a
    statement is about its outcome when it has one.

    ** Bounds and fuel

    Recursion that is structural in the source is so here.  Otherwise fuel is bounded and
    proved to be enough: [Cron] expands a range of a field within [expand_fuel] = 128 turns,
    and searches [search_fuel] = 2102401 minutes, the four years after which the source
    gives up; the walks of the role hierarchy have the number of roles plus two; [Task]
    walks successors with the number of tasks plus one, enough when no task has an empty
    name, and the source's own recursion is unbounded otherwise; the scanners of
    [Binding] and the searches of [Regexp] have the length of the text plus one, since each turn
    takes a byte and a repetition stops at an empty turn, and the parser of patterns has
    twice that.  The loop of [replaceFuncCall] need not end: its fuel is the number of turns,
    its result optional; [call_rules_terminate] bounds the turns by a count of the calls
    and [calls_translated] gives their number; [ExecuteSQL] takes the same fuel.  Integers that reach the program are [Z] with
    their range ([in_int64]) or wrap-around ([wrap64], [mod 2 ^ 64]) written out.

    ** Parameters and hypotheses

    Code outside the repository is a parameter on a state [W] of the outside world: the
    database driver, the file system, HTTP, compression, Python, keys and certificates,
    time zones, the clock and random bytes, the scanner of JSON texts, conversions of
    floating-point numbers.  Theorems that rely on its documented behaviour assume a
    class: [TableStore], [DuckDb], [FileSystem], [TableFiles], [TlsLaws]; each has an instance,
    with which the theorems are run.  The laws of [DuckDb] say nothing of a listing that ends
    in an error, those of [FileSystem] speak of single calls ([os.Open], [os.Create],
    [io.Copy]), and what is assumed of [COPY ... TO] is stated on the text of the statement.
    Strings are bytes with case mapping of ASCII; JSON texts have their invalid UTF-8
    replaced; the local time zone is UTC.

    ** What is not modelled

    In [System] a request or a tick is one step, in [Concurrent] a statement is; the pieces that
    interleave below that are modelled manager by manager.  Left out, with the reason: the parsing of flags, signals,
    sockets and the HTTP and TLS protocols themselves (the language's library and the
    operating system); the redirects of the mux; deadlines and cancelled contexts, which
    a parameter that fails at any moment covers; log messages.  A few types of the source
    that only hold function values ([copyinto.Executor]) are arguments instead. *)

From stdpp Require Export gmap strings list fin_maps relations.
From Stdlib Require Export Lia ZArith.

#[export] Set Warnings "-clear-no-such-hyp".

(** ** Results and the state/error monad

    A Go function that returns [(T, error)] and mutates its receiver becomes a
    computation [GoM S A]: it is given the receiver's state and returns either a
    value or the text of the [error], together with the new state.  State
    changes made before an error is returned are kept, as in Go. *)

Inductive result (A : Type) : Type :=
  | Ok (a : A)
  | Err (e : string).
Arguments Ok {A} a.
Arguments Err {A} e.

#[export] Instance result_eq_dec {A} `{EqDecision A} : EqDecision (result A).
Proof. solve_decision. Defined.

Definition is_ok {A} (r : result A) : bool :=
  match r with Ok _ => true | Err _ => false end.

Definition result_map {A B} (f : A → B) (r : result A) : result B :=
  match r with Ok a => Ok (f a) | Err e => Err e end.

(** [fmt.Errorf("<prefix>: %w", err)] *)
Definition wrap_err {A} (prefix : string) (r : result A) : result A :=
  match r with Ok a => Ok a | Err e => Err (prefix +:+ ": " +:+ e) end.

Definition GoM (S A : Type) : Type := S → result A * S.

Definition ret {S A} (a : A) : GoM S A := λ s, (Ok a, s).
Definition fail {S A} (e : string) : GoM S A := λ s, (Err e, s).
Definition get {S} : GoM S S := λ s, (Ok s, s).
Definition put {S} (s : S) : GoM S unit := λ _, (Ok tt, s).
Definition modify {S} (f : S → S) : GoM S unit := λ s, (Ok tt, f s).
Definition bind {S A B} (m : GoM S A) (f : A → GoM S B) : GoM S B :=
  λ s, match m s with
       | (Ok a, s') => f a s'
       | (Err e, s') => (Err e, s')
       end.

(** Running a computation whose outcome, error included, is inspected by the
    caller instead of being propagated ([if err := f(); err != nil {...}]). *)
Definition catch {S A} (m : GoM S A) : GoM S (result A) :=
  λ s, let '(r, s') := m s in (Ok r, s').

Declare Scope go_scope.
Delimit Scope go_scope with go.
Notation "'let!' x ':=' m 'in' k" := (bind m (λ x, k))
  (at level 10, x pattern, m at level 100, k at level 200,
   format "'[v' 'let!'  x  ':='  m  'in' '/' k ']'") : go_scope.
Notation "m ';;;' k" := (bind m (λ _, k))
  (at level 199, right associativity) : go_scope.
#[global] Open Scope go_scope.

(** A call whose error is dropped ([_ = f()]). *)
Definition ignore {S A} (m : GoM S A) : GoM S unit := catch m ;;; ret tt.

(** [for _, x := range l { if err := f(x); err != nil { return err } }] *)
Fixpoint for_each {S A} (f : A → GoM S unit) (l : list A) : GoM S unit :=
  match l with [] => ret tt | x :: l => f x ;;; for_each f l end.

(** [for _, x := range l { rows = append(rows, f(x)) }], ended by the first error. *)
Fixpoint map_each {S A B} (f : A → GoM S B) (l : list A) : GoM S (list B) :=
  match l with
  | [] => ret []
  | x :: l => let! y := f x in let! ys := map_each f l in ret (y :: ys)
  end.

(** A call on the outside world [W], kept beside the receiver's state. *)
Definition lift {S W A} (f : W → result A * W) : GoM (S * W) A :=
  λ s, let '(r, w) := f s.2 in (r, (s.1, w)).

(** [if err := f(); err != nil { return fmt.Errorf(prefix+": %w", err) }] *)
Definition wrapped {S A} (prefix : string) (m : GoM S A) : GoM S A :=
  λ s, let '(r, s) := m s in (wrap_err prefix r, s).

Lemma bind_ret {S A B} (a : A) (f : A → GoM S B) s : bind (ret a) f s = f a s.
Proof. done. Qed.

Lemma bind_assoc {S A B C} (m : GoM S A) (f : A → GoM S B) (g : B → GoM S C) s :
  bind (bind m f) g s = bind m (λ a, bind (f a) g) s.
Proof. unfold bind. by destruct (m s) as [[a|e] s']. Qed.

Lemma bind_ok {S A B} (m : GoM S A) (k : A → GoM S B) s b s' : bind m k s = (Ok b, s') →
  ∃ a s1, m s = (Ok a, s1) ∧ k a s1 = (Ok b, s').
Proof. unfold bind. destruct (m s) as [[a|e] s1]; [eauto|done]. Qed.

Lemma bind_err {S A B} (m : GoM S A) (k : A → GoM S B) s e s' : bind m k s = (Err e, s') →
  m s = (Err e, s') ∨ ∃ a s1, m s = (Ok a, s1) ∧ k a s1 = (Err e, s').
Proof. unfold bind. destruct (m s) as [[a|e1] s1]; [eauto|]. intros [= -> ->]. by left. Qed.

Lemma wrapped_ok {S A} prefix (m : GoM S A) s a s' : wrapped prefix m s = (Ok a, s') → m s = (Ok a, s').
Proof. unfold wrapped. destruct (m s) as [[]]; cbn; congruence. Qed.
Lemma wrapped_err {S A} prefix (m : GoM S A) s e s' : wrapped prefix m s = (Err e, s') →
  ∃ e', m s = (Err e', s') ∧ e = prefix +:+ ": " +:+ e'.
Proof. unfold wrapped. destruct (m s) as [[a|e1] s1]; cbn; [done|]. intros [= <- <-]. eauto. Qed.

(** Unfold the monad's operations in the whole context. *)
Ltac go_unfold :=
  unfold bind, ret, fail, get, put, modify, catch in *; simpl in *.

(** Calls on the outside world leave the receiver alone. *)
Lemma lift_fst {S W A} prefix (f : W → result A * W) (s : S * W) :
  (wrapped prefix (lift f) s).2.1 = s.1.
Proof. unfold wrapped, lift. by destruct (f s.2). Qed.

Lemma bind_fst {S W A B} (m : GoM (S * W) A) (k : A → GoM (S * W) B) s :
  (m s).2.1 = s.1 → (∀ a s', (k a s').2.1 = s'.1) → (bind m k s).2.1 = s.1.
Proof. intros Hm Hk. unfold bind. destruct (m s) as [[a|err] s']; cbn in *; congruence. Qed.

Lemma ignore_snd {S A} (m : GoM S A) s : (ignore m s).2 = (m s).2.
Proof. unfold ignore. go_unfold. by destruct (m s). Qed.

Lemma bind_ignore {S A B} (m : GoM S A) (k : GoM S B) s :
  (ignore m ;;; k) s = k (m s).2.
Proof. unfold ignore. go_unfold. by destruct (m s). Qed.

Lemma for_each_inv {S A} (I : S → Prop) (f : A → GoM S unit) l s :
  (∀ a s, a ∈ l → I s → I (f a s).2) → I s → I (for_each f l s).2.
Proof.
  revert s. induction l as [|a l IH]; intros s Hf Hs; [done|]. cbn.
  unfold bind. pose proof (Hf a s (list_elem_of_here _ _) Hs) as H.
  destruct (f a s) as [[[]|err] s']; cbn in *; [|done].
  apply IH; [|done]. intros. apply Hf; [by right|done].
Qed.

Lemma map_each_inv {S A B} (I : S → Prop) (f : A → GoM S B) l s :
  (∀ a s, a ∈ l → I s → I (f a s).2) → I s → I (map_each f l s).2.
Proof.
  revert s. induction l as [|a l IH]; intros s Hf Hs; [done|]. cbn. unfold bind.
  pose proof (Hf a s (list_elem_of_here _ _) Hs) as H. destruct (f a s) as [[b|err] s']; cbn in *; [|done].
  pose proof (IH s' (λ a' s0 Ha, Hf a' s0 (list_elem_of_further _ _ _ Ha)) H) as H'.
  by destruct (map_each f l s') as [[bs|err] s2].
Qed.

(** The same for a loop whose turns all succeed. *)
Lemma for_each_total {S A} (I : S → Prop) (f : A → GoM S unit) l s :
  (∀ a s, a ∈ l → I s → (f a s).1 = Ok tt ∧ I (f a s).2) → I s →
  (for_each f l s).1 = Ok tt ∧ I (for_each f l s).2.
Proof.
  revert s. induction l as [|a l IH]; intros s Hf Hs; [done|]. cbn.
  unfold bind. destruct (Hf a s (list_elem_of_here _ _) Hs) as [H1 H2].
  destruct (f a s) as [r s']; cbn in *. rewrite H1.
  apply IH; [|done]. intros. apply Hf; [by right|done].
Qed.

Lemma for_each_ok {S A} (f : A → GoM S unit) l s :
  (∀ a s, is_ok (f a s).1 = true) → is_ok (for_each f l s).1 = true.
Proof.
  intros Hf. revert s. induction l as [|a l IH]; intros s; [done|]. cbn. unfold bind.
  specialize (Hf a s). by destruct (f a s) as [[[]|err] s'].
Qed.

Lemma ignore_ok {S A} (m : GoM S A) s : is_ok (ignore m s).1 = true.
Proof. unfold ignore. go_unfold. by destruct (m s). Qed.

(** *** Computations that keep an invariant of their state, errors included *)

Definition keeps {S A} (I : S → Prop) (m : GoM S A) : Prop := ∀ s, I s → I (m s).2.

Lemma keeps_ret {S A} (I : S → Prop) (a : A) : keeps I (ret a).
Proof. by intros s. Qed.
Lemma keeps_fail {S A} (I : S → Prop) e : keeps I (fail (A:=A) e).
Proof. by intros s. Qed.
Lemma keeps_get {S} (I : S → Prop) : keeps I get.
Proof. by intros s. Qed.
Lemma keeps_bind {S A B} (I : S → Prop) (m : GoM S A) (k : A → GoM S B) :
  keeps I m → (∀ a, keeps I (k a)) → keeps I (bind m k).
Proof.
  intros Hm Hk s Hs. unfold bind. specialize (Hm s Hs). destruct (m s) as [[a|e] s']; [by apply Hk|done].
Qed.
(** The state that was read satisfies the invariant. *)
Lemma keeps_get_bind {S B} (I : S → Prop) (k : S → GoM S B) :
  (∀ a, I a → keeps I (k a)) → keeps I (bind get k).
Proof. intros Hk s Hs. unfold bind, get. by apply Hk. Qed.
Lemma keeps_modify {S} (I : S → Prop) f : (∀ s, I s → I (f s)) → keeps I (modify f).
Proof. intros Hf s Hs. by apply Hf. Qed.
Lemma keeps_put {S} (I : S → Prop) s : I s → keeps I (put s).
Proof. by intros Hs s' _. Qed.
Lemma keeps_catch {S A} (I : S → Prop) (m : GoM S A) : keeps I m → keeps I (catch m).
Proof. intros Hm s Hs. unfold catch. specialize (Hm s Hs). by destruct (m s). Qed.
Lemma keeps_ignore {S A} (I : S → Prop) (m : GoM S A) : keeps I m → keeps I (ignore m).
Proof. intros Hm. apply keeps_bind; [by apply keeps_catch|intros; apply keeps_ret]. Qed.
Lemma keeps_wrapped {S A} (I : S → Prop) prefix (m : GoM S A) : keeps I m → keeps I (wrapped prefix m).
Proof. intros Hm s Hs. unfold wrapped. specialize (Hm s Hs). by destruct (m s). Qed.
Lemma keeps_lift {S W A} (I : S → Prop) (f : W → result A * W) : keeps (λ s : S * W, I s.1) (lift f).
Proof. intros s Hs. unfold lift. by destruct (f s.2). Qed.
Lemma keeps_map_each {S A B} (I : S → Prop) (f : A → GoM S B) l : (∀ a, keeps I (f a)) → keeps I (map_each f l).
Proof.
  intros Hf. induction l as [|a l IH]; [apply keeps_ret|]. apply keeps_bind; [apply Hf|]. intros b.
  apply keeps_bind; [done|]. intros; apply keeps_ret.
Qed.

Lemma keeps_for_each {S A} (I : S → Prop) (f : A → GoM S unit) l : (∀ a, keeps I (f a)) → keeps I (for_each f l).
Proof. intros Hf. induction l as [|a l IH]; [apply keeps_ret|]. by apply keeps_bind; [apply Hf|]. Qed.

Create HintDb keeps.
#[export] Hint Resolve keeps_ret keeps_fail keeps_get keeps_catch keeps_ignore keeps_wrapped keeps_lift keeps_map_each keeps_for_each : keeps.
(** Through the structure of a computation. *)
Ltac keeps_step := first
  [ progress intros
  | solve [eauto 3 with keeps]
  | match goal with |- keeps _ (match ?x with _ => _ end) => destruct x end
  | apply keeps_bind
  | apply keeps_catch | apply keeps_ignore | apply keeps_wrapped | apply keeps_map_each | apply keeps_for_each ].
Ltac keeps_auto := repeat keeps_step.

(** Case analysis on every [match] and [decide] left, closing contradictory
    branches. *)
Ltac go_cases := repeat (case_match; simplify_eq/=); simplify_eq/=.

(** Split conjunctions in goal and context, then finish. *)
Ltac split_all := repeat match goal with
  | |- _ ∧ _ => split
  | H : _ ∧ _ |- _ => destruct H
  | H : ∃ _, _ |- _ => destruct H
  end.

(** ** Machine integers: [int64] (and [int] on a 64-bit platform) *)

Definition two63 : Z := 9223372036854775808.
Definition two64 : Z := 18446744073709551616.

(** Two's-complement wrap-around of a mathematical integer to 64 bits. *)
Definition wrap64 (z : Z) : Z := ((z + two63) `mod` two64 - two63)%Z.

Definition in_int64 (z : Z) : Prop := (- two63 ≤ z < two63)%Z.

Lemma wrap64_range z : in_int64 (wrap64 z).
Proof.
  unfold wrap64, in_int64.
  pose proof (Z.mod_pos_bound (z + two63)%Z two64 ltac:(done)). unfold two63, two64 in *. lia.
Qed.

Lemma wrap64_id z : in_int64 z → wrap64 z = z.
Proof.
  unfold wrap64, in_int64. intros H. rewrite Z.mod_small; unfold two63, two64 in *; lia.
Qed.

Lemma wrap64_add_l a b : wrap64 (wrap64 a + b)%Z = wrap64 (a + b)%Z.
Proof.
  unfold wrap64.
  replace ((a + two63) `mod` two64 - two63 + b + two63)%Z
    with ((a + two63) `mod` two64 + b)%Z by lia.
  replace (a + b + two63)%Z with ((a + two63) + b)%Z by lia.
  by rewrite Zplus_mod_idemp_l.
Qed.

Lemma wrap64_eq_iff a b : wrap64 a = wrap64 b ↔ ((a - b) `mod` two64 = 0)%Z.
Proof.
  unfold wrap64. split.
  - intros H. assert (H' : ((a + two63) `mod` two64 = (b + two63) `mod` two64)%Z) by lia.
    replace (a - b)%Z with ((a + two63) - (b + two63))%Z by lia.
    rewrite Zminus_mod, H', Z.sub_diag. done.
  - intros H. f_equal.
    replace (a + two63)%Z with ((a - b) + (b + two63))%Z by lia.
    rewrite Zplus_mod, H, Z.add_0_l. by rewrite Zmod_mod.
Qed.

(** ** Dynamically typed values

    The cells of a result row, [interface{}] in the source.  [CFloat] keeps a
    float as its decimal text: the source only prints floats.  [CTime] holds
    nanoseconds since the epoch, [CBytes] a byte slice. *)

Inductive cell : Type :=
  | CNull
  | CBool (b : bool)
  | CInt (z : Z)
  | CFloat (s : string)
  | CStr (s : string)
  | CTime (t : Z)
  | CBytes (s : string).

#[export] Instance cell_eq_dec : EqDecision cell.
Proof. solve_decision. Defined.

Definition row : Type := gmap string cell.

(** ** Lists *)

Lemma filter_all {A} (P : A → Prop) `{∀ x, Decision (P x)} (l : list A) :
  (∀ x, x ∈ l → P x) → filter P l = l.
Proof.
  induction l as [|x l IH]; intros HP; [done|].
  rewrite filter_cons_True by (apply HP; left). f_equal. apply IH. intros y Hy. apply HP. by right.
Qed.

Lemma filter_none {A} (P : A → Prop) `{∀ x, Decision (P x)} (l : list A) :
  (∀ x, x ∈ l → ¬ P x) → filter P l = [].
Proof.
  induction l as [|x l IH]; intros HP; [done|].
  rewrite filter_cons_False by (apply HP; left). apply IH. intros y Hy. apply HP. by right.
Qed.

Lemma filter_same {A} (P Q : A → Prop) `{∀ x, Decision (P x), ∀ x, Decision (Q x)} (l : list A) :
  (∀ x, x ∈ l → P x ↔ Q x) → filter P l = filter Q l.
Proof.
  induction l as [|x l IH]; intros Hl; [done|]. rewrite !filter_cons, IH by (intros y Hy; apply Hl; by right).
  pose proof (Hl x ltac:(left)). destruct (decide (P x)), (decide (Q x)); tauto || done.
Qed.

Lemma Forall_filter_sub {A} (Q P : A → Prop) `{∀ x, Decision (P x)} (l : list A) :
  Forall Q l → Forall Q (filter P l).
Proof.
  rewrite !Forall_forall. intros HQ x [_ Hx]%list_elem_of_filter. auto.
Qed.

Lemma alter_split {A} (f : A → A) i l x :
  l !! i = Some x → alter f i l = take i l ++ f x :: drop (S i) l.
Proof.
  revert i. induction l as [|y l IH]; intros [|i]; cbn; intros H; simplify_eq; [done|].
  f_equal. by apply IH.
Qed.

Lemma NoDup_snoc {A} (l : list A) x : NoDup l → x ∉ l → NoDup (l ++ [x]).
Proof. intros. apply NoDup_app. split; [done|]. split; [set_solver|apply NoDup_singleton]. Qed.

Lemma NoDup_fmap_filter {A B} (f : A → B) (P : A → Prop) `{∀ x, Decision (P x)} (l : list A) :
  NoDup (f <$> l) → NoDup (f <$> filter P l).
Proof.
  induction l as [|x l IH]; [done|]. rewrite fmap_cons, NoDup_cons. intros [Hx Hnd].
  destruct (decide (P x)).
  - rewrite filter_cons_True, fmap_cons, NoDup_cons by done. split; [|auto].
    intros (y & Hy & [_ Hin]%list_elem_of_filter)%list_elem_of_fmap.
    apply Hx. rewrite Hy. by apply list_elem_of_fmap_2.
  - rewrite filter_cons_False by done. auto.
Qed.

(** ** Iteration over a Go map

    [for k, v := range m] visits every entry once, in an order that the language
    leaves open and that may differ between two executions of the loop.  The
    order is a parameter: [map_range t m] is the order of the iteration that
    happens at moment [t]. *)

(** The lemmas that automate the common cases. *)
Create HintDb go.
#[export] Hint Resolve elem_of_dom_2 : go.

Class MapRange := {
  map_range : ∀ {V : Type}, nat → gmap string V → list (string * V);
  map_range_perm : ∀ (V : Type) t (m : gmap string V),
    map_range t m ≡ₚ map_to_list m;
}.

(** One admissible order, used where a concrete execution is wanted. *)
Definition key_order : MapRange.
Proof. refine {| map_range := λ V _ m, map_to_list m |}. reflexivity. Defined.

Section map_range.
Context `{MR : MapRange} {V : Type}.

Lemma elem_of_map_range t (m : gmap string V) k v :
  (k, v) ∈ map_range t m ↔ m !! k = Some v.
Proof. by rewrite map_range_perm, elem_of_map_to_list. Qed.

Lemma map_range_NoDup_fst t (m : gmap string V) : NoDup (map_range t m).*1.
Proof. rewrite map_range_perm. apply NoDup_fst_map_to_list. Qed.

Lemma map_range_length t (m : gmap string V) : length (map_range t m) = size m.
Proof. rewrite map_range_perm. apply length_map_to_list. Qed.

Lemma map_range_nil t (m : gmap string V) : map_range t m = [] ↔ m = ∅.
Proof.
  rewrite <- map_to_list_empty_iff. pose proof (map_range_perm _ t m) as Hp.
  split; intros H; rewrite H in Hp; symmetry in Hp || idtac;
    by apply Permutation_nil_r in Hp || apply Permutation_nil_l in Hp.
Qed.
End map_range.


(** ** Transition systems *)

Section system.
Context {S L : Type} (init : S → Prop) (step : S → L → S → Prop).

(** [run s tr s']: the labels [tr] lead from [s] to [s']. *)
Inductive run : S → list L → S → Prop :=
  | run_nil s : run s [] s
  | run_cons s l s' tr s'' : step s l s' → run s' tr s'' → run s (l :: tr) s''.

(** Induction on a run from its last step. *)
Lemma run_rev_ind (P : S → list L → S → Prop) :
  (∀ s, P s [] s) →
  (∀ s tr s' l s'', run s tr s' → P s tr s' → step s' l s'' → P s (tr ++ [l]) s'') →
  ∀ s tr s', run s tr s' → P s tr s'.
Proof.
  intros Hnil Hsnoc s tr. induction tr as [|l tr IH] using rev_ind; intros s' Hr.
  - inversion Hr; subst. apply Hnil.
  - assert (∃ s1, run s tr s1 ∧ step s1 l s') as (s1 & Hr1 & Hst).
    { clear IH. revert s Hr. induction tr as [|l' tr IHtr]; intros s Hr; inversion Hr; subst.
      - inversion H4; subst. exists s. split; [constructor|done].
      - destruct (IHtr _ H4) as (s1 & ? & ?). exists s1. split; [by econstructor|done]. }
    eauto.
Qed.

Definition reachable (s : S) : Prop := ∃ s0 tr, init s0 ∧ run s0 tr s.

Lemma run_snoc s tr s' l s'' : run s tr s' → step s' l s'' → run s (tr ++ [l]) s''.
Proof. induction 1; intros; simpl; eauto using run. Qed.

Lemma run_app s tr s' tr' s'' : run s tr s' → run s' tr' s'' → run s (tr ++ tr') s''.
Proof. induction 1; intros; simpl; eauto using run. Qed.

Lemma run_preserves (I : S → Prop) s tr s' :
  (∀ s l s', I s → step s l s' → I s') → run s tr s' → I s → I s'.
Proof. induction 2; eauto. Qed.

Lemma reachable_inv (I : S → Prop) :
  (∀ s, init s → I s) → (∀ s l s', I s → step s l s' → I s') →
  ∀ s, reachable s → I s.
Proof. intros Hi Hs s (s0 & tr & H0 & Hr). eapply run_preserves; eauto. Qed.

Lemma reachable_step s l s' : reachable s → step s l s' → reachable s'.
Proof.
  intros (s0 & tr & H0 & Hr) Hst. exists s0, (tr ++ [l]). split; [done|].
  eauto using run_snoc.
Qed.

(** Executing a list of labels when the step is a function of the label. *)
Lemma reachable_exec (exec : L → S → S) s0 ls :
  (∀ l s, step s l (exec l s)) → init s0 →
  reachable (foldl (λ s l, exec l s) s0 ls).
Proof.
  intros Hex H0. exists s0, ls. split; [done|]. clear H0. revert s0.
  induction ls as [|l ls IH]; intros s0; [constructor|]. econstructor; [apply Hex|apply IH].
Qed.

Lemma reachable_init s : init s → reachable s.
Proof. intros. exists s, []. split; [done|constructor]. Qed.
End system.
