(* ===== verification/GoStrings.v ===== *)
(** * The string functions of Go's standard library that MiniFlake uses

    A Go string is a sequence of bytes, as is Rocq's [string].  Case mapping and
    white space are those of the ASCII range: on strings of ASCII bytes the
    functions below are Go's [strings.ToUpper], [ToLower], [EqualFold],
    [TrimSpace], [Fields], ...; a byte above 127 is left alone (Go would decode
    it as part of a rune and consult the Unicode tables). *)

From S2P Require Import Prelude.
From Stdlib Require Import Ascii DecimalString DecimalZ DecimalPos.

(** stdpp blocks the reduction of [+:+]; here its equations are wanted. *)
#[global] Arguments String.append !s1 s2 / : simpl nomatch.

(** ** Bytes *)

Definition byte_in (lo hi : N) (c : ascii) : bool :=
  ((lo <=? N_of_ascii c) && (N_of_ascii c <=? hi))%N.

Definition is_lower (c : ascii) : bool := byte_in 97 122 c.
Definition is_upper (c : ascii) : bool := byte_in 65 90 c.
Definition is_digit (c : ascii) : bool := byte_in 48 57 c.

(** ASCII white space: [\t \n \v \f \r] and the space. *)
Definition is_space (c : ascii) : bool := byte_in 9 13 c || (N_of_ascii c =? 32)%N.

(** The class [\s] of regular expressions, which lacks [\v]. *)
Definition re_space (c : ascii) : bool := is_space c && negb (N_of_ascii c =? 11)%N.

Definition upper_byte (c : ascii) : ascii :=
  if is_lower c then ascii_of_N (N_of_ascii c - 32) else c.
Definition lower_byte (c : ascii) : ascii :=
  if is_upper c then ascii_of_N (N_of_ascii c + 32) else c.

(** Prove a fact about one byte by looking at all 256 of them. *)
Ltac by_bytes c := destruct c as [[] [] [] [] [] [] [] []]; reflexivity.

Lemma upper_byte_idem c : upper_byte (upper_byte c) = upper_byte c.
Proof. by_bytes c. Qed.
Lemma lower_byte_idem c : lower_byte (lower_byte c) = lower_byte c.
Proof. by_bytes c. Qed.
Lemma lower_upper_byte c : lower_byte (upper_byte c) = lower_byte c.
Proof. by_bytes c. Qed.
Lemma upper_lower_byte c : upper_byte (lower_byte c) = upper_byte c.
Proof. by_bytes c. Qed.

(** ** Mapping over a string *)

Fixpoint string_map (f : ascii → ascii) (s : string) : string :=
  match s with "" => "" | String c s => String (f c) (string_map f s) end.

Lemma string_map_app f s t : string_map f (s +:+ t) = string_map f s +:+ string_map f t.
Proof. induction s as [|c s IH]; [done|]. cbn. by f_equal. Qed.

Lemma string_map_map f g h s :
  (∀ c, f (g c) = h c) → string_map f (string_map g s) = string_map h s.
Proof. intros Hfg. induction s as [|c s IH]; [done|]. cbn. by rewrite Hfg, IH. Qed.

Definition ToUpper (s : string) : string := string_map upper_byte s.
Definition ToLower (s : string) : string := string_map lower_byte s.

Lemma ToUpper_app s t : ToUpper (s +:+ t) = ToUpper s +:+ ToUpper t.
Proof. apply string_map_app. Qed.
Lemma ToLower_app s t : ToLower (s +:+ t) = ToLower s +:+ ToLower t.
Proof. apply string_map_app. Qed.
Lemma ToUpper_idem s : ToUpper (ToUpper s) = ToUpper s.
Proof. apply string_map_map, upper_byte_idem. Qed.
Lemma ToLower_idem s : ToLower (ToLower s) = ToLower s.
Proof. apply string_map_map, lower_byte_idem. Qed.
Lemma ToLower_ToUpper s : ToLower (ToUpper s) = ToLower s.
Proof. apply string_map_map, lower_upper_byte. Qed.
Lemma ToUpper_ToLower s : ToUpper (ToLower s) = ToUpper s.
Proof. apply string_map_map, upper_lower_byte. Qed.

Lemma ToUpper_ToLower_iff s t : ToUpper s = ToUpper t ↔ ToLower s = ToLower t.
Proof.
  split; intros H.
  - by rewrite <- (ToLower_ToUpper s), H, ToLower_ToUpper.
  - by rewrite <- (ToUpper_ToLower s), H, ToUpper_ToLower.
Qed.

Create Rewrite HintDb go_rw.
#[export] Hint Rewrite ToUpper_app ToLower_app ToUpper_idem ToLower_idem
  ToLower_ToUpper ToUpper_ToLower : go_rw.

(** [strings.EqualFold] *)
Definition EqualFold (s t : string) : bool := bool_decide (ToLower s = ToLower t).

Lemma EqualFold_spec s t : EqualFold s t = true ↔ ToUpper s = ToUpper t.
Proof. unfold EqualFold. by rewrite bool_decide_eq_true, ToUpper_ToLower_iff. Qed.

(** ** Appending *)

Lemma string_app_nil_r s : s +:+ "" = s.
Proof. induction s as [|c s IH]; [done|]. cbn. by f_equal. Qed.

Lemma string_app_assoc (s t u : string) : (s +:+ t) +:+ u = s +:+ (t +:+ u).
Proof. induction s as [|c s IH]; [done|]. cbn. by f_equal. Qed.

Lemma string_app_length s t : String.length (s +:+ t) = String.length s + String.length t.
Proof. induction s as [|c s IH]; [done|]. cbn. by f_equal. Qed.

Lemma string_app_inj_r (s t u : string) : s +:+ t = s +:+ u → t = u.
Proof. induction s as [|c s IH]; cbn; intros H; [done|]. simplify_eq. auto. Qed.

Lemma string_app_inj_len (s s' t t' : string) :
  String.length s = String.length s' → s +:+ t = s' +:+ t' → s = s' ∧ t = t'.
Proof.
  revert s'. induction s as [|c s IH]; intros [|c' s'] Hl H; cbn in *; try done.
  injection H as -> H. injection Hl as Hl. by destruct (IH s' Hl H) as [-> ->].
Qed.

Lemma string_map_length f s : String.length (string_map f s) = String.length s.
Proof. induction s as [|c s IH]; [done|]. cbn. by f_equal. Qed.

(** ** Prefixes and suffixes *)

Fixpoint TrimPrefixOpt (s p : string) {struct p} : option string :=
  match p, s with
  | "", _ => Some s
  | String c p, String d s => if decide (c = d) then TrimPrefixOpt s p else None
  | String _ _, "" => None
  end.

Definition HasPrefix (s p : string) : bool :=
  match TrimPrefixOpt s p with Some _ => true | None => false end.
Definition TrimPrefix (s p : string) : string := default s (TrimPrefixOpt s p).

(** The same for a prefix compared without regard to case, as under [(?i)] in a
    regular expression. *)
Fixpoint TrimPrefixFold (s p : string) {struct p} : option string :=
  match p, s with
  | "", _ => Some s
  | String c p, String d s =>
      if decide (lower_byte c = lower_byte d) then TrimPrefixFold s p else None
  | String _ _, "" => None
  end.

Fixpoint string_rev_app (s acc : string) : string :=
  match s with "" => acc | String c s => string_rev_app s (String c acc) end.
Definition string_rev (s : string) : string := string_rev_app s "".

Definition HasSuffix (s p : string) : bool := HasPrefix (string_rev s) (string_rev p).
Definition TrimSuffix (s p : string) : string :=
  string_rev (TrimPrefix (string_rev s) (string_rev p)).

Lemma TrimPrefixOpt_spec s p t : TrimPrefixOpt s p = Some t ↔ s = p +:+ t.
Proof.
  revert s. induction p as [|c p IH]; intros s; cbn; [split; congruence|].
  destruct s as [|d s]; cbn; [split; congruence|].
  case_decide; subst; [rewrite IH|]; split; congruence.
Qed.

Lemma HasPrefix_spec s p : HasPrefix s p = true ↔ ∃ t, s = p +:+ t.
Proof.
  unfold HasPrefix. destruct (TrimPrefixOpt s p) as [t|] eqn:E.
  - apply TrimPrefixOpt_spec in E. naive_solver.
  - split; [done|]. intros [t Ht%TrimPrefixOpt_spec]. congruence.
Qed.

Lemma TrimPrefixOpt_app p t : TrimPrefixOpt (p +:+ t) p = Some t.
Proof. by apply TrimPrefixOpt_spec. Qed.

Lemma HasPrefix_app s t : HasPrefix (s +:+ t) s = true.
Proof. apply HasPrefix_spec. eauto. Qed.

(** ** Trimming *)

Fixpoint trim_left (f : ascii → bool) (s : string) : string :=
  match s with
  | "" => ""
  | String c t => if f c then trim_left f t else s
  end.
Definition trim_right (f : ascii → bool) (s : string) : string :=
  string_rev (trim_left f (string_rev s)).

(** The longest prefix of bytes that satisfy a predicate. *)
Fixpoint take_while (f : ascii → bool) (s : string) : string :=
  match s with
  | "" => ""
  | String c t => if f c then String c (take_while f t) else ""
  end.

Lemma take_trim f s : take_while f s +:+ trim_left f s = s.
Proof. induction s as [|c s IH]; cbn; [done|]. destruct (f c); cbn; [by rewrite IH|done]. Qed.

(** [strings.TrimSpace], [strings.Trim] and [strings.TrimRight] (the cutset given
    as a predicate) *)
Definition TrimSpace (s : string) : string := trim_right is_space (trim_left is_space s).
Definition Trim (f : ascii → bool) (s : string) : string := trim_right f (trim_left f s).

(** The byte at the end of a text that follows the byte [prev]. *)
Fixpoint last_byte (prev : option ascii) (a : string) : option ascii :=
  match a with "" => prev | String c a => last_byte (Some c) a end.

Lemma last_byte_app b s t : last_byte b (s +:+ t) = last_byte (last_byte b s) t.
Proof. revert b. induction s as [|c s IH]; intros b; cbn; auto. Qed.

(** All bytes satisfy a predicate. *)
Fixpoint every (f : ascii → bool) (s : string) : bool :=
  match s with "" => true | String c s => f c && every f s end.

Lemma every_app f s t : every f (s +:+ t) = every f s && every f t.
Proof. induction s as [|c s IH]; cbn; [done|]. by rewrite IH, andb_assoc. Qed.

Lemma every_take_while f s : every f (take_while f s) = true.
Proof. induction s as [|c s IH]; cbn; [done|]. destruct (f c) eqn:E; cbn; [by rewrite E|done]. Qed.

Lemma string_rev_app_eq s acc : string_rev_app s acc = string_rev s +:+ acc.
Proof.
  unfold string_rev. revert acc. induction s as [|c s IH]; intros acc; cbn; [done|].
  rewrite IH, (IH (String c "")), string_app_assoc. done.
Qed.

Lemma string_rev_cons c s : string_rev (String c s) = string_rev s +:+ String c "".
Proof. exact (string_rev_app_eq s (String c EmptyString)). Qed.

Lemma string_rev_app_distr s t : string_rev (s +:+ t) = string_rev t +:+ string_rev s.
Proof.
  induction s as [|c s IH]; cbn [String.append].
  - by rewrite string_app_nil_r.
  - by rewrite !string_rev_cons, IH, string_app_assoc.
Qed.

Lemma string_rev_involutive s : string_rev (string_rev s) = s.
Proof.
  induction s as [|c s IH]; [done|]. by rewrite string_rev_cons, string_rev_app_distr, IH.
Qed.

Lemma every_rev f s : every f (string_rev s) = every f s.
Proof.
  induction s as [|c s IH]; [done|]. rewrite string_rev_cons, every_app, IH. cbn.
  by rewrite andb_true_r, andb_comm.
Qed.

Lemma trim_left_idem f s : trim_left f (trim_left f s) = trim_left f s.
Proof. induction s as [|c s IH]; [done|]. cbn. destruct (f c) eqn:E; [done|]. cbn. by rewrite E. Qed.

Lemma trim_left_every f s t : every f s = true → trim_left f (s +:+ t) = trim_left f t.
Proof.
  induction s as [|c s IH]; cbn; [done|]. intros [-> H]%andb_true_iff. auto.
Qed.

Lemma trim_right_split f s : ∃ ws, s = trim_right f s +:+ ws ∧ every f ws = true.
Proof.
  exists (string_rev (take_while f (string_rev s))). unfold trim_right.
  rewrite <- string_rev_app_distr, take_trim, string_rev_involutive, every_rev. split; [done|].
  apply every_take_while.
Qed.

Lemma trim_split f s : ∃ a b, s = a +:+ trim_right f (trim_left f s) +:+ b ∧ every f a = true ∧ every f b = true.
Proof.
  destruct (trim_right_split f (trim_left f s)) as (b & Hb & ?).
  exists (take_while f s), b. rewrite <- Hb, take_trim. auto using every_take_while.
Qed.

(** Trimming a trimmed text again, with white space added on the left. *)
Lemma trim_left_right f s : trim_left f (trim_right f (trim_left f s)) = trim_right f (trim_left f s).
Proof.
  destruct (trim_right_split f (trim_left f s)) as (b & Hb & _).
  pose proof (trim_left_idem f s) as Hi.
  destruct (trim_right f (trim_left f s)) as [|c t] eqn:E; [done|].
  rewrite Hb in Hi. cbn in Hi |- *. destruct (f c) eqn:Ef; [|done].
  assert (Hlen : ∀ u, String.length (trim_left f u) ≤ String.length u).
  { intros u. induction u as [|d u IHu]; cbn; [done|]. destruct (f d); cbn; lia. }
  specialize (Hlen (t +:+ b)). rewrite Hi in Hlen. cbn in Hlen. lia.
Qed.

Lemma trim_right_idem f s : trim_right f (trim_right f s) = trim_right f s.
Proof. unfold trim_right. by rewrite string_rev_involutive, trim_left_idem. Qed.

Lemma TrimSpace_again ws s : every is_space ws = true → TrimSpace (ws +:+ TrimSpace s) = TrimSpace s.
Proof.
  intros H. unfold TrimSpace. by rewrite trim_left_every, trim_left_right, trim_right_idem.
Qed.

(** ** Searching *)

(** [strings.Index], [None] for -1. *)
Fixpoint Index (s sub : string) : option nat :=
  if HasPrefix s sub then Some 0
  else match s with "" => None | String _ s => S <$> Index s sub end.

Definition Contains (s sub : string) : bool :=
  match Index s sub with Some _ => true | None => false end.

(** [s] split at the first occurrence of [sub]: what precedes and what follows. *)
Fixpoint Cut (s sub : string) : option (string * string) :=
  match TrimPrefixOpt s sub with
  | Some rest => Some ("", rest)
  | None => match s with
            | "" => None
            | String c s => (λ '(a, b), (String c a, b)) <$> Cut s sub
            end
  end.

Lemma Cut_byte c a t : every (λ d, negb (bool_decide (d = c))) a = true →
  Cut (a +:+ String c t) (String c "") = Some (a, t).
Proof.
  induction a as [|d a IH]; cbn; [intros _; by rewrite decide_True|].
  intros [Hd Ha]%andb_true_iff. apply negb_true_iff, bool_decide_eq_false in Hd.
  rewrite decide_False by congruence. by rewrite IH.
Qed.

Lemma Cut_app s sub a b : Cut s sub = Some (a, b) → s = a +:+ sub +:+ b.
Proof.
  revert a b. induction s as [|c s IH]; intros a b; cbn.
  - destruct (TrimPrefixOpt "" sub) eqn:E; [|done]. intros [= <- <-].
    by apply TrimPrefixOpt_spec in E.
  - destruct (TrimPrefixOpt (String c s) sub) eqn:E.
    + intros [= <- <-]. by apply TrimPrefixOpt_spec in E.
    + intros H. destruct (Cut s sub) as [[a' b']|] eqn:E'; [|done].
      simplify_eq/=. cbn. f_equal. eauto.
Qed.

(** [strings.Split(s, sep)] for a one-byte separator. *)
Fixpoint SplitByte (sep : ascii) (s : string) : list string :=
  match s with
  | "" => [""]
  | String c s =>
      if decide (c = sep) then "" :: SplitByte sep s
      else match SplitByte sep s with
           | [] => [String c ""]
           | p :: ps => String c p :: ps
           end
  end.

Fixpoint Join (sep : string) (l : list string) : string :=
  match l with
  | [] => ""
  | [s] => s
  | s :: l => s +:+ sep +:+ Join sep l
  end.

Lemma SplitByte_cons sep s : ∃ p ps, SplitByte sep s = p :: ps.
Proof.
  induction s as [|c s (p & ps & IH)]; cbn; [eauto|].
  case_decide; rewrite ?IH; eauto.
Qed.

(** [Split] loses nothing: joining the pieces gives the string back. *)
Lemma Join_SplitByte sep s : Join (String sep "") (SplitByte sep s) = s.
Proof.
  induction s as [|c s IH]; [done|]. cbn.
  destruct (SplitByte_cons sep s) as (p & ps & E). rewrite E in *.
  rewrite <- IH. case_decide as Hc; [rewrite Hc|]; by destruct ps.
Qed.

(** [s[:n]] and [s[n:]], which end with the string. *)
Fixpoint str_take (n : nat) (s : string) : string :=
  match n, s with
  | S n, String c s => String c (str_take n s)
  | _, _ => ""
  end.
Fixpoint str_drop (n : nat) (s : string) : string :=
  match n, s with
  | S n, String _ s => str_drop n s
  | _, _ => s
  end.
Lemma str_take_app s t : str_take (String.length s) (s +:+ t) = s.
Proof. induction s as [|c s IH]; [by destruct t|]. cbn. by rewrite IH. Qed.
Lemma str_take_all s : str_take (String.length s) s = s.
Proof. induction s as [|c s IH]; [done|]. cbn. by rewrite IH. Qed.

(** The bytes of a string as a list. *)
Fixpoint bytes (s : string) : list ascii :=
  match s with "" => [] | String c s => c :: bytes s end.

Definition string_has (c : ascii) (s : string) : Prop := c ∈ bytes s.

Lemma bytes_app s t : bytes (s +:+ t) = bytes s ++ bytes t.
Proof. induction s as [|c s IH]; [done|]. cbn. by f_equal. Qed.

Lemma SplitByte_no_sep sep s p : p ∈ SplitByte sep s → sep ∉ bytes p.
Proof.
  revert p. induction s as [|c s IH]; intros p; cbn.
  - intros ->%list_elem_of_singleton. apply not_elem_of_nil.
  - destruct (SplitByte_cons sep s) as (q & qs & E). rewrite E in *.
    case_decide; subst; rewrite elem_of_cons.
    + intros [->|Hin]; [apply not_elem_of_nil|eauto].
    + intros [->|Hin]; [|apply IH; by right].
      cbn. rewrite elem_of_cons. intros [->|Hq]; [done|]. apply (IH q); [left|done].
Qed.

(** [strings.Fields] *)
Fixpoint fields_go (cur : string) (s : string) : list string :=
  match s with
  | "" => if decide (cur = "") then [] else [string_rev cur]
  | String c s =>
      if is_space c
      then (if decide (cur = "") then [] else [string_rev cur]) ++ fields_go "" s
      else fields_go (String c cur) s
  end.
Definition Fields (s : string) : list string := fields_go "" s.

(** [strings.ReplaceAll(s, old, new)] for non-empty [old]; the fuel is the length
    of [s], which every step shortens. *)
Fixpoint replace_go (fuel : nat) (s old new : string) : string :=
  match fuel with
  | O => s
  | S fuel =>
      match TrimPrefixOpt s old with
      | Some rest => new +:+ replace_go fuel rest old new
      | None => match s with
                | "" => ""
                | String c s => String c (replace_go fuel s old new)
                end
      end
  end.
Definition ReplaceAll (s old new : string) : string :=
  replace_go (S (String.length s)) s old new.

(** Doubling the single quotes: [strings.ReplaceAll(s, "'", "''")]. *)
Definition sq : ascii := "'"%char.
Fixpoint double_quotes (q : ascii) (s : string) : string :=
  match s with
  | "" => ""
  | String c s => if decide (c = q) then String c (String c (double_quotes q s))
                  else String c (double_quotes q s)
  end.

Lemma replace_go_double q fuel s :
  String.length s < fuel →
  replace_go fuel s (String q "") (String q (String q "")) = double_quotes q s.
Proof.
  revert s. induction fuel as [|fuel IH]; intros s Hlen; [lia|].
  destruct s as [|c s]; cbn in *; [done|].
  destruct (decide (q = c)) as [->|Hne].
  - rewrite decide_True by done. cbn. do 2 f_equal. apply IH. lia.
  - rewrite decide_False by congruence. f_equal. apply IH. lia.
Qed.

Lemma ReplaceAll_double q s :
  ReplaceAll s (String q "") (String q (String q "")) = double_quotes q s.
Proof. apply replace_go_double. lia. Qed.

(** A quoted text as SQL reads it, from behind the opening quote: up to the first
    quote that is not doubled; and the text that follows. *)
Fixpoint read_quoted (q : ascii) (s : string) : option (string * string) :=
  match s with
  | "" => None
  | String c t =>
      if decide (c = q) then
        match t with
        | String d t' => if decide (d = q) then (λ '(n, r), (String q n, r)) <$> read_quoted q t' else Some ("", t)
        | "" => Some ("", "")
        end
      else (λ '(n, r), (String c n, r)) <$> read_quoted q t
  end.

Lemma read_quoted_double q s rest : (∀ t, rest ≠ String q t) →
  read_quoted q (double_quotes q s +:+ String q rest) = Some (s, rest).
Proof.
  intros Hr. induction s as [|c s IH]; cbn [double_quotes].
  - change ("" +:+ String q rest) with (String q rest). cbn [read_quoted].
    rewrite decide_True by done. destruct rest as [|d t]; [done|].
    rewrite decide_False; [done|]. intros ->. by apply (Hr t).
  - case_decide as Hc; [subst c|].
    + change (String q (String q (double_quotes q s)) +:+ String q rest)
        with (String q (String q (double_quotes q s +:+ String q rest))).
      cbn [read_quoted]. rewrite !decide_True by done. by rewrite IH.
    + change (String c (double_quotes q s) +:+ String q rest) with (String c (double_quotes q s +:+ String q rest)).
      cbn [read_quoted]. rewrite decide_False by done. by rewrite IH.
Qed.

(** ** Decimal numbers *)

(** [fmt.Sprintf("%d", z)] and [strconv.Itoa] *)
Definition Itoa (z : Z) : string := NilZero.string_of_int (Z.to_int z).

(** Decimal digits, most significant first. *)
Fixpoint digits_val (acc : Z) (s : string) : option Z :=
  match s with
  | "" => Some acc
  | String c s =>
      if is_digit c then digits_val (acc * 10 + (Z.of_N (N_of_ascii c) - 48))%Z s
      else None
  end.

(** [strconv.Atoi] / [strconv.ParseInt(s, 10, 64)]: [None] when Go returns an
    error (no digits, another byte, or a value outside [int64]). *)
Definition Atoi (s : string) : option Z :=
  let '(neg, body) :=
    match s with
    | String "-" t => (true, t)
    | String "+" t => (false, t)
    | _ => (false, s)
    end in
  if decide (body = "") then None
  else match digits_val 0 body with
       | None => None
       | Some v => let v := if (neg : bool) then (- v)%Z else v in
                   if decide (- two63 ≤ v < two63)%Z then Some v else None
       end.

Lemma Atoi_range s n : Atoi s = Some n → in_int64 n.
Proof. unfold Atoi, in_int64. intros H. go_cases; lia. Qed.

(** Printed numbers are read back. *)
Lemma digits_val_acc d p : digits_val (Zpos p) (NilEmpty.string_of_uint d) = Some (Zpos (Pos.of_uint_acc d p)).
Proof.
  revert p. induction d as [|d IH|d IH|d IH|d IH|d IH|d IH|d IH|d IH|d IH|d IH]; intros p; [done|..];
    cbn [NilEmpty.string_of_uint digits_val Pos.of_uint_acc]; rewrite <- IH;
    (match goal with |- (if ?b then _ else _) = _ => change b with true; cbv iota end); f_equal;
    (match goal with |- context [N_of_ascii ?c] => let n := eval vm_compute in (N_of_ascii c) in change (N_of_ascii c) with n end); lia.
Qed.
Lemma digits_val_uint d : digits_val 0 (NilEmpty.string_of_uint d) = Some (Z.of_N (Pos.of_uint d)).
Proof.
  induction d as [|d IH|d IH|d IH|d IH|d IH|d IH|d IH|d IH|d IH|d IH]; [done|exact IH|..]; cbn [Pos.of_uint Z.of_N];
    rewrite <- digits_val_acc; reflexivity.
Qed.

Lemma digits_Itoa z : (0 ≤ z)%Z → digits_val 0 (Itoa z) = Some z.
Proof.
  intros Hz. rewrite <- (DecimalZ.of_to z) at 2. unfold Itoa. destruct z as [|p|p]; [done| |lia].
  cbn [Z.to_int NilZero.string_of_int]. transitivity (digits_val 0 (NilEmpty.string_of_uint (Pos.to_uint p))).
  - pose proof (Unsigned.to_uint_nonnil p). by destruct (Pos.to_uint p).
  - apply digits_val_uint.
Qed.
Lemma Itoa_neg z : (z < 0)%Z → Itoa z = String "-" (Itoa (- z)).
Proof. intros Hz. destruct z as [|p|p]; [lia|lia|]. unfold Itoa. cbn. reflexivity. Qed.

Lemma digits_val_every s acc n : digits_val acc s = Some n → every is_digit s = true.
Proof.
  revert acc. induction s as [|c s IH]; intros acc; [done|]. cbn [digits_val every]. destruct (is_digit c); [|done]. apply IH.
Qed.
Lemma Atoi_Itoa z : in_int64 z → Atoi (Itoa z) = Some z.
Proof.
  unfold in_int64. intros Hz. destruct (decide (0 ≤ z)%Z) as [Hp|Hn].
  - pose proof (digits_Itoa z Hp) as E. unfold Atoi. destruct (Itoa z) as [|c s] eqn:Ei; [by destruct z as [|[]|]|].
    pose proof (digits_val_every _ _ _ E) as Hc. cbn [every] in Hc. apply andb_true_iff in Hc as [Hc _].
    destruct c as [[] [] [] [] [] [] [] []]; try discriminate Hc; rewrite decide_False, E, decide_True by done; done.
  - rewrite Itoa_neg by lia. unfold Atoi. rewrite decide_False.
    + rewrite digits_Itoa by lia. rewrite Z.opp_involutive, decide_True by done. done.
    + intros E. pose proof (digits_Itoa (- z)%Z ltac:(lia)) as Hd. rewrite E in Hd. cbn in Hd. injection Hd. lia.
Qed.

(** [sort.Strings] *)
Definition str_le (a b : string) : Prop := String.leb a b = true.
#[export] Instance str_le_dec : RelDecision str_le.
Proof. intros a b. unfold str_le. apply _. Defined.

Example Atoi_ok : Atoi "-42" = Some (-42)%Z ∧ Atoi "4x" = None ∧ Atoi "" = None ∧
  Atoi "9223372036854775808" = None.
Proof. vm_compute. done. Qed.

(** [fmt.Sprintf("%q", s)] ([strconv.Quote]) for printable ASCII and the common
    escapes; other bytes are written [\xNN]. *)
Definition hex_digit (n : N) : ascii :=
  if (n <? 10)%N then ascii_of_N (48 + n) else ascii_of_N (87 + n).
Definition dq : ascii := ascii_of_nat 34.
Definition bs : ascii := ascii_of_nat 92.
Definition quote_byte (c : ascii) : string :=
  let n := N_of_ascii c in
  if decide (c = dq) then String bs (String dq "")
  else if decide (c = bs) then String bs (String bs "")
  else if (n =? 7)%N then String bs "a"
  else if (n =? 8)%N then String bs "b"
  else if (n =? 12)%N then String bs "f"
  else if (n =? 10)%N then String bs "n"
  else if (n =? 13)%N then String bs "r"
  else if (n =? 9)%N then String bs "t"
  else if (n =? 11)%N then String bs "v"
  else if ((32 <=? n) && (n <? 127))%N then String c ""
  else String bs (String "x" (String (hex_digit (n / 16)) (String (hex_digit (n mod 16)) ""))).
Fixpoint quote_body (s : string) : string :=
  match s with "" => "" | String c s => quote_byte c +:+ quote_body s end.
Definition Quote (s : string) : string :=
  String dq (quote_body s) +:+ String dq "".

(** ** Dotted names

    Most subsystems key their objects by ["DB.SCHEMA.NAME"]. *)

Definition dot : ascii := "."%char.
Definition dotted (a b c : string) : string := a +:+ "." +:+ b +:+ "." +:+ c.

Definition no_dot (s : string) : Prop := dot ∉ bytes s.

#[export] Instance no_dot_dec s : Decision (no_dot s).
Proof. unfold no_dot. apply _. Defined.

Lemma no_dot_map f s :
  (∀ c, f c = dot → c = dot) → no_dot s → no_dot (string_map f s).
Proof.
  unfold no_dot. intros Hf. induction s as [|c s IH]; cbn; [done|].
  rewrite !elem_of_cons. intros Hn [Hc|Hc]; [|naive_solver].
  apply Hn. left. symmetry. by apply Hf.
Qed.

Lemma no_dot_ToUpper s : no_dot s → no_dot (ToUpper s).
Proof. apply no_dot_map. intros c. destruct c as [[] [] [] [] [] [] [] []]; by cbv. Qed.

Lemma no_dot_ToLower s : no_dot s → no_dot (ToLower s).
Proof. apply no_dot_map. intros c. destruct c as [[] [] [] [] [] [] [] []]; by cbv. Qed.

(** Two equal texts agree up to the first occurrence of a byte. *)
Lemma byte_split_inj c0 a b a' b' :
  c0 ∉ bytes a → c0 ∉ bytes a' → a +:+ String c0 b = a' +:+ String c0 b' → a = a' ∧ b = b'.
Proof.
  revert a'. induction a as [|c a IH]; intros [|c' a'] Ha Ha' H.
  - split; [done|]. by injection H.
  - exfalso. apply Ha'. injection H as <- _. left.
  - exfalso. apply Ha. injection H as -> _. left.
  - injection H as -> H. cbn in Ha, Ha'. apply not_elem_of_cons in Ha as [_ Ha].
    apply not_elem_of_cons in Ha' as [_ Ha']. by destruct (IH a' Ha Ha' H) as [-> ->].
Qed.

(** Up to the first dot, two equal dotted strings agree. *)
Lemma dot_split_inj a b a' b' :
  no_dot a → no_dot a' → a +:+ "." +:+ b = a' +:+ "." +:+ b' → a = a' ∧ b = b'.
Proof. apply byte_split_inj. Qed.

Lemma dotted_inj a b c a' b' c' :
  no_dot a → no_dot a' → no_dot b → no_dot b' →
  dotted a b c = dotted a' b' c' → a = a' ∧ b = b' ∧ c = c'.
Proof.
  unfold dotted. intros Ha Ha' Hb Hb' H.
  apply dot_split_inj in H as [-> H]; [|done..].
  apply dot_split_inj in H as [-> ->]; done.
Qed.

Lemma ToUpper_dotted a b c :
  ToUpper (dotted a b c) = dotted (ToUpper a) (ToUpper b) (ToUpper c).
Proof. unfold dotted. by rewrite !ToUpper_app. Qed.

Lemma ToLower_dotted a b c :
  ToLower (dotted a b c) = dotted (ToLower a) (ToLower b) (ToLower c).
Proof. unfold dotted. by rewrite !ToLower_app. Qed.

(** The [SHOW] filters: a key starts with ["DB.SCHEMA."] exactly when it belongs
    to that database and schema, provided the names have no dot of their own. *)
Lemma HasPrefix_dotted a b c a' b' :
  no_dot a → no_dot a' → no_dot b → no_dot b' →
  HasPrefix (dotted a b c) (a' +:+ "." +:+ b' +:+ ".") = bool_decide (a = a' ∧ b = b').
Proof.
  intros Ha Ha' Hb Hb'. apply eq_bool_prop_intro.
  rewrite !Is_true_true, HasPrefix_spec, bool_decide_eq_true. unfold dotted. split.
  - intros (t & H). rewrite !string_app_assoc in H.
    apply dot_split_inj in H as [-> H]; [|done..].
    by apply dot_split_inj in H as [-> _].
  - intros [-> ->]. exists c. by rewrite !string_app_assoc.
Qed.

#[export] Hint Rewrite ToUpper_dotted ToLower_dotted : go_rw.
#[export] Hint Resolve no_dot_ToUpper no_dot_ToLower : go.

(** ** UTF-8

    [utf8.DecodeRuneInString]: a byte that begins no rune, or a rune that is cut
    short or not in its shortest form, decodes as one byte of U+FFFD. *)

Definition is_ascii (c : ascii) : bool := byte_in 0 127 c.
Definition continues (c : ascii) : bool := byte_in 128 191 c.

(** The number of bytes of the rune that begins with a byte, 1 if none does. *)
Definition rune_width (c : ascii) : nat :=
  if byte_in 194 223 c then 2 else if byte_in 224 239 c then 3 else if byte_in 240 244 c then 4 else 1.

(** The second byte of a rune of three or four bytes. *)
Definition second_byte (c d : ascii) : bool :=
  match N_of_ascii c with
  | 224 => byte_in 160 191 d
  | 237 => byte_in 128 159 d
  | 240 => byte_in 144 191 d
  | 244 => byte_in 128 143 d
  | _ => continues d
  end%N.

(** U+FFFD *)
Definition rune_error (s : string) : string :=
  String (ascii_of_N 239) (String (ascii_of_N 191) (String (ascii_of_N 189) s)).

(** A string with what is not UTF-8 in it replaced by U+FFFD. *)
Fixpoint utf8 (s : string) : string :=
  match s with
  | "" => ""
  | String c s1 =>
      if is_ascii c then String c (utf8 s1)
      else match rune_width c, s1 with
      | 2, String d s2 => if continues d then String c (String d (utf8 s2)) else rune_error (utf8 s1)
      | 3, String d (String e s3) =>
          if second_byte c d && continues e then String c (String d (String e (utf8 s3))) else rune_error (utf8 s1)
      | 4, String d (String e (String f s4)) =>
          if second_byte c d && continues e && continues f then String c (String d (String e (String f (utf8 s4))))
          else rune_error (utf8 s1)
      | _, _ => rune_error (utf8 s1)
      end
  end.

Lemma utf8_ascii s : every is_ascii s = true → utf8 s = s.
Proof. induction s as [|c s IH]; [done|]. cbn. intros [-> Hs]%andb_true_iff. by rewrite IH. Qed.

Example utf8_examples :
  utf8 (String (ascii_of_N 195) (String (ascii_of_N 169) "")) = String (ascii_of_N 195) (String (ascii_of_N 169) "") ∧
  utf8 (String "a" (String (ascii_of_N 195) "b")) = String "a" (rune_error "b").
Proof. split; reflexivity. Qed.
