(* ===== verification/GoTime.v ===== *)
(** * Instants, durations and civil dates ([time] of Go)

    An instant is a number of nanoseconds since the Unix epoch, in [Z]; the
    program formats instants in the location of the process, taken to be UTC.  A
    [time.Duration] is an [int64] number of nanoseconds, and arithmetic on it
    wraps around. *)

From S2P Require Import Prelude GoStrings.
#[local] Open Scope Z_scope.

Definition Nanosecond : Z := 1.
Definition Millisecond : Z := 1000000.
Definition Second : Z := 1000000000.
Definition Minute : Z := 60 * Second.
Definition Hour : Z := 60 * Minute.

(** [time.Time{}], 1 January of year 1. *)
Definition zero_time : Z := -62135596800 * Second.
Definition IsZero (t : Z) : bool := t =? zero_time.

(** [t.Sub(u)] saturates at the bounds of a duration. *)
Definition time_sub (t u : Z) : Z := Z.max (- two63) (Z.min (two63 - 1) (t - u)).

(** [t.Truncate(d)]: rounding down to a multiple of [d] since the zero time. *)
Definition Truncate (t d : Z) : Z :=
  if d <=? 0 then t else t - (t - zero_time) `mod` d.

Lemma time_sub_gt t u d :
  0 ≤ d < two63 - 1 → (time_sub t u >? d) = (t - u >? d).
Proof.
  intros Hd. unfold time_sub, two63 in *.
  apply eq_bool_prop_intro. rewrite !Is_true_true, !Z.gtb_lt. lia.
Qed.

Lemma Truncate_spec t d :
  0 < d → Truncate t d ≤ t < Truncate t d + d ∧ (Truncate t d - zero_time) `mod` d = 0.
Proof.
  intros Hd. unfold Truncate. destruct (Z.leb_spec d 0); [lia|].
  pose proof (Z.mod_pos_bound (t - zero_time) d Hd). split; [lia|].
  set (m := (t - zero_time) `mod` d).
  replace (t - m - zero_time) with (d * ((t - zero_time) `div` d)).
  - rewrite Z.mul_comm. by apply Z_mod_mult.
  - pose proof (Z.div_mod (t - zero_time) d ltac:(lia)). subst m. lia.
Qed.

(** ** Civil dates

    The proleptic Gregorian calendar, in the 400-year eras that start on
    1 March. *)

Definition secs_of (t : Z) : Z := t `div` Second.
Definition days_of (t : Z) : Z := secs_of t `div` 86400.

(** Year, month and day of a day number. *)
Definition civil_from_days (z : Z) : Z * Z * Z :=
  let z := z + 719468 in
  let era := z `div` 146097 in
  let doe := z `mod` 146097 in
  let yoe := (doe - doe `div` 1460 + doe `div` 36524 - doe `div` 146096) `div` 365 in
  let doy := doe - (365 * yoe + yoe `div` 4 - yoe `div` 100) in
  let mp := (5 * doy + 2) `div` 153 in
  let d := doy - (153 * mp + 2) `div` 5 + 1 in
  let m := if mp <? 10 then mp + 3 else mp - 9 in
  let y := yoe + era * 400 in
  (if m <=? 2 then y + 1 else y, m, d).

Definition Year (t : Z) : Z := (civil_from_days (days_of t)).1.1.
Definition Month (t : Z) : Z := (civil_from_days (days_of t)).1.2.
Definition Day (t : Z) : Z := (civil_from_days (days_of t)).2.
(** [time.Weekday]: Sunday is 0; 1 January 1970 was a Thursday. *)
Definition Weekday (t : Z) : Z := (days_of t + 4) `mod` 7.
Definition HourOf (t : Z) : Z := (secs_of t `mod` 86400) `div` 3600.
Definition MinuteOf (t : Z) : Z := (secs_of t `mod` 3600) `div` 60.
Definition SecondOf (t : Z) : Z := secs_of t `mod` 60.

(** ** Formatting *)

(** A number padded with zeros to a width. *)
Definition pad (w : nat) (z : Z) : string :=
  let s := Itoa (Z.abs z) in
  (if z <? 0 then "-" else "") +:+
  Join "" (repeat "0"%string (w - String.length s)) +:+ s.

(** [t.Format("2006-01-02")] *)
Definition format_date (t : Z) : string :=
  pad 4 (Year t) +:+ "-" +:+ pad 2 (Month t) +:+ "-" +:+ pad 2 (Day t).

(** [t.Format(time.RFC3339)] in UTC. *)
Definition format_rfc3339 (t : Z) : string :=
  format_date t +:+ "T" +:+ pad 2 (HourOf t) +:+ ":" +:+ pad 2 (MinuteOf t)
    +:+ ":" +:+ pad 2 (SecondOf t) +:+ "Z".

Example format_zero : format_rfc3339 zero_time = "0001-01-01T00:00:00Z".
Proof. reflexivity. Qed.
Example format_leap : format_rfc3339 (1709164799 * Second) = "2024-02-28T23:59:59Z".
Proof. reflexivity. Qed.
Example format_leap_day : format_date (1709164800 * Second) = "2024-02-29".
Proof. reflexivity. Qed.

Lemma MinuteOf_range t : 0 ≤ MinuteOf t ≤ 59.
Proof.
  unfold MinuteOf. pose proof (Z.mod_pos_bound (secs_of t) 3600 ltac:(done)).
  split; [apply Z.div_pos; lia|]. apply Z.lt_succ_r, Z.div_lt_upper_bound; lia.
Qed.

Lemma HourOf_range t : 0 ≤ HourOf t ≤ 23.
Proof.
  unfold HourOf. pose proof (Z.mod_pos_bound (secs_of t) 86400 ltac:(done)).
  split; [apply Z.div_pos; lia|]. apply Z.lt_succ_r, Z.div_lt_upper_bound; lia.
Qed.

Lemma Weekday_range t : 0 ≤ Weekday t ≤ 6.
Proof. unfold Weekday. pose proof (Z.mod_pos_bound (days_of t + 4) 7 ltac:(done)). lia. Qed.
