(* ===== verification/Json.v ===== *)
(** * JSON and Go's structures ([encoding/json])

    What the source uses of [encoding/json]: the types of its structures with their
    tags, the values of those types, [Marshal] and [Unmarshal] between values and JSON
    values, with invalid UTF-8 replaced, and the lemmas that say what a structure of one
    type is decoded to by another.  The text of a JSON value is a
    matter of the scanner, which is not modelled; names are folded byte by byte. *)

From S2P Require Import Prelude GoStrings.
From stdpp Require Import sorting.
#[local] Open Scope Z_scope.

#[local] Set Warnings "-register-all".
(** A number is its literal. *)
Inductive JsonValue : Type :=
  | VNull
  | VBool (b : bool)
  | VNum (literal : string)
  | VText (s : string)
  | VArr (l : list JsonValue)
  | VObj (fields : list (string * JsonValue)).

(** ** Types *)

(** The kinds of type that the structures use; a field has the name of its tag and its [omitempty]. *)
Inductive GoType : Type :=
  | TBool
  | TInt
  | TString
  | TRaw                        (* json.RawMessage *)
  | TAny                        (* interface{} *)
  | TPtr (t : GoType)
  | TSlice (t : GoType)
  | TMap (t : GoType)           (* map[string]T *)
  | TStruct (fs : GoFields)
with GoFields : Type :=
  | FEnd
  | FCons (name : string) (omitempty : bool) (t : GoType) (fs : GoFields).
Scheme GoType_mut := Induction for GoType Sort Prop
with GoFields_mut := Induction for GoFields Sort Prop.
Combined Scheme GoType_fields_ind from GoType_mut, GoFields_mut.

Fixpoint fields (l : list (string * bool * GoType)) : GoFields :=
  match l with [] => FEnd | (n, om, t) :: l => FCons n om t (fields l) end.
Definition req (n : string) (t : GoType) : string * bool * GoType := (n, false, t).
Definition opt (n : string) (t : GoType) : string * bool * GoType := (n, true, t).
Definition struct (l : list (string * bool * GoType)) : GoType := TStruct (fields l).

Fixpoint field_names (fs : GoFields) : list string :=
  match fs with FEnd => [] | FCons n _ _ fs => n :: field_names fs end.

(** Values: [None] is nil; an [interface{}] is what its encoding is, nil being null. *)
Fixpoint value (t : GoType) : Type :=
  match t with
  | TBool => bool
  | TInt => Z
  | TString => string
  | TRaw => option JsonValue
  | TAny => JsonValue
  | TPtr t => option (value t)
  | TSlice t => option (list (value t))
  | TMap t => option (gmap string (value t))
  | TStruct fs => field_values fs
  end
with field_values (fs : GoFields) : Type :=
  match fs with FEnd => unit | FCons _ _ t fs => value t * field_values fs end.

Fixpoint zero (t : GoType) : value t :=
  match t with
  | TBool => false
  | TInt => 0
  | TString => ""%string
  | TRaw => None
  | TAny => VNull
  | TPtr _ => None
  | TSlice _ => None
  | TMap _ => None
  | TStruct fs => zero_fields fs
  end
with zero_fields (fs : GoFields) : field_values fs :=
  match fs with FEnd => tt | FCons _ _ t fs => (zero t, zero_fields fs) end.

(** What [omitempty] omits. *)
Definition is_empty (t : GoType) : value t → bool :=
  match t with
  | TBool => negb
  | TInt => Z.eqb 0
  | TString => λ s, bool_decide (s = ""%string)
  | TRaw => λ r, match r with None => true | Some _ => false end
  | TAny => λ j, match j with VNull => true | _ => false end
  | TPtr _ => λ p, match p with None => true | Some _ => false end
  | TSlice _ => λ l, match l with None | Some [] => true | Some _ => false end
  | TMap _ => λ m, match m with None => true | Some m => bool_decide (size m = 0%nat) end
  | TStruct _ => λ _, false
  end.

(** ** [Marshal] *)

(** The keys of a map are sorted. *)
Definition key_le {A} (p q : string * A) : Prop := str_le p.1 q.1.
#[export] Instance key_le_dec {A} : RelDecision (@key_le A).
Proof. intros p q. unfold key_le. apply _. Defined.
Definition sorted_fields {A} (m : gmap string A) : list (string * A) := merge_sort key_le (map_to_list m).

(** Texts and keys are written as UTF-8: what is not is replaced. *)
Fixpoint encode (t : GoType) : value t → JsonValue :=
  match t with
  | TBool => VBool
  | TInt => λ z, VNum (Itoa z)
  | TString => λ s, VText (utf8 s)
  | TRaw => λ r, default VNull r
  | TAny => λ j, j
  | TPtr t => λ p, match p with None => VNull | Some x => encode t x end
  | TSlice t => λ l, match l with None => VNull | Some l => VArr (encode t <$> l) end
  | TMap t => λ m, match m with None => VNull | Some m => VObj (prod_map utf8 id <$> sorted_fields (encode t <$> m)) end
  | TStruct fs => λ v, VObj (encode_fields fs v)
  end
with encode_fields (fs : GoFields) : field_values fs → list (string * JsonValue) :=
  match fs with
  | FEnd => λ _, []
  | FCons n om t fs => λ v, (if om && is_empty t v.1 then [] else [(n, encode t v.1)]) ++ encode_fields fs v.2
  end.

(** ** [Unmarshal] *)

(** The field that a name in the text goes to: the exact one first, then the first one
    that differs in case. *)
Definition select (names : list string) (k : string) : option string :=
  if decide (k ∈ names) then Some k else List.find (EqualFold k) names.

(** The elements of an array go to the elements that the slice has, as far as it has. *)
Fixpoint decode_list {A} (dec : JsonValue → A → A * bool) (z : A) (l : list JsonValue) (cur : list A) : list A * bool :=
  match l with
  | [] => ([], true)
  | j :: l =>
      let '(x, ok) := dec j (match cur with [] => z | c :: _ => c end) in
      let '(xs, oks) := decode_list dec z l (match cur with [] => [] | _ :: cur => cur end) in
      (x :: xs, ok && oks)
  end.

(** A member of an object replaces what the map has at its key. *)
Fixpoint decode_map {A} (dec : JsonValue → A → A * bool) (z : A) (ms : list (string * JsonValue)) (cur : gmap string A) : gmap string A * bool :=
  match ms with
  | [] => (cur, true)
  | (k, j) :: ms =>
      let '(x, ok) := dec j z in
      let '(m, oks) := decode_map dec z ms (<[k := x]> cur) in (m, ok && oks)
  end.

(** Each of the members that go to one field is decoded into it, in their order. *)
Fixpoint decode_members {A} (dec : JsonValue → A → A * bool) (ms : list (string * JsonValue)) (cur : A) : A * bool :=
  match ms with
  | [] => (cur, true)
  | (_, j) :: ms => let '(x, ok) := dec j cur in let '(y, oks) := decode_members dec ms x in (y, ok && oks)
  end.
Definition members_of (names : list string) (n : string) (ms : list (string * JsonValue)) : list (string * JsonValue) :=
  filter (λ m, select names m.1 = Some n) ms.

Section unmarshal.
(** A number decoded into an [interface{}] becomes a [float64]: its text when it is encoded again. *)
Context (float_text : string → option string).

Fixpoint generic (j : JsonValue) : JsonValue * bool :=
  match j with
  | VNum lit => match float_text lit with Some s => (VNum s, true) | None => (VNull, false) end
  | VArr l => (VArr ((λ j, (generic j).1) <$> l), forallb (λ j, (generic j).2) l)
  | VObj ms => (VObj (sorted_fields (list_to_map (reverse ((λ m, (m.1, (generic m.2).1)) <$> ms)))), forallb (λ m, (generic m.2).2) ms)
  | _ => (j, true)
  end.

(** A value that does not have the type leaves the variable as it is; the decoding goes
    on, and fails at its end. *)
Fixpoint decode (t : GoType) : JsonValue → value t → value t * bool :=
  match t with
  | TBool => λ j cur, match j with VBool b => (b, true) | VNull => (cur, true) | _ => (cur, false) end
  | TInt => λ j cur, match j with
      | VNum lit => match Atoi lit with Some z => (z, true) | None => (cur, false) end
      | VNull => (cur, true)
      | _ => (cur, false)
      end
  | TString => λ j cur, match j with VText s => (s, true) | VNull => (cur, true) | _ => (cur, false) end
  | TRaw => λ j _, (Some j, true)
  | TAny => λ j cur, match j with
      | VNum lit => match float_text lit with Some s => (VNum s, true) | None => (cur, false) end
      | _ => generic j
      end
  | TPtr t => λ j cur, match j with
      | VNull => (None, true)
      | _ => let '(x, ok) := decode t j (default (zero t) cur) in (Some x, ok)
      end
  | TSlice t => λ j cur, match j with
      | VNull => (None, true)
      | VArr l => let '(xs, ok) := decode_list (decode t) (zero t) l (default [] cur) in (Some xs, ok)
      | _ => (cur, false)
      end
  | TMap t => λ j cur, match j with
      | VNull => (None, true)
      | VObj ms => let '(m, ok) := decode_map (decode t) (zero t) ms (default ∅ cur) in (Some m, ok)
      | _ => (cur, false)
      end
  | TStruct fs => λ j cur, match j with
      | VNull => (cur, true)
      | VObj ms => decode_fields fs (field_names fs) ms cur
      | _ => (cur, false)
      end
  end
with decode_fields (fs : GoFields) (names : list string) (ms : list (string * JsonValue)) : field_values fs → field_values fs * bool :=
  match fs with
  | FEnd => λ _, (tt, true)
  | FCons n _ t fs => λ cur,
      let '(x, ok) := decode_members (decode t) (members_of names n ms) cur.1 in
      let '(r, oks) := decode_fields fs names ms cur.2 in ((x, r), ok && oks)
  end.

(** [json.NewDecoder(r.Body).Decode(&v)] of a scanned body into a new variable: [None]
    is its error. *)
Definition Unmarshal (t : GoType) (j : JsonValue) : option (value t) :=
  let '(v, ok) := decode t j (zero t) in if ok then Some v else None.
(** ** What reaches the receiver *)

Lemma decode_map_list {A B} (dec : JsonValue → B → B * bool) (z : B) (enc : A → JsonValue) (g : A → B) l cur :
  (∀ k x, (k, x) ∈ l → dec (enc x) z = (g x, true)) → NoDup l.*1 →
  decode_map dec z (prod_map id enc <$> l) cur = (list_to_map (prod_map id g <$> l) ∪ cur, true).
Proof.
  revert cur. induction l as [|[k x] l IH]; intros cur Hl Hnd; cbn; [by rewrite (left_id_L ∅ (∪))|].
  apply NoDup_cons in Hnd as [Hk Hnd]. rewrite (Hl k x) by left. rewrite IH; [|intros k' x' Hin; apply (Hl k'); by right|done].
  f_equal. rewrite <- insert_union_l, insert_union_r; [done|].
  apply not_elem_of_list_to_map_1. by rewrite <- list_fmap_compose.
Qed.
Lemma decode_map_encode {A B} (dec : JsonValue → B → B * bool) (z : B) (enc : A → JsonValue) (g : A → B) (m : gmap string A) :
  (∀ k x, m !! k = Some x → utf8 k = k ∧ dec (enc x) z = (g x, true)) →
  decode_map dec z (prod_map utf8 id <$> sorted_fields (enc <$> m)) ∅ = (g <$> m, true).
Proof.
  intros Hm. assert (Hkeys : prod_map utf8 id <$> sorted_fields (enc <$> m) = sorted_fields (enc <$> m)).
  { transitivity (id <$> sorted_fields (enc <$> m)); [|apply list_fmap_id].
    apply list_fmap_ext. intros i [k j] Hi%list_elem_of_lookup_2. unfold sorted_fields in Hi.
    rewrite merge_sort_Permutation in Hi. apply elem_of_map_to_list, lookup_fmap_Some in Hi as (x & _ & Hx).
    cbn. by rewrite (proj1 (Hm k x Hx)). }
  rewrite Hkeys. clear Hkeys. unfold sorted_fields. assert (Hp : merge_sort key_le (map_to_list (enc <$> m)) ≡ₚ map (prod_map id enc) (map_to_list m)).
  { by rewrite merge_sort_Permutation, map_to_list_fmap. }
  apply Permutation_map_inv in Hp as (l & -> & Hl). rewrite (decode_map_list dec z enc g).
  - rewrite (right_id_L ∅ (∪)). f_equal. rewrite <- (list_to_map_to_list (g <$> m)), map_to_list_fmap.
    symmetry. apply list_to_map_proper; [|by rewrite Hl]. rewrite <- list_fmap_compose. apply NoDup_fst_map_to_list.
  - intros k x Hin. apply (Hm k x). apply elem_of_map_to_list. by rewrite Hl.
  - rewrite <- Hl. apply NoDup_fst_map_to_list.
Qed.

Lemma encode_names fs v m : m ∈ encode_fields fs v → m.1 ∈ field_names fs.
Proof.
  revert v. induction fs as [|n om t fs IH]; intros v; cbn; [by intros ?%elem_of_nil|].
  rewrite elem_of_app. intros [Hm|Hm].
  - destruct (om && is_empty t v.1); [by apply elem_of_nil in Hm|]. apply list_elem_of_singleton in Hm as ->. left.
  - right. by apply (IH v.2).
Qed.

(** The members of a name in what a structure was encoded to. *)
Lemma members_skip (n n' : string) om (t : GoType) fs (v : field_values (FCons n om t fs)) : n ≠ n' →
  filter (λ m, m.1 = n') (encode_fields (FCons n om t fs) v) = filter (λ m, m.1 = n') (encode_fields fs v.2).
Proof. intros Hne. cbn [encode_fields]. destruct (om && is_empty t v.1); cbn [app]; [done|]. by rewrite filter_cons_False. Qed.
Lemma members_here n om (t : GoType) fs (v : field_values (FCons n om t fs)) : n ∉ field_names fs →
  filter (λ m, m.1 = n) (encode_fields (FCons n om t fs) v) = if om && is_empty t v.1 then [] else [(n, encode t v.1)].
Proof.
  intros Hn. assert (Hr : filter (λ m, m.1 = n) (encode_fields fs v.2) = []).
  { apply filter_none. intros m Hm <-. by apply Hn, (encode_names fs v.2). }
  cbn [encode_fields]. destruct (om && is_empty t v.1); cbn [app]; [done|]. by rewrite filter_cons_True, Hr.
Qed.

(** *** Decoding into another structure

    A field of the receiver gets what the sender's field of the same name has; a sender's
    field that the receiver does not have must not look like another one of its own. *)

Inductive field_at : ∀ fs, field_values fs → string → bool → ∀ t, value t → Prop :=
  | at_here n om t fs (v : field_values (FCons n om t fs)) : field_at (FCons n om t fs) v n om t v.1
  | at_later n' om' t' fs (v : field_values (FCons n' om' t' fs)) n om t x :
      field_at fs v.2 n om t x → field_at (FCons n' om' t' fs) v n om t x.

Definition sends (names names' : list string) : bool :=
  forallb (λ k, bool_decide (k ∈ names') || bool_decide (select names' k = None)) names.

Lemma field_at_name fs v n om t x : field_at fs v n om t x → n ∈ field_names fs.
Proof. induction 1; cbn; [by left|by right]. Qed.

Lemma field_at_member fs v n om t x : field_at fs v n om t x → NoDup (field_names fs) →
  filter (λ m, m.1 = n) (encode_fields fs v) = if om && is_empty t x then [] else [(n, encode t x)].
Proof.
  induction 1 as [n om t fs v|n' om' t' fs v n om t x Hat IH]; intros [Hn Hnd]%NoDup_cons; [by apply members_here|].
  rewrite members_skip; [by apply IH|]. intros ->. apply Hn. by apply field_at_name in Hat.
Qed.
Lemma field_absent fs v n : n ∉ field_names fs → filter (λ m, m.1 = n) (encode_fields fs v) = [].
Proof. intros Hn. apply filter_none. intros m Hm <-. by apply Hn, (encode_names fs v). Qed.

Lemma members_of_sent fs v names n : n ∈ names → sends (field_names fs) names = true →
  members_of names n (encode_fields fs v) = filter (λ m, m.1 = n) (encode_fields fs v).
Proof.
  intros Hn Hs. apply filter_same. intros m Hm%encode_names. unfold sends in Hs. rewrite forallb_forall in Hs.
  specialize (Hs m.1 ltac:(by apply list_elem_of_In)). apply orb_true_iff in Hs as [Hs%bool_decide_eq_true|Hs%bool_decide_eq_true].
  - unfold select. rewrite decide_True by done. split; congruence.
  - split; [congruence|]. intros Heq. rewrite Heq in Hs. unfold select in Hs. by rewrite decide_True in Hs.
Qed.

(** One field at a time; [y] is what the receiver's type makes of it, absent or not. *)
Lemma decode_sent fs v names n om t x t' (z y : value t') : field_at fs v n om t x → NoDup (field_names fs) →
  n ∈ names → sends (field_names fs) names = true →
  (om && is_empty t x = true → z = y) → (om && is_empty t x = false → decode t' (encode t x) z = (y, true)) →
  decode_members (decode t') (members_of names n (encode_fields fs v)) z = (y, true).
Proof.
  intros Hat Hnd Hn Hs Hz Hy. rewrite members_of_sent, (field_at_member fs v n om t x) by done.
  destruct (om && is_empty t x); cbn; [by rewrite Hz|by rewrite Hy].
Qed.
Lemma decode_string fs v names n om x y : field_at fs v n om TString x → NoDup (field_names fs) →
  n ∈ names → sends (field_names fs) names = true → utf8 x = y →
  decode_members (decode TString) (members_of names n (encode_fields fs v)) (zero TString) = (y, true).
Proof.
  intros Hat Hnd Hn Hs <-. apply (decode_sent fs v names n om TString x TString "" (utf8 x) Hat Hnd Hn Hs); [|done].
  by intros [_ ->%bool_decide_eq_true]%andb_true_iff.
Qed.
Lemma decode_bool fs v names n om x : field_at fs v n om TBool x → NoDup (field_names fs) →
  n ∈ names → sends (field_names fs) names = true →
  decode_members (decode TBool) (members_of names n (encode_fields fs v)) (zero TBool) = (x, true).
Proof.
  intros Hat Hnd Hn Hs. apply (decode_sent fs v names n om TBool x TBool false x Hat Hnd Hn Hs); [|done].
  intros [_ ?]%andb_true_iff. by destruct x.
Qed.
Lemma decode_int fs v names n om x : field_at fs v n om TInt x → NoDup (field_names fs) →
  n ∈ names → sends (field_names fs) names = true → in_int64 x →
  decode_members (decode TInt) (members_of names n (encode_fields fs v)) (zero TInt) = (x, true).
Proof.
  intros Hat Hnd Hn Hs Hx. apply (decode_sent fs v names n om TInt x TInt 0 x Hat Hnd Hn Hs).
  - intros [_ He]%andb_true_iff. change ((0 =? x) = true) in He. by apply Z.eqb_eq in He.
  - intros _. cbn. by rewrite Atoi_Itoa.
Qed.
Lemma decode_absent fs v names n t : n ∉ field_names fs → n ∈ names → sends (field_names fs) names = true →
  decode_members (decode t) (members_of names n (encode_fields fs v)) (zero t) = (zero t, true).
Proof. intros Hn Hin Hs. by rewrite members_of_sent, field_absent. Qed.

(** One field that fails fails the structure. *)
Lemma decode_field_fails n om t fs names ms cur :
  (decode_members (decode t) (members_of names n ms) cur.1).2 = false ∨ (decode_fields fs names ms cur.2).2 = false →
  (decode_fields (FCons n om t fs) names ms cur).2 = false.
Proof.
  cbn. destruct (decode_members _ _ _) as [x ok], (decode_fields _ _ _ _) as [r oks]. cbn. intros [->| ->]; [done|apply andb_false_r].
Qed.
Lemma struct_fails fs ms : (decode_fields fs (field_names fs) ms (zero_fields fs)).2 = false → Unmarshal (TStruct fs) (VObj ms) = None.
Proof. unfold Unmarshal. cbn. by destruct (decode_fields _ _ _ _) as [v []]. Qed.
Lemma receive_ptr t ms y : decode t (VObj ms) (zero t) = (y, true) → decode (TPtr t) (VObj ms) (zero (TPtr t)) = (Some y, true).
Proof. cbn. by intros ->. Qed.
Lemma receive_struct fs fs' (v : field_values fs) y :
  decode_fields fs' (field_names fs') (encode_fields fs v) (zero_fields fs') = (y, true) →
  decode (TStruct fs') (encode (TStruct fs) v) (zero (TStruct fs')) = (y, true).
Proof. done. Qed.
Lemma decode_field n om t fs names ms x r :
  decode_members (decode t) (members_of names n ms) (zero t) = (x, true) → decode_fields fs names ms (zero_fields fs) = (r, true) →
  decode_fields (FCons n om t fs) names ms (zero_fields (FCons n om t fs)) = ((x, r), true).
Proof. intros H1 H2. cbn. by rewrite H1, H2. Qed.
End unmarshal.

(** Find a field, and the closed conditions about names. *)
Ltac find_field := first [apply at_here | apply at_later; find_field].
Ltac closed_names := first [apply (bool_decide_unpack _); vm_compute; exact I | vm_compute; reflexivity].
Ltac receive := first
  [ eapply decode_string; [find_field|closed_names..|first [reflexivity | eassumption]]
  | eapply decode_bool; [find_field|closed_names..]
  | eapply decode_int; [find_field|closed_names..|]
  | apply decode_absent; closed_names ].
