(* ===== verification/Graph.v ===== *)
(** * Depth-first search with a shared visited set

    The two walks of the role hierarchy are instances of one search, whose
    termination, soundness and completeness are proved here once. *)

From S2P Require Import Prelude.

(** A search returns its answer and the visited set as it left it; [None] means
    that the fuel given to it ran out. *)
Definition Walk : Type := option (bool * gset string).

(** The loop of a search over the next nodes: stop at the first [true], hand the
    visited set on otherwise. *)
Fixpoint walk_any (go : string → gset string → Walk) (l : list string)
    (visited : gset string) : Walk :=
  match l with
  | [] => Some (false, visited)
  | x :: l => match go x visited with
              | Some (false, visited) => walk_any go l visited
              | r => r
              end
  end.

Lemma walk_any_ext f g l v :
  (∀ x v, f x v = g x v) → walk_any f l v = walk_any g l v.
Proof.
  intros Hfg. revert v. induction l as [|x l IH]; intros v; cbn; [done|].
  rewrite Hfg. destruct (g x v) as [[[] v']|]; auto.
Qed.

Lemma rtc_converse {A} (R S : relation A) x y :
  (∀ x y, R x y ↔ S y x) → rtc R x y ↔ rtc S y x.
Proof.
  intros HRS. split; induction 1; eauto using rtc_refl;
    (eapply rtc_r; [done|]; by apply HRS).
Qed.

Section dfs.
(** [pre] is tested before the visited set, [post] after it. *)
Context (pre post : string → bool) (succ : string → gset string → list string).
Context (U : gset string).

Definition edge (x y : string) : Prop := y ∈ succ x ∅.
Definition hit (x : string) : Prop := pre x = true ∨ post x = true.

Hypothesis succ_indep : ∀ x v y, y ∈ succ x v ↔ y ∈ succ x ∅.
Hypothesis succ_outside : ∀ x v, x ∉ U → succ x v = [].

Fixpoint dfs (fuel : nat) (x : string) (visited : gset string) : Walk :=
  match fuel with
  | O => None
  | S fuel =>
      if pre x then Some (true, visited)
      else if decide (x ∈ visited) then Some (false, visited)
      else
        let visited := {[x]} ∪ visited in
        if post x then Some (true, visited)
        else walk_any (dfs fuel) (succ x visited) visited
  end.

Lemma walk_any_total fuel l v :
  (∀ x w, v ⊆ w → ∃ b v', dfs fuel x w = Some (b, v') ∧ w ⊆ v') →
  ∃ b v', walk_any (dfs fuel) l v = Some (b, v') ∧ v ⊆ v'.
Proof.
  revert v. induction l as [|x l IH]; intros v H; cbn; [eauto|].
  destruct (H x v) as ([] & v' & -> & Hv); [done|eauto|].
  destruct (IH v') as (b & v'' & Hw & Hv'); [intros y w Hw; apply H; set_solver|].
  exists b, v''. split; [done|set_solver].
Qed.

(** Two calls more than the nodes with successors left to visit are enough. *)
Lemma dfs_total fuel x v :
  2 + size (U ∖ v) ≤ fuel → ∃ b v', dfs fuel x v = Some (b, v') ∧ v ⊆ v'.
Proof.
  revert x v. induction fuel as [|fuel IH]; intros x v Hf; [lia|]. cbn.
  destruct (pre x); [eauto|]. case_decide as Hx; [eauto|].
  destruct (post x); [eexists _, _; split; [done|set_solver]|].
  destruct (decide (x ∈ U)) as [HU|HU].
  - destruct (walk_any_total fuel (succ x ({[x]} ∪ v)) ({[x]} ∪ v)) as (b & v' & -> & Hv).
    + intros y w Hw. apply IH.
      assert (size (U ∖ w) < size (U ∖ v)) by (apply subset_size; set_solver). lia.
    + exists b, v'. split; [done|set_solver].
  - rewrite succ_outside by done. cbn. eexists _, _. split; [done|set_solver].
Qed.

Lemma walk_any_sound fuel l v v' :
  (∀ x v v', dfs fuel x v = Some (true, v') → ∃ y, rtc edge x y ∧ hit y) →
  walk_any (dfs fuel) l v = Some (true, v') → ∃ x y, x ∈ l ∧ rtc edge x y ∧ hit y.
Proof.
  intros H. revert v. induction l as [|x l IH]; intros v; cbn; [done|].
  destruct (dfs fuel x v) as [[[] w]|] eqn:E; intros Hw; simplify_eq.
  - apply H in E as (y & ? & ?). exists x, y. split; [left|done].
  - destruct (IH _ Hw) as (z & y & ? & ?). exists z, y. split; [by right|done].
Qed.

Lemma dfs_sound fuel x v v' :
  dfs fuel x v = Some (true, v') → ∃ y, rtc edge x y ∧ hit y.
Proof.
  revert x v v'. induction fuel as [|fuel IH]; intros x v v'; cbn; [done|].
  destruct (pre x) eqn:Ep; [unfold hit; eauto using rtc_refl|].
  case_decide; [done|].
  destruct (post x) eqn:Eq; [unfold hit; eauto using rtc_refl|].
  intros (z & y & Hz & Hr & Hy)%walk_any_sound; [|done].
  exists y. split; [|done]. eapply rtc_l; [|done]. by apply succ_indep in Hz.
Qed.

(** What a search that answers [false] has established about the nodes it
    added to the visited set. *)
Definition explored (v v' : gset string) : Prop :=
  v ⊆ v' ∧ ∀ z, z ∈ v' → z ∉ v → ¬ hit z ∧ ∀ y, edge z y → y ∈ v'.

Lemma explored_refl v : explored v v.
Proof. split; set_solver. Qed.

Lemma explored_trans v1 v2 v3 : explored v1 v2 → explored v2 v3 → explored v1 v3.
Proof.
  intros [H1 E1] [H2 E2]. split; [set_solver|]. intros z Hz Hn.
  destruct (decide (z ∈ v2)) as [H|H].
  - destruct (E1 z H Hn). split; [done|]. intros y Hy. apply H2. eauto.
  - eauto.
Qed.

Lemma walk_any_complete fuel l v v' :
  (∀ x v v', dfs fuel x v = Some (false, v') → explored v v' ∧ x ∈ v') →
  walk_any (dfs fuel) l v = Some (false, v') → explored v v' ∧ ∀ x, x ∈ l → x ∈ v'.
Proof.
  intros H. revert v. induction l as [|x l IH]; intros v; cbn.
  - intros [= <-]. split; [apply explored_refl|set_solver].
  - destruct (dfs fuel x v) as [[[] w]|] eqn:E; intros Hw; simplify_eq.
    apply H in E as [E Hx]. apply IH in Hw as [E' Hl].
    split; [by eapply explored_trans|]. intros y [->|Hy]%elem_of_cons; [|auto].
    by apply E'.
Qed.

Lemma dfs_complete fuel x v v' :
  dfs fuel x v = Some (false, v') → explored v v' ∧ x ∈ v'.
Proof.
  revert x v v'. induction fuel as [|fuel IH]; intros x v v'; cbn; [done|].
  destruct (pre x) eqn:Ep; [done|].
  case_decide as Hx; [intros [= <-]; split; [apply explored_refl|done]|].
  destruct (post x) eqn:Eq; [done|].
  intros [[Hv He] Hl]%walk_any_complete; [|done].
  split; [|set_solver]. split; [set_solver|]. intros z Hz Hn.
  destruct (decide (z = x)) as [->|Hne]; [|apply He; set_solver].
  split; [unfold hit; intros [?|?]; congruence|].
  intros y Hy. apply Hl. by apply succ_indep.
Qed.

(** The search decides whether a hit can be reached, whatever the order in
    which the successors are listed. *)
Theorem dfs_correct fuel x :
  2 + size U ≤ fuel →
  ∃ b v, dfs fuel x ∅ = Some (b, v) ∧ (b = true ↔ ∃ y, rtc edge x y ∧ hit y).
Proof.
  intros Hf. destruct (dfs_total fuel x ∅) as (b & v & E & _).
  { by replace (U ∖ ∅) with U by set_solver. }
  exists b, v. split; [done|]. destruct b.
  - split; [|done]. intros _. by eapply dfs_sound.
  - split; [done|]. intros (y & Hr & Hy). exfalso.
    apply dfs_complete in E as [[_ He] Hx].
    enough (y ∈ v) by (by apply (He y); [done|set_solver|]).
    clear Hy. induction Hr as [|z w y Hzw Hwy IH]; [done|].
    apply IH. apply (He z); [done|set_solver|done].
Qed.
End dfs.
