(* ===== verification/Registry.v ===== *)
(** * Named-object registries: the contract of the managers

    Most managers of the program keep named objects in a map and promise the
    same thing about creating and dropping them.  The class states the promise;
    the managers' files give its instances, and the theorem of this file, which
    only uses the laws, says that any sequence of creations and drops behaves as
    on a plain set of names. *)

From S2P Require Import Prelude.

Class Registry (S N A : Type) := {
  (** the names the manager knows *)
  reg_dom : S → gset string;
  (** the key an object is stored under *)
  reg_key : N → string;
  reg_create : N → A → GoM S unit;
  reg_drop : N → GoM S unit;
  reg_create_fresh : ∀ n a s, reg_key n ∉ reg_dom s →
    (reg_create n a s).1 = Ok tt ∧ reg_dom (reg_create n a s).2 = {[reg_key n]} ∪ reg_dom s;
  reg_create_dup : ∀ n a s, reg_key n ∈ reg_dom s →
    is_ok (reg_create n a s).1 = false ∧ (reg_create n a s).2 = s;
  reg_drop_known : ∀ n s, reg_key n ∈ reg_dom s →
    (reg_drop n s).1 = Ok tt ∧ reg_dom (reg_drop n s).2 = reg_dom s ∖ {[reg_key n]};
  reg_drop_unknown : ∀ n s, reg_key n ∉ reg_dom s →
    is_ok (reg_drop n s).1 = false ∧ (reg_drop n s).2 = s;
}.

Inductive RegOp (N A : Type) : Type :=
  | RCreate (n : N) (a : A)
  | RDrop (n : N).
Arguments RCreate {N A} n a.
Arguments RDrop {N A} n.

Section registry.
Context {S N A : Type} `{R : Registry S N A}.

(** The manager: answers and final state of a sequence of operations. *)
Definition reg_do (o : RegOp N A) : GoM S unit :=
  match o with RCreate n a => reg_create n a | RDrop n => reg_drop n end.

Fixpoint reg_run (ops : list (RegOp N A)) (s : S) : list bool * S :=
  match ops with
  | [] => ([], s)
  | o :: ops =>
      let '(r, s) := reg_do o s in
      let '(rs, s) := reg_run ops s in (is_ok r :: rs, s)
  end.

(** The specification: a set of names; creating succeeds on a new name, dropping
    on a known one, and nothing changes otherwise. *)
Definition spec_do (o : RegOp N A) (d : gset string) : bool * gset string :=
  match o with
  | RCreate n _ => if decide (reg_key n ∈ d) then (false, d) else (true, {[reg_key n]} ∪ d)
  | RDrop n => if decide (reg_key n ∈ d) then (true, d ∖ {[reg_key n]}) else (false, d)
  end.

Fixpoint spec_run (ops : list (RegOp N A)) (d : gset string) : list bool * gset string :=
  match ops with
  | [] => ([], d)
  | o :: ops =>
      let '(b, d) := spec_do o d in
      let '(bs, d) := spec_run ops d in (b :: bs, d)
  end.

Lemma reg_do_refines o s :
  spec_do o (reg_dom s) = (is_ok (reg_do o s).1, reg_dom (reg_do o s).2).
Proof.
  destruct o as [n a|n]; cbn; destruct (decide (reg_key n ∈ reg_dom s)) as [Hin|Hni].
  - by destruct (reg_create_dup n a s Hin) as [-> ->].
  - by destruct (reg_create_fresh n a s Hni) as [-> ->].
  - by destruct (reg_drop_known n s Hin) as [-> ->].
  - by destruct (reg_drop_unknown n s Hni) as [-> ->].
Qed.

(** The manager refines the specification. *)
Lemma reg_run_refines ops s :
  spec_run ops (reg_dom s) = ((reg_run ops s).1, reg_dom (reg_run ops s).2).
Proof.
  revert s. induction ops as [|o ops IH]; intros s; [done|]. cbn.
  rewrite reg_do_refines. destruct (reg_do o s) as [r s']. cbn. rewrite IH.
  by destruct (reg_run ops s').
Qed.
End registry.

(** What it means for a manager to implement the specification, in one word. *)
Definition refines_registry {S N A} (R : Registry S N A) : Prop :=
  ∀ ops s, spec_run ops (reg_dom s) = ((reg_run ops s).1, reg_dom (reg_run ops s).2).
