(* ===== verification/Rbac.v ===== *)
(** * Roles, grants and access checks ([internal/rbac/rbac.go])

    The state is the engine's two maps.  [CheckAccess] walks the role hierarchy
    twice, upwards to decide whether the user may act as the role and downwards
    to look for a grant, each walk threading the map of visited roles that the
    source shares between the recursive calls.  The walks are proved to decide
    reachability in the hierarchy. *)

From S2P Require Import Prelude GoStrings Graph.

(** ** Data *)

(** [Privilege] and [ObjectType] are Go string types: any text is a value. *)
Definition Privilege : Type := string.
Definition ObjectType : Type := string.

Definition PrivAll : Privilege := "ALL".

Record Grant := mkGrant {
  g_Privilege : Privilege;
  g_ObjectType : ObjectType;
  g_ObjectName : string;
  g_GrantedTo : string;
  g_GrantedBy : string;
  g_GrantedAt : Z;
  g_WithGrant : bool;
}.

Record Role := mkRole {
  r_Name : string;
  r_Grants : list Grant;
  r_ParentRoles : list string;
  r_CreatedAt : Z;
}.

Record Engine := mkEngine {
  roles : gmap string Role;
  userRoles : gmap string (list string);
}.

Definition with_roles (f : gmap string Role → gmap string Role) (e : Engine) : Engine :=
  mkEngine (f (roles e)) (userRoles e).
Definition with_Grants (gs : list Grant) (r : Role) : Role :=
  mkRole (r_Name r) gs (r_ParentRoles r) (r_CreatedAt r).
Definition with_ParentRoles (ps : list string) (r : Role) : Role :=
  mkRole (r_Name r) (r_Grants r) ps (r_CreatedAt r).

(** ** Operations

    [now] is the reading of [time.Now()]; [Init] reads the clock once for each
    role it creates. *)

Definition NewEngine : Engine := mkEngine ∅ ∅.

Definition CreateRole (now : Z) (name : string) : GoM Engine unit :=
  let key := ToUpper name in
  let! e := get in
  match roles e !! key with
  | Some _ => fail ("rbac: role '" +:+ key +:+ "' already exists")
  | None => put (with_roles (<[key := mkRole key [] [] now]>) e)
  end.

(** The list without the elements equal to [key], in order: the source's
    in-place filter. *)
Definition without (key : string) (l : list string) : list string :=
  filter (λ p, p ≠ key) l.

Definition DropRole (name : string) : GoM Engine unit :=
  let key := ToUpper name in
  let! e := get in
  match roles e !! key with
  | None => fail ("rbac: role '" +:+ key +:+ "' does not exist")
  | Some _ =>
      put (mkEngine
             ((λ r, with_ParentRoles (without key (r_ParentRoles r)) r)
                <$> delete key (roles e))
             (without key <$> userRoles e))
  end.

(** The test the three grant loops share. *)
Definition grant_is (p : Privilege) (ot : ObjectType) (on : string) (g : Grant) : bool :=
  bool_decide (g_Privilege g = p) && bool_decide (g_ObjectType g = ot)
  && bool_decide (g_ObjectName g = on).

Definition GrantPrivilege (now : Z) (privilege : Privilege) (objType : ObjectType)
    (objName roleName : string) (withGrant : bool) : GoM Engine unit :=
  let roleKey := ToUpper roleName in
  let! e := get in
  match roles e !! roleKey with
  | None => fail ("rbac: role '" +:+ roleKey +:+ "' does not exist")
  | Some role =>
      let objKey := ToUpper objName in
      if existsb (grant_is privilege objType objKey) (r_Grants role) then ret tt
      else
        let g := mkGrant privilege objType objKey roleKey "" now withGrant in
        put (with_roles (<[roleKey := with_Grants (r_Grants role ++ [g]) role]>) e)
  end.

Definition RevokePrivilege (privilege : Privilege) (objType : ObjectType)
    (objName roleName : string) : GoM Engine unit :=
  let roleKey := ToUpper roleName in
  let! e := get in
  match roles e !! roleKey with
  | None => fail ("rbac: role '" +:+ roleKey +:+ "' does not exist")
  | Some role =>
      let objKey := ToUpper objName in
      let hit := grant_is privilege objType objKey in
      let found := existsb hit (r_Grants role) in
      let filtered := filter (λ g, hit g = false) (r_Grants role) in
      if negb found then fail ("rbac: grant not found for role '" +:+ roleKey +:+ "'")
      else put (with_roles (<[roleKey := with_Grants filtered role]>) e)
  end.

Definition str_mem (x : string) (l : list string) : bool := existsb (String.eqb x) l.

Definition GrantRoleToUser (roleName userName : string) : GoM Engine unit :=
  let roleKey := ToUpper roleName in
  let! e := get in
  match roles e !! roleKey with
  | None => fail ("rbac: role '" +:+ roleKey +:+ "' does not exist")
  | Some _ =>
      let userKey := ToUpper userName in
      let cur := default [] (userRoles e !! userKey) in
      if str_mem roleKey cur then ret tt
      else put (mkEngine (roles e) (<[userKey := cur ++ [roleKey]]> (userRoles e)))
  end.

Definition GrantRoleToRole (childRole parentRole : string) : GoM Engine unit :=
  let childKey := ToUpper childRole in
  let parentKey := ToUpper parentRole in
  let! e := get in
  match roles e !! childKey with
  | None => fail ("rbac: child role '" +:+ childKey +:+ "' does not exist")
  | Some child =>
      match roles e !! parentKey with
      | None => fail ("rbac: parent role '" +:+ parentKey +:+ "' does not exist")
      | Some _ =>
          if str_mem parentKey (r_ParentRoles child) then ret tt
          else put (with_roles
                 (<[childKey := with_ParentRoles (r_ParentRoles child ++ [parentKey]) child]>) e)
      end
  end.

Definition default_roles : list string :=
  ["ACCOUNTADMIN"; "SYSADMIN"; "SECURITYADMIN"; "USERADMIN"; "PUBLIC"].

Definition Init (now : string → Z) : GoM Engine unit :=
  for_each (λ name, ignore (CreateRole (now name) name)) default_roles ;;;
  ignore (GrantRoleToRole "SYSADMIN" "ACCOUNTADMIN") ;;;
  ignore (GrantRoleToRole "SECURITYADMIN" "ACCOUNTADMIN") ;;;
  ignore (GrantRoleToRole "USERADMIN" "SECURITYADMIN").

Definition Reset (now : string → Z) : GoM Engine unit := put NewEngine ;;; Init now.

(** ** Access checks

    A recursive call returns the answer and the visited map as it left it;
    [None] means that the fuel given to the walk ran out. *)

Fixpoint roleInheritsLocked (fuel : nat) (e : Engine) (targetRole currentRole : string)
    (visited : gset string) : Walk :=
  match fuel with
  | O => None
  | S fuel =>
      if decide (currentRole = targetRole) then Some (true, visited)
      else if decide (currentRole ∈ visited) then Some (false, visited)
      else
        let visited := {[currentRole]} ∪ visited in
        match roles e !! currentRole with
        | None => Some (false, visited)
        | Some role =>
            walk_any (roleInheritsLocked fuel e targetRole) (r_ParentRoles role) visited
        end
  end.

(** [g.Privilege == privilege || g.Privilege == PrivAll], on this object. *)
Definition grant_allows (p : Privilege) (ot : ObjectType) (on : string) (g : Grant) : bool :=
  (bool_decide (g_Privilege g = p) || bool_decide (g_Privilege g = PrivAll))
  && bool_decide (g_ObjectType g = ot) && bool_decide (g_ObjectName g = on).

Section check.
Context `{MR : MapRange}.

(** The roles the inner double loop calls itself on: for every role [r] of the
    map, [r.Name] once per occurrence of [roleKey] among its parents.  The walk
    ranges over the map when [size visited] roles have been visited. *)
Definition child_calls (e : Engine) (roleKey : string) (visited : gset string)
    : list string :=
  '(_, r) ← map_range (size visited) (roles e);
  parent ← r_ParentRoles r;
  if decide (parent = roleKey) then [r_Name r] else [].

Fixpoint roleHasPrivilegeLocked (fuel : nat) (e : Engine) (privilege : Privilege)
    (objType : ObjectType) (objName : string) (roleKey : string)
    (visited : gset string) : Walk :=
  match fuel with
  | O => None
  | S fuel =>
      if decide (roleKey ∈ visited) then Some (false, visited)
      else
        let visited := {[roleKey]} ∪ visited in
        match roles e !! roleKey with
        | None => Some (false, visited)
        | Some role =>
            if existsb (grant_allows privilege objType objName) (r_Grants role)
            then Some (true, visited)
            else walk_any (roleHasPrivilegeLocked fuel e privilege objType objName)
                   (child_calls e roleKey visited) visited
        end
  end.

(** Fuel for a walk: one call per role of the map, one for a role that is not
    in it, one for the answer. *)
Definition walk_fuel (e : Engine) : nat := S (S (size (roles e))).

Fixpoint userHasRole_loop (e : Engine) (roleKey : string) (rs : list string) : option bool :=
  match rs with
  | [] => Some false
  | r :: rs =>
      if decide (r = roleKey) then Some true
      else match roleInheritsLocked (walk_fuel e) e roleKey r ∅ with
           | None => None
           | Some (true, _) => Some true
           | Some (false, _) => userHasRole_loop e roleKey rs
           end
  end.

Definition userHasRoleLocked (e : Engine) (userKey roleKey : string) : option bool :=
  userHasRole_loop e roleKey (default [] (userRoles e !! userKey)).

Definition CheckAccess (e : Engine) (userName roleName : string) (privilege : Privilege)
    (objType : ObjectType) (objName : string) : option bool :=
  let roleKey := ToUpper roleName in
  let userKey := ToUpper userName in
  let objKey := ToUpper objName in
  match userHasRoleLocked e userKey roleKey with
  | None => None
  | Some false => Some false
  | Some true =>
      fst <$> roleHasPrivilegeLocked (walk_fuel e) e privilege objType objKey roleKey ∅
  end.

(** [ShowGrants] returns [nil] for a role that does not exist. *)
Definition ShowGrants (e : Engine) (roleName : string) : list Grant :=
  match roles e !! ToUpper roleName with None => [] | Some role => r_Grants role end.

Definition ShowRoles (e : Engine) : list Role := (map_range 0 (roles e)).*2.
End check.

(** ** Specification *)

(** [parent_of e x y]: role [x] is granted to role [y]. *)
Definition parent_of (e : Engine) (x y : string) : Prop :=
  ∃ r, roles e !! x = Some r ∧ y ∈ r_ParentRoles r.

(** A user may act as [role] when one of the roles assigned to the user is [role]
    or leads to it along the hierarchy. *)
Definition can_assume (e : Engine) (user role : string) : Prop :=
  ∃ r, r ∈ default [] (userRoles e !! user) ∧ rtc (parent_of e) r role.

(** A role holds a privilege when it, or a role below it, has a grant that allows
    it. *)
Definition role_holds (e : Engine) (role : string) (p : Privilege) (ot : ObjectType)
    (on : string) : Prop :=
  ∃ c r g, rtc (parent_of e) c role ∧ roles e !! c = Some r ∧ g ∈ r_Grants r ∧
    grant_allows p ot on g = true.

(** The key under which [GrantPrivilege] recognises a grant. *)
Definition grant_key (g : Grant) : Privilege * ObjectType * string :=
  (g_Privilege g, g_ObjectType g, g_ObjectName g).

Record wf_role (dom_roles : gset string) (k : string) (r : Role) : Prop := {
  wf_name : r_Name r = k;
  wf_key : ToUpper k = k;
  wf_parents : ∀ p, p ∈ r_ParentRoles r → p ∈ dom_roles;
  wf_parents_nodup : NoDup (r_ParentRoles r);
  wf_grants_to : ∀ g, g ∈ r_Grants r → g_GrantedTo g = k;
  wf_grants_nodup : NoDup (grant_key <$> r_Grants r);
}.

(** The engine's invariant: roles are stored under their upper-case names, no
    reference to a missing role, no duplicate parent, grant or assignment. *)
Record wf (e : Engine) : Prop := {
  wf_roles : ∀ k r, roles e !! k = Some r → wf_role (dom (roles e)) k r;
  wf_users : ∀ u rs, userRoles e !! u = Some rs →
    NoDup rs ∧ ∀ r, r ∈ rs → r ∈ dom (roles e);
}.

(** The exported operations that change the engine, as the labels of a transition
    system; each runs under the engine's lock. *)
Inductive Op : Type :=
  | OpCreateRole (now : Z) (name : string)
  | OpDropRole (name : string)
  | OpGrantPrivilege (now : Z) (p : Privilege) (ot : ObjectType) (on role : string) (wg : bool)
  | OpRevokePrivilege (p : Privilege) (ot : ObjectType) (on role : string)
  | OpGrantRoleToUser (role user : string)
  | OpGrantRoleToRole (child parent : string)
  | OpInit (now : string → Z)
  | OpReset (now : string → Z).

Definition run_op (o : Op) : GoM Engine unit :=
  match o with
  | OpCreateRole now name => CreateRole now name
  | OpDropRole name => DropRole name
  | OpGrantPrivilege now p ot on role wg => GrantPrivilege now p ot on role wg
  | OpRevokePrivilege p ot on role => RevokePrivilege p ot on role
  | OpGrantRoleToUser role user => GrantRoleToUser role user
  | OpGrantRoleToRole child parent => GrantRoleToRole child parent
  | OpInit now => Init now
  | OpReset now => Reset now
  end.

Definition rbac_init (e : Engine) : Prop := e = NewEngine.
Definition rbac_step (e : Engine) (o : Op) (e' : Engine) : Prop := (run_op o e).2 = e'.
Definition rbac_reachable : Engine → Prop := reachable rbac_init rbac_step.

(** ** Proofs *)

Lemma str_mem_spec x l : str_mem x l = true ↔ x ∈ l.
Proof.
  unfold str_mem. rewrite existsb_exists. split.
  - intros (y & Hy & ->%String.eqb_eq). by apply list_elem_of_In.
  - intros H. exists x. by rewrite <- list_elem_of_In, String.eqb_refl.
Qed.

Lemma str_mem_false x l : str_mem x l = false ↔ x ∉ l.
Proof. rewrite <- not_true_iff_false. by rewrite str_mem_spec. Qed.

Lemma elem_of_without k x l : x ∈ without k l ↔ x ≠ k ∧ x ∈ l.
Proof. unfold without. by rewrite list_elem_of_filter. Qed.

Lemma grant_is_spec p ot on g : grant_is p ot on g = true ↔ grant_key g = (p, ot, on).
Proof.
  unfold grant_is, grant_key. rewrite !andb_true_iff, !bool_decide_eq_true. naive_solver.
Qed.

Lemma existsb_grant_is p ot on gs :
  existsb (grant_is p ot on) gs = true ↔ (p, ot, on) ∈ grant_key <$> gs.
Proof.
  rewrite existsb_exists, list_elem_of_fmap. split.
  - intros (g & Hg & H%grant_is_spec). exists g. by rewrite list_elem_of_In.
  - intros (g & H & Hg). exists g. by rewrite <- list_elem_of_In, grant_is_spec.
Qed.

(** Replacing a role by a well-formed one of the same key. *)
Lemma wf_update e k r r' :
  wf e → roles e !! k = Some r → wf_role (dom (roles e)) k r' →
  wf (with_roles (<[k := r']>) e).
Proof.
  intros [Hr Hu] Hk H'. assert (Hd : dom (<[k := r']> (roles e)) = dom (roles e)).
  { rewrite dom_insert_L. apply elem_of_dom_2 in Hk. set_solver. }
  split; cbn; rewrite Hd; [|done].
  intros k2 r2 [[<- <-]|[_ H2]]%lookup_insert_Some; [done|eauto].
Qed.

Lemma wf_role_mono (D D' : gset string) k r : D ⊆ D' → wf_role D k r → wf_role D' k r.
Proof. intros Hs []. split; auto. Qed.

Lemma CreateRole_wf now name e : wf e → wf (CreateRole now name e).2.
Proof.
  intros Hwf. unfold CreateRole. go_unfold.
  destruct (roles e !! ToUpper name) eqn:E; [done|]. cbn. destruct Hwf as [Hr Hu].
  split; cbn; rewrite dom_insert_L.
  - intros k r [[<- <-]|[Hne Hk]]%lookup_insert_Some.
    + split; cbn; [done|by autorewrite with go_rw|set_solver|constructor|set_solver|constructor].
    + eapply wf_role_mono; [|eauto]. set_solver.
  - intros u rs [Hd Hi]%Hu. split; [done|]. intros r Hx%Hi. set_solver.
Qed.

Lemma DropRole_wf name e : wf e → wf (DropRole name e).2.
Proof.
  intros [Hr Hu]. unfold DropRole. go_unfold.
  destruct (roles e !! ToUpper name) eqn:E; [|done]. cbn. split; cbn.
  - intros k r0. rewrite lookup_fmap, fmap_Some.
    intros (r1 & [Hne Hk]%lookup_delete_Some & ->). destruct (Hr _ _ Hk).
    rewrite dom_fmap_L, dom_delete_L.
    split; cbn; [done..| | |done|done].
    + intros p [Hp Hin]%elem_of_without. set_solver.
    + by apply NoDup_filter.
  - intros u rs0. rewrite lookup_fmap, fmap_Some. intros (rs & Hk & ->).
    destruct (Hu _ _ Hk) as [Hd Hi]. rewrite dom_fmap_L, dom_delete_L. split.
    + by apply NoDup_filter.
    + intros x [Hne Hx]%elem_of_without. apply Hi in Hx. set_solver.
Qed.

Lemma GrantPrivilege_wf now p ot on role wg e :
  wf e → wf (GrantPrivilege now p ot on role wg e).2.
Proof.
  intros Hwf. unfold GrantPrivilege. go_unfold.
  destruct (roles e !! ToUpper role) as [r|] eqn:E; [|done].
  destruct (existsb _ _) eqn:Ex; [done|]. cbn. eapply wf_update; [done..|].
  destruct (wf_roles _ Hwf _ _ E). split; cbn; try done.
  - intros g [Hg| ->%list_elem_of_singleton]%elem_of_app; auto.
  - rewrite fmap_app. apply NoDup_snoc; [done|].
    intros Hin%existsb_grant_is. cbn in Hin. congruence.
Qed.

Lemma RevokePrivilege_wf p ot on role e : wf e → wf (RevokePrivilege p ot on role e).2.
Proof.
  intros Hwf. unfold RevokePrivilege. go_unfold.
  destruct (roles e !! ToUpper role) as [r|] eqn:E; [|done].
  destruct (existsb _ _) eqn:Ex; [|done]. cbn. eapply wf_update; [done..|].
  destruct (wf_roles _ Hwf _ _ E). split; cbn; try done.
  - intros g [_ Hg]%list_elem_of_filter. auto.
  - by apply NoDup_fmap_filter.
Qed.

Lemma GrantRoleToUser_wf role user e : wf e → wf (GrantRoleToUser role user e).2.
Proof.
  intros Hwf. unfold GrantRoleToUser. go_unfold.
  destruct (roles e !! ToUpper role) as [r|] eqn:E; [|done].
  destruct (str_mem _ _) eqn:Em; [done|]. apply str_mem_false in Em.
  destruct Hwf as [Hr Hu]. split; cbn; [done|].
  apply elem_of_dom_2 in E.
  intros u rs [[<- <-]|[Hne Hk]]%lookup_insert_Some; [|by apply Hu in Hk].
  destruct (userRoles e !! ToUpper user) as [cur|] eqn:Ec; cbn in *.
  - destruct (Hu _ _ Ec) as [Hd Hi]. split; [by apply NoDup_snoc|].
    intros x [Hx| ->%list_elem_of_singleton]%elem_of_app; auto.
  - split; [apply NoDup_singleton|]. by intros x ->%list_elem_of_singleton.
Qed.

Lemma GrantRoleToRole_wf child parent e : wf e → wf (GrantRoleToRole child parent e).2.
Proof.
  intros Hwf. unfold GrantRoleToRole. go_unfold.
  destruct (roles e !! ToUpper child) as [r|] eqn:E; [|done].
  destruct (roles e !! ToUpper parent) as [r'|] eqn:E'; [|done].
  destruct (str_mem _ _) eqn:Em; [done|]. apply str_mem_false in Em.
  cbn. eapply wf_update; [done..|]. apply elem_of_dom_2 in E'.
  destruct (wf_roles _ Hwf _ _ E). split; cbn; try done.
  - intros p [Hp| ->%list_elem_of_singleton]%elem_of_app; auto.
  - by apply NoDup_snoc.
Qed.

Lemma rbac_Init_wf now e : wf e → wf (Init now e).2.
Proof.
  intros He. unfold Init. unfold bind at 1.
  assert (Hwf : wf (for_each (λ name, ignore (CreateRole (now name) name)) default_roles e).2).
  { apply for_each_inv; [|done]. intros a s _ Hs. rewrite ignore_snd. by apply CreateRole_wf. }
  destruct (for_each _ _ e) as [[[]|err] e1]; [|done]. cbn in Hwf.
  rewrite !bind_ignore, ignore_snd.
  by repeat apply GrantRoleToRole_wf.
Qed.

Lemma NewEngine_wf : wf NewEngine.
Proof. split; cbn; intros ?? H; by rewrite lookup_empty in H. Qed.

Lemma Reset_wf now e : wf (Reset now e).2.
Proof. apply (rbac_Init_wf now NewEngine), NewEngine_wf. Qed.

Lemma rbac_reachable_wf e : rbac_reachable e → wf e.
Proof.
  apply reachable_inv; [intros ? ->; apply NewEngine_wf|].
  intros s [] s' Hs <-; unfold run_op;
    eauto using CreateRole_wf, DropRole_wf, GrantPrivilege_wf, RevokePrivilege_wf,
      GrantRoleToUser_wf, GrantRoleToRole_wf, rbac_Init_wf, Reset_wf.
Qed.

(** In every state that the exported operations can reach from a new engine,
    roles are stored under their upper-case names, every parent and every
    assignment names an existing role, and no role holds a duplicate parent or
    grant, no user a duplicate assignment. *)
Theorem rbac_wf_reachable e : rbac_reachable e → wf e.
Proof. apply rbac_reachable_wf. Qed.

(** *** The two walks are depth-first searches *)

#[local] Arguments walk_fuel : simpl never.

(** The parents of a role, none for a role that is not in the map. *)
Definition parents_of (e : Engine) (x : string) : list string :=
  match roles e !! x with Some r => r_ParentRoles r | None => [] end.

Lemma roleInherits_dfs fuel e t x v :
  roleInheritsLocked fuel e t x v =
  dfs (λ y, bool_decide (y = t)) (λ _, false) (λ y _, parents_of e y) fuel x v.
Proof.
  revert x v. induction fuel as [|fuel IH]; intros x v; [done|]. cbn.
  destruct (decide (x = t)); [by rewrite bool_decide_true|rewrite bool_decide_false by done].
  destruct (decide (x ∈ v)); [done|]. unfold parents_of at 2.
  destruct (roles e !! x); [|done]. by apply walk_any_ext.
Qed.

Lemma elem_of_parents_of e x y : y ∈ parents_of e x ↔ parent_of e x y.
Proof.
  unfold parents_of, parent_of. destruct (roles e !! x); set_solver.
Qed.

Lemma roleInherits_correct e t x :
  ∃ b v, roleInheritsLocked (walk_fuel e) e t x ∅ = Some (b, v) ∧
    (b = true ↔ rtc (parent_of e) x t).
Proof.
  destruct (dfs_correct (λ y, bool_decide (y = t)) (λ _, false) (λ y _, parents_of e y)
    (dom (roles e))) with (fuel := walk_fuel e) (x := x) as (b & v & E & Hb).
  - done.
  - intros y _ Hy. unfold parents_of. by apply not_elem_of_dom in Hy as ->.
  - unfold walk_fuel. rewrite size_dom. lia.
  - exists b, v. rewrite roleInherits_dfs. split; [done|]. rewrite Hb. split.
    + intros (y & Hr & [->%bool_decide_eq_true|]); [|done].
      eapply rtc_subrel; [|done]. intros ???. by apply elem_of_parents_of.
    + intros Hr. exists t. split; [|left; by apply bool_decide_eq_true].
      eapply rtc_subrel; [|done]. intros ???. by apply elem_of_parents_of.
Qed.

Lemma userHasRole_correct e role rs :
  ∃ b, userHasRole_loop e role rs = Some b ∧
    (b = true ↔ ∃ r, r ∈ rs ∧ rtc (parent_of e) r role).
Proof.
  induction rs as [|r rs (b & E & Hb)]; cbn; [exists false; split; [done|set_solver]|].
  rewrite E.
  destruct (decide (r = role)) as [->|Hne].
  { exists true. split; [done|]. split; [|done]. exists role. split; [left|done]. }
  destruct (roleInherits_correct e role r) as ([] & v & -> & Hr).
  - exists true. split; [done|]. split; [|done]. exists r. split; [left|by apply Hr].
  - exists b. split; [done|]. rewrite Hb. split.
    + intros (r' & ? & ?). exists r'. split; [by right|done].
    + intros (r' & [->|?]%elem_of_cons & Hr'); [|eauto]. by apply Hr in Hr'.
Qed.

Section downwards.
Context `{MR : MapRange} (e : Engine) (Hwf : wf e).
Context (p : Privilege) (ot : ObjectType) (on : string).

(** The role exists and has a direct grant that allows the privilege. *)
Definition grants_directly (x : string) : bool :=
  match roles e !! x with
  | Some r => existsb (grant_allows p ot on) (r_Grants r)
  | None => false
  end.
Definition children_of (x : string) (v : gset string) : list string :=
  match roles e !! x with Some _ => child_calls e x v | None => [] end.

Lemma roleHasPrivilege_dfs fuel x v :
  roleHasPrivilegeLocked fuel e p ot on x v =
  dfs (λ _, false) grants_directly children_of fuel x v.
Proof.
  revert x v. induction fuel as [|fuel IH]; intros x v; [done|]. cbn.
  destruct (decide (x ∈ v)); [done|]. unfold grants_directly at 1, children_of at 2.
  destruct (roles e !! x); [|done]. destruct (existsb _ _); [done|]. by apply walk_any_ext.
Qed.

Lemma elem_of_child_calls x v y : y ∈ child_calls e x v ↔ parent_of e y x.
Proof.
  unfold child_calls, parent_of. rewrite list_elem_of_bind. split.
  - intros ([k r] & Hy & Hk%elem_of_map_range).
    apply list_elem_of_bind in Hy as (q & Hy & Hq).
    destruct (decide (q = x)) as [->|]; [|by apply not_elem_of_nil in Hy].
    apply list_elem_of_singleton in Hy as ->.
    rewrite (wf_name _ _ _ (wf_roles _ Hwf _ _ Hk)). eauto.
  - intros (r & Hr & Hx). exists (y, r). rewrite elem_of_map_range. split; [|done].
    apply list_elem_of_bind. exists x. rewrite decide_True by done. split; [|done].
    rewrite (wf_name _ _ _ (wf_roles _ Hwf _ _ Hr)). by apply list_elem_of_singleton.
Qed.

Lemma elem_of_children_of x v y : y ∈ children_of x v ↔ parent_of e y x.
Proof.
  unfold children_of. destruct (roles e !! x) eqn:E; [apply elem_of_child_calls|].
  split; [by intros ?%elem_of_nil|]. intros (r & Hr & Hx).
  destruct (wf_roles _ Hwf _ _ Hr) as [_ _ Hp _ _ _]. apply Hp, elem_of_dom in Hx as [? ?].
  congruence.
Qed.

Lemma roleHasPrivilege_correct x :
  ∃ b v, roleHasPrivilegeLocked (walk_fuel e) e p ot on x ∅ = Some (b, v) ∧
    (b = true ↔ role_holds e x p ot on).
Proof.
  destruct (dfs_correct (λ _, false) grants_directly children_of (dom (roles e)))
    with (fuel := walk_fuel e) (x := x) as (b & v & E & Hb).
  - intros. by rewrite !elem_of_children_of.
  - intros y w Hy. unfold children_of. by apply not_elem_of_dom in Hy as ->.
  - unfold walk_fuel. rewrite size_dom. lia.
  - exists b, v. rewrite roleHasPrivilege_dfs. split; [done|]. rewrite Hb.
    assert (Hrtc : ∀ y z, rtc (edge children_of) y z ↔ rtc (parent_of e) z y).
    { intros y z. apply rtc_converse. intros ??. apply elem_of_children_of. }
    unfold role_holds, hit, grants_directly. split.
    + intros (y & Hr%Hrtc & [|Hg]); [done|]. destruct (roles e !! y) as [r|] eqn:Ey; [|done].
      apply existsb_exists in Hg as (g & Hg & Ha). exists y, r, g.
      by rewrite list_elem_of_In.
    + intros (c & r & g & Hr & Hc & Hg & Ha). exists c. rewrite Hrtc, Hc. split; [done|].
      right. apply existsb_exists. exists g. by rewrite <- list_elem_of_In.
Qed.
End downwards.

Lemma check_access_spec `{MR : MapRange} e user role p ot on :
  wf e →
  ∃ b, CheckAccess e user role p ot on = Some b ∧
    (b = true ↔ can_assume e (ToUpper user) (ToUpper role) ∧
                role_holds e (ToUpper role) p ot (ToUpper on)).
Proof.
  intros Hwf. unfold CheckAccess, userHasRoleLocked.
  destruct (userHasRole_correct e (ToUpper role) (default [] (userRoles e !! ToUpper user)))
    as ([] & -> & Hu).
  - destruct (roleHasPrivilege_correct e Hwf p ot (ToUpper on) (ToUpper role))
      as (b & v & -> & Hb).
    exists b. split; [done|]. rewrite Hb. split; [|tauto]. intros. split; [by apply Hu|done].
  - exists false. split; [done|]. split; [done|]. intros [Hc _]. by apply Hu in Hc.
Qed.

(** C21: whatever the order in which Go iterates over the role map, the access
    check terminates (the fuel, the number of roles plus two, is enough for both
    walks) and answers yes exactly when one of the roles assigned to the user
    leads up the hierarchy to the role used and that role, or a role below it,
    has a grant of the privilege, or of ALL, on the object. *)
Theorem check_access_correct `{MR : MapRange} e user role p ot on :
  rbac_reachable e →
  ∃ b, CheckAccess e user role p ot on = Some b ∧
    (b = true ↔ can_assume e (ToUpper user) (ToUpper role) ∧
                role_holds e (ToUpper role) p ot (ToUpper on)).
Proof. intros He. by apply check_access_spec, rbac_reachable_wf. Qed.

(** *** Dropping a role, granting and revoking *)

Lemma with_roles_id e : with_roles (λ m, m) e = e.
Proof. by destruct e. Qed.

Lemma role_holds_known e k p ot on :
  wf e → role_holds e k p ot on → k ∈ dom (roles e).
Proof.
  intros Hwf (c & r & g & Hr & Hc & _). apply rtc_inv_r in Hr as [<-|(y & _ & (r' & Hy & Hk))].
  - by apply elem_of_dom_2 in Hc.
  - destruct (wf_roles _ Hwf _ _ Hy) as [_ _ Hp _ _ _]. by apply Hp.
Qed.

Lemma drop_parent_of name e x y :
  parent_of (DropRole name e).2 x y → parent_of e x y.
Proof.
  unfold DropRole. go_unfold. destruct (roles e !! ToUpper name) eqn:E; [|done].
  intros (r' & Hx & Hy). cbn in Hx. rewrite lookup_fmap, fmap_Some in Hx.
  destruct Hx as (r1 & [_ Hx]%lookup_delete_Some & ->). cbn in Hy.
  apply elem_of_without in Hy as [_ Hy]. by exists r1.
Qed.

Lemma drop_can_assume name e u k : can_assume (DropRole name e).2 u k → can_assume e u k.
Proof.
  intros (r & Hr & Hk). exists r. split.
  - revert Hr. unfold DropRole. go_unfold.
    destruct (roles e !! ToUpper name); [cbn|done]. rewrite lookup_fmap.
    destruct (userRoles e !! u) as [rs|]; cbn; [|done]. by intros [_ ?]%elem_of_without.
  - eapply rtc_subrel; [|done]. intros ??. apply drop_parent_of.
Qed.

Lemma drop_role_holds name e k p ot on :
  role_holds (DropRole name e).2 k p ot on → role_holds e k p ot on.
Proof.
  intros (c & r & g & Hr & Hc & Hg & Ha).
  assert (∃ r', roles e !! c = Some r' ∧ g ∈ r_Grants r') as (r' & Hc' & Hg').
  { revert Hc. unfold DropRole. go_unfold. destruct (roles e !! ToUpper name); [cbn|eauto].
    rewrite lookup_fmap, fmap_Some. intros (r1 & [_ ?]%lookup_delete_Some & ->). eauto. }
  exists c, r', g. split; [|done].
  eapply rtc_subrel; [|done]. intros ??. apply drop_parent_of.
Qed.

(** Dropping an existing role succeeds; afterwards nobody has access through
    it, and no access check that failed before the drop succeeds after it. *)
Theorem drop_role_revokes `{MR : MapRange} e name :
  rbac_reachable e → is_Some (roles e !! ToUpper name) →
  let e' := (DropRole name e).2 in
  (DropRole name e).1 = Ok tt ∧
  (∀ user p ot on, CheckAccess e' user name p ot on = Some false) ∧
  (∀ user role p ot on, CheckAccess e' user role p ot on = Some true →
                        CheckAccess e user role p ot on = Some true).
Proof.
  intros He [r Hr] e'.
  assert (He' : rbac_reachable e') by (eapply (reachable_step _ _ e (OpDropRole name)); done).
  assert (Hgone : ToUpper name ∉ dom (roles e')).
  { subst e'. unfold DropRole. go_unfold. rewrite Hr. cbn. rewrite dom_fmap_L. set_solver. }
  split; [unfold DropRole; go_unfold; by rewrite Hr|split].
  - intros user p ot on.
    destruct (check_access_spec e' user name p ot on (rbac_reachable_wf _ He')) as ([] & -> & Hb); [|done].
    destruct Hb as [Hb _]. destruct (Hb eq_refl) as [_ Hh].
    by apply role_holds_known in Hh; [|apply rbac_reachable_wf].
  - intros user role p ot on.
    destruct (check_access_spec e' user role p ot on (rbac_reachable_wf _ He')) as (b & -> & Hb).
    destruct (check_access_spec e user role p ot on (rbac_reachable_wf _ He)) as (b' & -> & Hb').
    intros [= ->]. f_equal. apply Hb'. destruct Hb as [Hb _].
    destruct (Hb eq_refl). split; [by eapply drop_can_assume|by eapply drop_role_holds].
Qed.

(** Granting a privilege that the role does not hold directly and revoking it
    again gives back exactly the engine as it was, and while it is granted every
    user who may act as the role passes the check. *)
Theorem grant_revoke_roundtrip `{MR : MapRange} e now p ot on role wg r :
  rbac_reachable e → roles e !! ToUpper role = Some r →
  (p, ot, ToUpper on) ∉ grant_key <$> r_Grants r →
  let e' := (GrantPrivilege now p ot on role wg e).2 in
  (∀ user, can_assume e (ToUpper user) (ToUpper role) →
           CheckAccess e' user role p ot on = Some true) ∧
  RevokePrivilege p ot on role e' = (Ok tt, e).
Proof.
  intros He Hr Hn e'.
  assert (Hex : existsb (grant_is p ot (ToUpper on)) (r_Grants r) = false).
  { apply not_true_iff_false. by rewrite existsb_grant_is. }
  set (g := mkGrant p ot (ToUpper on) (ToUpper role) "" now wg).
  assert (Ee : e' = with_roles (<[ToUpper role := with_Grants (r_Grants r ++ [g]) r]>) e).
  { subst e'. unfold GrantPrivilege. go_unfold. by rewrite Hr, Hex. }
  split.
  - intros user (r0 & Hu & Hp).
    assert (Hpar : ∀ x y, parent_of e x y → parent_of e' x y).
    { intros x y (rx & Hx & Hy). rewrite Ee. unfold parent_of. cbn.
      destruct (decide (x = ToUpper role)) as [->|Hne].
      - rewrite lookup_insert_eq. eexists. split; [done|]. cbn. by simplify_eq.
      - rewrite lookup_insert_ne by done. eauto. }
    destruct (check_access_spec e' user role p ot on) as (b & -> & Hb).
    { apply rbac_reachable_wf. by eapply (reachable_step _ _ e (OpGrantPrivilege now p ot on role wg)). }
    f_equal. apply Hb. split.
    + exists r0. split; [by rewrite Ee|]. eapply rtc_subrel; [|done]. apply Hpar.
    + exists (ToUpper role), (with_Grants (r_Grants r ++ [g]) r), g. rewrite Ee. cbn.
      rewrite lookup_insert_eq. split; [apply rtc_refl|]. split; [done|]. split; [set_solver|].
      unfold grant_allows. rewrite !andb_true_iff, orb_true_iff, !bool_decide_eq_true. auto.
  - rewrite Ee. unfold RevokePrivilege. go_unfold. rewrite lookup_insert_eq. cbn.
    assert (Hg : grant_is p ot (ToUpper on) g = true) by by apply grant_is_spec.
    rewrite existsb_app, Hex. cbn. rewrite Hg. cbn. f_equal. unfold with_roles. cbn.
    rewrite insert_insert_eq. destruct e as [rs us]; cbn in *. f_equal. apply insert_id.
    rewrite Hr. f_equal. destruct r as [nm gs ps cr]; cbn in *. unfold with_Grants; cbn. f_equal.
    rewrite filter_app, filter_cons_False, filter_nil, app_nil_r by congruence.
    symmetry. apply filter_all. intros x Hx. apply not_true_is_false. intros Ht.
    apply not_true_iff_false in Hex. apply Hex, existsb_exists. exists x.
    by rewrite <- list_elem_of_In.
Qed.

(** ** Witnesses *)

Definition sample_ops : list Op :=
  [OpInit (λ _, 0%Z); OpCreateRole 1 "analyst"; OpGrantRoleToRole "analyst" "sysadmin";
   OpGrantRoleToUser "SYSADMIN" "alice"; OpGrantPrivilege 2 "SELECT" "TABLE" "t1" "ANALYST" false].
Definition sample : Engine := foldl (λ e o, (run_op o e).2) NewEngine sample_ops.

Lemma rbac_sample_reachable : rbac_reachable sample.
Proof. by apply (reachable_exec _ _ (λ o e, (run_op o e).2)). Qed.

Lemma check_access_correct_witness :
  rbac_reachable sample ∧ ∃ b,
    @CheckAccess key_order sample "alice" "analyst" "SELECT" "TABLE" "T1" = Some b ∧
    (b = true ↔ can_assume sample (ToUpper "alice") (ToUpper "analyst") ∧
       role_holds sample (ToUpper "analyst") "SELECT" "TABLE" (ToUpper "T1")).
Proof.
  split; [exact rbac_sample_reachable|].
  exact (@check_access_correct key_order sample "alice" "analyst" "SELECT" "TABLE" "T1"
           rbac_sample_reachable).
Defined.

Lemma rbac_wf_reachable_witness : rbac_reachable sample ∧ wf sample.
Proof. split; [exact rbac_sample_reachable|exact (rbac_wf_reachable sample rbac_sample_reachable)]. Defined.

Lemma drop_role_revokes_witness :
  @CheckAccess key_order sample "alice" "SYSADMIN" "SELECT" "TABLE" "T1" = Some true ∧
  (DropRole "sysadmin" sample).1 = Ok tt ∧
  @CheckAccess key_order (DropRole "sysadmin" sample).2 "alice" "sysadmin" "SELECT" "TABLE" "T1"
    = Some false.
Proof.
  split; [vm_compute; reflexivity|].
  destruct (@drop_role_revokes key_order sample "sysadmin" rbac_sample_reachable
              ltac:(vm_compute; eexists; reflexivity)) as (H & Hn & _).
  split; [exact H|exact (Hn _ _ _ _)].
Defined.

Lemma grant_revoke_roundtrip_witness :
  RevokePrivilege "INSERT" "TABLE" "t1" "analyst"
    (GrantPrivilege 5 "INSERT" "TABLE" "t1" "analyst" true sample).2 = (Ok tt, sample).
Proof.
  refine (proj2 (@grant_revoke_roundtrip key_order sample 5 "INSERT" "TABLE" "t1" "analyst" true
    _ rbac_sample_reachable _ _)); [vm_compute; reflexivity|].
  apply (bool_decide_unpack _). vm_compute. exact I.
Defined.
