(* ===== verification/Sequence.v ===== *)
(** * Sequences ([internal/sequence/sequence.go])

    The manager's map holds pointers to [Sequence] objects; [NextVal] looks the
    pointer up under the manager's lock and advances the object under the
    object's own lock, so that creations, drops and other calls can come in
    between.  The model keeps the heap of objects: a pointer is an index into it,
    and an object stays there after it is dropped from the map. *)

From S2P Require Import Prelude GoStrings Registry.

Record Sequence := mkSequence {
  Name : string;
  Database : string;
  Schema : string;
  Start : Z;
  Increment : Z;
  Current : Z;
  CreatedAt : Z;
}.

(** [SequenceInfo] has the same fields. *)
Definition SequenceInfo : Type := Sequence.

Record Manager := mkManager {
  heap : list Sequence;
  sequences : gmap string nat;
}.

Definition set_Current (v : Z) (q : Sequence) : Sequence :=
  mkSequence (Name q) (Database q) (Schema q) (Start q) (Increment q) v (CreatedAt q).

Definition qualifiedName (db schema name : string) : string :=
  dotted (ToUpper db) (ToUpper schema) (ToUpper name).

Definition NewManager : Manager := mkManager [] ∅.

Definition CreateSequence (now : Z) (db schema name : string) (start increment : Z)
    : GoM Manager unit :=
  let key := qualifiedName db schema name in
  let! m := get in
  match sequences m !! key with
  | Some _ => fail ("sequence " +:+ key +:+ " already exists")
  | None =>
      put (mkManager
             (heap m ++ [mkSequence (ToUpper name) (ToUpper db) (ToUpper schema)
                           start increment start now])
             (<[key := length (heap m)]> (sequences m)))
  end.

Definition DropSequence (db schema name : string) : GoM Manager unit :=
  let key := qualifiedName db schema name in
  let! m := get in
  match sequences m !! key with
  | None => fail ("sequence " +:+ key +:+ " does not exist")
  | Some _ => put (mkManager (heap m) (delete key (sequences m)))
  end.

(** First phase of [NextVal] and [CurrentVal], under the manager's lock. *)
Definition lookup_sequence (db schema name : string) : GoM Manager nat :=
  let key := qualifiedName db schema name in
  let! m := get in
  match sequences m !! key with
  | None => fail ("sequence " +:+ key +:+ " does not exist")
  | Some p => ret p
  end.

(** Second phases, under the lock of the object; [p] is always allocated. *)
Definition next_value (p : nat) : GoM Manager Z :=
  let! m := get in
  match heap m !! p with
  | None => fail "nil pointer dereference"
  | Some seq =>
      let val := Current seq in
      put (mkManager (<[p := set_Current (wrap64 (Current seq + Increment seq)) seq]> (heap m))
             (sequences m)) ;;;
      ret val
  end.

Definition current_value (p : nat) : GoM Manager Z :=
  let! m := get in
  match heap m !! p with
  | None => fail "nil pointer dereference"
  | Some seq => ret (Current seq)
  end.

Definition NextVal (db schema name : string) : GoM Manager Z :=
  let! p := lookup_sequence db schema name in next_value p.

Definition CurrentVal (db schema name : string) : GoM Manager Z :=
  let! p := lookup_sequence db schema name in current_value p.

Definition ShowSequences `{MapRange} (m : Manager) (db schema : string) : list SequenceInfo :=
  let prefix := ToUpper db +:+ "." +:+ ToUpper schema +:+ "." in
  '(key, p) ← map_range 0 (sequences m);
  if HasPrefix key prefix then option_list (heap m !! p) else [].

(** ** Interleavings

    A state is the manager and the pointers that running calls of [NextVal] have
    looked up and not used yet. *)

Inductive Event : Type :=
  | ECreate (now : Z) (db schema name : string) (start increment : Z)
  | EDrop (db schema name : string)
  | ELookup (db schema name : string) (p : nat)
  | ENext (p : nat) (v : Z).

Inductive seq_step : Manager * list nat → Event → Manager * list nat → Prop :=
  | step_create m c now db sc n st inc :
      in_int64 st → in_int64 inc →
      seq_step (m, c) (ECreate now db sc n st inc) ((CreateSequence now db sc n st inc m).2, c)
  | step_drop m c db sc n :
      seq_step (m, c) (EDrop db sc n) ((DropSequence db sc n m).2, c)
  | step_lookup m c db sc n p :
      (lookup_sequence db sc n m).1 = Ok p →
      seq_step (m, c) (ELookup db sc n p) (m, p :: c)
  | step_next m c1 p c2 v m' :
      next_value p m = (Ok v, m') →
      seq_step (m, c1 ++ p :: c2) (ENext p v) (m', c1 ++ c2).

(** The values an object handed out, in order. *)
Definition values_of (p : nat) (tr : list Event) : list Z :=
  omap (λ e, match e with ENext q v => if decide (q = p) then Some v else None | _ => None end) tr.

(** The arithmetic progression of [int64]. *)
Definition progression (start inc : Z) (n : nat) : list Z :=
  (λ k, wrap64 (start + Z.of_nat k * inc)) <$> seq 0 n.

(** ** Proofs *)

Lemma values_of_snoc p tr e :
  values_of p (tr ++ [e]) =
  values_of p tr ++ match e with ENext q v => if decide (q = p) then [v] else [] | _ => [] end.
Proof.
  unfold values_of. rewrite omap_app. f_equal.
  destruct e as [| | |q v]; try done. cbn. by destruct (decide (q = p)).
Qed.

Lemma progression_snoc st inc n :
  progression st inc (S n) = progression st inc n ++ [wrap64 (st + Z.of_nat n * inc)].
Proof. unfold progression. by rewrite seq_S, fmap_app. Qed.

(** What the run has to keep true of every object. *)
Definition seq_inv (m : Manager) (tr : list Event) : Prop :=
  (∀ p q, heap m !! p = Some q →
     ∃ n, values_of p tr = progression (Start q) (Increment q) n ∧
          Current q = wrap64 (Start q + Z.of_nat n * Increment q)) ∧
  (∀ p, length (heap m) ≤ p → values_of p tr = []).

Lemma values_of_other p tr e :
  (∀ v, e ≠ ENext p v) → values_of p (tr ++ [e]) = values_of p tr.
Proof.
  intros He. rewrite values_of_snoc. destruct e as [| | |q v]; rewrite ?app_nil_r; try done.
  destruct (decide (q = p)) as [->|]; [by destruct (He v)|by rewrite app_nil_r].
Qed.

Lemma seq_inv_create m tr now db sc n st inc :
  in_int64 st → seq_inv m tr →
  seq_inv (CreateSequence now db sc n st inc m).2 (tr ++ [ECreate now db sc n st inc]).
Proof.
  intros Hst [H1 H2]. unfold CreateSequence. go_unfold.
  assert (Hv : ∀ p, values_of p (tr ++ [ECreate now db sc n st inc]) = values_of p tr)
    by (intros; by apply values_of_other).
  destruct (sequences m !! _); split; intros p; rewrite Hv; cbn; auto.
  - intros q [Hq|[Hp Hq]]%lookup_app_Some; [by apply H1|].
    apply list_lookup_singleton_Some in Hq as [Hp' <-]. exists 0%nat. cbn.
    rewrite Z.add_0_r, wrap64_id by done. split; [|done]. apply H2. lia.
  - rewrite length_app. intros Hp. apply H2. lia.
Qed.

Lemma seq_inv_drop m tr db sc n :
  seq_inv m tr → seq_inv (DropSequence db sc n m).2 (tr ++ [EDrop db sc n]).
Proof.
  intros [H1 H2]. unfold DropSequence. go_unfold.
  destruct (sequences m !! _); cbn; split; intros p; rewrite values_of_other by done; auto.
Qed.

Lemma seq_inv_next m tr p v m' :
  next_value p m = (Ok v, m') → seq_inv m tr → seq_inv m' (tr ++ [ENext p v]).
Proof.
  unfold next_value. go_unfold. intros E [H1 H2].
  destruct (heap m !! p) as [q|] eqn:Hq; simplify_eq/=. split; intros p'.
  - intros q' Hq'. cbn in Hq'. rewrite values_of_snoc. destruct (decide (p = p')) as [<-|Hne].
    + rewrite list_lookup_insert_eq in Hq' by (by eapply lookup_lt_Some). simplify_eq/=.
      destruct (H1 p q Hq) as (n & Hv & Hc). exists (S n).
      rewrite progression_snoc, Hv, Hc, wrap64_add_l. split; [done|]. f_equal. lia.
    + rewrite list_lookup_insert_ne in Hq' by done. rewrite app_nil_r. by apply H1.
  - cbn. rewrite length_insert, values_of_snoc. intros Hp. rewrite (H2 p' Hp).
    destruct (decide (p = p')) as [->|]; [|done].
    apply lookup_lt_Some in Hq. lia.
Qed.

Lemma seq_run_inv st tr st' :
  run seq_step st tr st' → st = (NewManager, []) → seq_inv st'.1 tr.
Proof.
  intros Hr. pattern st, tr, st'. revert st tr st' Hr. apply run_rev_ind.
  - intros ? ->. split; [by intros p q ?|done].
  - intros s tr s' l s'' _ IH Hst ->. specialize (IH eq_refl). destruct Hst; cbn [fst] in *.
    + by apply seq_inv_create.
    + by apply seq_inv_drop.
    + destruct IH as [H1 H2]. split; intros; rewrite values_of_other by done; auto.
    + by eapply seq_inv_next.
Qed.

(** Whatever the interleaving of creations, drops, lookups and increments,
    the values that one sequence object has handed out are its start value and
    then the previous value plus the increment, with the wrap-around of [int64]:
    no value is lost and none is handed out twice out of turn. *)
Theorem next_values_progression tr m c p q :
  run seq_step (NewManager, []) tr (m, c) → heap m !! p = Some q →
  values_of p tr = progression (Start q) (Increment q) (length (values_of p tr)) ∧
  Current q = wrap64 (Start q + Z.of_nat (length (values_of p tr)) * Increment q).
Proof.
  intros Hr Hq. destruct (seq_run_inv _ _ _ Hr eq_refl) as [H1 _].
  destruct (H1 p q Hq) as (n & Hv & Hc).
  assert (length (values_of p tr) = n) as ->; [|done].
  rewrite Hv. unfold progression. by rewrite length_fmap, length_seq.
Qed.

Lemma progression_NoDup st inc n :
  inc ≠ 0%Z → (Z.of_nat n * Z.abs inc ≤ two64)%Z → NoDup (progression st inc n).
Proof.
  intros Hinc Hn. apply NoDup_fmap_2_strong; [|apply NoDup_seq].
  intros i j Hi%elem_of_seq Hj%elem_of_seq H. apply wrap64_eq_iff in H.
  replace (st + Z.of_nat i * inc - (st + Z.of_nat j * inc))%Z
    with ((Z.of_nat i - Z.of_nat j) * inc)%Z in H by lia.
  apply Z.mod_divide in H as [k Hk]; [|done].
  assert (Hb : (Z.abs ((Z.of_nat i - Z.of_nat j) * inc) < two64)%Z).
  { rewrite Z.abs_mul. assert (Z.abs (Z.of_nat i - Z.of_nat j) + 1 ≤ Z.of_nat n)%Z by lia. nia. }
  rewrite Hk, Z.abs_mul in Hb. unfold two64 in *.
  assert (k = 0)%Z as -> by lia. nia.
Qed.

(** Under any interleaving, a sequence object with a non-zero increment never
    hands out the same value twice before it has gone once around the 2^64
    integers. *)
Theorem next_values_distinct tr m c p q :
  run seq_step (NewManager, []) tr (m, c) → heap m !! p = Some q →
  Increment q ≠ 0%Z →
  (Z.of_nat (length (values_of p tr)) * Z.abs (Increment q) ≤ two64)%Z →
  NoDup (values_of p tr).
Proof.
  intros Hr Hq Hi Hn. destruct (seq_run_inv _ _ _ Hr eq_refl) as [H1 _].
  destruct (H1 p q Hq) as (n & Hv & Hc). rewrite Hv in *.
  apply progression_NoDup; [done|]. revert Hn. unfold progression.
  by rewrite length_fmap, length_seq.
Qed.

(** ** The manager is a registry *)

#[export] Program Instance sequence_registry :
    Registry Manager (string * string * string) (Z * Z * Z) := {|
  reg_dom m := dom (sequences m);
  reg_key '(db, sc, n) := qualifiedName db sc n;
  reg_create '(db, sc, n) '(now, st, inc) := CreateSequence now db sc n st inc;
  reg_drop '(db, sc, n) := DropSequence db sc n;
|}.
Next Obligation.
  intros [[db sc] n] [[now st] inc] m H. unfold CreateSequence. go_unfold.
  apply not_elem_of_dom in H as ->. split; [done|]. cbn. by rewrite dom_insert_L.
Qed.
Next Obligation.
  intros [[db sc] n] [[now st] inc] m [p H]%elem_of_dom. unfold CreateSequence. go_unfold.
  by rewrite H.
Qed.
Next Obligation.
  intros [[db sc] n] m [p H]%elem_of_dom. unfold DropSequence. go_unfold.
  rewrite H. split; [done|]. cbn. by rewrite dom_delete_L.
Qed.
Next Obligation.
  intros [[db sc] n] m H. unfold DropSequence. go_unfold. by apply not_elem_of_dom in H as ->.
Qed.

(** ** Witnesses *)

Definition sample_trace : list Event :=
  [ECreate 0 "db" "s" "q" (two63 - 2) 1; ELookup "DB" "S" "Q" 0; ELookup "db" "s" "q" 0;
   EDrop "db" "s" "q"; ENext 0 (two63 - 2); ECreate 1 "db" "s" "q" 5 5; ENext 0 (two63 - 1)].

Definition sample_end : Manager :=
  mkManager [mkSequence "Q" "DB" "S" (two63 - 2) 1 (- two63) 0; mkSequence "Q" "DB" "S" 5 5 5 1]
    {[ "DB.S.Q" := 1 ]}.

Lemma sequence_sample_run : run seq_step (NewManager, []) sample_trace (sample_end, []).
Proof.
  eapply run_cons; [apply step_create; split; by vm_compute|].
  eapply run_cons; [apply step_lookup; vm_compute; reflexivity|].
  eapply run_cons; [apply step_lookup; vm_compute; reflexivity|].
  eapply run_cons; [apply step_drop|].
  eapply run_cons; [apply (step_next _ [] 0 [0%nat]); vm_compute; reflexivity|].
  eapply run_cons; [apply step_create; split; by vm_compute|].
  eapply run_cons; [apply (step_next _ [] 0 []); vm_compute; reflexivity|].
  apply run_nil.
Qed.

Lemma next_values_progression_witness :
  values_of 0 sample_trace = [two63 - 2; two63 - 1]%Z ∧
  values_of 0 sample_trace = progression (two63 - 2) 1 2 ∧ (- two63)%Z = wrap64 (two63 - 2 + 2 * 1).
Proof.
  split; [reflexivity|].
  exact (next_values_progression sample_trace sample_end [] 0
    (mkSequence "Q" "DB" "S" (two63 - 2) 1 (- two63) 0) sequence_sample_run eq_refl).
Defined.

Lemma next_values_distinct_witness : NoDup (values_of 0 sample_trace).
Proof.
  apply (next_values_distinct sample_trace sample_end [] 0
    (mkSequence "Q" "DB" "S" (two63 - 2) 1 (- two63) 0) sequence_sample_run eq_refl); by vm_compute.
Defined.
