(* ===== verification/Tag.v ===== *)
(** * Tags and their assignments ([internal/tag/tag.go])

    Tag definitions are keyed by their dotted upper-case name; the assignments of
    an object are a list under the object's key.  The operations
    are proved to act as on a store of definitions and of values, one for each
    object and tag.  Assignments are kept under the bare name of the tag, so that
    this needs bare names that are unique among the defined tags. *)

From S2P Require Import Prelude GoStrings Registry.

Record Tag := mkTag {
  Name : string;
  Database : string;
  Schema : string;
  AllowedValues : list string;
  Comment : string;
  CreatedAt : Z;
}.

Record TagAssignment := mkTagAssignment {
  TagName : string;
  TagValue : string;
  ObjectType : string;
  ObjectName : string;
  ColumnName : string;
}.

(** [TagInfo] has the same fields as [Tag]. *)
Definition TagInfo : Type := Tag.

Record Manager := mkManager {
  tags : gmap string Tag;
  assignments : gmap string (list TagAssignment);
}.

Definition tagKey (db schema name : string) : string :=
  dotted (ToUpper db) (ToUpper schema) (ToUpper name).

Definition objectKey (objectType objectName columnName : string) : string :=
  let k := ToUpper objectType +:+ ":" +:+ ToUpper objectName in
  if decide (columnName = "") then k else k +:+ "." +:+ ToUpper columnName.

Definition NewManager : Manager := mkManager ∅ ∅.

Definition CreateTag (now : Z) (db schema name : string) (allowedValues : list string)
    (comment : string) : GoM Manager unit :=
  let key := tagKey db schema name in
  let! m := get in
  match tags m !! key with
  | Some _ => fail ("tag " +:+ key +:+ " already exists")
  | None =>
      put (mkManager
             (<[key := mkTag (ToUpper name) (ToUpper db) (ToUpper schema)
                         allowedValues comment now]> (tags m))
             (assignments m))
  end.

(** The assignments of an object that are not of the tag [upperName]; an object
    left with none loses its entry. *)
Definition drop_assignments (upperName : string) (l : list TagAssignment)
    : option (list TagAssignment) :=
  match filter (λ a, TagName a ≠ upperName) l with [] => None | l => Some l end.

Definition DropTag (db schema name : string) : GoM Manager unit :=
  let key := tagKey db schema name in
  let upperName := ToUpper name in
  let! m := get in
  match tags m !! key with
  | None => fail ("tag " +:+ key +:+ " does not exist")
  | Some _ =>
      put (mkManager (delete key (tags m))
             (omap (drop_assignments upperName) (assignments m)))
  end.

(** The list without its first assignment of the tag, [None] when there is none. *)
Fixpoint remove_first (upperName : string) (l : list TagAssignment)
    : option (list TagAssignment) :=
  match l with
  | [] => None
  | a :: l =>
      if decide (TagName a = upperName) then Some l else cons a <$> remove_first upperName l
  end.

(** A tag without allowed values takes any. *)
Definition value_allowed (t : Tag) (value : string) : bool :=
  match AllowedValues t with [] => true | av => existsb (λ v, EqualFold v value) av end.

Definition SetTag (tagDB tagSchema tagName objectType objectName columnName value : string)
    : GoM Manager unit :=
  let tKey := tagKey tagDB tagSchema tagName in
  let oKey := objectKey objectType objectName columnName in
  let! m := get in
  match tags m !! tKey with
  | None => fail ("tag " +:+ tKey +:+ " does not exist")
  | Some tag =>
      if negb (value_allowed tag value) then
        fail ("value " +:+ Quote value +:+ " is not in allowed values for tag " +:+ tKey)
      else
        let upperTagName := ToUpper tagName in
        let existing := default [] (assignments m !! oKey) in
        let kept := default existing (remove_first upperTagName existing) in
        let a := mkTagAssignment upperTagName value (ToUpper objectType) (ToUpper objectName)
                   (ToUpper columnName) in
        put (mkManager (tags m) (<[oKey := kept ++ [a]]> (assignments m)))
  end.

Definition UnsetTag (tagDB tagSchema tagName objectType objectName columnName : string)
    : GoM Manager unit :=
  let tKey := tagKey tagDB tagSchema tagName in
  let oKey := objectKey objectType objectName columnName in
  let! m := get in
  match tags m !! tKey with
  | None => fail ("tag " +:+ tKey +:+ " does not exist")
  | Some _ =>
      let upperTagName := ToUpper tagName in
      match remove_first upperTagName (default [] (assignments m !! oKey)) with
      | None => fail ("tag " +:+ tKey +:+ " is not set on " +:+ oKey)
      | Some [] => put (mkManager (tags m) (delete oKey (assignments m)))
      | Some l => put (mkManager (tags m) (<[oKey := l]> (assignments m)))
      end
  end.

Definition GetTagValue (m : Manager) (objectType objectName columnName tagName : string)
    : result string :=
  let oKey := objectKey objectType objectName columnName in
  let upperTagName := ToUpper tagName in
  match find (λ a, bool_decide (TagName a = upperTagName)) (default [] (assignments m !! oKey)) with
  | Some a => Ok (TagValue a)
  | None => Err ("tag " +:+ upperTagName +:+ " not found on object " +:+ oKey)
  end.

Definition GetAllTags (m : Manager) (objectType objectName : string) : list TagAssignment :=
  default [] (assignments m !! objectKey objectType objectName "").

Definition ShowTags `{MapRange} (m : Manager) (db schema : string) : list TagInfo :=
  let prefix := ToUpper db +:+ "." +:+ ToUpper schema +:+ "." in
  '(key, tag) ← map_range 0 (tags m);
  if HasPrefix key prefix then [tag] else [].

(** ** Specification *)

(** The value of the tag [name] on the object [o]. *)
Definition view (m : Manager) (o name : string) : option string :=
  TagValue <$> find (λ a, bool_decide (TagName a = name)) (default [] (assignments m !! o)).

(** Every list of assignments is non-empty and has each tag at most once. *)
Definition wf (m : Manager) : Prop :=
  ∀ o l, assignments m !! o = Some l → l ≠ [] ∧ NoDup (TagName <$> l).

Inductive Op : Type :=
  | OpCreateTag (now : Z) (db schema name : string) (allowed : list string) (comment : string)
  | OpDropTag (db schema name : string)
  | OpSetTag (db schema name objectType objectName columnName value : string)
  | OpUnsetTag (db schema name objectType objectName columnName : string).

Definition run_op (o : Op) : GoM Manager unit :=
  match o with
  | OpCreateTag now db sc n al c => CreateTag now db sc n al c
  | OpDropTag db sc n => DropTag db sc n
  | OpSetTag db sc n ot on cn v => SetTag db sc n ot on cn v
  | OpUnsetTag db sc n ot on cn => UnsetTag db sc n ot on cn
  end.

Definition tag_reachable : Manager → Prop :=
  reachable (λ m, m = NewManager) (λ m o m', (run_op o m).2 = m').

(** The tag that an operation is about; when its database and schema have no dots
    in them, they and the name can be told from the key. *)
Definition op_tag (op : Op) : string * string * string :=
  match op with
  | OpCreateTag _ db sc n _ _ | OpDropTag db sc n | OpSetTag db sc n _ _ _ _ | OpUnsetTag db sc n _ _ _ => (db, sc, n)
  end.
Definition plain_op (op : Op) : Prop := no_dot (op_tag op).1.1 ∧ no_dot (op_tag op).1.2.

Definition plain_reachable : Manager → Prop :=
  reachable (λ m, m = NewManager) (λ m o m', plain_op o ∧ (run_op o m).2 = m').

(** *** Tags as a store of definitions and values

    A tag is known by its database, schema and name; an object has at most one
    value of it. *)

Record TagStore := mkStore {
  s_tags : gmap string Tag;
  s_value : string → string → option string;   (* of an object and a tag *)
}.

Definition same_store (s s' : TagStore) : Prop :=
  s_tags s' = s_tags s ∧ ∀ o k, s_value s' o k = s_value s o k.

Definition store (m : Manager) : TagStore :=
  mkStore (tags m) (λ o k, t ← tags m !! k; view m o (Name t)).

(** The effect of an operation, [None] for one that fails and changes nothing. *)
Definition tag_spec (s : TagStore) (op : Op) : option TagStore :=
  let '(db, sc, n) := op_tag op in
  let key := tagKey db sc n in
  match op with
  | OpCreateTag now _ _ _ allowed c =>
      match s_tags s !! key with
      | Some _ => None
      | None => Some (mkStore (<[key := mkTag (ToUpper n) (ToUpper db) (ToUpper sc) allowed c now]> (s_tags s)) (s_value s))
      end
  | OpDropTag _ _ _ =>
      match s_tags s !! key with
      | Some _ => Some (mkStore (delete key (s_tags s)) (λ o k, if decide (k = key) then None else s_value s o k))
      | None => None
      end
  | OpSetTag _ _ _ ot on cn v =>
      match s_tags s !! key with
      | Some t =>
          if value_allowed t v
          then Some (mkStore (s_tags s) (λ o k, if decide (o = objectKey ot on cn ∧ k = key) then Some v else s_value s o k))
          else None
      | None => None
      end
  | OpUnsetTag _ _ _ ot on cn =>
      match s_value s (objectKey ot on cn) key with
      | Some _ => Some (mkStore (s_tags s) (λ o k, if decide (o = objectKey ot on cn ∧ k = key) then None else s_value s o k))
      | None => None
      end
  end.

(** No two tags share their bare name.  The assignments are kept under the bare
    name, so that tags of one name in two schemas are confused. *)
Definition names_unique (m : Manager) : Prop :=
  ∀ k1 k2 t1 t2, tags m !! k1 = Some t1 → tags m !! k2 = Some t2 → Name t1 = Name t2 → k1 = k2.

(** What an operation answers and does to the values under the bare tag names:
    [None] is an error that changes nothing. *)
Definition view_spec (m : Manager) (op : Op) : option (string → string → option string) :=
  match op with
  | OpCreateTag _ db sc n _ _ =>
      match tags m !! tagKey db sc n with Some _ => None | None => Some (view m) end
  | OpDropTag db sc n =>
      match tags m !! tagKey db sc n with
      | Some _ => Some (λ o x, if decide (x = ToUpper n) then None else view m o x)
      | None => None
      end
  | OpSetTag db sc n ot on cn v =>
      match tags m !! tagKey db sc n with
      | Some t =>
          if value_allowed t v
          then Some (λ o x, if decide (o = objectKey ot on cn ∧ x = ToUpper n)
                            then Some v else view m o x)
          else None
      | None => None
      end
  | OpUnsetTag db sc n ot on cn =>
      match tags m !! tagKey db sc n, view m (objectKey ot on cn) (ToUpper n) with
      | Some _, Some _ =>
          Some (λ o x, if decide (o = objectKey ot on cn ∧ x = ToUpper n)
                       then None else view m o x)
      | _, _ => None
      end
  end.

(** ** Proofs *)

(** The value of a tag in the assignments of one object. *)
Definition value_in (x : string) (l : list TagAssignment) : option string :=
  TagValue <$> find (λ a, bool_decide (TagName a = x)) l.

#[local] Arguments value_in : simpl never.

Lemma value_in_cons x a l :
  value_in x (a :: l) = if decide (TagName a = x) then Some (TagValue a) else value_in x l.
Proof. unfold value_in. cbn. by case_decide; case_bool_decide. Qed.

Lemma value_in_None x l : value_in x l = None ↔ x ∉ (TagName <$> l).
Proof.
  induction l as [|a l IH]; [by split; [intros _ ?%elem_of_nil|]|].
  rewrite value_in_cons, fmap_cons, not_elem_of_cons. case_decide; naive_solver.
Qed.

Lemma value_in_app x l k :
  value_in x (l ++ k) = match value_in x l with Some v => Some v | None => value_in x k end.
Proof.
  induction l as [|a l IH]; [done|]. cbn [app]. rewrite !value_in_cons. by case_decide.
Qed.

Lemma value_in_filter x y l :
  value_in x (filter (λ a, TagName a ≠ y) l) = if decide (x = y) then None else value_in x l.
Proof.
  induction l as [|a l IH]; [by case_decide|].
  rewrite value_in_cons. destruct (decide (TagName a = y)) as [E|E].
  - rewrite filter_cons_False by tauto. rewrite IH. repeat case_decide; congruence.
  - rewrite filter_cons_True by done. rewrite value_in_cons, IH.
    repeat case_decide; congruence.
Qed.

Lemma remove_first_None y l : (remove_first y l = None) ↔ (value_in y l = None).
Proof.
  induction l as [|a l IH]; [done|]. rewrite value_in_cons. cbn. case_decide; [done|].
  rewrite <- IH. by destruct (remove_first y l).
Qed.

Lemma remove_first_Some y l l' :
  NoDup (TagName <$> l) → remove_first y l = Some l' →
  (∀ x, value_in x l' = (if decide (x = y) then None else value_in x l)) ∧
  NoDup (TagName <$> l') ∧ (y ∉ TagName <$> l') ∧ (∀ z, z ∈ TagName <$> l' → z ∈ TagName <$> l).
Proof.
  revert l'. induction l as [|a l IH]; intros l' Hnd; [done|]. cbn.
  apply NoDup_cons in Hnd as [Ha Hnd]. case_decide as E; intros Hl.
  - simplify_eq. split; [|split; [done|split; [done|]]].
    + intros x. rewrite value_in_cons. case_decide as Ex; [subst|by case_decide].
      by apply value_in_None.
    + intros z. rewrite elem_of_cons. tauto.
  - destruct (remove_first y l) as [k|]; simplify_eq/=.
    destruct (IH k Hnd eq_refl) as (Hv & Hk & Hy & Hsub). split; [|split; [|split]].
    + intros x. rewrite !value_in_cons, Hv. repeat case_decide; congruence.
    + apply NoDup_cons. split; [|done]. intros H. by apply Ha, Hsub.
    + by rewrite not_elem_of_cons.
    + intros z. rewrite !elem_of_cons. naive_solver.
Qed.

Lemma default_wf m o : wf m → NoDup (TagName <$> default [] (assignments m !! o)).
Proof.
  intros Hm. destruct (assignments m !! o) as [l|] eqn:E; [by apply (Hm o)|apply NoDup_nil_2].
Qed.

Lemma view_insert m ts o l o' x :
  view (mkManager ts (<[o := l]> (assignments m))) o' x =
  if decide (o' = o) then value_in x l else view m o' x.
Proof.
  unfold view. cbn. case_decide; [subst; by rewrite lookup_insert_eq|].
  by rewrite lookup_insert_ne.
Qed.

(** What is left of the assignments when those of a tag are taken away. *)
Lemma kept_spec m o y :
  wf m →
  let l := default [] (assignments m !! o) in
  let kept := default l (remove_first y l) in
  (∀ x, value_in x kept = (if decide (x = y) then None else value_in x l)) ∧
  NoDup (TagName <$> kept) ∧ y ∉ TagName <$> kept.
Proof.
  intros Hm l kept. pose proof (default_wf m o Hm) as Hnd. fold l in Hnd.
  subst kept. destruct (remove_first y l) as [k|] eqn:E; cbn.
  - by destruct (remove_first_Some y l k Hnd E) as (? & ? & ? & _).
  - apply remove_first_None in E. split; [|split; [done|by apply value_in_None]].
    intros x. by case_decide; subst.
Qed.

Lemma SetTag_spec m db sc n ot on cn v :
  wf m →
  match view_spec m (OpSetTag db sc n ot on cn v) with
  | None => is_ok (SetTag db sc n ot on cn v m).1 = false ∧ (SetTag db sc n ot on cn v m).2 = m
  | Some V => ∃ m', SetTag db sc n ot on cn v m = (Ok tt, m') ∧ wf m' ∧
                    ∀ o x, view m' o x = V o x
  end.
Proof.
  intros Hm. cbn. unfold SetTag. go_unfold.
  destruct (tags m !! tagKey db sc n) as [t|]; [|done].
  destruct (value_allowed t v); [|done]. cbn. eexists. split; [done|].
  destruct (kept_spec m (objectKey ot on cn) (ToUpper n) Hm) as (Hv & Hnd & Hni). split.
  - intros o l. cbn. intros [[<- <-]|[_ Ho]]%lookup_insert_Some; [|by apply (Hm o)].
    split; [by intros [_ ?]%app_eq_nil|]. rewrite fmap_app. by apply NoDup_snoc.
  - intros o x. rewrite view_insert, value_in_app, Hv, value_in_cons. cbn.
    unfold view, value_in. cbn. repeat case_decide; subst; try tauto; try congruence.
    by destruct (find _ _).
Qed.

Lemma UnsetTag_spec m db sc n ot on cn :
  wf m →
  match view_spec m (OpUnsetTag db sc n ot on cn) with
  | None => is_ok (UnsetTag db sc n ot on cn m).1 = false ∧ (UnsetTag db sc n ot on cn m).2 = m
  | Some V => ∃ m', UnsetTag db sc n ot on cn m = (Ok tt, m') ∧ wf m' ∧
                    ∀ o x, view m' o x = V o x
  end.
Proof.
  intros Hm. cbn. unfold UnsetTag. go_unfold.
  destruct (tags m !! tagKey db sc n) as [t|]; [|done].
  set (o := objectKey ot on cn). set (l := default [] (assignments m !! o)).
  change (view m o (ToUpper n)) with (value_in (ToUpper n) l).
  destruct (remove_first (ToUpper n) l) as [k|] eqn:E.
  - destruct (value_in (ToUpper n) l) eqn:Ev;
      [|apply remove_first_None in Ev; congruence].
    destruct (remove_first_Some _ _ _ (default_wf m o Hm) E) as (Hv & Hnd & _ & _).
    destruct k as [|a k]; (eexists; split; [done|]; split).
    + intros o' l'. cbn. intros [_ Ho]%lookup_delete_Some. by apply (Hm o').
    + intros o' x. unfold view. cbn. destruct (decide (o' = o)) as [->|Hne].
      * rewrite lookup_delete_eq. cbn. specialize (Hv x). change (value_in x []) with (@None string) in Hv.
        fold l. change (TagValue <$> find _ l) with (value_in x l).
        destruct (decide (x = ToUpper n)); case_decide; naive_solver.
      * rewrite lookup_delete_ne by done. case_decide; naive_solver.
    + intros o' l'. cbn. intros [[<- <-]|[_ Ho]]%lookup_insert_Some; [done|by apply (Hm o')].
    + intros o' x. rewrite view_insert, Hv.
      change (view m o' x) with (value_in x (default [] (assignments m !! o'))).
      repeat case_decide; subst; naive_solver.
  - apply remove_first_None in E. by rewrite E.
Qed.

Lemma DropTag_spec m db sc n :
  wf m →
  match view_spec m (OpDropTag db sc n) with
  | None => is_ok (DropTag db sc n m).1 = false ∧ (DropTag db sc n m).2 = m
  | Some V => ∃ m', DropTag db sc n m = (Ok tt, m') ∧ wf m' ∧ ∀ o x, view m' o x = V o x
  end.
Proof.
  intros Hm. cbn. unfold DropTag. go_unfold.
  destruct (tags m !! tagKey db sc n) as [t|]; [|done]. eexists. split; [done|]. split.
  - intros o l. cbn. rewrite lookup_omap. intros (l0 & Ho & Hl)%bind_Some.
    destruct (Hm o l0 Ho) as [_ Hnd]. unfold drop_assignments in Hl.
    destruct (filter _ l0) as [|a k] eqn:E; simplify_eq. split; [done|]. rewrite <- E.
    by apply NoDup_fmap_filter.
  - intros o x. unfold view. cbn. rewrite lookup_omap.
    destruct (assignments m !! o) as [l|]; cbn; [|by case_decide].
    change (TagValue <$> find _ l) with (value_in x l).
    rewrite <- (value_in_filter x (ToUpper n) l). unfold drop_assignments, value_in.
    by destruct (filter _ l).
Qed.

Lemma CreateTag_spec m now db sc n al c :
  wf m →
  match view_spec m (OpCreateTag now db sc n al c) with
  | None => is_ok (CreateTag now db sc n al c m).1 = false ∧ (CreateTag now db sc n al c m).2 = m
  | Some V => ∃ m', CreateTag now db sc n al c m = (Ok tt, m') ∧ wf m' ∧
                    ∀ o x, view m' o x = V o x
  end.
Proof.
  intros Hm. cbn. unfold CreateTag. go_unfold.
  destruct (tags m !! tagKey db sc n); [done|]. eauto.
Qed.

Lemma run_op_spec m op :
  wf m →
  match view_spec m op with
  | None => is_ok (run_op op m).1 = false ∧ (run_op op m).2 = m
  | Some V => ∃ m', run_op op m = (Ok tt, m') ∧ wf m' ∧ ∀ o x, view m' o x = V o x
  end.
Proof.
  intros Hm. destruct op; unfold run_op; [apply CreateTag_spec|apply DropTag_spec|
    apply SetTag_spec|apply UnsetTag_spec]; done.
Qed.

Lemma tag_op_wf m op : wf m → wf (run_op op m).2.
Proof.
  intros Hm. pose proof (run_op_spec m op Hm) as H. destruct (view_spec m op).
  - by destruct H as (m' & -> & ? & _).
  - by destruct H as [_ ->].
Qed.

Lemma reachable_wf m : tag_reachable m → wf m.
Proof.
  apply reachable_inv; [by intros ? -> ?|]. intros s op s' Hs <-. by apply tag_op_wf.
Qed.

(** *** Tags by their full name *)

(** Every definition is under its own key, and every assigned name is one of a
    tag that is defined. *)
Definition keyed_tags (m : Manager) : Prop :=
  ∀ k t, tags m !! k = Some t → ∃ db sc n, no_dot db ∧ no_dot sc ∧ k = tagKey db sc n ∧ Name t = ToUpper n.
Definition keyed (m : Manager) : Prop :=
  wf m ∧ keyed_tags m ∧
  (∀ o x v, view m o x = Some v → ∃ k t, tags m !! k = Some t ∧ Name t = x).

Lemma tagKey_name db sc n db' sc' n' : no_dot db → no_dot sc → no_dot db' → no_dot sc' →
  tagKey db sc n = tagKey db' sc' n' → ToUpper n = ToUpper n'.
Proof. intros ? ? ? ? H. eapply dotted_inj in H as (_ & _ & ?); auto using no_dot_ToUpper. Qed.

(** The tag defined under a key has the name of the key. *)
Lemma keyed_name m db sc n t : keyed_tags m → no_dot db → no_dot sc →
  tags m !! tagKey db sc n = Some t → Name t = ToUpper n.
Proof. intros Hk ? ? (db' & sc' & n' & ? & ? & E & ->)%Hk. symmetry. by apply (tagKey_name db sc n db' sc' n'). Qed.

(** The definitions after an operation, whatever the assignments. *)
Lemma run_op_tags m op : wf m →
  tags (run_op op m).2 =
  match view_spec m op, op with
  | Some _, OpCreateTag now db sc n al c => <[tagKey db sc n := mkTag (ToUpper n) (ToUpper db) (ToUpper sc) al c now]> (tags m)
  | Some _, OpDropTag db sc n => delete (tagKey db sc n) (tags m)
  | _, _ => tags m
  end.
Proof.
  intros Hm. pose proof (run_op_spec m op Hm) as H. destruct (view_spec m op) eqn:E; [|by destruct H as [_ ->]].
  clear H. revert E. destruct op; cbn; unfold CreateTag, DropTag, SetTag, UnsetTag; go_unfold;
    intros E; repeat case_match; by simplify_eq.
Qed.

Lemma keyed_step m op : keyed m → plain_op op → keyed (run_op op m).2.
Proof.
  intros (Hm & Hk & Hv) Hp. split; [by apply tag_op_wf|].
  pose proof (run_op_spec m op Hm) as H. pose proof (run_op_tags m op Hm) as Ht.
  destruct (view_spec m op) as [V|] eqn:E; [|destruct H as [_ ->]; done].
  destruct H as (m' & Em & _ & Hview). rewrite Em in *. cbn [snd] in *. split.
  - intros k t. rewrite Ht. destruct op as [now db sc n al c|db sc n| |]; [| |by apply Hk..].
    + intros [[<- <-]|[_ ?]]%lookup_insert_Some; [|by apply Hk]. destruct Hp as (? & ?). cbn in *. by exists db, sc, n.
    + intros [_ ?]%lookup_delete_Some. by apply Hk.
  - intros o x v. rewrite Hview, Ht. clear Em Ht Hview. revert E.
    destruct op as [now db sc n al c|db sc n|db sc n ot on cn w|db sc n ot on cn]; cbn; intros E.
    + destruct (tags m !! tagKey db sc n) eqn:En; [done|]. injection E as <-. intros (k & t & Hkt & <-)%Hv.
      exists k, t. split; [|done]. apply lookup_insert_Some. right. split; [congruence|done].
    + destruct (tags m !! tagKey db sc n) as [t0|] eqn:En; [|done]. injection E as <-.
      case_decide as Hx; [done|]. intros (k & t & Hkt & <-)%Hv. exists k, t. split; [|done].
      apply lookup_delete_Some. split; [|done]. intros <-. destruct Hp as (? & ?). apply Hx. cbn in *. by apply (keyed_name m db sc).
    + destruct (tags m !! tagKey db sc n) as [t0|] eqn:En; [|done]. destruct (value_allowed t0 w); [|done].
      injection E as <-. case_decide as Hx; [|apply Hv]. intros [= ->]. destruct Hx as [-> ->].
      exists (tagKey db sc n), t0. split; [done|]. destruct Hp as (? & ?). cbn in *. by apply (keyed_name m db sc).
    + destruct (tags m !! tagKey db sc n) as [t0|]; [|done]. destruct (view m _ _); [|done]. injection E as <-.
      case_decide; [done|apply Hv].
Qed.

Lemma plain_keyed m : plain_reachable m → keyed m.
Proof.
  apply reachable_inv.
  - intros ? ->. split; [by intros ? ?|]. split; [by intros ? ?|]. by intros ? ? ?.
  - intros s op s' Hs [Hp <-]. by apply keyed_step.
Qed.

Lemma named_iff m db sc n t0 k t : keyed_tags m → names_unique m → no_dot db → no_dot sc →
  tags m !! tagKey db sc n = Some t0 → tags m !! k = Some t → Name t = ToUpper n ↔ k = tagKey db sc n.
Proof.
  intros Hk Hu Hd Hs E Ek. pose proof (keyed_name _ _ _ _ _ Hk Hd Hs E) as En.
  split; [intros Hname; eapply Hu; [done..|congruence]|intros ->; congruence].
Qed.

(** C38: the tag manager implements a store of tag definitions and of values, one
    for each object and tag.  From every state reached by operations on
    databases and schemas without dots in their names, and as long as no two defined tags share their bare name, each
    operation answers and changes definitions and values exactly as [tag_spec]
    says: an error changes nothing; [CreateTag] stores the definition, and fails
    when there is one; [DropTag] removes the definition and all values of the tag,
    and no others; [SetTag] fails unless the tag is defined and the value allowed,
    and otherwise sets that one value; [UnsetTag] removes it, and fails when there
    is none. *)
Theorem tag_refinement m op :
  plain_reachable m → plain_op op → names_unique m → names_unique (run_op op m).2 →
  match tag_spec (store m) op with
  | None => is_ok (run_op op m).1 = false ∧ (run_op op m).2 = m
  | Some s => (run_op op m).1 = Ok tt ∧ same_store s (store (run_op op m).2)
  end.
Proof.
  intros Hm%plain_keyed Hp Hu Hu'. pose proof Hm as (Hwf & Hk & Hv).
  pose proof (run_op_spec m op Hwf) as H. pose proof (run_op_tags m op Hwf) as Ht.
  destruct op as [now db sc n al c|db sc n|db sc n ot on cn v|db sc n ot on cn]; destruct Hp as (Hd & Hs);
    cbn [tag_spec view_spec op_tag store s_tags s_value fst snd] in *.
  - destruct (tags m !! tagKey db sc n) eqn:E; [done|]. destruct H as (m' & Em & _ & Hview). rewrite Em in *. split; [done|].
    split; [exact Ht|]. intros o k. cbn [store s_value snd] in *. rewrite Ht. destruct (decide (k = tagKey db sc n)) as [->|Hne].
    + rewrite lookup_insert_eq, E. cbn. rewrite Hview. destruct (view m o (ToUpper n)) as [v|] eqn:Eo; [|done].
      exfalso. apply Hv in Eo as (k & t & Hkt & Hnt). assert (k ≠ tagKey db sc n) by congruence.
      apply H. refine (Hu' _ _ t _ _ _ _); rewrite ?Ht; [by rewrite lookup_insert_ne|by rewrite lookup_insert_eq|exact Hnt].
    + rewrite lookup_insert_ne by done. destruct (tags m !! k); [|done]. apply Hview.
  - destruct (tags m !! tagKey db sc n) as [t0|] eqn:E; [|done]. destruct H as (m' & Em & _ & Hview). rewrite Em in *. split; [done|].
    split; [exact Ht|]. intros o k. cbn [store s_value snd] in *. rewrite Ht. case_decide as Hkk; [subst; by rewrite lookup_delete_eq|].
    rewrite lookup_delete_ne by done. destruct (tags m !! k) as [t|] eqn:Ek; [|done]. cbn. rewrite Hview.
    rewrite decide_False; [done|]. by rewrite (named_iff _ _ _ _ _ _ _ Hk Hu Hd Hs E Ek).
  - destruct (tags m !! tagKey db sc n) as [t0|] eqn:E; [|done]. destruct (value_allowed t0 v); [|done].
    destruct H as (m' & Em & _ & Hview). rewrite Em in *. split; [done|].
    split; [exact Ht|]. intros o k. cbn [store s_value snd] in *. rewrite Ht.
    destruct (tags m !! k) as [t|] eqn:Ek; cbn [mbind option_bind]; [rewrite Hview|].
    + pose proof (named_iff _ _ _ _ _ _ _ Hk Hu Hd Hs E Ek). repeat case_decide; naive_solver.
    + rewrite decide_False; [done|]. intros [_ ->]. congruence.
  - destruct (tags m !! tagKey db sc n) as [t0|] eqn:E; cbn [mbind option_bind]; [|done].
    pose proof (keyed_name _ _ _ _ _ Hk Hd Hs E) as En. rewrite En.
    destruct (view m (objectKey ot on cn) (ToUpper n)) as [v|]; [|done].
    destruct H as (m' & Em & _ & Hview). rewrite Em in *. split; [done|].
    split; [exact Ht|]. intros o k. cbn [store s_value snd] in *. rewrite Ht.
    destruct (tags m !! k) as [t|] eqn:Ek; cbn [mbind option_bind]; [rewrite Hview|by case_decide].
    pose proof (named_iff _ _ _ _ _ _ _ Hk Hu Hd Hs E Ek). repeat case_decide; naive_solver.
Qed.

(** An operation that can change the tag [x] of the object [o]. *)
Definition touches (o x : string) (op : Op) : bool :=
  match op with
  | OpCreateTag _ _ _ _ _ _ => false
  | OpDropTag _ _ n => bool_decide (x = ToUpper n)
  | OpSetTag _ _ n ot on cn _ | OpUnsetTag _ _ n ot on cn =>
      bool_decide (o = objectKey ot on cn ∧ x = ToUpper n)
  end.

Lemma run_op_untouched m op o x :
  wf m → touches o x op = false → view (run_op op m).2 o x = view m o x.
Proof.
  intros Hm Ht. pose proof (run_op_spec m op Hm) as H.
  destruct (view_spec m op) as [V|] eqn:E; [|by destruct H as [_ ->]].
  destruct H as (m' & -> & _ & Hv). cbn. rewrite Hv. revert E Ht.
  destruct op; cbn; intros E Ht; repeat case_match; simplify_eq; try done;
    apply bool_decide_eq_false in Ht; by rewrite decide_False.
Qed.

Lemma GetTagValue_view m ot on cn n v :
  GetTagValue m ot on cn n = Ok v ↔ view m (objectKey ot on cn) (ToUpper n) = Some v.
Proof.
  unfold GetTagValue, view. destruct (find _ _); cbn; split; intros [= ->]; done.
Qed.

(** A value that [SetTag] accepted is the value that [GetTagValue] returns,
    through any later operations on other tags and objects; the names may be
    written in any case. *)
Theorem tag_set_get m db sc n ot on cn v ops ot' on' cn' n' :
  tag_reachable m → (SetTag db sc n ot on cn v m).1 = Ok tt →
  Forall (λ op, touches (objectKey ot on cn) (ToUpper n) op = false) ops →
  objectKey ot' on' cn' = objectKey ot on cn → ToUpper n' = ToUpper n →
  GetTagValue (foldl (λ m op, (run_op op m).2) (SetTag db sc n ot on cn v m).2 ops)
    ot' on' cn' n' = Ok v.
Proof.
  intros Hm%reachable_wf Hok Hops Ho Hn. apply GetTagValue_view. rewrite Ho, Hn.
  pose proof (SetTag_spec m db sc n ot on cn v Hm) as H.
  destruct (view_spec m (OpSetTag db sc n ot on cn v)) as [V|] eqn:E;
    [|destruct H as [H _]; by rewrite Hok in H].
  destruct H as (m' & -> & Hm' & Hv). cbn.
  assert (Hset : view m' (objectKey ot on cn) (ToUpper n) = Some v).
  { rewrite Hv. cbn in E. repeat case_match; simplify_eq. by rewrite decide_True. }
  clear Hv E Hok. revert m' Hm' Hset. induction Hops as [|op ops Hop Hops IH]; intros m' Hm' Hset;
    [done|]. cbn. apply IH; [by apply tag_op_wf|]. by rewrite run_op_untouched.
Qed.

(** ** The manager is a registry *)

#[export] Program Instance tag_registry :
    Registry Manager (string * string * string) (Z * list string * string) := {|
  reg_dom m := dom (tags m);
  reg_key '(db, sc, n) := tagKey db sc n;
  reg_create '(db, sc, n) '(now, av, c) := CreateTag now db sc n av c;
  reg_drop '(db, sc, n) := DropTag db sc n;
|}.
Next Obligation.
  intros [[db sc] n] [[now av] c] m H. unfold CreateTag. go_unfold.
  apply not_elem_of_dom in H as ->. split; [done|]. cbn. by rewrite dom_insert_L.
Qed.
Next Obligation.
  intros [[db sc] n] [[now av] c] m [p H]%elem_of_dom. unfold CreateTag. go_unfold.
  by rewrite H.
Qed.
Next Obligation.
  intros [[db sc] n] m [p H]%elem_of_dom. unfold DropTag. go_unfold.
  rewrite H. split; [done|]. cbn. by rewrite dom_delete_L.
Qed.
Next Obligation.
  intros [[db sc] n] m H. unfold DropTag. go_unfold. by apply not_elem_of_dom in H as ->.
Qed.

(** ** Witnesses *)

Definition sample_ops : list Op :=
  [OpCreateTag 0 "db" "s" "env" ["prod"; "dev"] ""; OpCreateTag 0 "db2" "s" "env" [] "";
   OpSetTag "db2" "s" "ENV" "table" "t" "" "x"].
Definition sample : Manager := foldl (λ m op, (run_op op m).2) NewManager sample_ops.

Lemma tag_sample_reachable : tag_reachable sample.
Proof. by apply (reachable_exec _ _ (λ o m, (run_op o m).2)). Qed.

(** Dropping [DB.S.ENV] takes away the value of [DB2.S.ENV] as well. *)
Example drop_shared_name :
  view sample "TABLE:T" "ENV" = Some "x" ∧ view (DropTag "db" "s" "env" sample).2 "TABLE:T" "ENV" = None.
Proof. split; vm_compute; reflexivity. Qed.

Definition unique_ops : list Op :=
  [OpCreateTag 0 "db" "s" "env" ["prod"; "dev"] ""; OpCreateTag 0 "db2" "s" "cost" [] "";
   OpSetTag "db" "s" "ENV" "table" "t" "" "prod"; OpSetTag "db2" "s" "cost" "table" "t" "" "x"].
Definition unique_sample : Manager := foldl (λ m op, (run_op op m).2) NewManager unique_ops.

(** Names as decided on a concrete manager. *)
Definition names_uniqueb (m : Manager) : bool :=
  bool_decide (map_Forall (λ k1 t1, map_Forall (λ k2 t2, Name t1 = Name t2 → k1 = k2) (tags m)) (tags m)).
Lemma names_uniqueb_spec m : names_uniqueb m = true → names_unique m.
Proof. intros H%bool_decide_eq_true k1 k2 t1 t2 H1 H2. exact (H k1 t1 H1 k2 t2 H2). Qed.

Lemma unique_sample_reachable : plain_reachable unique_sample.
Proof.
  assert (Hops : Forall plain_op unique_ops) by (repeat constructor; by apply (bool_decide_unpack _)).
  unfold unique_sample. assert (Hm : plain_reachable NewManager) by by apply reachable_init.
  revert Hm. generalize NewManager. induction Hops as [|op ops Hop _ IH]; intros m Hm; [done|].
  cbn [foldl]. apply IH. by eapply reachable_step.
Qed.

Lemma tag_refinement_witness :
  (DropTag "db" "s" "env" unique_sample).1 = Ok tt ∧
  let m' := (DropTag "db" "s" "env" unique_sample).2 in
  s_value (store m') "TABLE:T" "DB.S.ENV" = None ∧ s_value (store m') "TABLE:T" "DB2.S.COST" = Some "x".
Proof.
  destruct (tag_refinement unique_sample (OpDropTag "db" "s" "env") unique_sample_reachable) as [H [_ Hv]].
  - repeat split; by apply (bool_decide_unpack _).
  - apply names_uniqueb_spec. vm_compute. reflexivity.
  - apply names_uniqueb_spec. vm_compute. reflexivity.
  - split; [exact H|]. split.
    + refine (eq_trans (Hv _ _) _). vm_compute; reflexivity.
    + refine (eq_trans (Hv _ _) _). vm_compute; reflexivity.
Defined.

Lemma tag_set_get_witness :
  GetTagValue (foldl (λ m op, (run_op op m).2) (SetTag "db" "s" "env" "TABLE" "T" "" "PROD" sample).2
    [OpUnsetTag "db" "s" "env" "TABLE" "U" ""]) "Table" "T" "" "Env" = Ok "PROD".
Proof.
  apply (tag_set_get sample "db" "s" "env" "TABLE" "T" "" "PROD"
    [OpUnsetTag "db" "s" "env" "TABLE" "U" ""] "Table" "T" "" "Env" tag_sample_reachable);
    [vm_compute; reflexivity| |vm_compute; reflexivity..].
  repeat constructor.
Defined.
