(* ===== verification/Stream.v ===== *)
(** * Streams ([internal/stream/stream.go])

    A stream is an object on the heap, shared between the engine's map and the
    calls that have looked it up: [ConsumeStream] finds it under the engine's
    lock and consumes it under the stream's own lock, and [RecordChange] visits
    the streams one after the other, each under its own lock.  The transition
    system interleaves these pieces. *)

From S2P Require Import Prelude GoStrings GoTime Registry.

(** ** Data *)

Definition ChangeType : Type := string.
Definition ChangeInsert : ChangeType := "INSERT".

Record ChangeRecord := mkChange {
  Action : ChangeType;
  IsUpdate : bool;
  RowID : string;
  Data : row;
  Timestamp : Z;
}.

Record Stream := mkStream {
  Name : string;
  DatabaseName : string;
  SchemaName : string;
  TableName : string;
  Type_ : string;
  Stale : bool;
  StaleAfter : Z;
  Offset : nat;
  CreatedAt : Z;
  changes : list ChangeRecord;
}.

Record StreamInfo := mkInfo {
  i_Name : string;
  i_DatabaseName : string;
  i_SchemaName : string;
  i_TableName : string;
  i_Type : string;
  i_Stale : bool;
  i_CreatedAt : Z;
}.

(** A pointer is an index into the heap. *)
Record Engine := mkEngine {
  heap : list Stream;
  streams : gmap string nat;
}.

Definition set_changes (cs : list ChangeRecord) (s : Stream) : Stream :=
  mkStream (Name s) (DatabaseName s) (SchemaName s) (TableName s) (Type_ s) (Stale s)
    (StaleAfter s) (Offset s) (CreatedAt s) cs.
Definition set_Offset (o : nat) (s : Stream) : Stream :=
  mkStream (Name s) (DatabaseName s) (SchemaName s) (TableName s) (Type_ s) (Stale s)
    (StaleAfter s) o (CreatedAt s) (changes s).

(** Writing through a pointer. *)
Definition store (p : nat) (s : Stream) (e : Engine) : Engine :=
  mkEngine (<[p := s]> (heap e)) (streams e).

(** ** Operations *)

Definition NewEngine : Engine := mkEngine [] ∅.

Definition Reset : GoM Engine unit := modify (λ e, mkEngine (heap e) ∅).

Definition streamKey (db schema name : string) : string := ToLower (dotted db schema name).
Definition tableKey (db schema table : string) : string := ToLower (dotted db schema table).

Definition CreateStream (now : Z) (db schema name tableName streamType : string)
    : GoM Engine unit :=
  let key := streamKey db schema name in
  let streamType := if decide (streamType = "") then "STANDARD" else streamType in
  let streamType := ToUpper streamType in
  if negb (bool_decide (streamType = "STANDARD")) && negb (bool_decide (streamType = "APPEND_ONLY"))
  then fail ("stream: unsupported type " +:+ Quote streamType)
  else
    let! e := get in
    match streams e !! key with
    | Some _ => fail ("stream: " +:+ Quote name +:+ " already exists")
    | None =>
        put (mkEngine
               (heap e ++ [mkStream name db schema tableName streamType false
                             (now + 14 * 24 * Hour)%Z 0 now []])
               (<[key := length (heap e)]> (streams e)))
    end.

Definition DropStream (db schema name : string) : GoM Engine unit :=
  let key := streamKey db schema name in
  let! e := get in
  match streams e !! key with
  | None => fail ("stream: " +:+ Quote name +:+ " does not exist")
  | Some _ => put (mkEngine (heap e) (delete key (streams e)))
  end.

(** The lookup that [GetStream] and the first phase of [ConsumeStream] and
    [HasData] perform. *)
Definition lookup_stream (db schema name : string) : GoM Engine nat :=
  let! e := get in
  match streams e !! streamKey db schema name with
  | None => fail ("stream: " +:+ Quote name +:+ " does not exist")
  | Some p => ret p
  end.

Definition GetStream (db schema name : string) : GoM Engine Stream :=
  let! p := lookup_stream db schema name in
  let! e := get in
  match heap e !! p with Some s => ret s | None => fail "nil pointer dereference" end.

(** Does the loop of [RecordChange] append a change of table [tKey] to [s]? *)
Definition captures (tKey : string) (change : ChangeRecord) (s : Stream) : bool :=
  bool_decide (tableKey (DatabaseName s) (SchemaName s) (TableName s) = tKey)
  && negb (bool_decide (Type_ s = "APPEND_ONLY") && negb (bool_decide (Action change = ChangeInsert))).

(** One turn of the loop: the stream at [p] is visited. *)
Definition record_visit (tKey : string) (change : ChangeRecord) (p : nat) : GoM Engine unit :=
  let! e := get in
  match heap e !! p with
  | None => fail "nil pointer dereference"
  | Some s =>
      if captures tKey change s then put (store p (set_changes (changes s ++ [change]) s) e)
      else ret tt
  end.

Definition stamp (now : Z) (c : ChangeRecord) : ChangeRecord :=
  if IsZero (Timestamp c)
  then mkChange (Action c) (IsUpdate c) (RowID c) (Data c) now else c.

Definition RecordChange `{MapRange} (now : Z) (db schema tableName : string)
    (change : ChangeRecord) : GoM Engine unit :=
  let tKey := tableKey db schema tableName in
  let change := stamp now change in
  let! e := get in
  for_each (record_visit tKey change) (map_range 0 (streams e)).*2.

(** The second phase of [ConsumeStream]. *)
Definition consume (p : nat) : GoM Engine (list ChangeRecord) :=
  let! e := get in
  match heap e !! p with
  | None => fail "nil pointer dereference"
  | Some s =>
      if decide (length (changes s) ≤ Offset s) then ret []
      else
        put (store p (set_Offset (length (changes s)) s) e) ;;;
        ret (drop (Offset s) (changes s))
  end.

Definition ConsumeStream (db schema name : string) : GoM Engine (list ChangeRecord) :=
  let! p := lookup_stream db schema name in consume p.

Definition HasData (e : Engine) (db schema name : string) : bool :=
  match streams e !! streamKey db schema name with
  | None => false
  | Some p =>
      match heap e !! p with
      | Some s => bool_decide (Offset s < length (changes s))
      | None => false
      end
  end.

Definition info (s : Stream) : StreamInfo :=
  mkInfo (Name s) (DatabaseName s) (SchemaName s) (TableName s) (Type_ s) (Stale s) (CreatedAt s).

Definition ShowStreams `{MapRange} (e : Engine) (db schema : string) : list StreamInfo :=
  let dbLower := ToLower db in
  let schemaLower := ToLower schema in
  '(_, p) ← map_range 0 (streams e);
  s ← option_list (heap e !! p);
  if bool_decide (ToLower (DatabaseName s) = dbLower)
     && bool_decide (ToLower (SchemaName s) = schemaLower)
  then [info s] else [].

(** ** Interleavings

    A state is the engine, the loops of [RecordChange] in progress (the table, the
    change and the streams still to visit) and the streams that running calls of
    [ConsumeStream] have looked up.  A loop holds the read lock, so streams are
    not created, dropped or reset while one is in progress. *)

Record Sys := mkSys {
  eng : Engine;
  loops : list (string * ChangeRecord * list nat);
  consumers : list nat;
}.

Inductive Event : Type :=
  | ECreate (now : Z) (db schema name tableName streamType : string)
  | EDrop (db schema name : string)
  | EReset
  | ERecord (now : Z) (db schema tableName : string) (c : ChangeRecord)
  | EVisit (tKey : string) (c : ChangeRecord) (p : nat) (captured : bool)
  | EEndLoop
  | ELookup (db schema name : string) (p : nat)
  | EConsume (p : nat) (rs : list ChangeRecord).

Inductive stream_step `{MapRange} : Sys → Event → Sys → Prop :=
  | st_create e cs now db sc n t ty :
      stream_step (mkSys e [] cs) (ECreate now db sc n t ty)
        (mkSys (CreateStream now db sc n t ty e).2 [] cs)
  | st_drop e cs db sc n :
      stream_step (mkSys e [] cs) (EDrop db sc n) (mkSys (DropStream db sc n e).2 [] cs)
  | st_reset e cs : stream_step (mkSys e [] cs) EReset (mkSys (Reset e).2 [] cs)
  | st_record e ls cs now db sc t c :
      stream_step (mkSys e ls cs) (ERecord now db sc t c)
        (mkSys e (ls ++ [(tableKey db sc t, stamp now c, (map_range 0 (streams e)).*2)]) cs)
  | st_visit e l1 k c p ps l2 cs s :
      heap e !! p = Some s →
      stream_step (mkSys e (l1 ++ (k, c, p :: ps) :: l2) cs) (EVisit k c p (captures k c s))
        (mkSys (record_visit k c p e).2 (l1 ++ (k, c, ps) :: l2) cs)
  | st_endloop e l1 k c l2 cs :
      stream_step (mkSys e (l1 ++ (k, c, []) :: l2) cs) EEndLoop (mkSys e (l1 ++ l2) cs)
  | st_lookup e ls cs db sc n p :
      (lookup_stream db sc n e).1 = Ok p →
      stream_step (mkSys e ls cs) (ELookup db sc n p) (mkSys e ls (p :: cs))
  | st_consume e ls c1 p c2 rs e' :
      consume p e = (Ok rs, e') →
      stream_step (mkSys e ls (c1 ++ p :: c2)) (EConsume p rs) (mkSys e' ls (c1 ++ c2)).

(** What was appended to a stream, and what calls of [ConsumeStream] returned
    from it, in the order of the events. *)
Definition appended (p : nat) (tr : list Event) : list ChangeRecord :=
  tr ≫= λ ev, match ev with EVisit _ c q true => if decide (q = p) then [c] else [] | _ => [] end.
Definition consumed (p : nat) (tr : list Event) : list ChangeRecord :=
  tr ≫= λ ev, match ev with EConsume q rs => if decide (q = p) then rs else [] | _ => [] end.

(** ** Proofs *)

Lemma appended_snoc p tr ev : appended p (tr ++ [ev]) = appended p tr ++ appended p [ev].
Proof. unfold appended. by rewrite bind_app. Qed.
Lemma consumed_snoc p tr ev : consumed p (tr ++ [ev]) = consumed p tr ++ consumed p [ev].
Proof. unfold consumed. by rewrite bind_app. Qed.

Definition stream_inv (e : Engine) (tr : list Event) : Prop :=
  ∀ p, match heap e !! p with
       | Some s => changes s = appended p tr ∧ Offset s = length (consumed p tr) ∧
                   consumed p tr = take (Offset s) (changes s) ∧ Offset s ≤ length (changes s)
       | None => appended p tr = [] ∧ consumed p tr = []
       end.

(** Events that concern no stream's contents. *)
Lemma inv_quiet e e' tr ev :
  heap e' = heap e → (∀ p, appended p [ev] = []) → (∀ p, consumed p [ev] = []) →
  stream_inv e tr → stream_inv e' (tr ++ [ev]).
Proof.
  intros Hh Ha Hc Hi p. rewrite Hh, appended_snoc, consumed_snoc, Ha, Hc, !app_nil_r. apply Hi.
Qed.

Lemma inv_create e tr now db sc n t ty :
  stream_inv e tr → stream_inv (CreateStream now db sc n t ty e).2 (tr ++ [ECreate now db sc n t ty]).
Proof.
  intros Hi. unfold CreateStream. go_unfold. case_match; [by apply (inv_quiet e)|].
  destruct (streams e !! _); [by apply (inv_quiet e)|]. cbn. intros p.
  rewrite appended_snoc, consumed_snoc. cbn. rewrite !app_nil_r. specialize (Hi p).
  destruct (heap e !! p) as [s|] eqn:E.
  - rewrite lookup_app_l by (by eapply lookup_lt_Some). by rewrite E.
  - apply lookup_ge_None in E. rewrite lookup_app_r by done.
    destruct Hi as [-> ->]. by destruct (p - length (heap e)) as [|[]].
Qed.

Lemma inv_visit e tr k c p s :
  heap e !! p = Some s → stream_inv e tr →
  stream_inv (record_visit k c p e).2 (tr ++ [EVisit k c p (captures k c s)]).
Proof.
  intros Hs Hi q. rewrite appended_snoc, consumed_snoc. unfold record_visit. go_unfold.
  rewrite Hs. specialize (Hi q).
  destruct (captures k c s); cbn; rewrite !app_nil_r; [|done].
  destruct (decide (p = q)) as [<-|Hne].
  - rewrite list_lookup_insert_eq by (by eapply lookup_lt_Some). rewrite Hs in Hi. cbn.
    destruct Hi as (-> & Ho & Hc & Hl). rewrite length_app. split; [done|]. split; [done|].
    rewrite take_app_le by lia. split; [done|lia].
  - rewrite list_lookup_insert_ne by done. by rewrite app_nil_r.
Qed.

Lemma inv_consume e tr p rs e' :
  consume p e = (Ok rs, e') → stream_inv e tr → stream_inv e' (tr ++ [EConsume p rs]).
Proof.
  unfold consume. go_unfold. intros E Hi. destruct (heap e !! p) as [s|] eqn:Hs; [|done].
  destruct (decide (length (changes s) ≤ Offset s)); simplify_eq/=.
  - apply (inv_quiet e'); try done. intros q. cbn. by destruct (decide (p = q)).
  - intros q. rewrite appended_snoc, consumed_snoc. specialize (Hi q). cbn.
    rewrite !app_nil_r. destruct (decide (p = q)) as [<-|Hne].
    + rewrite list_lookup_insert_eq by (by eapply lookup_lt_Some). rewrite Hs in Hi. cbn.
      destruct Hi as (Ha & Ho & Hc & Hl). rewrite Hc, take_drop, firstn_all. auto.
    + rewrite list_lookup_insert_ne by done. by rewrite app_nil_r.
Qed.

Lemma stream_run_inv `{MapRange} st tr st' :
  run stream_step st tr st' → st = mkSys NewEngine [] [] → stream_inv (eng st') tr.
Proof.
  intros Hr. pattern st, tr, st'. revert st tr st' Hr. apply run_rev_ind.
  - by intros ? -> p.
  - intros s tr s' l s'' _ IH Hst Hs. specialize (IH Hs). clear Hs.
    destruct Hst; cbn [eng] in *.
    + by apply inv_create.
    + apply (inv_quiet e); try done. unfold DropStream. go_unfold. by destruct (streams e !! _).
    + by apply (inv_quiet e).
    + by apply (inv_quiet e).
    + by apply inv_visit.
    + by apply (inv_quiet e).
    + by apply (inv_quiet e).
    + by eapply inv_consume.
Qed.

(** C23: every change is consumed exactly once and in order.  Whatever the
    interleaving of record loops, consumers, creations and drops, what the calls
    of [ConsumeStream] have returned from a stream, followed by what it still
    holds beyond its offset, is exactly the sequence of the changes that were
    captured for it. *)
Theorem consumed_exactly_once `{MapRange} tr st p s :
  run stream_step (mkSys NewEngine [] []) tr st → heap (eng st) !! p = Some s →
  consumed p tr ++ drop (Offset s) (changes s) = appended p tr ∧
  Offset s = length (consumed p tr).
Proof.
  intros Hr Hs. pose proof (stream_run_inv _ _ _ Hr eq_refl p) as Hi. rewrite Hs in Hi.
  destruct Hi as (Ha & Ho & Hc & Hl). split; [|done]. rewrite Hc, take_drop. done.
Qed.

(** ** Recording, for an engine at rest *)

(** Distinct names denote distinct streams. *)
Definition wf (e : Engine) : Prop :=
  (∀ k p, streams e !! k = Some p → p < length (heap e)) ∧
  (∀ k1 k2 p, streams e !! k1 = Some p → streams e !! k2 = Some p → k1 = k2).

Lemma map_range_pointers `{MapRange} t e : wf e → NoDup (map_range t (streams e)).*2.
Proof.
  intros [_ Hinj]. apply NoDup_fmap_2_strong.
  - intros [k1 p1] [k2 p2] H1%elem_of_map_range H2%elem_of_map_range. cbn. intros ->.
    f_equal. by eapply Hinj.
  - eapply NoDup_fmap_1, map_range_NoDup_fst.
Qed.

Lemma record_visit_ok tKey c p s e :
  heap e !! p = Some s →
  ∃ e1, record_visit tKey c p e = (Ok tt, e1) ∧ streams e1 = streams e ∧
    heap e1 = <[p := if captures tKey c s then set_changes (changes s ++ [c]) s else s]> (heap e).
Proof.
  intros Hs. unfold record_visit. go_unfold. rewrite Hs.
  destruct (captures tKey c s); eexists; (split; [done|]); split; try done.
  by rewrite list_insert_id.
Qed.

Lemma record_visits tKey c ps e :
  NoDup ps → (∀ p, p ∈ ps → p < length (heap e)) →
  ∃ e', for_each (record_visit tKey c) ps e = (Ok tt, e') ∧ streams e' = streams e ∧
    ∀ p, heap e' !! p =
      (λ s, if decide (p ∈ ps) then
              if captures tKey c s then set_changes (changes s ++ [c]) s else s
            else s) <$> heap e !! p.
Proof.
  intros Hnd. revert e. induction Hnd as [|p ps Hp Hnd IH]; intros e Hlt.
  { exists e. split; [done|]. split; [done|]. intros p. destruct (heap e !! p); cbn; [|done].
    by rewrite decide_False by apply not_elem_of_nil. }
  destruct (lookup_lt_is_Some_2 (heap e) p) as [s Hs]; [apply Hlt; left|].
  destruct (record_visit_ok tKey c p s e Hs) as (e1 & E1 & Hst & Hh).
  cbn [for_each]. unfold bind. rewrite E1.
  destruct (IH e1) as (e' & -> & Hst' & Hh').
  { intros q Hq. rewrite Hh, length_insert. apply Hlt. by right. }
  exists e'. split; [done|]. split; [congruence|]. intros q. rewrite Hh', Hh.
  destruct (decide (q = p)) as [->|Hne].
  - rewrite list_lookup_insert_eq by (apply Hlt; left). rewrite Hs. cbn.
    rewrite decide_False by done. by rewrite decide_True by left.
  - rewrite list_lookup_insert_ne by done. destruct (heap e !! q); [|done]. cbn. f_equal.
    assert (q ∈ p :: ps ↔ q ∈ ps) as Hiff by set_solver.
    by rewrite (decide_ext _ _ _ _ Hiff).
Qed.

Lemma CreateStream_wf now db sc n tn ty e : wf e → wf (CreateStream now db sc n tn ty e).2.
Proof.
  intros Hwf. unfold CreateStream. go_unfold. case_match; [done|].
  destruct (streams e !! _) eqn:E; [done|]. cbn. destruct Hwf as [H1 H2]. split; cbn.
  - intros k p. rewrite length_app. cbn. intros [[<- <-]|[_ Hk%H1]]%lookup_insert_Some; lia.
  - intros k1 k2 p [[<- <-]|[_ Hk1]]%lookup_insert_Some [[<- E2]|[_ Hk2]]%lookup_insert_Some; eauto.
    + apply H1 in Hk2. lia.
    + apply H1 in Hk1. lia.
Qed.

Lemma DropStream_wf db sc n e : wf e → wf (DropStream db sc n e).2.
Proof.
  unfold DropStream. go_unfold. destruct (streams e !! _) eqn:E; [|done]. cbn.
  intros [H1 H2]. split; cbn.
  - intros k p [_ Hk]%lookup_delete_Some. eauto.
  - intros k1 k2 p [_ Hk1]%lookup_delete_Some [_ Hk2]%lookup_delete_Some. eauto.
Qed.

Lemma run_wf `{MapRange} tr st :
  run stream_step (mkSys NewEngine [] []) tr st → wf (eng st).
Proof.
  assert (Hsame : ∀ e e', streams e' = streams e → length (heap e') = length (heap e) →
    wf e → wf e') by (intros e e' Hs Hl [H1 H2]; unfold wf; by rewrite Hs, Hl).
  intros Hr. refine (run_preserves _ (λ st, wf (eng st)) _ _ _ _ Hr _); [|by split].
  clear -Hsame. intros s l s' Hwf Hst. destruct Hst; cbn [eng] in *; try done.
  - by apply CreateStream_wf.
  - by apply DropStream_wf.
  - destruct (record_visit_ok k c p s e) as (e1 & -> & Hs & Hh); [done|].
    apply (Hsame e); [done| |done]. cbn. by rewrite Hh, length_insert.
  - revert Hwf. apply Hsame; unfold consume in *; go_unfold;
      repeat case_match; simplify_eq/=; rewrite ?length_insert; done.
Qed.

Lemma RecordChange_spec `{MapRange} e now db sc t c : wf e →
  (RecordChange now db sc t c e).1 = Ok tt ∧
  streams (RecordChange now db sc t c e).2 = streams e ∧
  length (heap (RecordChange now db sc t c e).2) = length (heap e) ∧
  ∀ k p s, streams e !! k = Some p → heap e !! p = Some s →
  heap (RecordChange now db sc t c e).2 !! p =
    Some (if decide (tableKey (DatabaseName s) (SchemaName s) (TableName s) = tableKey db sc t ∧
                     (Type_ s = "APPEND_ONLY" → Action c = ChangeInsert))
          then set_changes (changes s ++ [stamp now c]) s else s).
Proof.
  intros Hwf. set (c' := stamp now c).
  destruct (record_visits (tableKey db sc t) c' (map_range 0 (streams e)).*2 e)
    as (e' & E & Hst & Hh).
  { by apply map_range_pointers. }
  { intros q ([k' q'] & -> & Hq%elem_of_map_range)%list_elem_of_fmap. by eapply Hwf. }
  unfold RecordChange, bind, get. fold c'. rewrite E. split; [done|]. split; [done|]. cbn. split.
  { assert (Hdom : ∀ q, is_Some (heap e' !! q) ↔ is_Some (heap e !! q)) by (intros q; rewrite Hh; apply fmap_is_Some).
    apply Nat.le_antisymm; apply Nat.nlt_ge; intros Hlt.
    - specialize (Hdom (length (heap e))). rewrite !lookup_lt_is_Some in Hdom. lia.
    - specialize (Hdom (length (heap e'))). rewrite !lookup_lt_is_Some in Hdom. lia. }
  intros k p s Hk Hs.
  rewrite Hh, Hs. cbn. f_equal. rewrite decide_True.
  2: { apply list_elem_of_fmap. exists (k, p). by rewrite elem_of_map_range. }
  assert (HA : Action c' = Action c) by (subst c'; unfold stamp; by case_match).
  assert (Hcap : captures (tableKey db sc t) c' s = true ↔
    tableKey (DatabaseName s) (SchemaName s) (TableName s) = tableKey db sc t ∧
    (Type_ s = "APPEND_ONLY" → Action c = ChangeInsert)).
  { unfold captures. rewrite HA, andb_true_iff, negb_true_iff, andb_false_iff, negb_false_iff,
      !bool_decide_eq_true, bool_decide_eq_false.
    destruct (decide (Type_ s = "APPEND_ONLY")); tauto. }
  destruct (captures _ _ _); [by rewrite decide_True by tauto|].
  rewrite decide_False; [done|]. by intros ?%Hcap.
Qed.

Lemma RecordChange_wf `{MapRange} e now db sc t c : wf e → wf (RecordChange now db sc t c e).2.
Proof.
  intros Hwf. destruct (RecordChange_spec e now db sc t c Hwf) as (_ & Hs & Hl & _). unfold wf.
  rewrite Hs, Hl. exact Hwf.
Qed.

(** Recording a change, with no loop running, appends it, stamped with the
    time when it had none, to exactly the streams on that table that capture its
    action (an APPEND_ONLY stream only captures inserts), whatever the order in
    which the map is iterated; every other stream keeps its contents, and no
    stream its offset changes. *)
Theorem record_change_captured `{MapRange} tr st now db sc t c k p s :
  run stream_step (mkSys NewEngine [] []) tr st →
  streams (eng st) !! k = Some p → heap (eng st) !! p = Some s →
  let c' := stamp now c in
  (RecordChange now db sc t c (eng st)).1 = Ok tt ∧
  streams (RecordChange now db sc t c (eng st)).2 = streams (eng st) ∧
  heap (RecordChange now db sc t c (eng st)).2 !! p =
    Some (if decide (tableKey (DatabaseName s) (SchemaName s) (TableName s) = tableKey db sc t ∧
                     (Type_ s = "APPEND_ONLY" → Action c = ChangeInsert))
          then set_changes (changes s ++ [c']) s else s).
Proof.
  intros Hr Hk Hs c'. destruct (RecordChange_spec (eng st) now db sc t c (run_wf _ _ Hr)) as (H1 & H2 & _ & H3). eauto.
Qed.

(** ** The engine is a registry of streams

    [CreateStream] also refuses an unknown type: the type is fixed to one of the
    two known ones. *)

Definition stream_kind (append_only : bool) : string :=
  if append_only then "append_only" else "".

#[export] Program Instance stream_registry :
    Registry Engine (string * string * string) (Z * string * bool) := {|
  reg_dom e := dom (streams e);
  reg_key '(db, sc, n) := streamKey db sc n;
  reg_create '(db, sc, n) '(now, t, a) := CreateStream now db sc n t (stream_kind a);
  reg_drop '(db, sc, n) := DropStream db sc n;
|}.
Next Obligation.
  intros [[db sc] n] [[now t] a] e H. apply not_elem_of_dom in H. unfold CreateStream.
  destruct a; cbn; go_unfold; rewrite H; cbn; by rewrite dom_insert_L.
Qed.
Next Obligation.
  intros [[db sc] n] [[now t] a] e [p H]%elem_of_dom. unfold CreateStream.
  destruct a; cbn; go_unfold; by rewrite H.
Qed.
Next Obligation.
  intros [[db sc] n] e [p H]%elem_of_dom. unfold DropStream. go_unfold.
  rewrite H. split; [done|]. cbn. by rewrite dom_delete_L.
Qed.
Next Obligation.
  intros [[db sc] n] e H. unfold DropStream. go_unfold. by apply not_elem_of_dom in H as ->.
Qed.

(** ** Witnesses *)

Definition ins (id : string) : ChangeRecord := mkChange "INSERT" false id ∅ 7.
Definition upd (id : string) : ChangeRecord := mkChange "UPDATE" true id ∅ 7.

Definition sample_stream (off : nat) (cs : list ChangeRecord) : Stream :=
  mkStream "st" "Db" "s" "T" "STANDARD" false (14 * 24 * Hour) off 0 cs.
Definition sample_engine (off : nat) (cs : list ChangeRecord) : Engine :=
  mkEngine [sample_stream off cs] {[ "db.s.st" := 0 ]}.

Definition sample_trace : list Event :=
  [ECreate 0 "Db" "s" "st" "T" ""; ERecord 1 "db" "S" "t" (ins "a"); ELookup "db" "s" "ST" 0;
   EVisit "db.s.t" (ins "a") 0 true; EConsume 0 [ins "a"]; EEndLoop;
   ERecord 1 "db" "s" "t" (upd "b"); EVisit "db.s.t" (upd "b") 0 true; EEndLoop].

Lemma stream_sample_run :
  run (@stream_step key_order) (mkSys NewEngine [] []) sample_trace
    (mkSys (sample_engine 1 [ins "a"; upd "b"]) [] []).
Proof.
  apply (run_cons _ _ _ (mkSys (sample_engine 0 []) [] [])).
  { exact (st_create NewEngine [] 0 "Db" "s" "st" "T" ""). }
  apply (run_cons _ _ _ (mkSys (sample_engine 0 []) [("db.s.t", ins "a", [0])] [])).
  { exact (@st_record key_order (sample_engine 0 []) [] [] 1 "db" "S" "t" (ins "a")). }
  eapply run_cons; [apply st_lookup; vm_compute; reflexivity|].
  apply (run_cons _ _ _ (mkSys (sample_engine 0 [ins "a"]) [("db.s.t", ins "a", [])] [0])).
  { exact (st_visit (sample_engine 0 []) [] "db.s.t" (ins "a") 0 [] [] [0] _ eq_refl). }
  apply (run_cons _ _ _ (mkSys (sample_engine 1 [ins "a"]) [("db.s.t", ins "a", [])] [])).
  { exact (st_consume (sample_engine 0 [ins "a"]) [("db.s.t", ins "a", [])] [] 0 [] _ _ eq_refl). }
  apply (run_cons _ _ _ (mkSys (sample_engine 1 [ins "a"]) [] [])).
  { exact (st_endloop _ [] "db.s.t" (ins "a") [] []). }
  apply (run_cons _ _ _ (mkSys (sample_engine 1 [ins "a"]) [("db.s.t", upd "b", [0])] [])).
  { exact (@st_record key_order (sample_engine 1 [ins "a"]) [] [] 1 "db" "s" "t" (upd "b")). }
  apply (run_cons _ _ _ (mkSys (sample_engine 1 [ins "a"; upd "b"]) [("db.s.t", upd "b", [])] [])).
  { exact (st_visit (sample_engine 1 [ins "a"]) [] "db.s.t" (upd "b") 0 [] [] [] _ eq_refl). }
  apply (run_cons _ _ _ (mkSys (sample_engine 1 [ins "a"; upd "b"]) [] [])).
  { exact (st_endloop _ [] "db.s.t" (upd "b") [] []). }
  apply run_nil.
Qed.

Lemma consumed_exactly_once_witness :
  consumed 0 sample_trace = [ins "a"] ∧ appended 0 sample_trace = [ins "a"; upd "b"] ∧
  consumed 0 sample_trace ++ [upd "b"] = appended 0 sample_trace.
Proof.
  split; [reflexivity|split; [reflexivity|]].
  exact (proj1 (@consumed_exactly_once key_order sample_trace _ 0 _ stream_sample_run eq_refl)).
Defined.

Lemma record_change_captured_witness :
  heap (@RecordChange key_order 9 "DB" "s" "t" (ins "c") (sample_engine 1 [ins "a"; upd "b"])).2
    !! 0 = Some (sample_stream 1 [ins "a"; upd "b"; ins "c"]).
Proof.
  destruct (@record_change_captured key_order sample_trace _ 9 "DB" "s" "t" (ins "c") "db.s.st" 0 _
    stream_sample_run eq_refl eq_refl) as (_ & _ & H).
  refine (eq_trans H _). vm_compute. reflexivity.
Defined.
