(* ===== verification/Network.v ===== *)
(** * Network policies ([internal/network/network.go])

    The manager checks client addresses against lists of CIDR blocks.  The
    address and block syntax and the containment test are those of Go's [net]
    package, written out below. *)

From S2P Require Import Prelude GoStrings Registry.
From Stdlib Require Import Ascii.
#[local] Open Scope Z_scope.

(** ** Addresses and blocks (Go's [net.ParseIP], [net.ParseCIDR], [Contains]) *)

(** An address as the number made of its 16 bytes; IPv4 addresses are mapped to
    [::ffff:a.b.c.d].  [is6] tells how it was written. *)
Record IPAddr := mkAddr { is6 : bool; as16 : Z }.

Definition v4_prefix : Z := 65535 * 2 ^ 32.

(** A decimal field of an IPv4 address: one digit at least, no leading zero, at
    most 255. *)
Definition parse_octet (s : string) : option Z :=
  match s with
  | "" => None
  | String c rest =>
      if bool_decide (c = "0"%char) && negb (bool_decide (rest = "")) then None
      else match digits_val 0 s with
           | Some v => if v <=? 255 then Some v else None
           | None => None
           end
  end.

Definition parse_ipv4 (s : string) : option Z :=
  match SplitByte dot s with
  | [a; b; c; d] =>
      a ← parse_octet a; b ← parse_octet b; c ← parse_octet c; d ← parse_octet d;
      Some (((a * 256 + b) * 256 + c) * 256 + d)
  | _ => None
  end.

Definition hex_val (c : ascii) : option Z :=
  let n := Z.of_N (N_of_ascii c) in
  if is_digit c then Some (n - 48)
  else if (97 <=? n) && (n <=? 102) then Some (n - 87)
  else if (65 <=? n) && (n <=? 70) then Some (n - 55)
  else None.

(** The hexadecimal digits at the front: how many, their value, the rest; [None]
    when there are more than four. *)
Fixpoint parse_hex (off : nat) (acc : Z) (s : string) : option (nat * Z * string) :=
  match s with
  | "" => Some (off, acc, s)
  | String c rest =>
      match hex_val c with
      | None => Some (off, acc, s)
      | Some d => if (3 <? off)%nat then None else parse_hex (S off) (acc * 16 + d) rest
      end
  end.

(** The loop of the IPv6 parser: at most eight 16-bit groups, the last two of
    which may be written as an IPv4 address; [ell] is the position of [::]. *)
Fixpoint parse_groups (fuel : nat) (s : string) (groups : list Z) (ell : option nat)
    : option (list Z * option nat) :=
  match fuel with
  | O => if decide (s = "") then Some (groups, ell) else None
  | S fuel =>
      match parse_hex 0 0 s with
      | None | Some (O, _, _) => None
      | Some (_, acc, rest) =>
          match rest with
          | "" => Some (groups ++ [acc], ell)
          | String c rest' =>
              if decide (c = dot) then
                let i := length groups in
                if bool_decide (ell = None) && negb (i =? 6)%nat then None
                else if (8 <? i + 2)%nat then None
                else v ← parse_ipv4 s; Some (groups ++ [v / 65536; v mod 65536], ell)
              else if decide (c ≠ ":"%char) then None
              else
                match rest' with
                | "" => None
                | String c2 rest2 =>
                    let groups := groups ++ [acc] in
                    if decide (c2 = ":"%char) then
                      match ell with
                      | Some _ => None
                      | None =>
                          if decide (rest2 = "") then Some (groups, Some (length groups))
                          else parse_groups fuel rest2 groups (Some (length groups))
                      end
                    else parse_groups fuel rest' groups ell
                end
          end
      end
  end.

Definition groups_val (gs : list Z) : Z := foldl (λ acc g, acc * 65536 + g) 0 gs.

(** Filling the [::] with zeros; it has to stand for at least one group. *)
Definition expand (gs : list Z) (ell : option nat) : option Z :=
  match ell with
  | None => if (length gs =? 8)%nat then Some (groups_val gs) else None
  | Some e =>
      if (length gs <? 8)%nat
      then Some (groups_val (take e gs ++ repeat 0 (8 - length gs) ++ drop e gs))
      else None
  end.

Definition parse_ipv6 (s : string) : option Z :=
  match TrimPrefixOpt s "::" with
  | Some "" => Some 0
  | Some rest => '(gs, ell) ← parse_groups 8 rest [] (Some 0%nat); expand gs ell
  | None => '(gs, ell) ← parse_groups 8 s [] None; expand gs ell
  end.

(** Which of the two notations is used is decided by the first dot or colon;
    addresses with a zone are refused. *)
Fixpoint first_sep (s : string) : option ascii :=
  match s with
  | "" => None
  | String c s =>
      if decide (c = dot) then Some c else if decide (c = ":"%char) then Some c else first_sep s
  end.

Definition ParseAddr (s : string) : option IPAddr :=
  if decide ("%"%char ∈ bytes s) then None
  else match first_sep s with
       | None => None
       | Some c =>
           if decide (c = dot) then v ← parse_ipv4 s; Some (mkAddr false (v4_prefix + v))
           else v ← parse_ipv6 s; Some (mkAddr true v)
       end.

Definition ParseIP (s : string) : option Z := as16 <$> ParseAddr s.

Definition To4 (a : Z) : option Z := if a / 2 ^ 32 =? 65535 then Some (a mod 2 ^ 32) else None.

(** A block: how it was written, its address and the number of leading bits. *)
Record IPNet := mkNet { net6 : bool; net_addr : Z; net_bits : Z }.

Definition ParseCIDR (s : string) : result IPNet :=
  let err := Err ("invalid CIDR address: " +:+ s) in
  match Cut s "/" with
  | None => err
  | Some (addr, mask) =>
      match ParseAddr addr with
      | None => err
      | Some a =>
          if decide (mask = "") then err
          else match digits_val 0 mask with
               | None => err
               | Some n =>
                   if n <=? (if is6 a then 128 else 32) then Ok (mkNet (is6 a) (as16 a) n) else err
               end
      end
  end.

(** Clearing the last [k] bits. *)
Definition mask_low (k a : Z) : Z := Z.shiftl (Z.shiftr a k) k.

(** The bytes of the network number and of the address are compared under the
    mask; a 4-byte address is only compared with a 4-byte network number, which an
    IPv6 block has when its masked address is a mapped one. *)
Definition Contains (n : IPNet) (ip : Z) : bool :=
  if net6 n then
    let k := 128 - net_bits n in
    let nn := mask_low k (net_addr n) in
    match To4 nn, To4 ip with
    | Some y, Some x => mask_low k x =? mask_low k y
    | None, None => mask_low k ip =? nn
    | _, _ => false
    end
  else
    let k := 32 - net_bits n in
    match To4 ip with
    | Some x => mask_low k x =? mask_low k (net_addr n mod 2 ^ 32)
    | None => false
    end.

Example parse_v4 : ParseIP "10.0.0.1" = Some (v4_prefix + 167772161).
Proof. reflexivity. Qed.
Example parse_v4_zero : ParseIP "10.00.0.1" = None.
Proof. reflexivity. Qed.
Example parse_v6 : ParseIP "2001:db8::1" = Some (0x20010db8000000000000000000000001).
Proof. reflexivity. Qed.
Example parse_v6_mapped : ParseIP "::ffff:1.2.3.4" = ParseIP "1.2.3.4".
Proof. reflexivity. Qed.
Example parse_v6_bad : ParseIP "1::2::3" = None.
Proof. reflexivity. Qed.

(** ** Data *)

Record Policy := mkPolicy {
  Name : string;
  AllowedIPList : list string;
  BlockedIPList : list string;
  Comment : string;
  CreatedAt : Z;
}.

Record PolicyInfo := mkInfo { i_Name : string; i_Comment : string; i_CreatedAt : Z }.

Record Manager := mkManager {
  policies : gmap string Policy;
  activePolicy : string;
}.

(** ** Operations *)

Definition NewManager : Manager := mkManager ∅ "".

Fixpoint validateCIDRList (cidrs : list string) : result unit :=
  match cidrs with
  | [] => Ok tt
  | c :: cidrs =>
      match ParseCIDR c with
      | Err e => Err ("invalid CIDR " +:+ Quote c +:+ ": " +:+ e)
      | Ok _ => validateCIDRList cidrs
      end
  end.

(** The two checks that [CreatePolicy] and [AlterPolicy] start with. *)
Definition validate_lists {S} (allowedIPs blockedIPs : list string) : GoM S unit :=
  λ s, (match wrap_err "allowed IP list" (validateCIDRList allowedIPs) with
        | Err e => Err e
        | Ok _ => wrap_err "blocked IP list" (validateCIDRList blockedIPs)
        end, s).

Definition CreatePolicy (now : Z) (name : string) (allowedIPs blockedIPs : list string)
    (comment : string) : GoM Manager unit :=
  validate_lists allowedIPs blockedIPs ;;;
  let! m := get in
  match policies m !! name with
  | Some _ => fail ("network policy " +:+ Quote name +:+ " already exists")
  | None =>
      put (mkManager (<[name := mkPolicy name allowedIPs blockedIPs comment now]> (policies m))
             (activePolicy m))
  end.

Definition DropPolicy (name : string) : GoM Manager unit :=
  let! m := get in
  match policies m !! name with
  | None => fail ("network policy " +:+ Quote name +:+ " does not exist")
  | Some _ =>
      if decide (activePolicy m = name)
      then fail ("cannot drop active network policy " +:+ Quote name +:+ "; unset it first")
      else put (mkManager (delete name (policies m)) (activePolicy m))
  end.

Definition AlterPolicy (name : string) (allowedIPs blockedIPs : list string)
    : GoM Manager unit :=
  validate_lists allowedIPs blockedIPs ;;;
  let! m := get in
  match policies m !! name with
  | None => fail ("network policy " +:+ Quote name +:+ " does not exist")
  | Some p =>
      put (mkManager
             (<[name := mkPolicy (Name p) allowedIPs blockedIPs (Comment p) (CreatedAt p)]>
                (policies m))
             (activePolicy m))
  end.

Definition SetActivePolicy (name : string) : GoM Manager unit :=
  let! m := get in
  if negb (bool_decide (name = "")) && negb (bool_decide (is_Some (policies m !! name)))
  then fail ("network policy " +:+ Quote name +:+ " does not exist")
  else put (mkManager (policies m) name).

(** The first block of a list that contains the address; unparsable entries are
    skipped. *)
Definition first_match (ip : Z) (cidrs : list string) : option string :=
  find (λ c, match ParseCIDR c with Ok n => Contains n ip | Err _ => false end) cidrs.

Definition CheckAccess (m : Manager) (clientIP : string) : bool * string :=
  if decide (activePolicy m = "") then (true, "no active network policy")
  else match policies m !! activePolicy m with
       | None => (true, "active policy not found")
       | Some p =>
           match ParseIP clientIP with
           | None => (false, "invalid client IP: " +:+ clientIP)
           | Some ip =>
               match first_match ip (BlockedIPList p) with
               | Some cidr => (false, "IP " +:+ clientIP +:+ " is in blocked list (" +:+ cidr +:+ ")")
               | None =>
                   match AllowedIPList p with
                   | [] => (true, "allowed")
                   | allowed =>
                       match first_match ip allowed with
                       | Some _ => (true, "allowed")
                       | None => (false, "IP " +:+ clientIP +:+ " is not in allowed list")
                       end
                   end
               end
           end
       end.

Definition ShowPolicies `{MapRange} (m : Manager) : list PolicyInfo :=
  (λ kp : string * Policy, mkInfo (Name kp.2) (Comment kp.2) (CreatedAt kp.2))
    <$> map_range 0 (policies m).

Definition DescribePolicy (m : Manager) (name : string) : result Policy :=
  match policies m !! name with
  | None => Err ("network policy " +:+ Quote name +:+ " does not exist")
  | Some p => Ok p
  end.

(** ** Specification *)

(** The address is one of the [2^k] addresses of the block, where [k] is the
    number of bits the block leaves free, and it is an IPv4 address exactly when
    the block is one of IPv4 addresses. *)
Definition block_free (n : IPNet) : Z := (if net6 n then 128 else 32) - net_bits n.
Definition block_base (n : IPNet) : Z := net_addr n / 2 ^ block_free n * 2 ^ block_free n.
Definition in_block (n : IPNet) (ip : Z) : Prop :=
  block_base n ≤ ip < block_base n + 2 ^ block_free n ∧
  (is_Some (To4 (block_base n)) ↔ is_Some (To4 ip)).

(** An entry of a list matches an address. *)
Definition in_cidr (ip : Z) (c : string) : Prop := ∃ n, ParseCIDR c = Ok n ∧ in_block n ip.

(** What the active policy should allow. *)
Definition policy_allows (p : Policy) (ip : Z) : Prop :=
  (∀ c, c ∈ BlockedIPList p → ¬ in_cidr ip c) ∧
  (AllowedIPList p = [] ∨ ∃ c, c ∈ AllowedIPList p ∧ in_cidr ip c).

Definition valid_list (l : list string) : Prop := ∀ c, c ∈ l → is_ok (ParseCIDR c) = true.

(** Policies are stored under their names with parsable lists, and the active
    policy exists. *)
Record wf (m : Manager) : Prop := {
  wf_policy : ∀ k p, policies m !! k = Some p →
    Name p = k ∧ valid_list (AllowedIPList p) ∧ valid_list (BlockedIPList p);
  wf_active : activePolicy m = "" ∨ activePolicy m ∈ dom (policies m);
}.

Inductive Op : Type :=
  | OpCreate (now : Z) (name : string) (allowed blocked : list string) (comment : string)
  | OpDrop (name : string)
  | OpAlter (name : string) (allowed blocked : list string)
  | OpSetActive (name : string).

Definition run_op (o : Op) : GoM Manager unit :=
  match o with
  | OpCreate now n a b c => CreatePolicy now n a b c
  | OpDrop n => DropPolicy n
  | OpAlter n a b => AlterPolicy n a b
  | OpSetActive n => SetActivePolicy n
  end.

Definition net_reachable : Manager → Prop :=
  reachable (λ m, m = NewManager) (λ m o m', (run_op o m).2 = m').

(** ** Proofs: containment is membership of an interval *)

Lemma mask_low_div k a : 0 ≤ k → mask_low k a = a / 2 ^ k * 2 ^ k.
Proof. intros Hk. unfold mask_low. by rewrite Z.shiftl_mul_pow2, Z.shiftr_div_pow2. Qed.

Lemma mask_low_eq k a b :
  0 ≤ k → (mask_low k a =? mask_low k b) = true ↔ a / 2 ^ k = b / 2 ^ k.
Proof.
  intros Hk. rewrite Z.eqb_eq, !mask_low_div by done.
  pose proof (Z.pow_pos_nonneg 2 k ltac:(lia) Hk). split; [|by intros ->]. intros H1. nia.
Qed.

Lemma div_interval k a b :
  0 < k → a / k = b / k ↔ b / k * k ≤ a < b / k * k + k.
Proof.
  intros Hk. pose proof (Z.div_mod a k ltac:(lia)). pose proof (Z.mod_pos_bound a k Hk).
  split; [intros E; rewrite E in *; lia|]. intros Hb.
  symmetry. apply (Z.div_unique a k _ (a - b / k * k)); lia.
Qed.

Lemma To4_Some a x : To4 a = Some x ↔ a = v4_prefix + x ∧ 0 ≤ x < 2 ^ 32.
Proof.
  unfold To4, v4_prefix. pose proof (Z.div_mod a (2 ^ 32) ltac:(done)).
  pose proof (Z.mod_pos_bound a (2 ^ 32) ltac:(done)).
  destruct (Z.eqb_spec (a / 2 ^ 32) 65535) as [E|E].
  - rewrite E in *. split; [intros [= <-]; lia|intros [-> ?]; f_equal; lia].
  - split; [done|]. intros [-> ?]. exfalso. apply E.
    symmetry. apply (Z.div_unique _ _ _ x); lia.
Qed.

(** Dividing a mapped address and its low 32 bits by a power of two. *)
Lemma v4_div k x : 0 ≤ k ≤ 32 → (v4_prefix + x) / 2 ^ k = 65535 * 2 ^ (32 - k) + x / 2 ^ k.
Proof.
  intros Hk. unfold v4_prefix.
  replace (2 ^ 32) with (2 ^ (32 - k) * 2 ^ k) by (rewrite <- Z.pow_add_r; [f_equal; lia|lia..]).
  rewrite Z.mul_assoc. apply Z.div_add_l. apply Z.pow_nonzero; lia.
Qed.

Definition valid_net (n : IPNet) : Prop :=
  if net6 n then 0 ≤ net_bits n ≤ 128
  else 0 ≤ net_bits n ≤ 32 ∧ is_Some (To4 (net_addr n)).

Lemma base_v4 n :
  net6 n = false → valid_net n → is_Some (To4 (block_base n)).
Proof.
  unfold valid_net, block_base, block_free. intros -> [Hb [a Ha]].
  apply To4_Some in Ha as [Ha Hr]. set (k := 32 - net_bits n).
  rewrite Ha, v4_div by lia. exists (a / 2 ^ k * 2 ^ k). apply To4_Some.
  pose proof (Z.pow_pos_nonneg 2 k ltac:(lia) ltac:(lia)).
  pose proof (Z.mul_div_le a (2 ^ k) ltac:(lia)).
  pose proof (Z.div_pos a (2 ^ k) ltac:(lia) ltac:(lia)). split; [|nia].
  unfold v4_prefix. rewrite Z.mul_add_distr_r, <- Z.mul_assoc, <- Z.pow_add_r by lia.
  do 2 f_equal. f_equal. lia.
Qed.

(** A block whose base is a mapped IPv4 address leaves at most 32 bits free. *)
Lemma mapped_base_free k c y : 0 ≤ k → To4 (c * 2 ^ k) = Some y → k ≤ 32.
Proof.
  intros Hk [E Hy]%To4_Some. destruct (Z.le_gt_cases k 32) as [|Hgt]; [done|]. exfalso.
  assert (Hd : c * 2 ^ k / 2 ^ 32 = 65535).
  { rewrite E. unfold v4_prefix. rewrite Z.div_add_l, Z.div_small by lia. done. }
  replace (2 ^ k) with (2 * 2 ^ (k - 33) * 2 ^ 32) in Hd.
  - rewrite Z.mul_assoc, Z.div_mul in Hd by done. lia.
  - rewrite <- Z.pow_succ_r, <- Z.pow_add_r by lia. f_equal. lia.
Qed.

(** Under the IPv4 prefix, comparing the low parts is comparing the addresses. *)
Lemma mapped_mask_eq k x y :
  0 ≤ k ≤ 32 →
  (mask_low k x =? mask_low k y) = true ↔
  (v4_prefix + y) / 2 ^ k * 2 ^ k ≤ v4_prefix + x < (v4_prefix + y) / 2 ^ k * 2 ^ k + 2 ^ k.
Proof.
  intros Hk. rewrite mask_low_eq by lia.
  rewrite <- div_interval by (apply Z.pow_pos_nonneg; lia). rewrite !v4_div by done. lia.
Qed.

Lemma Contains_spec n ip : valid_net n → Contains n ip = true ↔ in_block n ip.
Proof.
  intros Hn. pose proof (base_v4 n) as Hb. unfold Contains, in_block.
  unfold valid_net in Hn. destruct (net6 n) eqn:E6.
  - assert (Hk : 0 ≤ block_free n) by (unfold block_free; rewrite E6; lia).
    assert (E : 128 - net_bits n = block_free n) by (unfold block_free; by rewrite E6).
    rewrite E, !mask_low_div by done. fold (block_base n).
    pose proof (Z.pow_pos_nonneg 2 _ ltac:(lia) Hk) as Hp.
    destruct (To4 (block_base n)) as [y|] eqn:Ey, (To4 ip) as [x|] eqn:Ex.
    + assert (block_free n ≤ 32) by (by eapply mapped_base_free).
      apply To4_Some in Ey as [Ey Hy], Ex as [Ex Hx].
      rewrite mapped_mask_eq by lia. rewrite <- Ey, <- Ex.
      assert (Hbb : block_base n / 2 ^ block_free n * 2 ^ block_free n = block_base n)
        by (unfold block_base; rewrite Z.div_mul; lia).
      rewrite Hbb. split; [|tauto]. intros Hin. split; [done|]. by split.
    + split; [done|]. intros [_ Hw]. exfalso. apply (@is_Some_None Z), Hw. eauto.
    + split; [done|]. intros [_ Hw]. exfalso. apply (@is_Some_None Z), Hw. eauto.
    + rewrite Z.eqb_eq. unfold block_base at 1 2 3.
      rewrite <- div_interval by done. split.
      * intros H. split; [nia|done].
      * by intros [-> _].
  - destruct Hn as [Hbits [a Ha]]. destruct Hb as [b Hb]; [done|unfold valid_net; rewrite E6; eauto|].
    assert (Hk : 0 ≤ block_free n ≤ 32) by (unfold block_free; rewrite E6; lia).
    assert (E : 32 - net_bits n = block_free n) by (unfold block_free; by rewrite E6).
    rewrite E. destruct (To4 ip) as [x|] eqn:Ex.
    + apply To4_Some in Ha as [Ha Hr], Ex as [Ex Hx].
      assert (net_addr n mod 2 ^ 32 = a) as ->.
      { rewrite Ha. unfold v4_prefix. rewrite Z.add_comm, Z.mod_add, Z.mod_small by lia. done. }
      rewrite mapped_mask_eq by done. rewrite <- Ha, <- Ex. fold (block_base n).
      rewrite Hb. split; [|tauto]. intros Hin. split; [done|]. by split.
    + split; [done|]. intros [_ Hw]. exfalso. apply (@is_Some_None Z), Hw. rewrite Hb. eauto.
Qed.

(** ** Proofs: the parsers give valid blocks *)

Lemma digits_val_nonneg s acc n : 0 ≤ acc → digits_val acc s = Some n → 0 ≤ n.
Proof.
  revert acc. induction s as [|c s IH]; intros acc Ha; cbn; [by intros [= <-]|].
  destruct (is_digit c) eqn:Ed; [|done]. intros H. eapply IH; [|done].
  unfold is_digit, byte_in in Ed. apply andb_true_iff in Ed as [Ed%N.leb_le _]. lia.
Qed.

Lemma parse_octet_range s v : parse_octet s = Some v → 0 ≤ v ≤ 255.
Proof.
  unfold parse_octet. destruct s as [|c s]; [done|]. case_match; [done|].
  destruct (digits_val 0 (String c s)) as [w|] eqn:E; [|done]. case_match; [|done].
  intros [= ->]. apply digits_val_nonneg in E; lia.
Qed.

Lemma parse_ipv4_range s v : parse_ipv4 s = Some v → 0 ≤ v < 2 ^ 32.
Proof.
  unfold parse_ipv4. destruct (SplitByte dot s) as [|a [|b [|c [|d [|]]]]]; try done. intros H.
  repeat (apply bind_Some in H as (? & ?%parse_octet_range & H)). simplify_eq. lia.
Qed.

Lemma ParseCIDR_valid s n : ParseCIDR s = Ok n → valid_net n.
Proof.
  unfold ParseCIDR. destruct (Cut s "/") as [[addr mask]|]; [|done].
  destruct (ParseAddr addr) as [a|] eqn:Ea; [|done]. case_decide; [done|].
  destruct (digits_val 0 mask) as [w|] eqn:Ew; [|done].
  destruct (w <=? _) eqn:Eb; [|done]. intros [= <-]. apply Z.leb_le in Eb.
  apply digits_val_nonneg in Ew; [|done]. unfold valid_net. cbn.
  destruct (is6 a) eqn:E6; [lia|]. split; [lia|]. unfold ParseAddr in Ea.
  repeat case_match; try done; apply bind_Some in Ea as (v & Hv & Ea); simplify_eq/=.
  exists v. apply To4_Some. split; [done|]. by apply parse_ipv4_range in Hv.
Qed.

Lemma first_match_spec ip l :
  is_Some (first_match ip l) ↔ ∃ c, c ∈ l ∧ in_cidr ip c.
Proof.
  unfold first_match. split.
  - intros [c Hc]. apply find_some in Hc as [Hin Hc]. exists c.
    split; [by apply list_elem_of_In|]. destruct (ParseCIDR c) as [n|] eqn:E; [|done].
    exists n. split; [done|]. apply Contains_spec; [|done]. by eapply ParseCIDR_valid.
  - intros (c & Hin & n & E & Hc). destruct (find _ l) eqn:Ef; [by eexists|]. exfalso.
    apply list_elem_of_In in Hin. pose proof (find_none _ _ Ef _ Hin) as Hf. cbn in Hf.
    rewrite E in Hf. apply Contains_spec in Hc; [congruence|]. by eapply ParseCIDR_valid.
Qed.

(** ** Proofs: the invariant *)

Lemma validateCIDRList_spec l r : validateCIDRList l = Ok r → valid_list l.
Proof.
  induction l as [|c l IH]; cbn; [by intros _ c ?%elem_of_nil|].
  destruct (ParseCIDR c) eqn:E; [|done]. intros H c' [->|Hin]%elem_of_cons; [by rewrite E|].
  by apply IH.
Qed.

Lemma validate_lists_spec {S} a b (s : S) :
  (∃ e, validate_lists a b s = (Err e, s)) ∨
  (validate_lists a b s = (Ok tt, s) ∧ valid_list a ∧ valid_list b).
Proof.
  unfold validate_lists. destruct (validateCIDRList a) as [[]|] eqn:Ea; cbn; [|by eauto].
  destruct (validateCIDRList b) as [[]|] eqn:Eb; cbn; [|by eauto]. right.
  apply validateCIDRList_spec in Ea, Eb. done.
Qed.

Lemma wf_insert m k p :
  Name p = k → valid_list (AllowedIPList p) → valid_list (BlockedIPList p) → wf m →
  wf (mkManager (<[k := p]> (policies m)) (activePolicy m)).
Proof.
  intros Hn Ha Hb [H1 H2]. split; cbn.
  - intros k' p' [[<- <-]|[_ ?]]%lookup_insert_Some; eauto.
  - rewrite dom_insert_L. set_solver.
Qed.

Lemma network_op_wf m op : wf m → wf (run_op op m).2.
Proof.
  intros Hm. destruct op as [now n a b c|n|n a b|n]; unfold run_op.
  - unfold CreatePolicy, bind. destruct (validate_lists_spec a b m) as [[e ->]|(-> & Ha & Hb)];
      [done|]. go_unfold. destruct (policies m !! n); [done|]. by apply wf_insert.
  - unfold DropPolicy. go_unfold. destruct (policies m !! n); [|done]. case_decide as Hd; [done|].
    destruct Hm as [H1 H2]. split; cbn.
    + intros k' p' [_ ?]%lookup_delete_Some. eauto.
    + rewrite dom_delete_L. set_solver.
  - unfold AlterPolicy, bind. destruct (validate_lists_spec a b m) as [[e ->]|(-> & Ha & Hb)];
      [done|]. go_unfold. destruct (policies m !! n) as [p|] eqn:E; [|done].
    apply wf_insert; try done. by destruct (wf_policy m Hm n p E).
  - unfold SetActivePolicy. go_unfold. case_match eqn:E; [done|]. destruct Hm as [H1 _].
    split; [done|]. cbn. apply andb_false_iff in E as [E|E]; apply negb_false_iff in E;
      apply bool_decide_eq_true in E; [by left|right; by apply elem_of_dom].
Qed.

Lemma net_reachable_wf m : net_reachable m → wf m.
Proof.
  apply reachable_inv.
  - intros ? ->. split; [|by left]. intros k p. cbn. by rewrite lookup_empty.
  - intros s op s' Hs <-. by apply network_op_wf.
Qed.

(** C24: without an active policy every client is let in.  Otherwise, in any
    reachable state, the active policy exists and all its entries parse, and a
    client is let in exactly when its address parses, lies in no block of the
    blocked list and, unless the allowed list is empty, in some block of the
    allowed list: the blocked list takes precedence, and a block is the interval
    of the addresses that share its leading bits. *)
Theorem check_access_policy m ip :
  net_reachable m → activePolicy m ≠ "" →
  ∃ p, policies m !! activePolicy m = Some p ∧
    valid_list (AllowedIPList p) ∧ valid_list (BlockedIPList p) ∧
    ((CheckAccess m ip).1 = true ↔ ∃ a, ParseIP ip = Some a ∧ policy_allows p a).
Proof.
  intros Hm%net_reachable_wf Hact. destruct (wf_active m Hm) as [|[p Hp]%elem_of_dom]; [done|].
  exists p. split; [done|]. destruct (wf_policy m Hm _ p Hp) as (_ & Ha & Hb).
  split; [done|]. split; [done|]. unfold CheckAccess. rewrite decide_False, Hp by done.
  destruct (ParseIP ip) as [a|]; [|split; [done|by intros (? & ? & _)]].
  assert (Hiff : ∀ b : bool, (b = true ↔ policy_allows p a) →
    (b = true ↔ ∃ a', Some a = Some a' ∧ policy_allows p a')).
  { intros b ->. split; [eauto|]. by intros (? & [= <-] & ?). }
  apply Hiff. clear Hiff. unfold policy_allows.
  pose proof (first_match_spec a (BlockedIPList p)) as HB.
  destruct (first_match a (BlockedIPList p)).
  - split; [done|]. intros [Hn _]. exfalso.
    destruct HB as [HB _]. destruct HB as (c & Hc & Hin); [eauto|]. by apply (Hn c).
  - assert (∀ c, c ∈ BlockedIPList p → ¬ in_cidr a c) as Hnb.
    { intros c Hc Hin. destruct HB as [_ HB]. by destruct HB; eauto. }
    destruct (AllowedIPList p) as [|c0 l]; [by split; auto|].
    pose proof (first_match_spec a (c0 :: l)) as HA.
    destruct (first_match a (c0 :: l)); cbn; split; try done.
    + intros _. split; [done|]. right. apply HA. eauto.
    + intros [_ [|Hex]]; [done|]. apply HA in Hex. by destruct Hex.
Qed.

(** ** Witnesses *)

Definition sample_ops : list Op :=
  [OpCreate 0 "p" ["10.0.0.0/8"; "2001:db8::/32"] ["10.1.0.0/16"] ""; OpSetActive "p";
   OpDrop "p"].
Definition sample : Manager := foldl (λ m op, (run_op op m).2) NewManager sample_ops.

Lemma network_sample_reachable : net_reachable sample.
Proof. by apply (reachable_exec _ _ (λ o m, (run_op o m).2)). Qed.

Lemma check_access_policy_witness :
  (CheckAccess sample "10.2.3.4").1 = true ∧ (CheckAccess sample "10.1.3.4").1 = false ∧
  (CheckAccess sample "2001:db8::7").1 = true ∧
  ∃ p, policies sample !! "p" = Some p ∧ ∃ a, ParseIP "10.2.3.4" = Some a ∧ policy_allows p a.
Proof.
  do 3 (split; [vm_compute; reflexivity|]).
  destruct (check_access_policy sample "10.2.3.4" network_sample_reachable ltac:(discriminate))
    as (p & Hp & _ & _ & H & _).
  exists p. split; [exact Hp|]. apply H. vm_compute. reflexivity.
Defined.
