(* ===== verification/Alert.v ===== *)
(** * Alerts ([internal/alert/alert.go])

    A started alert has a goroutine that ticks until its stop channel is closed.
    The manager's operations run under its lock; a tick reads the alert under the
    lock, runs the condition and the action outside of it and takes it again to
    note the time.  The transition system interleaves all of these.  The stop channel of
    the [i]-th goroutine started is the number [i], [closed] are the closed
    channels; closing one twice panics. *)

From S2P Require Import Prelude GoStrings GoTime.

(** ** Data *)

Definition AlertState : Type := string.
Definition AlertStarted : AlertState := "started".
Definition AlertSuspended : AlertState := "suspended".

Record Alert := mkAlert {
  Name : string;
  Database : string;
  Schema : string;
  Warehouse : string;
  Schedule : string;
  Condition : string;
  Action : string;
  State : AlertState;
  CreatedAt : Z;
  LastFired : option Z;
}.

(** [AlertInfo] has the same fields. *)
Definition AlertInfo : Type := Alert.

(** What a goroutine is doing: waiting in its [select], or in [checkAndFire]
    before the query, before the action, or before noting the time; or finished. *)
Inductive Phase : Type :=
  | Waiting
  | Querying (condition action : string)
  | Firing (action : string)
  | Noting
  | Exited.

Record Goroutine := mkGo {
  g_key : string;
  g_interval : Z;
  g_phase : Phase;
}.

Record Manager := mkManager {
  alerts : gmap string Alert;
  stopChs : gmap string nat;
  closed : gset nat;
  goroutines : list Goroutine;
}.

Definition set_alerts (al : gmap string Alert) (m : Manager) : Manager :=
  mkManager al (stopChs m) (closed m) (goroutines m).
Definition set_State (st : AlertState) (a : Alert) : Alert :=
  mkAlert (Name a) (Database a) (Schema a) (Warehouse a) (Schedule a) (Condition a) (Action a)
    st (CreatedAt a) (LastFired a).
Definition set_LastFired (t : Z) (a : Alert) : Alert :=
  mkAlert (Name a) (Database a) (Schema a) (Warehouse a) (Schedule a) (Condition a) (Action a)
    (State a) (CreatedAt a) (Some t).

(** ** Operations *)

Definition NewManager : Manager := mkManager ∅ ∅ ∅ [].

Definition alertKey (db schema name : string) : string :=
  dotted (ToUpper db) (ToUpper schema) (ToUpper name).

(** [time.Duration(n) * time.Minute] wraps around for large [n]. *)
Definition parseSchedule (schedule : string) : Z :=
  match Fields (TrimSpace schedule) with
  | [p0; p1] =>
      if EqualFold p1 "MINUTE" then
        match Atoi p0 with
        | Some n => if (0 <? n)%Z then wrap64 (n * Minute) else Minute
        | None => Minute
        end
      else Minute
  | _ => Minute
  end.

(** The channel of the next goroutine. *)
Definition fresh_ch (m : Manager) : nat := length (goroutines m).

Definition startAlertLocked (key : string) (a : Alert) : GoM Manager unit :=
  let interval := parseSchedule (Schedule a) in
  let interval := if (interval <=? 0)%Z then Minute else interval in
  let! m := get in
  put (mkManager (alerts m) (<[key := fresh_ch m]> (stopChs m)) (closed m)
         (goroutines m ++ [mkGo key interval Waiting])).

(** [close(ch)] *)
Definition close_ch (ch : nat) : GoM Manager unit :=
  let! m := get in
  if decide (ch ∈ closed m) then fail "panic: close of closed channel"
  else put (mkManager (alerts m) (stopChs m) ({[ch]} ∪ closed m) (goroutines m)).

(** [if ch, ok := m.stopChs[key]; ok { close(ch); delete(m.stopChs, key) }] *)
Definition stop_key (key : string) : GoM Manager unit :=
  let! m := get in
  match stopChs m !! key with
  | None => ret tt
  | Some ch =>
      close_ch ch ;;;
      modify (λ m, mkManager (alerts m) (delete key (stopChs m)) (closed m) (goroutines m))
  end.

Definition CreateAlert (now : Z) (db schema name warehouse schedule condition action : string)
    : GoM Manager unit :=
  let key := alertKey db schema name in
  let! m := get in
  match alerts m !! key with
  | Some _ => fail ("alert " +:+ Quote key +:+ " already exists")
  | None =>
      put (set_alerts (<[key := mkAlert name db schema warehouse schedule condition action
                                  AlertSuspended now None]> (alerts m)) m)
  end.

Definition DropAlert (db schema name : string) : GoM Manager unit :=
  let key := alertKey db schema name in
  let! m := get in
  match alerts m !! key with
  | None => fail ("alert " +:+ Quote key +:+ " does not exist")
  | Some _ =>
      stop_key key ;;;
      modify (λ m, set_alerts (delete key (alerts m)) m)
  end.

Definition AlterAlert (db schema name : string) (state : AlertState) : GoM Manager unit :=
  let key := alertKey db schema name in
  let! m := get in
  match alerts m !! key with
  | None => fail ("alert " +:+ Quote key +:+ " does not exist")
  | Some a =>
      let oldState := State a in
      let a := set_State state a in
      modify (λ m, set_alerts (<[key := a]> (alerts m)) m) ;;;
      if decide (state = AlertStarted ∧ oldState ≠ AlertStarted) then startAlertLocked key a
      else if decide (state = AlertSuspended ∧ oldState = AlertStarted) then stop_key key
      else ret tt
  end.

Definition ShowAlerts `{MapRange} (m : Manager) (db schema : string) : list AlertInfo :=
  '(_, a) ← map_range 0 (alerts m);
  if negb (bool_decide (db = "")) && negb (EqualFold (Database a) db) then []
  else if negb (bool_decide (schema = "")) && negb (EqualFold (Schema a) schema) then []
  else [a].

(** The bodies of the loops of [Start] and [Stop]. *)
Definition start_one (ka : string * Alert) : GoM Manager unit :=
  if decide (State ka.2 = AlertStarted) then
    let! m := get in
    match stopChs m !! ka.1 with
    | Some _ => ret tt
    | None => startAlertLocked ka.1 ka.2
    end
  else ret tt.

Definition stop_one (kc : string * nat) : GoM Manager unit :=
  close_ch kc.2 ;;;
  modify (λ m, mkManager (alerts m) (delete kc.1 (stopChs m)) (closed m) (goroutines m)).

Definition Start `{MapRange} : GoM Manager unit :=
  let! m := get in for_each start_one (map_range 0 (alerts m)).

Definition Stop `{MapRange} : GoM Manager unit :=
  let! m := get in for_each stop_one (map_range 0 (stopChs m)).

(** ** [checkAndFire], in its three critical sections and two calls *)

(** The alert is read under the lock. *)
Definition check_read (m : Manager) (key : string) : Phase :=
  match alerts m !! key with
  | None => Waiting
  | Some a => if decide (State a = AlertStarted) then Querying (Condition a) (Action a) else Waiting
  end.

Definition note_fired (now : Z) (key : string) (m : Manager) : Manager :=
  match alerts m !! key with
  | None => m
  | Some a => set_alerts (<[key := set_LastFired now a]> (alerts m)) m
  end.

Definition set_phase (i : nat) (ph : Phase) (m : Manager) : Manager :=
  mkManager (alerts m) (stopChs m) (closed m)
    (alter (λ g, mkGo (g_key g) (g_interval g) ph) i (goroutines m)).

(** ** Interleavings *)

Inductive Op : Type :=
  | OpCreate (now : Z) (db schema name warehouse schedule condition action : string)
  | OpDrop (db schema name : string)
  | OpAlter (db schema name : string) (state : AlertState)
  | OpStart
  | OpStop.

Definition run_op `{MapRange} (o : Op) : GoM Manager unit :=
  match o with
  | OpCreate now db sc n w s c a => CreateAlert now db sc n w s c a
  | OpDrop db sc n => DropAlert db sc n
  | OpAlter db sc n st => AlterAlert db sc n st
  | OpStart => Start
  | OpStop => Stop
  end.

(** The two states of [AlertState]. *)
Definition valid_state (st : AlertState) : Prop := st = AlertStarted ∨ st = AlertSuspended.
Definition valid_op (o : Op) : Prop :=
  match o with OpAlter _ _ _ st => valid_state st | _ => True end.

Inductive Event : Type :=
  | EOp (o : Op)
  | ETick (i : nat)
  | EQuery (i : nat)
  | EFire (i : nat) (key action : string)
  | ENote (i : nat) (now : Z)
  | EExit (i : nat).

Section alert.
Context `{MR : MapRange} {W : Type}.
(** The query and execution functions given to [NewManager], on the state of the
    database. *)
Context (queryFn : string → W → result (list (list cell)) * W).
Context (execFn : string → W → result unit * W).

Inductive alert_step : Manager * W → Event → Manager * W → Prop :=
  | as_op m w o : valid_op o → alert_step (m, w) (EOp o) ((run_op o m).2, w)
  | as_tick m w i g :
      goroutines m !! i = Some g → g_phase g = Waiting →
      alert_step (m, w) (ETick i) (set_phase i (check_read m (g_key g)) m, w)
  | as_query m w i g c a r w' :
      goroutines m !! i = Some g → g_phase g = Querying c a → queryFn c w = (r, w') →
      alert_step (m, w) (EQuery i)
        (set_phase i (match r with Ok (_ :: _) => Firing a | _ => Waiting end) m, w')
  | as_fire m w i g a r w' :
      goroutines m !! i = Some g → g_phase g = Firing a → execFn a w = (r, w') →
      alert_step (m, w) (EFire i (g_key g) a) (set_phase i Noting m, w')
  | as_note m w i g now :
      goroutines m !! i = Some g → g_phase g = Noting →
      alert_step (m, w) (ENote i now) (note_fired now (g_key g) (set_phase i Waiting m), w)
  | as_exit m w i g :
      goroutines m !! i = Some g → g_phase g = Waiting → i ∈ closed m →
      alert_step (m, w) (EExit i) (set_phase i Exited m, w).

Definition alert_reachable : Manager * W → Prop :=
  reachable (λ st, st.1 = NewManager) alert_step.

(** ** The invariant *)

Record inv (m : Manager) : Prop := {
  inv_stop : ∀ k c, stopChs m !! k = Some c →
    (c ∉ closed m) ∧ (∃ g, goroutines m !! c = Some g ∧ g_key g = k) ∧
    ∃ a, alerts m !! k = Some a ∧ State a = AlertStarted;
  inv_open : ∀ i g, goroutines m !! i = Some g → i ∉ closed m → stopChs m !! g_key g = Some i;
  inv_closed : ∀ c, c ∈ closed m → c < length (goroutines m);
  inv_interval : ∀ i g, goroutines m !! i = Some g → (0 < g_interval g < two63)%Z;
  inv_state : ∀ k a, alerts m !! k = Some a → valid_state (State a);
  inv_exited : ∀ i g, goroutines m !! i = Some g → g_phase g = Exited → i ∈ closed m;
}.

Lemma interval_range s :
  let i := parseSchedule s in let i := if (i <=? 0)%Z then Minute else i in (0 < i < two63)%Z.
Proof.
  cbn. destruct (Z.leb_spec (parseSchedule s) 0); [done|]. split; [done|].
  unfold parseSchedule. repeat case_match; try done. apply wrap64_range.
Qed.

Lemma startAlert_inv key a m :
  inv m → alerts m !! key = Some a → State a = AlertStarted → stopChs m !! key = None →
  inv (startAlertLocked key a m).2.
Proof.
  intros [Hs Ho Hc Hi Hst Hx] Ha HS Hn. unfold startAlertLocked, fresh_ch. go_unfold.
  set (L := length (goroutines m)).
  assert (HL : L ∉ closed m) by (intros Hin; apply Hc in Hin; subst L; lia).
  split; cbn.
  - intros k c [[<- <-]|[Hne Hk]]%lookup_insert_Some.
    + split; [done|]. split; [|eauto]. eexists. subst L. by rewrite list_lookup_middle.
    + destruct (Hs k c Hk) as (? & (g & Hg & Hgk) & ?). split; [done|]. split; [|done].
      exists g. rewrite lookup_app_l by (by eapply lookup_lt_Some). done.
  - intros i g [Hg|[Hle Hg]]%lookup_app_Some Hnc.
    + rewrite lookup_insert_ne; [by apply Ho|]. intros Hk. specialize (Ho i g Hg Hnc). congruence.
    + apply list_lookup_singleton_Some in Hg as [Hz <-]. cbn. rewrite lookup_insert_eq.
      f_equal. subst L. lia.
  - intros c Hin%Hc. rewrite length_app. lia.
  - intros i g [Hg|[Hle Hg]]%lookup_app_Some; [by eapply Hi|].
    apply list_lookup_singleton_Some in Hg as [Hz <-]. apply interval_range.
  - done.
  - intros i g [Hg|[Hle Hg]]%lookup_app_Some; [by eapply Hx|].
    by apply list_lookup_singleton_Some in Hg as [Hz <-].
Qed.

(** Stopping a key: the channel is open, so closing it succeeds. *)
Lemma stop_key_inv key m :
  inv m → ∃ m', stop_key key m = (Ok tt, m') ∧ inv m' ∧ alerts m' = alerts m ∧
    stopChs m' = delete key (stopChs m) ∧ goroutines m' = goroutines m.
Proof.
  intros [Hs Ho Hc Hi Hst Hx]. unfold stop_key. go_unfold.
  destruct (stopChs m !! key) as [c|] eqn:E.
  - destruct (Hs key c E) as (Hnc & (g & Hg & Hgk) & Ha). unfold close_ch. go_unfold.
    rewrite decide_False by done. eexists. split; [done|]. split; [|done]. split; cbn.
    + intros k c' [Hne Hk]%lookup_delete_Some. destruct (Hs k c' Hk) as (? & (g' & Hg' & ?) & ?).
      split; [|eauto]. intros [->%elem_of_singleton|]%elem_of_union; [|done]. congruence.
    + intros i g' Hg' Hni. apply not_elem_of_union in Hni as [Hic Hni].
      rewrite not_elem_of_singleton in Hic. pose proof (Ho i g' Hg' Hni) as Hk.
      rewrite lookup_delete_ne; [done|]. intros ->. congruence.
    + intros c' [->%elem_of_singleton|]%elem_of_union; [by eapply lookup_lt_Some|by apply Hc].
    + done.
    + done.
    + intros i g' Hg' He. apply elem_of_union_r. by eapply Hx.
  - exists m. split; [done|]. split; [done|]. split; [done|].
    split; [|done]. by rewrite delete_id.
Qed.

(** Changing the alerts keeps the invariant when no running alert loses its
    entry or its state. *)
Lemma set_alerts_inv al m :
  inv m → (∀ k a, al !! k = Some a → valid_state (State a)) →
  (∀ k c a, stopChs m !! k = Some c → alerts m !! k = Some a → State a = AlertStarted →
     ∃ a', al !! k = Some a' ∧ State a' = AlertStarted) →
  inv (set_alerts al m).
Proof.
  intros [Hs Ho Hc Hi Hst Hx] Hv Hk. split; try done. cbn. intros k c H.
  destruct (Hs k c H) as (? & ? & a & Ha & HS). eauto.
Qed.

Lemma set_phase_inv i g ph m :
  inv m → goroutines m !! i = Some g → (ph = Exited → i ∈ closed m) → inv (set_phase i ph m).
Proof.
  intros [Hs Ho Hc Hi Hst Hx] Hg Hph.
  assert (Hl : ∀ j g', alter (λ g, mkGo (g_key g) (g_interval g) ph) i (goroutines m) !! j = Some g' →
    ∃ g0, goroutines m !! j = Some g0 ∧ g_key g' = g_key g0 ∧ g_interval g' = g_interval g0 ∧
      (g_phase g' = Exited → j ∈ closed m)).
  { intros j g'. destruct (decide (i = j)) as [<-|Hne].
    - rewrite list_lookup_alter_eq, Hg. intros [= <-]. eauto.
    - rewrite list_lookup_alter_ne by done. intros Hj. exists g'. eauto 10. }
  unfold set_phase. split; cbn.
  - intros k c Hk. destruct (Hs k c Hk) as (? & (g0 & Hg0 & Hk0) & ?). split; [done|].
    split; [|done]. destruct (decide (i = c)) as [<-|Hne].
    + rewrite list_lookup_alter_eq, Hg0. eauto.
    + rewrite list_lookup_alter_ne by done. eauto.
  - intros j g' Hj Hnc. apply Hl in Hj as (g0 & Hg0 & -> & _). by apply Ho.
  - by rewrite length_alter.
  - intros j g' Hj. apply Hl in Hj as (g0 & Hg0 & _ & -> & _). by eapply Hi.
  - done.
  - intros j g' Hj. by apply Hl in Hj as (g0 & Hg0 & _ & _ & ?).
Qed.

#[local] Arguments stop_key : simpl never.
#[local] Arguments close_ch : simpl never.
#[local] Arguments startAlertLocked : simpl never.

Definition panic : result unit := Err "panic: close of closed channel".

Lemma CreateAlert_inv now db sc n w s c a m :
  inv m → inv (CreateAlert now db sc n w s c a m).2 ∧ (CreateAlert now db sc n w s c a m).1 ≠ panic.
Proof.
  intros Hm. unfold CreateAlert. go_unfold. destruct (alerts m !! _) eqn:E; cbn; [by split|].
  split; [|done]. apply set_alerts_inv; [done| |].
  - intros k x [[<- <-]|[_ Hk]]%lookup_insert_Some; [by right|by eapply inv_state].
  - intros k ch x Hk Hx HS. exists x. rewrite lookup_insert_ne; [done|]. intros <-. congruence.
Qed.

Lemma DropAlert_inv db sc n m :
  inv m → inv (DropAlert db sc n m).2 ∧ (DropAlert db sc n m).1 ≠ panic.
Proof.
  intros Hm. unfold DropAlert. go_unfold. destruct (alerts m !! _) eqn:E; cbn; [|by split].
  destruct (stop_key_inv (alertKey db sc n) m Hm) as (m' & -> & Hm' & Ha & Hs & _). cbn.
  split; [|done]. apply set_alerts_inv; [done| |].
  - intros k x [_ Hk]%lookup_delete_Some. by eapply (inv_state m').
  - intros k ch x. rewrite Hs. intros [Hne _]%lookup_delete_Some Hx HS. exists x.
    by rewrite lookup_delete_ne.
Qed.

Lemma AlterAlert_inv db sc n st m :
  inv m → valid_state st → inv (AlterAlert db sc n st m).2 ∧ (AlterAlert db sc n st m).1 ≠ panic.
Proof.
  intros Hm Hst. unfold AlterAlert. go_unfold. set (key := alertKey db sc n).
  destruct (alerts m !! key) as [a|] eqn:E; cbn; [|by split].
  set (al := <[key := set_State st a]> (alerts m)).
  assert (Hal : ∀ k x, al !! k = Some x → valid_state (State x)).
  { intros k x [[<- <-]|[_ Hk]]%lookup_insert_Some; [done|by eapply inv_state]. }
  assert (Hold : valid_state (State a)) by (by eapply inv_state).
  destruct (decide (st = AlertStarted ∧ State a ≠ AlertStarted)) as [Hd|Hd];
    [|destruct (decide (st = AlertSuspended ∧ State a = AlertStarted)) as [Hd'|Hd']].
  - (* resumed *)
    assert (Hn : stopChs m !! key = None).
    { destruct (stopChs m !! key) as [c|] eqn:Es; [|done].
      destruct (inv_stop m Hm key c Es) as (_ & _ & a' & Ha' & ?). simplify_eq. tauto. }
    split; [|done]. apply startAlert_inv; [|subst al; cbn; by rewrite lookup_insert_eq|naive_solver|done].
    apply set_alerts_inv; [done..|]. intros k c x Hk Hx HS. exists x.
    subst al. rewrite lookup_insert_ne; [done|congruence].
  - (* suspended *)
    destruct (stop_key_inv key m Hm) as (m' & Ek & Hm' & Ha & Hs & Hg).
    assert (∃ m2, stop_key key (set_alerts al m) = (Ok tt, m2) ∧ m2 = set_alerts al m')
      as (m2 & -> & ->).
    { revert Ek. unfold stop_key, close_ch. go_unfold.
      destruct (stopChs m !! key); repeat case_decide; intros; simplify_eq/=; eauto; exfalso; auto. }
    split; [|done]. apply set_alerts_inv; [done..|]. intros k c x. rewrite Hs, Ha.
    intros [Hne _]%lookup_delete_Some Hx HS. exists x. subst al. by rewrite lookup_insert_ne.
  - (* same state *)
    split; [|done]. apply set_alerts_inv; [done..|]. intros k c x Hk Hx HS.
    destruct (decide (k = key)) as [->|Hne].
    + simplify_eq. exists (set_State st a). subst al. rewrite lookup_insert_eq. split; [done|].
      cbn. destruct Hst; naive_solver.
    + exists x. subst al. by rewrite lookup_insert_ne.
Qed.

Lemma Start_inv m : inv m → inv (Start m).2 ∧ (Start m).1 ≠ panic.
Proof.
  intros Hm. unfold Start, bind, get.
  destruct (for_each_total (λ m', inv m' ∧ alerts m' = alerts m) start_one
    (map_range 0 (alerts m)) m) as [H1 [H2 _]]; [|done|by rewrite H1].
  intros [k a] m' Hin%elem_of_map_range [Hm' Ha]. unfold start_one. cbn.
  case_decide as HS; [|done]. go_unfold. destruct (stopChs m' !! k) eqn:E; [done|].
  split; [done|]. split; [|done]. apply startAlert_inv; [done|by rewrite Ha|done|done].
Qed.

Lemma stop_loop_inv (l : list (string * nat)) m :
  NoDup l.*1 → (∀ k c, (k, c) ∈ l → stopChs m !! k = Some c) → inv m →
  ∃ m', for_each stop_one l m = (Ok tt, m') ∧ inv m'.
Proof.
  revert m. induction l as [|[k c] l IH]; intros m Hnd Hl Hm; [by exists m|].
  apply NoDup_cons in Hnd as [Hk Hnd]. cbn [for_each].
  destruct (stop_key_inv k m Hm) as (m1 & E & Hm1 & _ & Hs1 & _).
  assert (Hc : stopChs m !! k = Some c) by (apply Hl; left).
  assert (E' : stop_one (k, c) m = (Ok tt, m1)).
  { revert E. unfold stop_key, stop_one, bind, get. by rewrite Hc. }
  unfold bind. rewrite E'. apply IH; [done| |done].
  intros k' c' Hin. rewrite Hs1, lookup_delete_ne; [apply Hl; by right|].
  intros ->. apply Hk, list_elem_of_fmap. by exists (k', c').
Qed.

Lemma Stop_inv m : inv m → inv (Stop m).2 ∧ (Stop m).1 ≠ panic.
Proof.
  intros Hm. unfold Stop, bind, get.
  destruct (stop_loop_inv (map_range 0 (stopChs m)) m) as (m' & -> & Hm').
  - apply map_range_NoDup_fst.
  - intros k c. apply elem_of_map_range.
  - done.
  - done.
Qed.

Lemma run_op_inv o m :
  inv m → valid_op o → inv (run_op o m).2 ∧ (run_op o m).1 ≠ panic.
Proof.
  intros Hm Ho. destruct o; unfold run_op; eauto using CreateAlert_inv, DropAlert_inv,
    AlterAlert_inv, Start_inv, Stop_inv.
Qed.

Lemma note_fired_inv now k m : inv m → inv (note_fired now k m).
Proof.
  intros Hm. unfold note_fired. destruct (alerts m !! k) as [a|] eqn:E; [|done].
  apply set_alerts_inv; [done| |].
  - intros k' x [[<- <-]|[_ Hk]]%lookup_insert_Some; [|by eapply inv_state].
    by apply (inv_state m Hm k a).
  - intros k' c x _ Hx HS. destruct (decide (k = k')) as [<-|Hne].
    + simplify_eq. eexists. by rewrite lookup_insert_eq.
    + exists x. by rewrite lookup_insert_ne.
Qed.

Lemma step_inv st e st' : inv st.1 → alert_step st e st' → inv st'.1.
Proof.
  intros Hi Hst. destruct Hst; cbn in *.
  - by apply run_op_inv.
  - eapply set_phase_inv; [done..|]. unfold check_read. by repeat case_match.
  - eapply set_phase_inv; [done..|]. by repeat case_match.
  - by eapply set_phase_inv.
  - apply note_fired_inv. by eapply set_phase_inv.
  - by eapply set_phase_inv.
Qed.

Lemma reachable_inv' st : alert_reachable st → inv st.1.
Proof.
  apply (reachable_inv _ _ (λ st, inv st.1)); [|intros; by eapply step_inv].
  intros [m w]. cbn. intros ->. split; cbn; set_solver.
Qed.

(** C28: in every reachable state, whatever the interleaving of operations and
    ticks: two running goroutines whose stop channel is open never serve the same
    alert, the alert they serve exists and is started, and their ticker has a
    positive interval (a ticker panics otherwise), even when the schedule
    overflows a duration; and no operation closes a closed channel. *)
Theorem alert_goroutines_unique st :
  alert_reachable st →
  (∀ i j g h, goroutines st.1 !! i = Some g → goroutines st.1 !! j = Some h →
     i ∉ closed st.1 → j ∉ closed st.1 → g_key g = g_key h → i = j) ∧
  (∀ i g, goroutines st.1 !! i = Some g →
     (0 < g_interval g < two63)%Z ∧
     (i ∉ closed st.1 → ∃ a, alerts st.1 !! g_key g = Some a ∧ State a = AlertStarted)) ∧
  (∀ o, valid_op o → (run_op o st.1).1 ≠ panic).
Proof.
  intros Hi%reachable_inv'. split; [|split].
  - intros i j g h Hg Hh Hig Hjh Hk. apply (inv_open _ Hi) in Hg, Hh; try done. congruence.
  - intros i g Hg. split; [by eapply inv_interval|]. intros Hni.
    destruct (inv_stop _ Hi _ _ (inv_open _ Hi i g Hg Hni)) as (_ & _ & ?). done.
  - intros o Ho. by apply run_op_inv.
Qed.

(** ** Suspension *)

(** A tick of this alert is past its read of the alert and has not run the action
    yet. *)
Definition in_flight (key : string) (g : Goroutine) : bool :=
  bool_decide (g_key g = key) &&
  match g_phase g with Querying _ _ | Firing _ => true | _ => false end.

Definition flights (key : string) (m : Manager) : nat :=
  length (filter (λ g, in_flight key g = true) (goroutines m)).

Definition fires_key (key : string) (e : Event) : bool :=
  match e with EFire _ k _ => bool_decide (k = key) | _ => false end.
Definition fires (key : string) (tr : list Event) : nat :=
  length (filter (λ e, fires_key key e = true) tr).

(** The operation does not start the alert. *)
Definition no_start (key : string) (e : Event) : Prop :=
  match e with
  | EOp (OpAlter db sc n st) => alertKey db sc n = key → st ≠ AlertStarted
  | _ => True
  end.

Definition not_started (key : string) (m : Manager) : Prop :=
  ∀ a, alerts m !! key = Some a → State a ≠ AlertStarted.

#[local] Arguments set_phase : simpl never.
#[local] Arguments flights : simpl never.

(** How a change of phase of one goroutine changes the count. *)
Lemma flights_set_phase key i g ph m :
  goroutines m !! i = Some g →
  flights key (set_phase i ph m) + (if in_flight key g then 1 else 0) =
  flights key m + (if in_flight key (mkGo (g_key g) (g_interval g) ph) then 1 else 0).
Proof.
  intros Hg. unfold flights, set_phase. cbn.
  rewrite <- (take_drop_middle _ _ _ Hg) at 2.
  rewrite (alter_split _ _ _ _ Hg).
  rewrite !filter_app, !filter_cons. repeat case_match; rewrite ?length_app; cbn; lia || congruence.
Qed.

(** Operations start no tick: they only add waiting goroutines. *)
Definition adds_waiting (m m' : Manager) : Prop :=
  ∃ gs, goroutines m' = goroutines m ++ gs ∧ ∀ g, g ∈ gs → g_phase g = Waiting.

Lemma adds_waiting_refl m m' : goroutines m' = goroutines m → adds_waiting m m'.
Proof. intros E. exists []. rewrite app_nil_r. split; [done|]. by intros g ?%elem_of_nil. Qed.

Lemma adds_waiting_trans m1 m2 m3 : adds_waiting m1 m2 → adds_waiting m2 m3 → adds_waiting m1 m3.
Proof.
  intros (g1 & E1 & H1) (g2 & E2 & H2). exists (g1 ++ g2). rewrite E2, E1, app_assoc.
  split; [done|]. intros g [?|?]%elem_of_app; auto.
Qed.

Lemma startAlert_adds key a m :
  adds_waiting m (startAlertLocked key a m).2 ∧ alerts (startAlertLocked key a m).2 = alerts m.
Proof.
  unfold startAlertLocked. go_unfold. split; [|done]. eexists. split; [done|].
  by intros g ->%list_elem_of_singleton.
Qed.

Lemma stop_key_same key m :
  goroutines (stop_key key m).2 = goroutines m ∧ alerts (stop_key key m).2 = alerts m.
Proof. unfold stop_key, close_ch. go_unfold. by repeat case_match; simplify_eq/=. Qed.

Lemma stop_one_same kc m :
  goroutines (stop_one kc m).2 = goroutines m ∧ alerts (stop_one kc m).2 = alerts m.
Proof. unfold stop_one, close_ch. go_unfold. by repeat case_match; simplify_eq/=. Qed.

(** What an operation that does not start the alert leaves true. *)
Lemma run_op_quiet key o m :
  not_started key m → no_start key (EOp o) →
  adds_waiting m (run_op o m).2 ∧ not_started key (run_op o m).2.
Proof.
  intros Hn Ho. destruct o as [now db sc n w s c a|db sc n|db sc n st| |]; unfold run_op.
  - unfold CreateAlert. go_unfold. destruct (alerts m !! _); cbn.
    { split; [by apply adds_waiting_refl|done]. }
    split; [by apply adds_waiting_refl|]. intros a'. cbn.
    intros [[_ <-]|[_ Hk]]%lookup_insert_Some; [done|by apply Hn].
  - unfold DropAlert. go_unfold. destruct (alerts m !! _); cbn.
    2: { split; [by apply adds_waiting_refl|done]. }
    pose proof (stop_key_same (alertKey db sc n) m) as [Hg Ha].
    destruct (stop_key (alertKey db sc n) m) as [[[]|] m']; cbn in *.
    + split; [by apply adds_waiting_refl|]. intros a'. cbn. rewrite Ha.
      intros [_ Hk]%lookup_delete_Some. by apply Hn.
    + split; [by apply adds_waiting_refl|]. intros a'. rewrite Ha. apply Hn.
  - unfold AlterAlert. go_unfold. destruct (alerts m !! _) as [a|] eqn:E; cbn.
    2: { split; [by apply adds_waiting_refl|done]. }
    set (m1 := set_alerts _ m).
    assert (H1 : not_started key m1).
    { intros a'. cbn. intros [[Hk <-]|[_ Hk]]%lookup_insert_Some; [|by apply Hn].
      cbn. by apply Ho. }
    destruct (decide (st = AlertStarted ∧ State a ≠ AlertStarted)).
    { destruct (startAlert_adds (alertKey db sc n) (set_State st a) m1) as [Hg Ha].
      split; [done|]. intros a'. rewrite Ha. apply H1. }
    destruct (decide (st = AlertSuspended ∧ State a = AlertStarted)).
    { destruct (stop_key_same (alertKey db sc n) m1) as [Hg Ha].
      split; [by apply adds_waiting_refl|]. intros a'. rewrite Ha. apply H1. }
    split; [by apply adds_waiting_refl|done].
  - unfold Start, bind, get.
    apply (for_each_inv (λ m', adds_waiting m m' ∧ not_started key m')).
    + intros [k a] m' _ [Hm Hn']. unfold start_one. cbn. case_decide; [|done].
      go_unfold. destruct (stopChs m' !! k); [done|].
      destruct (startAlert_adds k a m') as [Hg Ha].
      split; [by eapply adds_waiting_trans|]. intros a'. rewrite Ha. apply Hn'.
    + split; [by apply adds_waiting_refl|done].
  - unfold Stop, bind, get.
    apply (for_each_inv (λ m', adds_waiting m m' ∧ not_started key m')).
    + intros kc m' _ [Hm Hn']. destruct (stop_one_same kc m') as [Hg Ha].
      split; [eapply adds_waiting_trans; [done|by apply adds_waiting_refl]|].
      intros a'. rewrite Ha. apply Hn'.
    + split; [by apply adds_waiting_refl|done].
Qed.

Lemma flights_adds_waiting key m m' : adds_waiting m m' → flights key m' = flights key m.
Proof.
  intros (gs & E & Hw). unfold flights. rewrite E, filter_app, length_app.
  assert (filter (λ g, in_flight key g = true) gs = []) as ->; [|cbn; lia].
  apply filter_none. intros g Hg. unfold in_flight. rewrite (Hw g Hg).
  by rewrite andb_false_r.
Qed.

Lemma note_fired_same now k m :
  goroutines (note_fired now k m) = goroutines m ∧
  ∀ k' a', alerts (note_fired now k m) !! k' = Some a' →
    ∃ a, alerts m !! k' = Some a ∧ State a = State a'.
Proof.
  unfold note_fired. destruct (alerts m !! k) as [a|] eqn:E; [|eauto]. split; [done|].
  intros k' a'. cbn. intros [[<- <-]|[_ Hk]]%lookup_insert_Some; eauto.
Qed.

Lemma fires_one key e : fires key [e] = if fires_key key e then 1 else 0.
Proof. unfold fires. rewrite filter_cons. by destruct (fires_key key e). Qed.

(** A step that does not start a suspended alert: each time its action runs, one
    of the ticks in flight is used up. *)
Lemma step_quiet key st e st' :
  alert_step st e st' → not_started key st.1 → no_start key e →
  not_started key st'.1 ∧ flights key st'.1 + fires key [e] ≤ flights key st.1.
Proof.
  intros Hst Hn He. rewrite fires_one. destruct Hst as [m w o|m w i g Hg Hp|m w i g c a r w' Hg Hp|
    m w i g a r w' Hg Hp|m w i g now Hg Hp|m w i g Hg Hp]; cbn in *.
  - destruct (run_op_quiet key o m Hn He) as [Ha Hn']. split; [done|].
    rewrite (flights_adds_waiting key m) by done. lia.
  - split; [done|]. pose proof (flights_set_phase key i g (check_read m (g_key g)) m Hg) as Hf.
    assert (E0 : in_flight key (mkGo (g_key g) (g_interval g) (check_read m (g_key g))) = false).
    2: { rewrite E0 in Hf. cbn in *; destruct (in_flight key g); lia. }
    unfold in_flight. cbn. case_bool_decide as Hk; [|done]. subst key.
    unfold check_read. destruct (alerts m !! g_key g) as [a|] eqn:E; [|done].
    rewrite decide_False; [done|]. by apply Hn.
  - split; [done|].
    match goal with |- context [set_phase i ?ph m] =>
      pose proof (flights_set_phase key i g ph m Hg) as Hf end.
    revert Hf. unfold in_flight. rewrite Hp. cbn.
    destruct (bool_decide (g_key g = key)); cbn; repeat case_match; lia.
  - split; [done|]. pose proof (flights_set_phase key i g Noting m Hg) as Hf.
    revert Hf. unfold in_flight. rewrite Hp. cbn.
    destruct (bool_decide (g_key g = key)); cbn; lia.
  - destruct (note_fired_same now (g_key g) (set_phase i Waiting m)) as [Eg Ha]. split.
    + intros a' Hk. destruct (Ha _ _ Hk) as (a & Hk' & <-). by apply Hn.
    + pose proof (flights_set_phase key i g Waiting m Hg) as Hf.
      revert Hf. unfold flights, in_flight. rewrite Hp, Eg. cbn.
      rewrite !andb_false_r. lia.
  - split; [done|]. pose proof (flights_set_phase key i g Exited m Hg) as Hf.
    revert Hf. unfold in_flight. rewrite Hp. cbn. rewrite !andb_false_r. lia.
Qed.

Lemma fires_cons key e tr : fires key (e :: tr) = fires key [e] + fires key tr.
Proof. unfold fires. change (e :: tr) with ([e] ++ tr). by rewrite filter_app, length_app. Qed.

(** From the moment an alert is suspended or dropped, and until it is started
    again, its action runs at most once for each tick that had already read the
    alert as started; in particular not at all when no tick is in flight. *)
Theorem suspended_alert_fires_bounded key st tr st' :
  run alert_step st tr st' → not_started key st.1 → Forall (no_start key) tr →
  not_started key st'.1 ∧ flights key st'.1 + fires key tr ≤ flights key st.1.
Proof.
  induction 1 as [|s e s' tr s'' Hst Hr IH]; intros Hn Hf.
  - unfold fires. cbn. split; [done|lia].
  - apply Forall_cons in Hf as [He Hf]. destruct (step_quiet key s e s' Hst Hn He) as [Hn' Hle].
    destruct (IH Hn' Hf) as [? ?]. rewrite fires_cons. split; [done|lia].
Qed.
End alert.

(** ** Witnesses *)

Definition one_row (sql : string) (w : list string) : result (list (list cell)) * list string :=
  (Ok [[CInt 1]], w).
Definition log_sql (sql : string) (w : list string) : result unit * list string :=
  (Ok tt, w ++ [sql]).

Definition sample_create : Op :=
  OpCreate 0 "d" "s" "a" "w" "9223372036854775807 minute" "cond" "act".
Definition created : Manager := (@run_op key_order sample_create NewManager).2.
Definition started : Manager := (AlterAlert "d" "s" "a" AlertStarted created).2.

Lemma started_reachable (w : list string) :
  @alert_reachable key_order _ one_row log_sql (started, w).
Proof.
  refine (reachable_step _ _ _ (EOp (OpAlter "d" "s" "a" AlertStarted)) _ _
    (@as_op key_order _ one_row log_sql created w _ _)); [|by left].
  refine (reachable_step _ _ _ _ _ _ (@as_op key_order _ one_row log_sql NewManager w sample_create I)).
  by apply reachable_init.
Qed.

Lemma alert_goroutines_unique_witness :
  goroutines started = [mkGo "D.S.A" Minute Waiting] ∧
  ∃ a, alerts started !! "D.S.A" = Some a ∧ State a = AlertStarted.
Proof.
  split; [vm_compute; reflexivity|].
  destruct (@alert_goroutines_unique key_order _ one_row log_sql (started, [])
              (started_reachable [])) as (_ & H & _).
  refine (proj2 (H 0 (mkGo "D.S.A" Minute Waiting) _) _); [vm_compute; reflexivity|].
  apply (bool_decide_unpack _). vm_compute. exact I.
Defined.

Definition suspended : Manager := mkManager
  {[ "D.S.A" := mkAlert "a" "d" "s" "w" "1 minute" "cond" "act" AlertSuspended 0 None ]} ∅ {[ 0 ]}
  [mkGo "D.S.A" Minute (Firing "act")].

Lemma suspended_alert_fires_bounded_witness :
  run (@alert_step key_order _ one_row log_sql) (suspended, [])
    [EFire 0 "D.S.A" "act"] (set_phase 0 Noting suspended, ["act"]) ∧
  flights "D.S.A" (set_phase 0 Noting suspended) + fires "D.S.A" [EFire 0 "D.S.A" "act"]
    ≤ flights "D.S.A" suspended.
Proof.
  assert (Hr : run (@alert_step key_order _ one_row log_sql) (suspended, [])
    [EFire 0 "D.S.A" "act"] (set_phase 0 Noting suspended, ["act"])).
  { eapply run_cons; [|apply run_nil].
    exact (@as_fire key_order _ one_row log_sql suspended [] 0 _ "act" _ _ eq_refl eq_refl eq_refl). }
  split; [exact Hr|].
  refine (proj2 (@suspended_alert_fires_bounded key_order _ one_row log_sql "D.S.A" _ _ _ Hr _ _)).
  - intros a. vm_compute. intros [= <-]. discriminate.
  - repeat constructor.
Defined.
