(* ===== verification/Snowpipe.v ===== *)
(** * Pipes ([internal/snowpipe/snowpipe.go])

    [InsertFiles] reads the pipe under the lock, runs the copy statement of every
    file outside of it and appends the statuses under the lock again.  The three
    parts are definitions of their own, composed sequentially in [InsertFiles]
    and interleaved with other operations in the transition system.  The function
    that runs a statement is a parameter, on the state [W] of the database. *)

From S2P Require Import Prelude GoStrings Registry.

(** ** Data *)

Definition PipeState : Type := string.
Definition PipeRunning : PipeState := "RUNNING".
Definition PipePaused : PipeState := "PAUSED".

Record Pipe := mkPipe {
  Name : string;
  Database : string;
  Schema : string;
  CopyStmt : string;
  AutoIngest : bool;
  State : PipeState;
  CreatedAt : Z;
}.

Record FileStatus := mkStatus {
  Path : string;
  Status : string;
  RowsInserted : Z;
  ErrorMessage : string;
  FirstErrorRow : Z;
  LoadedAt : option Z;
}.

Record PipeInfo := mkInfo {
  i_Name : string;
  i_Database : string;
  i_Schema : string;
  i_Definition : string;
  i_State : PipeState;
  i_CreatedAt : Z;
}.

Record Engine := mkEngine {
  pipes : gmap string Pipe;
  history : gmap string (list FileStatus);
}.

(** ** Operations *)

Definition NewEngine : Engine := mkEngine ∅ ∅.

Definition Reset : GoM Engine unit := put NewEngine.

Definition pipeKey (db schema name : string) : string :=
  dotted (ToUpper db) (ToUpper schema) (ToUpper name).

Definition not_exist (key : string) : string :=
  "snowpipe: pipe '" +:+ key +:+ "' does not exist".

Definition CreatePipe (now : Z) (db schema name copyStmt : string) (autoIngest : bool)
    : GoM Engine unit :=
  let key := pipeKey db schema name in
  let! e := get in
  match pipes e !! key with
  | Some _ => fail ("snowpipe: pipe '" +:+ key +:+ "' already exists")
  | None =>
      put (mkEngine
             (<[key := mkPipe (ToUpper name) (ToUpper db) (ToUpper schema) copyStmt autoIngest
                         PipeRunning now]> (pipes e))
             (<[key := []]> (history e)))
  end.

Definition DropPipe (db schema name : string) : GoM Engine unit :=
  let key := pipeKey db schema name in
  let! e := get in
  match pipes e !! key with
  | None => fail (not_exist key)
  | Some _ => put (mkEngine (delete key (pipes e)) (delete key (history e)))
  end.

Definition GetPipe (e : Engine) (db schema name : string) : result Pipe :=
  let key := pipeKey db schema name in
  match pipes e !! key with None => Err (not_exist key) | Some p => Ok p end.

Definition AlterPipe (db schema name : string) (state : PipeState) : GoM Engine unit :=
  let key := pipeKey db schema name in
  let! e := get in
  match pipes e !! key with
  | None => fail (not_exist key)
  | Some p =>
      put (mkEngine
             (<[key := mkPipe (Name p) (Database p) (Schema p) (CopyStmt p) (AutoIngest p)
                         state (CreatedAt p)]> (pipes e))
             (history e))
  end.

(** First part of [InsertFiles], under the read lock: the copy statement. *)
Definition insert_begin (e : Engine) (key : string) : result string :=
  match pipes e !! key with
  | None => Err (not_exist key)
  | Some p =>
      if decide (State p ≠ PipeRunning)
      then Err ("snowpipe: pipe '" +:+ key +:+ "' is not running (state: " +:+ State p +:+ ")")
      else Ok (CopyStmt p)
  end.

(** Last part, under the lock. *)
Definition insert_finish (key : string) (statuses : list FileStatus) (e : Engine) : Engine :=
  mkEngine (pipes e) (<[key := default [] (history e !! key) ++ statuses]> (history e)).

Definition GetStatus (e : Engine) (db schema pipeName : string) : list FileStatus :=
  default [] (history e !! pipeKey db schema pipeName).

Definition ShowPipes `{MapRange} (e : Engine) (db schema : string) : list PipeInfo :=
  let prefix := ToUpper db +:+ "." +:+ ToUpper schema +:+ "." in
  '(key, p) ← map_range 0 (pipes e);
  if HasPrefix key prefix
  then [mkInfo (Name p) (Database p) (Schema p) (CopyStmt p) (State p) (CreatedAt p)]
  else [].

Section load.
Context {W : Type} (execFn : string → W → result unit * W).

(** The statement run for a file. *)
Definition file_sql (copyStmt file : string) : string := ReplaceAll copyStmt "{FILE}" file.

Definition file_status (now : Z) (file : string) (r : result unit) : FileStatus :=
  match r with
  | Err e => mkStatus file "LOAD_FAILED" 0 e 0 None
  | Ok _ => mkStatus file "LOADED" 0 "" 0 (Some now)
  end.

(** The loop over the files; [now i] is the clock after the [i]-th load. *)
Fixpoint load_files (now : nat → Z) (copyStmt : string) (files : list string) (w : W)
    : list FileStatus * W :=
  match files with
  | [] => ([], w)
  | file :: files =>
      let '(r, w) := execFn (file_sql copyStmt file) w in
      let '(sts, w) := load_files (λ i, now (S i)) copyStmt files w in
      (file_status (now 0) file r :: sts, w)
  end.

Definition InsertFiles (now : nat → Z) (db schema pipeName : string) (files : list string)
    : GoM (Engine * W) unit :=
  let key := pipeKey db schema pipeName in
  let! s := get in
  match insert_begin s.1 key with
  | Err err => fail err
  | Ok copyStmt =>
      let '(statuses, w) := load_files now copyStmt files s.2 in
      put (insert_finish key statuses s.1, w)
  end.

(** ** Interleavings: the loads in progress, with what is left to load and the
    statuses so far *)

Record Load := mkLoad {
  l_key : string;
  l_stmt : string;
  l_todo : list string;
  l_done : list FileStatus;
}.

Inductive Op : Type :=
  | OpCreate (now : Z) (db schema name copyStmt : string) (autoIngest : bool)
  | OpDrop (db schema name : string)
  | OpAlter (db schema name : string) (state : PipeState)
  | OpReset.

Definition run_op (o : Op) : GoM Engine unit :=
  match o with
  | OpCreate now db sc n s a => CreatePipe now db sc n s a
  | OpDrop db sc n => DropPipe db sc n
  | OpAlter db sc n st => AlterPipe db sc n st
  | OpReset => Reset
  end.

Inductive Event : Type :=
  | EOp (o : Op)
  | EBegin (db schema name : string) (files : list string)
  | EExec (key sql : string)
  | EFinish (key : string) (statuses : list FileStatus).

Record Sys := mkSys { eng : Engine; loads : list Load; world : W }.

Inductive pipe_step : Sys → Event → Sys → Prop :=
  | ps_op e ls w o : pipe_step (mkSys e ls w) (EOp o) (mkSys (run_op o e).2 ls w)
  | ps_begin e ls w db sc n files stmt :
      insert_begin e (pipeKey db sc n) = Ok stmt →
      pipe_step (mkSys e ls w) (EBegin db sc n files)
        (mkSys e (ls ++ [mkLoad (pipeKey db sc n) stmt files []]) w)
  | ps_exec e l1 key stmt f fs done l2 w r w' now :
      execFn (file_sql stmt f) w = (r, w') →
      pipe_step (mkSys e (l1 ++ mkLoad key stmt (f :: fs) done :: l2) w)
        (EExec key (file_sql stmt f))
        (mkSys e (l1 ++ mkLoad key stmt fs (done ++ [file_status now f r]) :: l2) w')
  | ps_finish e l1 key stmt done l2 w :
      pipe_step (mkSys e (l1 ++ mkLoad key stmt [] done :: l2) w) (EFinish key done)
        (mkSys (insert_finish key done e) (l1 ++ l2) w).

(** ** Sequential behaviour *)

(** Running statements one after the other: their results and the final state. *)
Fixpoint exec_all (sqls : list string) (w : W) : list (result unit) * W :=
  match sqls with
  | [] => ([], w)
  | sql :: sqls =>
      let '(r, w) := execFn sql w in
      let '(rs, w) := exec_all sqls w in (r :: rs, w)
  end.

(** The status reports the outcome of the load of the file. *)
Definition reports (f : string) (r : result unit) (st : FileStatus) : Prop :=
  Path st = f ∧
  match r with
  | Ok _ => Status st = "LOADED" ∧ ErrorMessage st = "" ∧ is_Some (LoadedAt st)
  | Err e => Status st = "LOAD_FAILED" ∧ ErrorMessage st = e ∧ LoadedAt st = None
  end.

Lemma file_status_reports now f r : reports f r (file_status now f r).
Proof. destruct r; by repeat split. Qed.

Lemma load_files_spec now stmt files w :
  ∃ sts, load_files now stmt files w = (sts, (exec_all (file_sql stmt <$> files) w).2) ∧
    Forall3 reports files (exec_all (file_sql stmt <$> files) w).1 sts.
Proof.
  revert now w. induction files as [|f files IH]; intros now w; [cbn; eauto using Forall3|].
  rewrite fmap_cons. cbn [load_files exec_all].
  destruct (execFn (file_sql stmt f) w) as [r w1].
  destruct (IH (λ i, now (S i)) w1) as (sts & E & H). rewrite E.
  destruct (exec_all (file_sql stmt <$> files) w1) as [rs w2]. eexists. split; [done|].
  constructor; [apply file_status_reports|done].
Qed.

(** When the pipe does not exist or is not running, [InsertFiles] fails, runs
    nothing and records nothing.  Otherwise it succeeds; it runs the copy statement
    once for each file, in order, with the file's name in place of the marker,
    carrying on after failures; and it appends to the history of this pipe, and of
    no other, one status for each file, LOADED or LOAD_FAILED with the message,
    according to the outcome of that file's statement. *)
Theorem insert_files_records now db sc n files e w :
  let key := pipeKey db sc n in
  match pipes e !! key with
  | Some p =>
      if decide (State p = PipeRunning) then
        let out := exec_all (file_sql (CopyStmt p) <$> files) w in
        ∃ sts e', InsertFiles now db sc n files (e, w) = (Ok tt, (e', out.2)) ∧
          Forall3 reports files out.1 sts ∧ pipes e' = pipes e ∧
          GetStatus e' db sc n = GetStatus e db sc n ++ sts ∧
          ∀ k, k ≠ key → history e' !! k = history e !! k
      else is_ok (InsertFiles now db sc n files (e, w)).1 = false ∧
           (InsertFiles now db sc n files (e, w)).2 = (e, w)
  | None => is_ok (InsertFiles now db sc n files (e, w)).1 = false ∧
            (InsertFiles now db sc n files (e, w)).2 = (e, w)
  end.
Proof.
  intros key. unfold InsertFiles, insert_begin. go_unfold. fold key.
  destruct (pipes e !! key) as [p|]; [|done].
  destruct (decide (State p = PipeRunning)) as [HS|HS].
  - rewrite decide_False by tauto. destruct (load_files_spec now (CopyStmt p) files w) as (sts & E & H).
    rewrite E. eexists sts, _. split; [done|]. split; [done|]. split; [done|].
    unfold GetStatus. cbn. fold key. rewrite lookup_insert_eq. split; [done|].
    intros k Hk. by rewrite lookup_insert_ne.
  - by rewrite decide_True.
Qed.

(** ** Interleaved loads *)

Definition load_ok (tr : list Event) (l : Load) : Prop :=
  ∃ db sc n files, EBegin db sc n files ∈ tr ∧ pipeKey db sc n = l_key l ∧
    (Path <$> l_done l) ++ l_todo l = files.

Lemma load_ok_snoc tr ev l : load_ok tr l → load_ok (tr ++ [ev]) l.
Proof. intros (db & sc & n & files & Hin & H). exists db, sc, n, files. set_solver. Qed.

Lemma file_status_path now f r : Path (file_status now f r) = f.
Proof. by destruct r. Qed.

Lemma loads_ok st tr st' :
  run pipe_step st tr st' → loads st = [] →
  (∀ l, l ∈ loads st' → load_ok tr l) ∧
  (∀ key sts, EFinish key sts ∈ tr →
     ∃ db sc n files, EBegin db sc n files ∈ tr ∧ pipeKey db sc n = key ∧ Path <$> sts = files).
Proof.
  intros Hr. pattern st, tr, st'. revert st tr st' Hr. apply run_rev_ind.
  { intros s ->. split; [intros ? ?%elem_of_nil|intros ?? ?%elem_of_nil]; done. }
  intros s tr s' ev s'' _ IH Hst Hs. destruct (IH Hs) as [Hl Hf]. clear IH Hs.
  assert (Hl' : ∀ l, l ∈ loads s' → load_ok (tr ++ [ev]) l) by (intros; apply load_ok_snoc; auto).
  assert (Hf' : ∀ key sts, EFinish key sts ∈ tr →
    ∃ db sc n files, EBegin db sc n files ∈ tr ++ [ev] ∧ pipeKey db sc n = key ∧ Path <$> sts = files).
  { intros key sts (db & sc & n & files & Hin & H)%Hf. exists db, sc, n, files. set_solver. }
  clear Hl Hf. destruct Hst; cbn in *; split; try done.
  - intros key sts [?| [=]%list_elem_of_singleton]%elem_of_app; eauto.
  - intros l [?| ->%list_elem_of_singleton]%elem_of_app; [auto|].
    exists db, sc, n, files. cbn. set_solver.
  - intros key sts [?| [=]%list_elem_of_singleton]%elem_of_app; eauto.
  - intros l [?|[->|?]%elem_of_cons]%elem_of_app; [apply Hl'; set_solver| |apply Hl'; set_solver].
    destruct (Hl' (mkLoad key stmt (f :: fs) done)) as (db & sc & n & files & Hin & Hk & Hp); [set_solver|].
    exists db, sc, n, files. split; [done|]. split; [done|]. cbn in *.
    rewrite fmap_app, <- app_assoc. cbn. by rewrite file_status_path.
  - intros key' sts [?| [=]%list_elem_of_singleton]%elem_of_app; eauto.
  - intros l Hin. apply Hl'. set_solver.
  - intros key' sts [?| [= -> ->]%list_elem_of_singleton]%elem_of_app; [eauto|].
    destruct (Hl' (mkLoad key stmt [] done)) as (db & sc & n & files & Hin & Hk & Hp); [set_solver|].
    exists db, sc, n, files. cbn in Hp. rewrite app_nil_r in Hp. done.
Qed.

(** Whatever else happens in between, what a load records in the history is
    one status for each file of the call that started it, in order; that call
    found the pipe. *)
Theorem recorded_loads_complete e w tr st key sts :
  run pipe_step (mkSys e [] w) tr st → EFinish key sts ∈ tr →
  ∃ db sc n files, EBegin db sc n files ∈ tr ∧ pipeKey db sc n = key ∧ Path <$> sts = files.
Proof. intros Hr. by apply (loads_ok _ _ _ Hr). Qed.
End load.

(** ** The engine is a registry of pipes *)

#[export] Program Instance pipe_registry :
    Registry Engine (string * string * string) (Z * string * bool) := {|
  reg_dom e := dom (pipes e);
  reg_key '(db, sc, n) := pipeKey db sc n;
  reg_create '(db, sc, n) '(now, s, a) := CreatePipe now db sc n s a;
  reg_drop '(db, sc, n) := DropPipe db sc n;
|}.
Next Obligation.
  intros [[db sc] n] [[now s] a] e H. apply not_elem_of_dom in H. unfold CreatePipe.
  go_unfold. rewrite H. split; [done|]. cbn. by rewrite dom_insert_L.
Qed.
Next Obligation.
  intros [[db sc] n] [[now s] a] e [p H]%elem_of_dom. unfold CreatePipe. go_unfold. by rewrite H.
Qed.
Next Obligation.
  intros [[db sc] n] e [p H]%elem_of_dom. unfold DropPipe. go_unfold.
  rewrite H. split; [done|]. cbn. by rewrite dom_delete_L.
Qed.
Next Obligation.
  intros [[db sc] n] e H. unfold DropPipe. go_unfold. by apply not_elem_of_dom in H as ->.
Qed.

(** ** Witnesses *)

(** A database that logs its statements and refuses one of them. *)
Definition log_exec (sql : string) (w : list string) : result unit * list string :=
  if decide (sql = "COPY INTO t FROM 'bad'") then (Err "no such file", w) else (Ok tt, w ++ [sql]).

Definition sample_pipe : Engine := (CreatePipe 0 "d" "s" "p" "COPY INTO t FROM '{FILE}'" false NewEngine).2.

(** A load during which the pipe is dropped: its statuses are recorded under a key
    that no longer has a pipe. *)
Lemma recorded_loads_complete_witness :
  let sts := [mkStatus "a" "LOADED" 0 "" 0 (Some 5)]%Z in
  ∃ st, run (pipe_step log_exec) (mkSys sample_pipe [] [])
    [EBegin "d" "s" "p" ["a"]; EOp (OpDrop "d" "s" "p");
     EExec "D.S.P" "COPY INTO t FROM 'a'"; EFinish "D.S.P" sts] st ∧
    pipes (eng st) !! "D.S.P" = None ∧ history (eng st) !! "D.S.P" = Some sts ∧
    ∃ db sc n files, EBegin db sc n files ∈ [EBegin "d" "s" "p" ["a"]; EOp (OpDrop "d" "s" "p");
     EExec "D.S.P" "COPY INTO t FROM 'a'"; EFinish "D.S.P" sts] ∧ pipeKey db sc n = "D.S.P" ∧
     Path <$> sts = files.
Proof.
  intros sts.
  assert (Hr : ∃ st, run (pipe_step log_exec) (mkSys sample_pipe [] [])
    [EBegin "d" "s" "p" ["a"]; EOp (OpDrop "d" "s" "p");
     EExec "D.S.P" "COPY INTO t FROM 'a'"; EFinish "D.S.P" sts] st ∧
    pipes (eng st) !! "D.S.P" = None ∧ history (eng st) !! "D.S.P" = Some sts).
  { eexists. split.
    - eapply run_cons; [exact (ps_begin log_exec sample_pipe [] [] "d" "s" "p" ["a"] _ eq_refl)|].
      eapply run_cons; [apply ps_op|].
      eapply run_cons; [exact (ps_exec log_exec _ [] "D.S.P" "COPY INTO t FROM '{FILE}'" "a" [] [] [] []
        (Ok tt) ["COPY INTO t FROM 'a'"] 5%Z eq_refl)|].
      eapply run_cons; [exact (ps_finish log_exec _ [] "D.S.P" "COPY INTO t FROM '{FILE}'" sts [] _)|].
      apply run_nil.
    - split; vm_compute; reflexivity. }
  destruct Hr as (st & Hr & Hp & Hh). exists st. split; [exact Hr|]. split; [exact Hp|].
  split; [exact Hh|]. apply (recorded_loads_complete log_exec _ _ _ st "D.S.P" sts Hr).
  apply list_elem_of_In. vm_compute. tauto.
Defined.
