(* ===== verification/Sharing.v ===== *)
(** * Data shares ([internal/sharing/sharing.go])

    Shares with the objects granted to them and the accounts that consume them, and the
    refinement of an abstract specification, one share at a time. *)

From S2P Require Import Prelude GoStrings.

Definition ShareType : Type := string.
Definition ShareOutbound : ShareType := "OUTBOUND".
Definition ShareInbound : ShareType := "INBOUND".

Record SharedObject := mkObject { o_Type : string; o_Name : string }.

#[export] Instance SharedObject_eq_dec : EqDecision SharedObject.
Proof. solve_decision. Defined.

Record Share := mkShare {
  Name : string;
  Type_ : ShareType;
  Database : string;
  Objects : list SharedObject;
  Accounts : list string;
  Comment : string;
  CreatedAt : Z;
}.

Record ShareInfo := mkInfo {
  i_Name : string;
  i_Type : ShareType;
  i_Database : string;
  i_Comment : string;
  i_Accounts : nat;
  i_Objects : nat;
  i_CreatedAt : Z;
}.

Record Manager := mkManager { shares : gmap string Share }.

Definition set_Objects (os : list SharedObject) (s : Share) : Share :=
  mkShare (Name s) (Type_ s) (Database s) os (Accounts s) (Comment s) (CreatedAt s).
Definition set_Accounts (accs : list string) (s : Share) : Share :=
  mkShare (Name s) (Type_ s) (Database s) (Objects s) accs (Comment s) (CreatedAt s).

(** ** Operations *)

Definition NewManager : Manager := mkManager ∅.

Definition put_share (name : string) (s : Share) (m : Manager) : Manager :=
  mkManager (<[name := s]> (shares m)).

Definition not_exist (name : string) : string := "share '" +:+ name +:+ "' does not exist".

Definition CreateShare (now : Z) (name comment : string) : GoM Manager unit :=
  let! m := get in
  if decide (name = "") then fail "share name cannot be empty"
  else match shares m !! name with
       | Some _ => fail ("share '" +:+ name +:+ "' already exists")
       | None => put (put_share name (mkShare name ShareOutbound "" [] [] comment now) m)
       end.

Definition DropShare (name : string) : GoM Manager unit :=
  let! m := get in
  match shares m !! name with
  | None => fail (not_exist name)
  | Some _ => put (mkManager (delete name (shares m)))
  end.

Definition GrantToShare (shareName objectType objectName : string) : GoM Manager unit :=
  let! m := get in
  match shares m !! shareName with
  | None => fail (not_exist shareName)
  | Some share =>
      let o := mkObject objectType objectName in
      if bool_decide (o ∈ Objects share)
      then fail ("object '" +:+ objectName +:+ "' of type '" +:+ objectType
                  +:+ "' already granted to share '" +:+ shareName +:+ "'")
      else put (put_share shareName (set_Objects (Objects share ++ [o]) share) m)
  end.

(** The list without the first occurrence of [o], [None] when there is none. *)
Fixpoint remove_object (o : SharedObject) (l : list SharedObject) : option (list SharedObject) :=
  match l with
  | [] => None
  | x :: l => if decide (x = o) then Some l else cons x <$> remove_object o l
  end.

Definition RevokeFromShare (shareName objectType objectName : string) : GoM Manager unit :=
  let! m := get in
  match shares m !! shareName with
  | None => fail (not_exist shareName)
  | Some share =>
      match remove_object (mkObject objectType objectName) (Objects share) with
      | None => fail ("object '" +:+ objectName +:+ "' of type '" +:+ objectType
                       +:+ "' not found in share '" +:+ shareName +:+ "'")
      | Some l => put (put_share shareName (set_Objects l share) m)
      end
  end.

(** The loop that adds accounts, with the set of those already there. *)
Fixpoint add_accounts (existing : gset string) (accounts : list string) (cur : list string)
    : list string :=
  match accounts with
  | [] => cur
  | a :: accounts =>
      if decide (a ∈ existing) then add_accounts existing accounts cur
      else add_accounts ({[a]} ∪ existing) accounts (cur ++ [a])
  end.

Definition AlterShareAddAccounts (shareName : string) (accounts : list string)
    : GoM Manager unit :=
  let! m := get in
  match shares m !! shareName with
  | None => fail (not_exist shareName)
  | Some share =>
      let existing := list_to_set (Accounts share) in
      put (put_share shareName
             (set_Accounts (add_accounts existing accounts (Accounts share)) share) m)
  end.

Definition AlterShareRemoveAccounts (shareName : string) (accounts : list string)
    : GoM Manager unit :=
  let! m := get in
  match shares m !! shareName with
  | None => fail (not_exist shareName)
  | Some share =>
      let toRemove : gset string := list_to_set accounts in
      let filtered := filter (λ a, a ∉ toRemove) (Accounts share) in
      put (put_share shareName (set_Accounts filtered share) m)
  end.

Definition ShowShares `{MapRange} (m : Manager) : list ShareInfo :=
  (λ ks : string * Share, let s := ks.2 in
     mkInfo (Name s) (Type_ s) (Database s) (Comment s) (length (Accounts s))
       (length (Objects s)) (CreatedAt s)) <$> map_range 0 (shares m).

Definition DescribeShare (m : Manager) (name : string) : result Share :=
  match shares m !! name with None => Err (not_exist name) | Some s => Ok s end.

Definition inbound_name (shareName dbName : string) : string := dbName +:+ "_from_" +:+ shareName.

Definition CreateDatabaseFromShare (now : Z) (shareName dbName : string) : GoM Manager unit :=
  let! m := get in
  match shares m !! shareName with
  | None => fail (not_exist shareName)
  | Some share =>
      let inboundName := inbound_name shareName dbName in
      match shares m !! inboundName with
      | Some _ => fail ("database '" +:+ dbName +:+ "' from share '" +:+ shareName
                         +:+ "' already exists")
      | None =>
          put (put_share inboundName
                 (mkShare inboundName ShareInbound dbName (Objects share) []
                    ("Database created from share '" +:+ shareName +:+ "'") now) m)
      end
  end.

(** ** Specification *)

(** Shares are stored under their non-empty names, with no duplicate object or
    account; an inbound share has no accounts. *)
Record wf_share (k : string) (s : Share) : Prop := {
  wf_name : Name s = k ∧ k ≠ "";
  wf_objects : NoDup (Objects s);
  wf_accounts : NoDup (Accounts s);
}.
Definition wf (m : Manager) : Prop := ∀ k s, shares m !! k = Some s → wf_share k s.

Inductive Op : Type :=
  | OpCreate (now : Z) (name comment : string)
  | OpDrop (name : string)
  | OpGrant (share objectType objectName : string)
  | OpRevoke (share objectType objectName : string)
  | OpAdd (share : string) (accounts : list string)
  | OpRemove (share : string) (accounts : list string)
  | OpFromShare (now : Z) (share db : string).

Definition run_op (o : Op) : GoM Manager unit :=
  match o with
  | OpCreate now n c => CreateShare now n c
  | OpDrop n => DropShare n
  | OpGrant s t n => GrantToShare s t n
  | OpRevoke s t n => RevokeFromShare s t n
  | OpAdd s accs => AlterShareAddAccounts s accs
  | OpRemove s accs => AlterShareRemoveAccounts s accs
  | OpFromShare now s db => CreateDatabaseFromShare now s db
  end.

Definition sharing_reachable : Manager → Prop :=
  reachable (λ m, m = NewManager) (λ m o m', (run_op o m).2 = m').

(** What a share gives: the objects, and the accounts, as sets. *)
Definition shared (m : Manager) (s : string) : option (gset (string * string) * gset string) :=
  (λ sh, (list_to_set ((λ o, (o_Type o, o_Name o)) <$> Objects sh), list_to_set (Accounts sh)))
    <$> shares m !! s.

(** The answer of an operation and the share it changes, as sets; [None] is an
    error that changes nothing. *)
Definition share_spec (m : Manager) (op : Op)
    : option (string * option (gset (string * string) * gset string)) :=
  match op with
  | OpCreate _ n _ =>
      match decide (n = ""), shared m n with
      | right _, None => Some (n, Some (∅, ∅))
      | _, _ => None
      end
  | OpDrop n => match shared m n with Some _ => Some (n, None) | None => None end
  | OpGrant s t n =>
      match shared m s with
      | Some (os, accs) =>
          if decide ((t, n) ∈ os) then None else Some (s, Some ({[(t, n)]} ∪ os, accs))
      | None => None
      end
  | OpRevoke s t n =>
      match shared m s with
      | Some (os, accs) =>
          if decide ((t, n) ∈ os) then Some (s, Some (os ∖ {[(t, n)]}, accs)) else None
      | None => None
      end
  | OpAdd s l =>
      match shared m s with
      | Some (os, accs) => Some (s, Some (os, accs ∪ list_to_set l))
      | None => None
      end
  | OpRemove s l =>
      match shared m s with
      | Some (os, accs) => Some (s, Some (os, accs ∖ list_to_set l))
      | None => None
      end
  | OpFromShare _ s db =>
      match shared m s, shared m (inbound_name s db) with
      | Some (os, _), None => Some (inbound_name s db, Some (os, ∅))
      | _, _ => None
      end
  end.

(** ** Proofs *)

Lemma add_accounts_spec ex accs cur :
  (∀ a, a ∈ ex ↔ a ∈ cur) → NoDup cur →
  NoDup (add_accounts ex accs cur) ∧
  ∀ a, a ∈ add_accounts ex accs cur ↔ a ∈ cur ∨ a ∈ accs.
Proof.
  revert ex cur. induction accs as [|x accs IH]; intros ex cur Hex Hnd; cbn; [set_solver|].
  case_decide as Hx.
  - destruct (IH ex cur Hex Hnd) as [H1 H2]. split; [done|]. intros a. rewrite H2. set_solver.
  - destruct (IH ({[x]} ∪ ex) (cur ++ [x])) as [H1 H2].
    + set_solver.
    + apply NoDup_snoc; [done|]. by rewrite <- Hex.
    + split; [done|]. intros a. rewrite H2. set_solver.
Qed.

Lemma remove_object_None o l : remove_object o l = None ↔ (o ∉ l).
Proof.
  induction l as [|x l IH]; cbn; [by split; [intros _ ?%elem_of_nil|]|].
  rewrite not_elem_of_cons. case_decide; [naive_solver|]. rewrite fmap_None, IH. naive_solver.
Qed.

Lemma remove_object_Some o l l' :
  NoDup l → remove_object o l = Some l' → NoDup l' ∧ ∀ x, x ∈ l' ↔ x ∈ l ∧ x ≠ o.
Proof.
  revert l'. induction l as [|x l IH]; intros l' Hnd; [done|]. cbn.
  apply NoDup_cons in Hnd as [Hx Hnd]. case_decide.
  - intros [= <-]. subst. split; [done|]. set_solver.
  - intros (k & E & ->)%fmap_Some. destruct (IH k Hnd E) as [H1 H2]. split.
    + apply NoDup_cons. rewrite H2. tauto.
    + intros y. rewrite !elem_of_cons, H2. naive_solver.
Qed.

Definition obj_pair (o : SharedObject) : string * string := (o_Type o, o_Name o).

#[export] Instance obj_pair_inj : Inj (=) (=) obj_pair.
Proof. intros [t1 n1] [t2 n2] [= -> ->]. done. Qed.

Lemma elem_of_objs t n (l : list SharedObject) :
  (t, n) ∈ (list_to_set (obj_pair <$> l) : gset (string * string)) ↔ mkObject t n ∈ l.
Proof.
  rewrite elem_of_list_to_set, list_elem_of_fmap. split.
  - intros ([t' n'] & [= -> ->] & H). done.
  - intros H. by exists (mkObject t n).
Qed.

Lemma shared_put m k s k' :
  shared (put_share k s m) k' =
  if decide (k' = k)
  then Some (list_to_set (obj_pair <$> Objects s), list_to_set (Accounts s)) else shared m k'.
Proof.
  unfold shared. cbn. case_decide; [subst; by rewrite lookup_insert_eq|by rewrite lookup_insert_ne].
Qed.

(** An operation refines its specification. *)
Definition refines (m : Manager) (op : Op) : Prop :=
  match share_spec m op with
  | None => is_ok (run_op op m).1 = false ∧ (run_op op m).2 = m
  | Some (s, v) => (run_op op m).1 = Ok tt ∧ wf (run_op op m).2 ∧
      ∀ k, shared (run_op op m).2 k = if decide (k = s) then v else shared m k
  end.

(** The state after a successful change of one share. *)
Lemma put_refines (m : Manager) (k : string) (s : Share) (v : gset (string * string) * gset string) :
  wf m → wf_share k s → v = (list_to_set (obj_pair <$> Objects s), list_to_set (Accounts s)) →
  wf (put_share k s m) ∧
  ∀ k', shared (put_share k s m) k' = if decide (k' = k) then Some v else shared m k'.
Proof.
  intros Hm Hs ->. split.
  - intros k' s'. cbn. intros [[<- <-]|[_ Hk]]%lookup_insert_Some; [done|by apply Hm].
  - intros k'. apply shared_put.
Qed.

Lemma shared_lookup m s sh :
  shares m !! s = Some sh →
  shared m s = Some (list_to_set (obj_pair <$> Objects sh), list_to_set (Accounts sh)).
Proof. unfold shared. by intros ->. Qed.

Lemma shared_None m s : shares m !! s = None → shared m s = None.
Proof. unfold shared. by intros ->. Qed.

Lemma change_refines m op :
  wf m →
  match op with OpGrant _ _ _ | OpRevoke _ _ _ | OpAdd _ _ | OpRemove _ _ => True | _ => False end →
  refines m op.
Proof.
  intros Hm Hop. unfold refines. destruct op as [| |s t n|s t n|s l|s l|]; try done; cbn [run_op share_spec];
    (destruct (shares m !! s) as [sh|] eqn:E;
      [rewrite (shared_lookup m s sh E); destruct (Hm s sh E) as [[Hn He] Ho Ha]|
       rewrite (shared_None m s E)]).
  - unfold GrantToShare. go_unfold. rewrite E, (decide_ext _ _ _ _ (elem_of_objs t n (Objects sh))).
    destruct (decide (mkObject t n ∈ Objects sh)).
    { by rewrite bool_decide_true. }
    rewrite bool_decide_false by done. split; [done|].
    apply put_refines; [done| |].
    + split; cbn; [done|by apply NoDup_snoc|done].
    + cbn. rewrite fmap_app, list_to_set_app_L. f_equal. cbn. set_solver.
  - unfold GrantToShare. go_unfold. by rewrite E.
  - unfold RevokeFromShare. go_unfold. rewrite E, (decide_ext _ _ _ _ (elem_of_objs t n (Objects sh))).
    destruct (remove_object (mkObject t n) (Objects sh)) as [l|] eqn:Er.
    + rewrite decide_True.
      2: { apply dec_stable. intros H%remove_object_None. congruence. }
      destruct (remove_object_Some _ _ _ Ho Er) as [Hl Hin]. split; [done|].
      apply put_refines; [done|by split|]. cbn. f_equal. apply set_eq. intros [t' n'].
      rewrite elem_of_objs, Hin, elem_of_difference, elem_of_objs, elem_of_singleton.
      naive_solver.
    + rewrite decide_False by (by apply remove_object_None). done.
  - unfold RevokeFromShare. go_unfold. by rewrite E.
  - unfold AlterShareAddAccounts. go_unfold. rewrite E. split; [done|].
    destruct (add_accounts_spec (list_to_set (Accounts sh)) l (Accounts sh)) as [Hnd Hin];
      [set_solver|done|].
    apply put_refines; [done|by split|]. cbn. f_equal. set_solver.
  - unfold AlterShareAddAccounts. go_unfold. by rewrite E.
  - unfold AlterShareRemoveAccounts. go_unfold. rewrite E. split; [done|].
    apply put_refines; [done| |].
    + split; [done|done|]. cbn. by apply NoDup_filter.
    + cbn. f_equal. apply set_eq. intros a.
      rewrite elem_of_difference, !elem_of_list_to_set, list_elem_of_filter. set_solver.
  - unfold AlterShareRemoveAccounts. go_unfold. by rewrite E.
Qed.

Lemma inbound_name_nonempty s db : inbound_name s db ≠ "".
Proof. unfold inbound_name. by destruct db. Qed.

Lemma create_refines m op :
  wf m → match op with OpCreate _ _ _ | OpDrop _ | OpFromShare _ _ _ => True | _ => False end →
  refines m op.
Proof.
  intros Hm Hop. unfold refines. destruct op as [now n c|n| | | | |now s db]; try done; cbn [run_op share_spec].
  - unfold CreateShare. go_unfold. destruct (decide (n = "")); [done|].
    destruct (shares m !! n) as [sh|] eqn:E.
    { by rewrite (shared_lookup m n sh E). }
    rewrite (shared_None m n E). split; [done|]. apply put_refines; [done| |done].
    split; cbn; [done|apply NoDup_nil_2..].
  - unfold DropShare. go_unfold. destruct (shares m !! n) as [sh|] eqn:E.
    2: { by rewrite (shared_None m n E). }
    rewrite (shared_lookup m n sh E). split; [done|]. split.
    + intros k s'. cbn. intros [_ Hk]%lookup_delete_Some. by apply Hm.
    + intros k. unfold shared. cbn. case_decide; [subst; by rewrite lookup_delete_eq|].
      by rewrite lookup_delete_ne.
  - unfold CreateDatabaseFromShare. go_unfold. destruct (shares m !! s) as [sh|] eqn:E.
    2: { by rewrite (shared_None m s E). }
    rewrite (shared_lookup m s sh E). destruct (Hm s sh E) as [_ Ho _].
    destruct (shares m !! inbound_name s db) as [sh'|] eqn:E'.
    { by rewrite (shared_lookup m _ sh' E'). }
    rewrite (shared_None m _ E'). split; [done|]. apply put_refines; [done| |done].
    split; cbn; [split; [done|apply inbound_name_nonempty]|done|apply NoDup_nil_2].
Qed.

Lemma run_op_refines m op : wf m → refines m op.
Proof.
  intros Hm. destruct op; first [by apply change_refines|by apply create_refines].
Qed.

Lemma sharing_wf m : sharing_reachable m → wf m.
Proof.
  apply reachable_inv; [by intros ? -> ??|]. intros s op s' Hs <-.
  pose proof (run_op_refines s op Hs) as H. unfold refines in H.
  destruct (share_spec s op) as [[? ?]|]; [by destruct H as (_ & ? & _)|by destruct H as [_ ->]].
Qed.

(** The manager implements shares as sets.  In any reachable state every
    operation answers and changes the objects and accounts of the one share it
    names as [share_spec] says: granting an object twice, revoking one that is not
    there, creating a share twice or naming a missing share is an error that
    changes nothing; adding and removing accounts are union and difference; a
    database made from a share starts with a copy of the objects the share has at
    that moment, which later changes of the share do not touch. *)
Theorem sharing_refinement m op :
  sharing_reachable m →
  match share_spec m op with
  | None => is_ok (run_op op m).1 = false ∧ (run_op op m).2 = m
  | Some (s, v) => (run_op op m).1 = Ok tt ∧
      ∀ k, shared (run_op op m).2 k = if decide (k = s) then v else shared m k
  end.
Proof.
  intros Hm%sharing_wf. pose proof (run_op_refines m op Hm) as H. unfold refines in H.
  destruct (share_spec m op) as [[s v]|]; [|done]. by destruct H as (? & _ & ?).
Qed.

(** ** Witness *)

Definition sample : Manager := foldl (λ m op, (run_op op m).2) NewManager
  [OpCreate 0 "sales" ""; OpGrant "sales" "TABLE" "t"; OpFromShare 1 "sales" "db";
   OpAdd "sales" ["a"; "b"; "a"]].

Lemma sharing_refinement_witness :
  (run_op (OpRevoke "sales" "TABLE" "t") sample).1 = Ok tt ∧
  shared (run_op (OpRevoke "sales" "TABLE" "t") sample).2 "db_from_sales" =
    shared sample "db_from_sales" ∧
  shared sample "db_from_sales" = Some ({[("TABLE", "t")]}, ∅).
Proof.
  destruct (sharing_refinement sample (OpRevoke "sales" "TABLE" "t")) as [H Hk].
  { apply (reachable_exec _ _ (λ o m, (run_op o m).2)); reflexivity. }
  split; [exact H|]. split; [exact (Hk "db_from_sales")|vm_compute; reflexivity].
Defined.
