(* ===== verification/Catalog.v ===== *)
(** * The object catalog ([internal/catalog/catalog.go])

    Databases hold schemas and schemas hold table metadata; the maps of views,
    stages, streams, tasks and pipes of a schema are created empty and no
    operation of the catalog changes them.  Names are compared without case. *)

From S2P Require Import Prelude GoStrings GoTime.

(** ** Data *)

Record ColumnMeta := mkColumn {
  c_Name : string;
  c_Type : string;
  c_Nullable : bool;
  c_Default : string;
  c_Comment : string;
}.

Record TableMeta := mkTable {
  t_Name : string;
  t_Columns : list ColumnMeta;
  t_ClusterBy : list string;
  t_Comment : string;
  t_IsTemporary : bool;
  t_IsTransient : bool;
  t_CreatedAt : Z;
  t_Owner : string;
}.

Record ViewMeta := mkView {
  v_Name : string;
  v_Definition : string;
  v_Columns : list ColumnMeta;
  v_CreatedAt : Z;
}.

Record StageMeta := mkStage {
  sg_Name : string;
  sg_StageType : string;
  sg_URL : string;
  sg_CreatedAt : Z;
}.

Record StreamMeta := mkStreamMeta { sm_Name : string; sm_TableName : string; sm_CreatedAt : Z }.

Record TaskMeta := mkTaskMeta {
  tk_Name : string;
  tk_Definition : string;
  tk_Schedule : string;
  tk_State : string;
  tk_CreatedAt : Z;
}.

Record PipeMeta := mkPipeMeta { pm_Name : string; pm_Definition : string; pm_CreatedAt : Z }.

Record Schema := mkSchema {
  s_Name : string;
  s_Tables : gmap string TableMeta;
  s_Views : gmap string ViewMeta;
  s_Stages : gmap string StageMeta;
  s_Streams : gmap string StreamMeta;
  s_Tasks : gmap string TaskMeta;
  s_Pipes : gmap string PipeMeta;
  s_CreatedAt : Z;
  s_Owner : string;
}.

Record Database := mkDatabase {
  d_Name : string;
  d_Schemas : gmap string Schema;
  d_CreatedAt : Z;
  d_Owner : string;
}.

Record Warehouse := mkWarehouse {
  w_Name : string;
  w_Size : string;
  w_State : string;
  w_AutoSuspend : Z;
  w_CreatedAt : Z;
}.

Record Catalog := mkCatalog {
  databases : gmap string Database;
  warehouses : gmap string Warehouse;
}.

Definition set_Tables (ts : gmap string TableMeta) (s : Schema) : Schema :=
  mkSchema (s_Name s) ts (s_Views s) (s_Stages s) (s_Streams s) (s_Tasks s) (s_Pipes s)
    (s_CreatedAt s) (s_Owner s).
Definition set_Schemas (ss : gmap string Schema) (d : Database) : Database :=
  mkDatabase (d_Name d) ss (d_CreatedAt d) (d_Owner d).

(** Writing through the pointers of the maps. *)
Definition put_database (k : string) (d : Database) (c : Catalog) : Catalog :=
  mkCatalog (<[k := d]> (databases c)) (warehouses c).
Definition put_schema (dbKey : string) (db : Database) (sKey : string) (s : Schema) (c : Catalog)
    : Catalog :=
  put_database dbKey (set_Schemas (<[sKey := s]> (d_Schemas db)) db) c.

(** ** Helpers *)

Definition New : Catalog := mkCatalog ∅ ∅.

Definition newSchema (now : Z) (name owner : string) : Schema :=
  mkSchema name ∅ ∅ ∅ ∅ ∅ ∅ now owner.

Definition no_database (dbKey : string) : string :=
  "database '" +:+ dbKey +:+ "' does not exist".
Definition no_schema (sKey dbKey : string) : string :=
  "schema '" +:+ sKey +:+ "' does not exist in database '" +:+ dbKey +:+ "'".
Definition no_table (key dbName schemaName : string) : string :=
  "table '" +:+ key +:+ "' does not exist in '" +:+ ToUpper dbName +:+ "." +:+ ToUpper schemaName +:+ "'".

(** The database and schema found under the two names. *)
Definition getSchemaLocked (c : Catalog) (dbName schemaName : string) : result (Database * Schema) :=
  let dbKey := ToUpper dbName in
  match databases c !! dbKey with
  | None => Err (no_database dbKey)
  | Some db =>
      let sKey := ToUpper schemaName in
      match d_Schemas db !! sKey with
      | None => Err (no_schema sKey dbKey)
      | Some s => Ok (db, s)
      end
  end.

(** ** Databases.  [now 0] is the clock when the database is made, [now 1] and
    [now 2] when its two schemas are. *)

Definition CreateDatabase (now : nat → Z) (name owner : string) : GoM Catalog unit :=
  let! c := get in
  let key := ToUpper name in
  match databases c !! key with
  | Some _ => fail ("database '" +:+ key +:+ "' already exists")
  | None =>
      let schemas := <["INFORMATION_SCHEMA" := newSchema (now 2) "INFORMATION_SCHEMA" ""]>
                       (<["PUBLIC" := newSchema (now 1) "PUBLIC" owner]> ∅) in
      put (put_database key (mkDatabase key schemas (now 0) owner) c)
  end.

Definition DropDatabase (name : string) : GoM Catalog unit :=
  let! c := get in
  let key := ToUpper name in
  match databases c !! key with
  | None => fail (no_database key)
  | Some _ => put (mkCatalog (delete key (databases c)) (warehouses c))
  end.

Definition GetDatabase (c : Catalog) (name : string) : result Database :=
  let key := ToUpper name in
  match databases c !! key with None => Err (no_database key) | Some db => Ok db end.

Definition ListDatabases `{MapRange} (c : Catalog) : list Database :=
  (map_range 0 (databases c)).*2.

(** ** Schemas *)

Definition CreateSchema (now : Z) (dbName schemaName owner : string) : GoM Catalog unit :=
  let! c := get in
  let dbKey := ToUpper dbName in
  match databases c !! dbKey with
  | None => fail (no_database dbKey)
  | Some db =>
      let sKey := ToUpper schemaName in
      match d_Schemas db !! sKey with
      | Some _ => fail ("schema '" +:+ sKey +:+ "' already exists in database '" +:+ dbKey +:+ "'")
      | None => put (put_schema dbKey db sKey (newSchema now sKey owner) c)
      end
  end.

Definition DropSchema (dbName schemaName : string) : GoM Catalog unit :=
  let! c := get in
  let dbKey := ToUpper dbName in
  match databases c !! dbKey with
  | None => fail (no_database dbKey)
  | Some db =>
      let sKey := ToUpper schemaName in
      match d_Schemas db !! sKey with
      | None => fail (no_schema sKey dbKey)
      | Some _ => put (put_database dbKey (set_Schemas (delete sKey (d_Schemas db)) db) c)
      end
  end.

Definition GetSchema (c : Catalog) (dbName schemaName : string) : result Schema :=
  result_map snd (getSchemaLocked c dbName schemaName).

Definition ListSchemas `{MapRange} (c : Catalog) (dbName : string) : result (list Schema) :=
  match databases c !! ToUpper dbName with
  | None => Err (no_database (ToUpper dbName))
  | Some db => Ok (map_range 0 (d_Schemas db)).*2
  end.

(** ** Tables *)

(** What [RegisterTable] stores: the caller's object, renamed to upper case and
    dated when it has no date. *)
Definition stamped (now : Z) (t : TableMeta) : TableMeta :=
  mkTable (ToUpper (t_Name t)) (t_Columns t) (t_ClusterBy t) (t_Comment t) (t_IsTemporary t)
    (t_IsTransient t) (if IsZero (t_CreatedAt t) then now else t_CreatedAt t) (t_Owner t).

Definition RegisterTable (now : Z) (dbName schemaName : string) (table : TableMeta)
    : GoM Catalog unit :=
  let! c := get in
  match getSchemaLocked c dbName schemaName with
  | Err e => fail e
  | Ok (db, s) =>
      let key := ToUpper (t_Name table) in
      match s_Tables s !! key with
      | Some _ => fail ("table '" +:+ key +:+ "' already exists in '" +:+ ToUpper dbName +:+ "."
                         +:+ ToUpper schemaName +:+ "'")
      | None =>
          put (put_schema (ToUpper dbName) db (ToUpper schemaName)
                 (set_Tables (<[key := stamped now table]> (s_Tables s)) s) c)
      end
  end.

Definition DropTable (dbName schemaName tableName : string) : GoM Catalog unit :=
  let! c := get in
  match getSchemaLocked c dbName schemaName with
  | Err e => fail e
  | Ok (db, s) =>
      let key := ToUpper tableName in
      match s_Tables s !! key with
      | None => fail (no_table key dbName schemaName)
      | Some _ =>
          put (put_schema (ToUpper dbName) db (ToUpper schemaName)
                 (set_Tables (delete key (s_Tables s)) s) c)
      end
  end.

Definition GetTable (c : Catalog) (dbName schemaName tableName : string) : result TableMeta :=
  match getSchemaLocked c dbName schemaName with
  | Err e => Err e
  | Ok (_, s) =>
      let key := ToUpper tableName in
      match s_Tables s !! key with
      | None => Err (no_table key dbName schemaName)
      | Some t => Ok t
      end
  end.

Definition ListTables `{MapRange} (c : Catalog) (dbName schemaName : string)
    : result (list TableMeta) :=
  match getSchemaLocked c dbName schemaName with
  | Err e => Err e
  | Ok (_, s) => Ok (map_range 0 (s_Tables s)).*2
  end.

(** ** Warehouses *)

Definition CreateWarehouse (now : Z) (name size : string) (autoSuspend : Z) : GoM Catalog unit :=
  let! c := get in
  let key := ToUpper name in
  match warehouses c !! key with
  | Some _ => fail ("warehouse '" +:+ key +:+ "' already exists")
  | None =>
      put (mkCatalog (databases c)
             (<[key := mkWarehouse key size "STARTED" autoSuspend now]> (warehouses c)))
  end.

Definition GetWarehouse (c : Catalog) (name : string) : result Warehouse :=
  let key := ToUpper name in
  match warehouses c !! key with
  | None => Err ("warehouse '" +:+ key +:+ "' does not exist")
  | Some wh => Ok wh
  end.

Definition ListWarehouses `{MapRange} (c : Catalog) : list Warehouse :=
  (map_range 0 (warehouses c)).*2.

(** ** Initialisation *)

Definition Init (now : nat → Z) : GoM Catalog unit :=
  ignore (CreateDatabase now "SNOWFLAKE_SAMPLE_DATA" "SYSADMIN") ;;;
  ignore (CreateWarehouse (now 3) "COMPUTE_WH" "X-Small" 600).

Definition Reset (now : nat → Z) : GoM Catalog unit := put New ;;; Init now.

(** ** SHOW commands *)

Definition ShowDatabases `{MapRange} (c : Catalog) : list (list cell) :=
  (λ kd : string * Database, let db := kd.2 in
     [CStr (format_rfc3339 (d_CreatedAt db)); CStr (d_Name db); CStr "N"; CStr "N";
      CStr (d_Owner db); CStr ""; CStr ""; CInt (Z.of_nat (size (d_Schemas db)))])
    <$> map_range 0 (databases c).

Definition ShowSchemas `{MapRange} (c : Catalog) (dbName : string) : result (list (list cell)) :=
  let dbKey := ToUpper dbName in
  match databases c !! dbKey with
  | None => Err (no_database dbKey)
  | Some db =>
      Ok ((λ ks : string * Schema, let s := ks.2 in
             [CStr (format_rfc3339 (s_CreatedAt s)); CStr (s_Name s); CStr "N"; CStr "N";
              CStr dbKey; CStr (s_Owner s); CStr ""; CStr ""])
            <$> map_range 0 (d_Schemas db))
  end.

Definition table_kind (t : TableMeta) : string :=
  if t_IsTransient t then "TRANSIENT" else if t_IsTemporary t then "TEMPORARY" else "TABLE".

Definition ShowTables `{MapRange} (c : Catalog) (dbName schemaName : string)
    : result (list (list cell)) :=
  match getSchemaLocked c dbName schemaName with
  | Err e => Err e
  | Ok (_, s) =>
      Ok ((λ kt : string * TableMeta, let t := kt.2 in
             [CStr (format_rfc3339 (t_CreatedAt t)); CStr (t_Name t); CStr (ToUpper dbName);
              CStr (ToUpper schemaName); CStr (table_kind t); CStr (t_Comment t);
              CInt (Z.of_nat (length (t_Columns t))); CStr (t_Owner t)])
            <$> map_range 0 (s_Tables s))
  end.

Definition ShowColumns (c : Catalog) (dbName schemaName tableName : string)
    : result (list (list cell)) :=
  match getSchemaLocked c dbName schemaName with
  | Err e => Err e
  | Ok (_, s) =>
      let tKey := ToUpper tableName in
      match s_Tables s !! tKey with
      | None => Err ("table '" +:+ tKey +:+ "' does not exist")
      | Some t =>
          Ok ((λ col, [CStr (t_Name t); CStr (c_Name col); CStr (c_Type col);
                       CBool (c_Nullable col); CStr (c_Default col); CStr (c_Comment col)])
                <$> t_Columns t)
      end
  end.

(** ** Specification

    The hierarchy seen as three relations on upper-case names. *)

Definition has_db (c : Catalog) (d : string) : bool := bool_decide (is_Some (databases c !! d)).

Definition schema_at (c : Catalog) (d s : string) : option Schema :=
  db ← databases c !! d; d_Schemas db !! s.

Definition table_at (c : Catalog) (d s t : string) : option TableMeta :=
  sch ← schema_at c d s; s_Tables sch !! t.

Inductive Op : Type :=
  | OpCreateDatabase (now : nat → Z) (db owner : string)
  | OpDropDatabase (db : string)
  | OpCreateSchema (now : Z) (db schema owner : string)
  | OpDropSchema (db schema : string)
  | OpRegisterTable (now : Z) (db schema : string) (t : TableMeta)
  | OpDropTable (db schema table : string)
  | OpCreateWarehouse (now : Z) (name size : string) (autoSuspend : Z)
  | OpInit (now : nat → Z)
  | OpReset (now : nat → Z).

Definition run_op (o : Op) : GoM Catalog unit :=
  match o with
  | OpCreateDatabase now db owner => CreateDatabase now db owner
  | OpDropDatabase db => DropDatabase db
  | OpCreateSchema now db s owner => CreateSchema now db s owner
  | OpDropSchema db s => DropSchema db s
  | OpRegisterTable now db s t => RegisterTable now db s t
  | OpDropTable db s t => DropTable db s t
  | OpCreateWarehouse now n sz a => CreateWarehouse now n sz a
  | OpInit now => Init now
  | OpReset now => Reset now
  end.

Definition catalog_reachable : Catalog → Prop :=
  reachable (λ c, c = New) (λ c o c', (run_op o c).2 = c').

(** Every object is stored under its own upper-case name. *)
Record wf (c : Catalog) : Prop := {
  wf_db : ∀ d db, databases c !! d = Some db → d_Name db = d ∧ ToUpper d = d;
  wf_schema : ∀ d s sch, schema_at c d s = Some sch → s_Name sch = s ∧ ToUpper s = s;
  wf_table : ∀ d s t tm, table_at c d s t = Some tm →
    t_Name tm = t ∧ ToUpper t = t;
  wf_warehouse : ∀ k w, warehouses c !! k = Some w → w_Name w = k ∧ ToUpper k = k;
}.

(** The three relations after a successful operation, [None] for an error. *)
Definition has_schema (c : Catalog) (d s : string) : bool := bool_decide (is_Some (schema_at c d s)).

Record View := mkViewOf {
  vw_db : string → bool;
  vw_schema : string → string → bool;
  vw_table : string → string → string → option TableMeta;
}.
Definition view (c : Catalog) : View := mkViewOf (has_db c) (has_schema c) (table_at c).

Definition view_eq (v w : View) : Prop :=
  (∀ d, vw_db v d = vw_db w d) ∧ (∀ d s, vw_schema v d s = vw_schema w d s) ∧
  (∀ d s t, vw_table v d s t = vw_table w d s t).

(** The operations on the hierarchy. *)
Inductive HOp : Type :=
  | HCreateDatabase (d owner : string)
  | HDropDatabase (d : string)
  | HCreateSchema (d s owner : string)
  | HDropSchema (d s : string)
  | HRegisterTable (d s : string) (t : TableMeta)
  | HDropTable (d s t : string).

Definition hop (now : nat → Z) (o : HOp) : GoM Catalog unit :=
  match o with
  | HCreateDatabase d owner => CreateDatabase now d owner
  | HDropDatabase d => DropDatabase d
  | HCreateSchema d s owner => CreateSchema (now 0) d s owner
  | HDropSchema d s => DropSchema d s
  | HRegisterTable d s t => RegisterTable (now 0) d s t
  | HDropTable d s t => DropTable d s t
  end.

Definition spec (now : Z) (o : HOp) (v : View) : option View :=
  match o with
  | HCreateDatabase d _ =>
      let d := ToUpper d in
      if vw_db v d then None
      else Some (mkViewOf (λ x, bool_decide (x = d) || vw_db v x)
                   (λ x y, if decide (x = d)
                           then bool_decide (y = "PUBLIC" ∨ y = "INFORMATION_SCHEMA")
                           else vw_schema v x y)
                   (vw_table v))
  | HDropDatabase d =>
      let d := ToUpper d in
      if vw_db v d
      then Some (mkViewOf (λ x, negb (bool_decide (x = d)) && vw_db v x)
                   (λ x y, negb (bool_decide (x = d)) && vw_schema v x y)
                   (λ x y z, if decide (x = d) then None else vw_table v x y z))
      else None
  | HCreateSchema d s _ =>
      let d := ToUpper d in let s := ToUpper s in
      if vw_db v d && negb (vw_schema v d s)
      then Some (mkViewOf (vw_db v)
                   (λ x y, bool_decide (x = d ∧ y = s) || vw_schema v x y) (vw_table v))
      else None
  | HDropSchema d s =>
      let d := ToUpper d in let s := ToUpper s in
      if vw_schema v d s
      then Some (mkViewOf (vw_db v)
                   (λ x y, negb (bool_decide (x = d ∧ y = s)) && vw_schema v x y)
                   (λ x y z, if decide (x = d ∧ y = s) then None else vw_table v x y z))
      else None
  | HRegisterTable d s t =>
      let d := ToUpper d in let s := ToUpper s in let k := ToUpper (t_Name t) in
      match vw_schema v d s, vw_table v d s k with
      | true, None =>
          Some (mkViewOf (vw_db v) (vw_schema v)
                  (λ x y z, if decide (x = d ∧ y = s ∧ z = k)
                            then Some (stamped now t) else vw_table v x y z))
      | _, _ => None
      end
  | HDropTable d s t =>
      let d := ToUpper d in let s := ToUpper s in let k := ToUpper t in
      match vw_table v d s k with
      | Some _ =>
          Some (mkViewOf (vw_db v) (vw_schema v)
                  (λ x y z, if decide (x = d ∧ y = s ∧ z = k) then None else vw_table v x y z))
      | None => None
      end
  end.

(** ** Proofs *)

(** A database after a write to it, seen through the relations. *)
Lemma put_database_view k d c :
  (∀ x, has_db (put_database k d c) x = bool_decide (x = k) || has_db c x) ∧
  (∀ x y, schema_at (put_database k d c) x y =
     (if decide (x = k) then d_Schemas d !! y else schema_at c x y)).
Proof.
  split; intros x; unfold has_db, schema_at; cbn; [|intros y];
    (destruct (decide (x = k)) as [->|Hne]; [rewrite lookup_insert_eq|rewrite lookup_insert_ne by done]).
  - by rewrite !bool_decide_true by eauto.
  - by rewrite (bool_decide_false (x = k)).
  - done.
  - done.
Qed.

Lemma put_schema_view c k db s sch :
  databases c !! k = Some db →
  (∀ x, has_db (put_schema k db s sch c) x = has_db c x) ∧
  (∀ x y, schema_at (put_schema k db s sch c) x y =
     (if decide (x = k ∧ y = s) then Some sch else schema_at c x y)).
Proof.
  intros Hk. unfold put_schema.
  destruct (put_database_view k (set_Schemas (<[s:=sch]> (d_Schemas db)) db) c) as [H1 H2]. split.
  - intros x. rewrite H1. unfold has_db. case_bool_decide; [|done]. subst.
    rewrite bool_decide_true by eauto. done.
  - intros x y. rewrite H2. cbn. destruct (decide (x = k)) as [->|Hne].
    + destruct (decide (y = s)) as [->|Hys].
      * by rewrite lookup_insert_eq, decide_True.
      * rewrite lookup_insert_ne, decide_False by (done || tauto).
        unfold schema_at. by rewrite Hk.
    + by rewrite decide_False by tauto.
Qed.

Lemma getSchema_spec c d s :
  (∃ e, getSchemaLocked c d s = Err e ∧ schema_at c (ToUpper d) (ToUpper s) = None) ∨
  (∃ db sch, getSchemaLocked c d s = Ok (db, sch) ∧ databases c !! ToUpper d = Some db ∧
     d_Schemas db !! ToUpper s = Some sch ∧ schema_at c (ToUpper d) (ToUpper s) = Some sch).
Proof.
  unfold getSchemaLocked, schema_at. destruct (databases c !! ToUpper d) as [db|]; cbn; [|eauto].
  destruct (d_Schemas db !! ToUpper s) as [sch|] eqn:E; eauto 10.
Qed.

Lemma has_schema_Some c d s sch : schema_at c d s = Some sch → has_schema c d s = true.
Proof. unfold has_schema. intros ->. by apply bool_decide_true. Qed.
Lemma has_schema_None c d s : schema_at c d s = None → has_schema c d s = false.
Proof. unfold has_schema. intros ->. apply bool_decide_false. by intros [? ?]. Qed.
Lemma has_db_false c d : databases c !! d = None → has_db c d = false.
Proof. unfold has_db. intros ->. apply bool_decide_false. by intros [? ?]. Qed.
Lemma has_db_true c d db : databases c !! d = Some db → has_db c d = true.
Proof. unfold has_db. intros ->. by apply bool_decide_true. Qed.

(** What it is for an operation to refine its specification. *)
Definition refines (now : nat → Z) (c : Catalog) (o : HOp) : Prop :=
  match spec (now 0) o (view c) with
  | None => is_ok (hop now o c).1 = false ∧ (hop now o c).2 = c
  | Some v => (hop now o c).1 = Ok tt ∧ view_eq (view (hop now o c).2) v
  end.

Lemma CreateDatabase_refines now c d owner : refines now c (HCreateDatabase d owner).
Proof.
  unfold refines. cbn [hop spec view vw_db]. unfold CreateDatabase. go_unfold.
  destruct (databases c !! ToUpper d) as [db|] eqn:E; [by rewrite (has_db_true _ _ _ E)|].
  rewrite (has_db_false _ _ E). split; [done|].
  set (db := mkDatabase _ _ _ _). destruct (put_database_view (ToUpper d) db c) as [H1 H2].
  assert (Hno : ∀ s, schema_at c (ToUpper d) s = None) by (intros; unfold schema_at; by rewrite E).
  split; [exact H1|split].
  - intros x y. cbn. unfold has_schema. rewrite H2. destruct (decide (x = ToUpper d)); [|done].
    apply bool_decide_ext. unfold is_Some. cbn. setoid_rewrite lookup_insert_Some.
    setoid_rewrite lookup_insert_Some. setoid_rewrite lookup_empty.
    destruct (decide (y = "INFORMATION_SCHEMA")), (decide (y = "PUBLIC")); naive_solver.
  - intros x y z. cbn. unfold table_at. rewrite H2.
    destruct (decide (x = ToUpper d)) as [->|]; [|done]. rewrite Hno. cbn.
    destruct (_ !! y) as [sch|] eqn:Ey; [|done].
    apply lookup_insert_Some in Ey as [[_ <-]|[_ Ey]]; [done|].
    apply lookup_insert_Some in Ey as [[_ <-]|[_ Ey]]; [done|]. by rewrite lookup_empty in Ey.
Qed.

Lemma DropDatabase_refines now c d : refines now c (HDropDatabase d).
Proof.
  unfold refines. cbn [hop spec view vw_db]. unfold DropDatabase. go_unfold.
  destruct (databases c !! ToUpper d) as [db|] eqn:E; [|by rewrite (has_db_false _ _ E)].
  rewrite (has_db_true _ _ _ E). split; [done|].
  unfold view_eq, view, has_schema, has_db, table_at, schema_at. cbn.
  split; [|split]; intros x; [|intros y|intros y z];
    (destruct (decide (x = ToUpper d)) as [->|Hne];
     [rewrite lookup_delete_eq, ?(bool_decide_true (ToUpper d = ToUpper d)) by done
     |rewrite lookup_delete_ne, ?(bool_decide_false (x = ToUpper d)) by done]); try done;
    cbn; apply bool_decide_false; by intros [? ?].
Qed.

Lemma CreateSchema_refines now c d s owner : refines now c (HCreateSchema d s owner).
Proof.
  unfold refines. cbn [hop spec view vw_db vw_schema]. unfold CreateSchema. go_unfold.
  destruct (databases c !! ToUpper d) as [db|] eqn:E; [|by rewrite (has_db_false _ _ E)].
  rewrite (has_db_true _ _ _ E).
  assert (Es : schema_at c (ToUpper d) (ToUpper s) = d_Schemas db !! ToUpper s)
    by (unfold schema_at; by rewrite E).
  destruct (d_Schemas db !! ToUpper s) as [sch|]; [by rewrite (has_schema_Some _ _ _ _ Es)|].
  rewrite (has_schema_None _ _ _ Es). split; [done|].
  destruct (put_schema_view c (ToUpper d) db (ToUpper s) (newSchema (now 0) (ToUpper s) owner) E)
    as [H1 H2].
  split; [exact H1|split].
  - intros x y. cbn. unfold has_schema. rewrite H2.
    destruct (decide (x = ToUpper d ∧ y = ToUpper s)) as [Hd|Hd].
    + by rewrite !bool_decide_true by eauto.
    + by rewrite (bool_decide_false (x = _ ∧ _)).
  - intros x y z. cbn. unfold table_at. rewrite H2.
    destruct (decide (x = ToUpper d ∧ y = ToUpper s)) as [[-> ->]|]; [|done]. by rewrite Es.
Qed.

Lemma DropSchema_refines now c d s : refines now c (HDropSchema d s).
Proof.
  unfold refines. cbn [hop spec view vw_db vw_schema]. unfold DropSchema. go_unfold.
  destruct (databases c !! ToUpper d) as [db|] eqn:E.
  2: { rewrite has_schema_None; [done|]. unfold schema_at. by rewrite E. }
  assert (Es : schema_at c (ToUpper d) (ToUpper s) = d_Schemas db !! ToUpper s)
    by (unfold schema_at; by rewrite E).
  destruct (d_Schemas db !! ToUpper s) as [sch|] eqn:Ed; [|by rewrite (has_schema_None _ _ _ Es)].
  rewrite (has_schema_Some _ _ _ _ Es). split; [done|].
  destruct (put_database_view (ToUpper d) (set_Schemas (delete (ToUpper s) (d_Schemas db)) db) c)
    as [H1 H2].
  assert (H3 : ∀ x y, schema_at (put_database (ToUpper d)
      (set_Schemas (delete (ToUpper s) (d_Schemas db)) db) c) x y =
      (if decide (x = ToUpper d ∧ y = ToUpper s) then None else schema_at c x y)).
  { intros x y. rewrite H2. cbn. destruct (decide (x = ToUpper d)) as [->|];
      [|by rewrite decide_False by tauto]. destruct (decide (y = ToUpper s)) as [->|].
    - by rewrite lookup_delete_eq, decide_True.
    - rewrite lookup_delete_ne, decide_False by (done || tauto). unfold schema_at. by rewrite E. }
  split; [|split].
  - intros x. cbn. rewrite H1. case_bool_decide; [|done]. subst. by rewrite (has_db_true _ _ _ E).
  - intros x y. cbn. unfold has_schema. rewrite H3.
    destruct (decide (x = ToUpper d ∧ y = ToUpper s)).
    + rewrite (bool_decide_true (x = _ ∧ _)) by done. apply bool_decide_false. by intros [? ?].
    + by rewrite (bool_decide_false (x = _ ∧ _)).
  - intros x y z. cbn. unfold table_at. rewrite H3. by case_decide.
Qed.

(** Changing the tables of one schema. *)
Lemma put_tables_view c d s db sch ts :
  databases c !! d = Some db → schema_at c d s = Some sch →
  let c' := put_schema d db s (set_Tables ts sch) c in
  (∀ x, has_db c' x = has_db c x) ∧ (∀ x y, has_schema c' x y = has_schema c x y) ∧
  (∀ x y z, table_at c' x y z = if decide (x = d ∧ y = s) then ts !! z else table_at c x y z).
Proof.
  intros Hd Hs c'. destruct (put_schema_view c d db s (set_Tables ts sch) Hd) as [H1 H2].
  split; [exact H1|split].
  - intros x y. unfold has_schema. subst c'. rewrite H2. case_decide as Hxy; [|done].
    destruct Hxy as [-> ->]. rewrite Hs. by rewrite !bool_decide_true by eauto.
  - intros x y z. unfold table_at. subst c'. rewrite H2. by case_decide.
Qed.

Lemma RegisterTable_refines now c d s t : refines now c (HRegisterTable d s t).
Proof.
  unfold refines. cbn [hop spec view vw_db vw_schema vw_table]. unfold RegisterTable. go_unfold.
  destruct (getSchema_spec c d s) as [(e & -> & Es)|(db & sch & -> & Ed & Eds & Es)].
  { by rewrite (has_schema_None _ _ _ Es). }
  rewrite (has_schema_Some _ _ _ _ Es).
  assert (Et : table_at c (ToUpper d) (ToUpper s) (ToUpper (t_Name t))
    = s_Tables sch !! ToUpper (t_Name t)) by (unfold table_at; by rewrite Es).
  rewrite Et. destruct (s_Tables sch !! ToUpper (t_Name t)) eqn:E; [done|]. split; [done|].
  destruct (put_tables_view c (ToUpper d) (ToUpper s) db sch
    (<[ToUpper (t_Name t) := stamped (now 0) t]> (s_Tables sch)) Ed Es) as (H1 & H2 & H3).
  split; [exact H1|split; [exact H2|]]. intros x y z. cbn [vw_table view snd]. rewrite H3.
  destruct (decide (x = ToUpper d ∧ y = ToUpper s)) as [[-> ->]|Hd].
  - destruct (decide (z = ToUpper (t_Name t))) as [->|Hz].
    + by rewrite lookup_insert_eq, decide_True.
    + rewrite lookup_insert_ne, decide_False by (done || tauto). unfold table_at. by rewrite Es.
  - by rewrite decide_False by tauto.
Qed.

Lemma DropTable_refines now c d s t : refines now c (HDropTable d s t).
Proof.
  unfold refines. cbn [hop spec view vw_db vw_schema vw_table]. unfold DropTable. go_unfold.
  destruct (getSchema_spec c d s) as [(e & -> & Es)|(db & sch & -> & Ed & Eds & Es)].
  { assert (table_at c (ToUpper d) (ToUpper s) (ToUpper t) = None) as ->; [|done].
    unfold table_at. by rewrite Es. }
  assert (Et : table_at c (ToUpper d) (ToUpper s) (ToUpper t) = s_Tables sch !! ToUpper t)
    by (unfold table_at; by rewrite Es).
  rewrite Et. destruct (s_Tables sch !! ToUpper t) eqn:E; [|done]. split; [done|].
  destruct (put_tables_view c (ToUpper d) (ToUpper s) db sch
    (delete (ToUpper t) (s_Tables sch)) Ed Es) as (H1 & H2 & H3).
  split; [exact H1|split; [exact H2|]]. intros x y z. cbn [vw_table view snd]. rewrite H3.
  destruct (decide (x = ToUpper d ∧ y = ToUpper s)) as [[-> ->]|Hd].
  - destruct (decide (z = ToUpper t)) as [->|Hz].
    + by rewrite lookup_delete_eq, decide_True.
    + rewrite lookup_delete_ne, decide_False by (done || tauto). unfold table_at. by rewrite Es.
  - by rewrite decide_False by tauto.
Qed.

(** C30: the nested maps implement a hierarchy of names.  Each operation answers
    as the relations "is a database", "is a schema of" and "is the table at"
    demand, and on success changes them exactly as stated by [spec]: a new
    database has just the schemas PUBLIC and INFORMATION_SCHEMA and no table;
    dropping a database or a schema removes everything below it and nothing else;
    a table is registered once under its upper-case name; errors change nothing. *)
Theorem catalog_refinement now c o :
  match spec (now 0) o (view c) with
  | None => is_ok (hop now o c).1 = false ∧ (hop now o c).2 = c
  | Some v => (hop now o c).1 = Ok tt ∧ view_eq (view (hop now o c).2) v
  end.
Proof.
  destruct o.
  - apply CreateDatabase_refines.
  - apply DropDatabase_refines.
  - apply CreateSchema_refines.
  - apply DropSchema_refines.
  - apply RegisterTable_refines.
  - apply DropTable_refines.
Qed.

(** ** The invariant *)

Lemma wf_put_database k d c :
  wf c → d_Name d = k → ToUpper k = k →
  (∀ s sch, d_Schemas d !! s = Some sch → s_Name sch = s ∧ ToUpper s = s) →
  (∀ s sch t tm, d_Schemas d !! s = Some sch → s_Tables sch !! t = Some tm →
     t_Name tm = t ∧ ToUpper t = t) →
  wf (put_database k d c).
Proof.
  intros [W1 W2 W3 W4] Hn Hk Hs Ht. destruct (put_database_view k d c) as [_ H2]. split.
  - intros x db. cbn. intros [[<- <-]|[_ ?]]%lookup_insert_Some; eauto.
  - intros x s sch. rewrite H2. case_decide; eauto.
  - intros x s t tm. unfold table_at. rewrite H2. case_decide; [|apply W3].
    intros (sch & Hsch & Htm)%bind_Some. eauto.
  - done.
Qed.

Lemma wf_schema_of c d db s sch :
  wf c → databases c !! d = Some db → d_Schemas db !! s = Some sch →
  s_Name sch = s ∧ ToUpper s = s.
Proof. intros Hc Hd Hs. apply (wf_schema c Hc d). unfold schema_at. by rewrite Hd. Qed.

Lemma wf_table_of c d db s sch t tm :
  wf c → databases c !! d = Some db → d_Schemas db !! s = Some sch →
  s_Tables sch !! t = Some tm → t_Name tm = t ∧ ToUpper t = t.
Proof.
  intros Hc Hd Hs Ht. apply (wf_table c Hc d s). unfold table_at, schema_at. rewrite Hd. cbn.
  by rewrite Hs.
Qed.

Lemma wf_put_schema c d db s sch :
  wf c → databases c !! d = Some db → s_Name sch = s → ToUpper s = s →
  (∀ t tm, s_Tables sch !! t = Some tm → t_Name tm = t ∧ ToUpper t = t) →
  wf (put_schema d db s sch c).
Proof.
  intros Hc Hd Hn Hs Ht. destruct (wf_db c Hc d db Hd) as [Hdn Hdu].
  apply wf_put_database; try done; cbn.
  - intros s' sch' [[<- <-]|[_ ?]]%lookup_insert_Some; [done|by eapply wf_schema_of].
  - intros s' sch' t tm [[<- <-]|[_ ?]]%lookup_insert_Some ?; [by eapply Ht|by eapply wf_table_of].
Qed.

Lemma CreateDatabase_wf now n o c : wf c → wf (CreateDatabase now n o c).2.
Proof.
  intros Hc. unfold CreateDatabase. go_unfold. destruct (databases c !! _) eqn:E; [done|].
  apply wf_put_database; cbn; [done|done|by autorewrite with go_rw|..].
  - intros s sch [[<- <-]|[_ Hs]]%lookup_insert_Some; [done|].
    apply lookup_insert_Some in Hs as [[<- <-]|[_ Hs]]; [done|by rewrite lookup_empty in Hs].
  - intros s sch t tm [[<- <-]|[_ Hs]]%lookup_insert_Some; [cbn; by rewrite lookup_empty|].
    apply lookup_insert_Some in Hs as [[<- <-]|[_ Hs]]; cbn; [|by rewrite lookup_empty in Hs].
    by rewrite lookup_empty.
Qed.

Lemma CreateWarehouse_wf now n sz a c : wf c → wf (CreateWarehouse now n sz a c).2.
Proof.
  intros [W1 W2 W3 W4]. unfold CreateWarehouse. go_unfold. destruct (warehouses c !! _); [done|].
  split; cbn; try done. intros k w [[<- <-]|[_ ?]]%lookup_insert_Some; [|by apply W4].
  cbn. by autorewrite with go_rw.
Qed.

Lemma catalog_Init_wf now c : wf c → wf (Init now c).2.
Proof.
  intros Hc. unfold Init. rewrite bind_ignore, ignore_snd.
  by apply CreateWarehouse_wf, CreateDatabase_wf.
Qed.

Lemma New_wf : wf New.
Proof. split; cbn; unfold table_at, schema_at; intros *; cbn; rewrite lookup_empty; done. Qed.

Lemma catalog_op_wf o c : wf c → wf (run_op o c).2.
Proof.
  intros Hc. destruct o as [now d o|d|now d s o|d s|now d s t|d s t|now n sz a|now|now]; unfold run_op.
  - by apply CreateDatabase_wf.
  - unfold DropDatabase. go_unfold. destruct (databases c !! _) eqn:E; [|done].
    destruct Hc as [W1 W2 W3 W4]. split; cbn [databases warehouses snd]; try done; unfold table_at, schema_at; cbn [databases snd].
    + intros x db [_ ?]%lookup_delete_Some. eauto.
    + intros x s sch (db & [_ Hd]%lookup_delete_Some & Hs)%bind_Some. apply (W2 x).
      unfold schema_at. by rewrite Hd.
    + intros x s t tm Hx. apply bind_Some in Hx as (sch & Hs & Ht).
      apply bind_Some in Hs as (db & [_ Hd]%lookup_delete_Some & Hs).
      apply (W3 x s). unfold table_at, schema_at. rewrite Hd. cbn. by rewrite Hs.
  - unfold CreateSchema. go_unfold. destruct (databases c !! _) as [db|] eqn:E; [|done].
    destruct (d_Schemas db !! _); [done|]. apply wf_put_schema; try done; cbn.
    by autorewrite with go_rw.
  - unfold DropSchema. go_unfold. destruct (databases c !! _) as [db|] eqn:E; [|done].
    destruct (d_Schemas db !! _); [|done]. destruct (wf_db c Hc _ _ E).
    apply wf_put_database; try done; cbn.
    + intros s' sch' [_ ?]%lookup_delete_Some. by eapply wf_schema_of.
    + intros s' sch' t tm [_ ?]%lookup_delete_Some ?. by eapply wf_table_of.
  - unfold RegisterTable. go_unfold.
    destruct (getSchema_spec c d s) as [(e & -> & _)|(db & sch & -> & Ed & Es & _)]; [done|].
    destruct (s_Tables sch !! _); [done|]. destruct (wf_schema_of c _ _ _ _ Hc Ed Es).
    apply wf_put_schema; try done; cbn.
    intros t' tm [[<- <-]|[_ ?]]%lookup_insert_Some; [|by eapply wf_table_of].
    cbn. by autorewrite with go_rw.
  - unfold DropTable. go_unfold.
    destruct (getSchema_spec c d s) as [(e & -> & _)|(db & sch & -> & Ed & Es & _)]; [done|].
    destruct (s_Tables sch !! _); [|done]. destruct (wf_schema_of c _ _ _ _ Hc Ed Es).
    apply wf_put_schema; try done; cbn. intros t' tm [_ ?]%lookup_delete_Some. by eapply wf_table_of.
  - by apply CreateWarehouse_wf.
  - by apply catalog_Init_wf.
  - unfold Reset, bind, put. apply (catalog_Init_wf now New), New_wf.
Qed.

(** In every state the exported operations reach, every database, schema,
    table and warehouse is stored under its own name, in upper case. *)
Theorem catalog_names_canonical c : catalog_reachable c → wf c.
Proof.
  apply reachable_inv; [intros ? ->; apply New_wf|]. intros s o s' Hs <-. by apply catalog_op_wf.
Qed.

(** ** Names are case-insensitive *)

Definition same_name (s t : string) : Prop := ToUpper s = ToUpper t.

#[export] Instance same_name_equiv : Equivalence same_name.
Proof. split; unfold same_name; congruence. Qed.

#[export] Instance getSchemaLocked_proper :
  Proper ((=) ==> same_name ==> same_name ==> (=)) getSchemaLocked.
Proof. intros c ? <- d d' Hd s s' Hs. unfold getSchemaLocked. by rewrite Hd, Hs. Qed.

#[export] Instance no_table_proper : Proper ((=) ==> same_name ==> same_name ==> (=)) no_table.
Proof. intros k ? <- d d' Hd s s' Hs. unfold no_table. by rewrite Hd, Hs. Qed.

#[export] Instance GetTable_proper :
  Proper ((=) ==> same_name ==> same_name ==> same_name ==> (=)) GetTable.
Proof.
  intros c ? <- d d' Hd s s' Hs t t' Ht. unfold GetTable. rewrite Hd, Hs.
  destruct (getSchemaLocked c d' s') as [[db sch]|]; [|done]. unfold same_name in Ht. rewrite Ht.
  by rewrite (no_table_proper _ _ eq_refl _ _ Hd _ _ Hs).
Qed.

Lemma GetTable_table_at c d s t tm :
  GetTable c d s t = Ok tm ↔ table_at c (ToUpper d) (ToUpper s) (ToUpper t) = Some tm.
Proof.
  unfold GetTable, table_at.
  destruct (getSchema_spec c d s) as [(e & -> & ->)|(db & sch & -> & _ & _ & ->)]; cbn; [done|].
  destruct (s_Tables sch !! ToUpper t); split; congruence.
Qed.

(** A table that was registered is found again, with its metadata, under any
    spelling of the three names, and after it is dropped under any spelling it is
    not found under any. *)
Theorem register_get_drop now c d s t d1 s1 n1 d2 s2 n2 :
  (RegisterTable now d s t c).1 = Ok tt →
  same_name d1 d → same_name s1 s → same_name n1 (t_Name t) →
  same_name d2 d → same_name s2 s → same_name n2 (t_Name t) →
  let c' := (RegisterTable now d s t c).2 in
  GetTable c' d1 s1 n1 = Ok (stamped now t) ∧
  (DropTable d2 s2 n2 c').1 = Ok tt ∧
  is_ok (GetTable (DropTable d2 s2 n2 c').2 d1 s1 n1) = false.
Proof.
  intros Hok Hd Hs Hn Hd2 Hs2 Hn2 c'. rewrite Hd, Hs, Hn.
  pose proof (RegisterTable_refines (λ _, now) c d s t) as Hr. unfold refines in Hr.
  cbn [hop] in Hr. fold c' in Hr.
  destruct (spec now (HRegisterTable d s t) (view c)) as [v|] eqn:Ev;
    [|destruct Hr as [Hr _]; by rewrite Hok in Hr].
  destruct Hr as [_ (_ & _ & Ht)].
  assert (Hreg : table_at c' (ToUpper d) (ToUpper s) (ToUpper (t_Name t)) = Some (stamped now t)).
  { cbn [vw_table view] in Ht. rewrite Ht. cbn in Ev. repeat case_match; simplify_eq. cbn. by rewrite decide_True. }
  rewrite (proj2 (GetTable_table_at c' d s (t_Name t) _)) by exact Hreg. split; [done|].
  pose proof (DropTable_refines (λ _, now) c' d2 s2 n2) as Hr. unfold refines in Hr.
  cbn [hop spec view vw_table] in Hr. rewrite Hd2, Hs2, Hn2, Hreg in Hr.
  destruct Hr as [Hok2 (_ & _ & Ht2)]. split; [done|].
  destruct (GetTable _ d s (t_Name t)) as [tm|] eqn:Eg; [|done].
  apply GetTable_table_at in Eg. cbn [vw_table view] in Ht2. rewrite Ht2 in Eg. cbn in Eg. by rewrite decide_True in Eg.
Qed.

(** ** Witnesses *)

Definition sample : Catalog := (Init (λ _, 0%Z) New).2.
Definition sample_table : TableMeta := mkTable "orders" [] [] "" false false zero_time "".

Lemma catalog_sample_reachable : catalog_reachable sample.
Proof.
  eapply (reachable_step _ _ New (OpInit (λ _, 0%Z))); [by apply reachable_init|done].
Qed.

Lemma catalog_names_canonical_witness : catalog_reachable sample ∧ wf sample.
Proof.
  split; [exact catalog_sample_reachable|exact (catalog_names_canonical sample catalog_sample_reachable)].
Defined.

Lemma register_get_drop_witness :
  GetTable (RegisterTable 7 "snowflake_sample_data" "public" sample_table sample).2
    "Snowflake_Sample_Data" "PUBLIC" "Orders" = Ok (stamped 7 sample_table).
Proof.
  apply (register_get_drop 7 sample "snowflake_sample_data" "public" sample_table
    "Snowflake_Sample_Data" "PUBLIC" "Orders" "snowflake_sample_data" "public" "orders");
    vm_compute; reflexivity.
Defined.
