(* ===== verification/AccountUsage.v ===== *)
(** * Account usage history ([internal/accountusage/accountusage.go])

    The histories of queries, logins and storage, kept within a limit, and their filters
    and tables; what a reading returns of what was recorded. *)

From S2P Require Import Prelude GoStrings GoTime.

(** ** Data *)

Record QueryHistory := mkQuery {
  QueryID : string;
  QueryText : string;
  DatabaseName : string;
  SchemaName : string;
  UserName : string;
  RoleName : string;
  WarehouseName : string;
  StartTime : Z;
  EndTime : Z;
  Status : string;
  ErrorCode : string;
  ErrorMessage : string;
  BytesScanned : Z;
  RowsProduced : Z;
  ExecutionTimeMs : Z;
}.

Record LoginHistory := mkLogin {
  EventTimestamp : Z;
  l_UserName : string;
  ClientIP : string;
  IsSuccess : bool;
  l_ErrorCode : string;
  l_ErrorMessage : string;
}.

Record StorageUsage := mkStorage {
  UsageDate : Z;
  s_DatabaseName : string;
  AverageBytes : Z;
  DeletedBytes : Z;
  FailsafeBytes : Z;
}.

Record Store := mkStore {
  queryHistory : list QueryHistory;
  loginHistory : list LoginHistory;
  storageUsage : list StorageUsage;
  maxHistory : nat;
}.

(** ** Operations *)

Definition NewStore (maxHistory : Z) : Store :=
  let maxHistory := if (maxHistory <=? 0)%Z then 10000%Z else maxHistory in
  mkStore [] [] [] (Z.to_nat maxHistory).

(** [l = append(l, x); if len(l) > max { l = l[len(l)-max:] }] *)
Definition push {A} (max : nat) (l : list A) (x : A) : list A :=
  let l := l ++ [x] in
  if max <? length l then drop (length l - max) l else l.

Definition RecordQuery (qh : QueryHistory) (s : Store) : Store :=
  mkStore (push (maxHistory s) (queryHistory s) qh) (loginHistory s) (storageUsage s) (maxHistory s).
Definition RecordLogin (lh : LoginHistory) (s : Store) : Store :=
  mkStore (queryHistory s) (push (maxHistory s) (loginHistory s) lh) (storageUsage s) (maxHistory s).
Definition RecordStorage (su : StorageUsage) (s : Store) : Store :=
  mkStore (queryHistory s) (loginHistory s) (push (maxHistory s) (storageUsage s) su) (maxHistory s).

(** One entry of the filter map; an unknown key filters nothing. *)
Definition matches_filter (qh : QueryHistory) (k v : string) : bool :=
  let k := ToUpper k in
  if decide (k = "DATABASE_NAME") then EqualFold (DatabaseName qh) v
  else if decide (k = "SCHEMA_NAME") then EqualFold (SchemaName qh) v
  else if decide (k = "USER_NAME") then EqualFold (UserName qh) v
  else if decide (k = "STATUS") then EqualFold (Status qh) v
  else if decide (k = "WAREHOUSE_NAME") then EqualFold (WarehouseName qh) v
  else true.

Definition matchesFilters `{MapRange} (qh : QueryHistory) (filters : gmap string string) : bool :=
  forallb (λ kv, matches_filter qh kv.1 kv.2) (map_range 0 filters).

(** The loop over the entries, newest first; [n] entries have been collected. *)
Fixpoint collect `{MapRange} (limit : Z) (filters : gmap string string) (n : Z)
    (l : list QueryHistory) : list QueryHistory :=
  match l with
  | [] => []
  | qh :: l =>
      if matchesFilters qh filters then
        if (0 <? limit)%Z && (limit <=? n + 1)%Z then [qh]
        else qh :: collect limit filters (n + 1) l
      else collect limit filters n l
  end.

Definition GetQueryHistory `{MapRange} (s : Store) (limit : Z) (filters : gmap string string)
    : list QueryHistory :=
  collect limit filters 0 (reverse (queryHistory s)).

(** [result[i] = loginHistory[n-1-i]] for [i < limit]. *)
Definition GetLoginHistory (s : Store) (limit : Z) : list LoginHistory :=
  let n := length (loginHistory s) in
  let limit := if (limit <=? 0)%Z || (Z.of_nat n <? limit)%Z then n else Z.to_nat limit in
  i ← seq 0 limit; option_list (loginHistory s !! (n - 1 - i)).

Definition GetStorageUsage (s : Store) (startDate endDate : Z) : list StorageUsage :=
  filter (λ su, let day := Truncate (UsageDate su) (24 * Hour) in
                (startDate ≤ day ∧ day ≤ endDate)%Z)
    (storageUsage s).

Definition query_columns : list string :=
  ["QUERY_ID"; "QUERY_TEXT"; "DATABASE_NAME"; "SCHEMA_NAME"; "USER_NAME"; "ROLE_NAME";
   "WAREHOUSE_NAME"; "START_TIME"; "END_TIME"; "STATUS"; "ERROR_CODE"; "ERROR_MESSAGE";
   "BYTES_SCANNED"; "ROWS_PRODUCED"; "EXECUTION_TIME"].

Definition query_row (qh : QueryHistory) : list cell :=
  [CStr (QueryID qh); CStr (QueryText qh); CStr (DatabaseName qh); CStr (SchemaName qh);
   CStr (UserName qh); CStr (RoleName qh); CStr (WarehouseName qh);
   CStr (format_rfc3339 (StartTime qh)); CStr (format_rfc3339 (EndTime qh)); CStr (Status qh);
   CStr (ErrorCode qh); CStr (ErrorMessage qh); CStr (Itoa (BytesScanned qh));
   CStr (Itoa (RowsProduced qh)); CStr (Itoa (ExecutionTimeMs qh))].

Definition queryHistoryResult `{MapRange} (s : Store) (limit : Z) : list string * list (list cell) :=
  (query_columns, query_row <$> GetQueryHistory s limit ∅).

Definition login_columns : list string :=
  ["EVENT_TIMESTAMP"; "USER_NAME"; "CLIENT_IP"; "IS_SUCCESS"; "ERROR_CODE"; "ERROR_MESSAGE"].

Definition login_row (lh : LoginHistory) : list cell :=
  [CStr (format_rfc3339 (EventTimestamp lh)); CStr (l_UserName lh); CStr (ClientIP lh);
   CStr (if IsSuccess lh then "YES" else "NO"); CStr (l_ErrorCode lh); CStr (l_ErrorMessage lh)].

Definition loginHistoryResult (s : Store) (limit : Z) : list string * list (list cell) :=
  (login_columns, login_row <$> GetLoginHistory s limit).

Definition storage_columns : list string :=
  ["USAGE_DATE"; "DATABASE_NAME"; "AVERAGE_DATABASE_BYTES"; "AVERAGE_DATABASE_DELETED_BYTES";
   "AVERAGE_FAILSAFE_BYTES"].

Definition storage_row (su : StorageUsage) : list cell :=
  [CStr (format_date (UsageDate su)); CStr (s_DatabaseName su); CStr (Itoa (AverageBytes su));
   CStr (Itoa (DeletedBytes su)); CStr (Itoa (FailsafeBytes su))].

Definition storageUsageResult (s : Store) (limit : Z) : list string * list (list cell) :=
  let entries := storageUsage s in
  let entries :=
    if (0 <? limit)%Z && (limit <? Z.of_nat (length entries))%Z
    then drop (length entries - Z.to_nat limit) entries else entries in
  (storage_columns, storage_row <$> entries).

Definition AsQueryResult `{MapRange} (s : Store) (viewName : string) (limit : Z)
    : list string * list (list cell) :=
  let v := ToUpper viewName in
  if decide (v = "QUERY_HISTORY") then queryHistoryResult s limit
  else if decide (v = "LOGIN_HISTORY") then loginHistoryResult s limit
  else if decide (v = "STORAGE_USAGE") then storageUsageResult s limit
  else ([], []).

(** ** Specification *)

(** The last [n] elements. *)
Definition lastn {A} (n : nat) (l : list A) : list A := drop (length l - n) l.

(** The first [limit] elements, all of them when [limit] is not positive. *)
Definition limited {A} (limit : Z) (l : list A) : list A :=
  if (0 <? limit)%Z then take (Z.to_nat limit) l else l.

Inductive Record_ : Type :=
  | RQuery (qh : QueryHistory)
  | RLogin (lh : LoginHistory)
  | RStorage (su : StorageUsage).

Definition record (r : Record_) (s : Store) : Store :=
  match r with
  | RQuery qh => RecordQuery qh s
  | RLogin lh => RecordLogin lh s
  | RStorage su => RecordStorage su s
  end.

Definition queries (rs : list Record_) : list QueryHistory :=
  omap (λ r, match r with RQuery q => Some q | _ => None end) rs.
Definition logins (rs : list Record_) : list LoginHistory :=
  omap (λ r, match r with RLogin l => Some l | _ => None end) rs.
Definition storages (rs : list Record_) : list StorageUsage :=
  omap (λ r, match r with RStorage u => Some u | _ => None end) rs.

(** The bound a store is created with. *)
Definition bound (max : Z) : nat := Z.to_nat (if (max <=? 0)%Z then 10000%Z else max).

(** The entry satisfies every filter, whatever the case of its key. *)
Definition satisfies (filters : gmap string string) (qh : QueryHistory) : Prop :=
  ∀ k v, filters !! k = Some v → matches_filter qh k v = true.

#[export] Instance satisfies_dec filters qh : Decision (satisfies filters qh).
Proof.
  refine (cast_if (decide (map_Forall (λ k v, matches_filter qh k v = true) filters))); done.
Defined.

(** ** Proofs *)

Lemma push_lastn {A} (m : nat) (l : list A) x : push m (lastn m l) x = lastn m (l ++ [x]).
Proof.
  unfold push, lastn. rewrite !length_app, length_drop. change (length [x]) with 1.
  destruct (Nat.ltb_spec m (length l - (length l - m) + 1)).
  - rewrite <- drop_app_le by lia. rewrite drop_drop. f_equal. lia.
  - rewrite <- drop_app_le by lia. f_equal. lia.
Qed.

Lemma foldl_snoc_ind {A B} (f : B → A → B) (P : B → list A → Prop) b l :
  P b [] → (∀ b' l' a, P b' l' → P (f b' a) (l' ++ [a])) → P (foldl f b l) l.
Proof.
  intros H0 Hs. induction l as [|a l IH] using rev_ind; [done|]. rewrite foldl_app. by apply Hs.
Qed.

(** Recording keeps the latest entries of each category. *)
Lemma record_window max rs :
  let s := foldl (λ s r, record r s) (NewStore max) rs in
  queryHistory s = lastn (bound max) (queries rs) ∧
  loginHistory s = lastn (bound max) (logins rs) ∧
  storageUsage s = lastn (bound max) (storages rs) ∧ maxHistory s = bound max.
Proof.
  refine (foldl_snoc_ind (λ s r, record r s) (λ s rs,
    queryHistory s = lastn (bound max) (queries rs) ∧
    loginHistory s = lastn (bound max) (logins rs) ∧
    storageUsage s = lastn (bound max) (storages rs) ∧ maxHistory s = bound max)
    (NewStore max) rs _ _); [done|].
  intros s l r (Hq & Hl & Hu & Hm). unfold queries, logins, storages in *. rewrite !omap_app.
  destruct r; cbn; rewrite ?app_nil_r, Hm, ?Hq, ?Hl, ?Hu, ?push_lastn; done.
Qed.

Lemma matchesFilters_spec `{MapRange} qh filters :
  matchesFilters qh filters = true ↔ satisfies filters qh.
Proof.
  unfold matchesFilters, satisfies. rewrite forallb_forall. split.
  - intros Hf k v Hk. apply (Hf (k, v)), list_elem_of_In, elem_of_map_range, Hk.
  - intros Hs [k v] Hin. apply list_elem_of_In, elem_of_map_range in Hin. by apply Hs.
Qed.

Lemma collect_spec `{MapRange} limit filters n l :
  (0 ≤ n)%Z → (0 < limit → n < limit)%Z →
  collect limit filters n l =
  (if (0 <? limit)%Z then take (Z.to_nat (limit - n)) else id) (filter (satisfies filters) l).
Proof.
  revert n. induction l as [|qh l IH]; intros n Hn Hlim; cbn [collect].
  { destruct (0 <? limit)%Z; [by rewrite filter_nil, take_nil|done]. }
  pose proof (matchesFilters_spec qh filters) as Hm. destruct (matchesFilters qh filters).
  - rewrite filter_cons_True by (by apply Hm).
    destruct (Z.ltb_spec 0 limit) as [Hl|Hl]; cbn.
    + destruct (Z.leb_spec limit (n + 1)).
      * replace (limit - n)%Z with 1%Z by lia. done.
      * rewrite IH by lia.
        replace (Z.to_nat (limit - n)) with (S (Z.to_nat (limit - (n + 1)))) by lia. done.
    + rewrite IH by lia. done.
  - rewrite filter_cons_False by (intros Hs; by apply Hm in Hs). by apply IH.
Qed.

(** A store created with a bound and given any sequence of records answers a
    query-history request with the newest entries first: of the last [bound]
    queries recorded, those that satisfy all filters (keys and values compared
    without case, in whatever order the filter map is iterated), cut to the first
    [limit] when the limit is positive. *)
Theorem query_history_window `{MapRange} max rs limit filters :
  GetQueryHistory (foldl (λ s r, record r s) (NewStore max) rs) limit filters =
  limited limit (filter (satisfies filters) (reverse (lastn (bound max) (queries rs)))).
Proof.
  unfold GetQueryHistory, limited. destruct (record_window max rs) as (-> & _).
  rewrite collect_spec by lia. rewrite Z.sub_0_r. by destruct (0 <? limit)%Z.
Qed.

Lemma index_reverse {A} (l : list A) k :
  k ≤ length l →
  (i ← seq 0 k; option_list (l !! (length l - 1 - i))) = take k (reverse l).
Proof.
  induction k as [|k IH]; intros Hk; [done|].
  rewrite seq_S, bind_app. cbn [Nat.add]. rewrite IH by lia.
  destruct (lookup_lt_is_Some_2 l (length l - 1 - k)) as [x Hx]; [lia|].
  rewrite (take_S_r _ _ x).
  - cbn. rewrite Hx. done.
  - rewrite reverse_lookup by lia. rewrite <- Hx. f_equal. lia.
Qed.

(** The login history is the newest entries first, and no category ever holds
    more than the bound. *)
Theorem login_history_window max rs limit :
  let s := foldl (λ s r, record r s) (NewStore max) rs in
  GetLoginHistory s limit = limited limit (reverse (lastn (bound max) (logins rs))) ∧
  length (queryHistory s) ≤ bound max ∧ length (loginHistory s) ≤ bound max ∧
  length (storageUsage s) ≤ bound max.
Proof.
  intros s. destruct (record_window max rs) as (Hq & Hl & Hu & _). subst s.
  unfold GetLoginHistory, limited. rewrite Hq, Hl, Hu.
  split; [|unfold lastn; rewrite !length_drop; lia].
  set (l := lastn _ _). destruct (Z.ltb_spec 0 limit), (Z.leb_spec limit 0); try lia; cbn.
  - destruct (Z.ltb_spec (Z.of_nat (length l)) limit).
    + rewrite index_reverse by lia. rewrite !take_ge by (rewrite length_reverse; lia). done.
    + by rewrite index_reverse by lia.
  - rewrite index_reverse by lia. by rewrite take_ge by (rewrite length_reverse; lia).
Qed.

Lemma query_history_example :
  let q u := mkQuery "" "" "" "" u "" "" 0 0 "OK" "" "" 0 0 0 in
  @GetQueryHistory key_order
    (foldl (λ s r, record r s) (NewStore 2) [RQuery (q "a"); RQuery (q "B"); RQuery (q "b")])
    1 {[ "user_name" := "b" ]} = [q "b"].
Proof. reflexivity. Qed.
