(* ===== verification/Session.v ===== *)
(** * Client sessions ([internal/session/session.go])

    Sessions are keyed by their token.  A background loop removes, at every tick
    of a clock, the sessions that have been inactive for longer than the timeout.
    The random bytes of the identifiers are a parameter of [CreateSession]. *)

From S2P Require Import Prelude GoStrings GoTime.
From Stdlib Require Import Ascii.
#[local] Open Scope Z_scope.

Definition sessionTimeout : Z := 4 * Hour.

Record Session := mkSession {
  ID : string;
  Token : string;
  Database : string;
  Schema : string;
  Warehouse : string;
  Role : string;
  User : string;
  CreatedAt : Z;
  LastActiveAt : Z;
}.

Record Manager := mkManager {
  sessions : gmap string Session;
  (** the expiry loop has been told to stop *)
  done_closed : bool;
}.

(** ** Identifiers *)

(** [%02x] of a byte. *)
Definition hex_byte (b : Z) : string :=
  String (hex_digit (Z.to_N (b / 16))) (String (hex_digit (Z.to_N (b mod 16))) "").

Fixpoint hex_bytes (bs : list Z) : string :=
  match bs with [] => "" | b :: bs => hex_byte b +:+ hex_bytes bs end.

(** The version and variant bits of the 16 random bytes. *)
Definition mask_uuid (buf : list Z) : list Z :=
  let buf := alter (λ b, Z.lor (Z.land b 15) 64) 6%nat buf in
  alter (λ b, Z.lor (Z.land b 63) 128) 8%nat buf.

Definition format_uuid (buf : list Z) : string :=
  hex_bytes (take 4%nat buf) +:+ "-" +:+ hex_bytes (take 2 (drop 4 buf)) +:+ "-" +:+
  hex_bytes (take 2 (drop 6 buf)) +:+ "-" +:+ hex_bytes (take 2 (drop 8 buf)) +:+ "-" +:+
  hex_bytes (take 6 (drop 10 buf)).

Definition generateUUID (random : list Z) : string := format_uuid (mask_uuid random).

(** ** Operations *)

Definition NewManager : Manager := mkManager ∅ false.

(** Closing a closed channel panics. *)
Definition Stop : GoM Manager unit :=
  let! m := get in
  if done_closed m then fail "panic: close of closed channel"
  else put (mkManager (sessions m) true).

Definition CreateSession (now : Z) (idBytes tokenBytes : list Z)
    (user database schema warehouse role : string) : GoM Manager Session :=
  let database := if decide (database = "") then "miniflake"%string else database in
  let schema := if decide (schema = "") then "main"%string else schema in
  let s := mkSession (generateUUID idBytes) (generateUUID tokenBytes) database schema warehouse
             role user now now in
  modify (λ m, mkManager (<[Token s := s]> (sessions m)) (done_closed m)) ;;;
  ret s.

Definition GetSession (m : Manager) (token : string) : option Session := sessions m !! token.

Definition DeleteSession (token : string) : GoM Manager unit :=
  modify (λ m, mkManager (delete token (sessions m)) (done_closed m)).

Definition Reset : GoM Manager unit := modify (λ m, mkManager ∅ (done_closed m)).

Definition touch (now : Z) (s : Session) : Session :=
  mkSession (ID s) (Token s) (Database s) (Schema s) (Warehouse s) (Role s) (User s)
    (CreatedAt s) now.

Definition UpdateActivity (now : Z) (token : string) : GoM Manager unit :=
  let! m := get in
  match sessions m !! token with
  | None => ret tt
  | Some s => put (mkManager (<[token := touch now s]> (sessions m)) (done_closed m))
  end.

(** One tick of the expiry loop: the body of the loop over the map. *)
Definition expired (now : Z) (s : Session) : bool :=
  time_sub now (LastActiveAt s) >? sessionTimeout.

Definition expire `{MapRange} (now : Z) : GoM Manager unit :=
  let! m := get in
  for_each (λ ts : string * Session,
      if expired now ts.2
      then modify (λ m, mkManager (delete ts.1 (sessions m)) (done_closed m)) else ret tt)
    (map_range 0 (sessions m)).

(** ** Histories *)

Inductive Event : Type :=
  | ECreate (now : Z) (idb tokb : list Z) (user database schema warehouse role : string)
  | EDelete (token : string)
  | EReset
  | EUpdate (now : Z) (token : string)
  | ETick (now : Z).

Definition step `{MapRange} (m : Manager) (e : Event) : Manager :=
  match e with
  | ECreate now i t u d s w r => (CreateSession now i t u d s w r m).2
  | EDelete t => (DeleteSession t m).2
  | EReset => (Reset m).2
  | EUpdate now t => (UpdateActivity now t m).2
  | ETick now => (expire now m).2
  end.

(** What the history says of a token: the time of its last activity, [None] when
    it has no session. *)
Definition last_activity (token : string) (a : option Z) (e : Event) : option Z :=
  match e with
  | ECreate now _ t _ _ _ _ _ => if decide (generateUUID t = token) then Some now else a
  | EDelete t => if decide (t = token) then None else a
  | EReset => None
  | EUpdate now t => if decide (t = token) then (λ _, now) <$> a else a
  | ETick now =>
      match a with
      | Some la => if decide (now - la > sessionTimeout) then None else a
      | None => None
      end
  end.

(** ** Proofs *)

Lemma expired_spec now s : expired now s = true ↔ now - LastActiveAt s > sessionTimeout.
Proof.
  unfold expired. rewrite time_sub_gt by done. rewrite Z.gtb_lt. lia.
Qed.

Lemma expire_spec `{MapRange} now m :
  ∃ m', expire now m = (Ok tt, m') ∧ done_closed m' = done_closed m ∧
    ∀ t, sessions m' !! t =
      match sessions m !! t with
      | Some s => if expired now s then None else Some s
      | None => None
      end.
Proof.
  unfold expire, bind, get.
  set (body := λ ts : string * Session, _).
  assert (Hgen : ∀ l m0, NoDup l.*1 → (∀ k s, (k, s) ∈ l → sessions m0 !! k = Some s) →
    ∃ m', for_each body l m0 = (Ok tt, m') ∧ done_closed m' = done_closed m0 ∧
      ∀ t, sessions m' !! t =
        match sessions m0 !! t with
        | Some s => if decide (t ∈ l.*1) then if expired now s then None else Some s else Some s
        | None => None
        end).
  { induction l as [|[k s] l IH]; intros m0 Hnd Hl.
    { exists m0. split; [done|]. split; [done|]. intros t. by destruct (sessions m0 !! t). }
    apply NoDup_cons in Hnd as [Hk Hnd].
    assert (Hs : sessions m0 !! k = Some s) by (apply Hl; left).
    set (m1 := if expired now s then mkManager (delete k (sessions m0)) (done_closed m0) else m0).
    assert (Hb : body (k, s) m0 = (Ok tt, m1)) by (unfold body, m1; cbn; by destruct (expired now s)).
    cbn [for_each]. unfold bind. rewrite Hb.
    assert (Hm1 : ∀ t, t ≠ k → sessions m1 !! t = sessions m0 !! t).
    { intros t Ht. unfold m1. destruct (expired now s); [|done]. cbn. by rewrite lookup_delete_ne. }
    assert (Hk1 : sessions m1 !! k = if expired now s then None else Some s).
    { unfold m1. destruct (expired now s); [cbn; by rewrite lookup_delete_eq|done]. }
    destruct (IH m1 Hnd) as (m' & -> & Hd & Hm').
    { intros k' s' Hin. rewrite Hm1; [apply Hl; by right|]. intros ->.
      apply Hk, list_elem_of_fmap. by exists (k, s'). }
    exists m'. split; [done|]. split; [rewrite Hd; unfold m1; by destruct (expired now s)|].
    intros t. rewrite Hm', fmap_cons. cbn [fst]. destruct (decide (t = k)) as [->|Hne].
    - rewrite Hk1, Hs, decide_True by left. destruct (expired now s); [done|].
      by rewrite decide_False.
    - rewrite Hm1 by done. destruct (sessions m0 !! t); [|done].
      assert (t ∈ k :: l.*1 ↔ t ∈ l.*1) as Hiff by set_solver.
      by rewrite (decide_ext _ _ _ _ Hiff). }
  destruct (Hgen (map_range 0 (sessions m)) m) as (m' & -> & Hd & Hm').
  { apply map_range_NoDup_fst. }
  { intros k s. by rewrite elem_of_map_range. }
  exists m'. split; [done|]. split; [done|]. intros t. rewrite Hm'.
  destruct (sessions m !! t) as [s|] eqn:E; [|done]. rewrite decide_True; [done|].
  apply list_elem_of_fmap. exists (t, s). by rewrite elem_of_map_range.
Qed.

(** The manager agrees with the history, token by token. *)
Lemma step_activity `{MapRange} m e t :
  (LastActiveAt <$> sessions (step m e) !! t) = last_activity t (LastActiveAt <$> sessions m !! t) e.
Proof.
  destruct e as [now i tb u d s w r|t'| |now t'|now]; cbn [step].
  - unfold CreateSession. go_unfold. destruct (decide (generateUUID tb = t)) as [->|Hne].
    + by rewrite lookup_insert_eq.
    + by rewrite lookup_insert_ne.
  - unfold DeleteSession. go_unfold. destruct (decide (t' = t)) as [->|Hne].
    + by rewrite lookup_delete_eq.
    + by rewrite lookup_delete_ne.
  - done.
  - unfold UpdateActivity. go_unfold. destruct (sessions m !! t') as [s|] eqn:E; cbn.
    + destruct (decide (t' = t)) as [->|Hne]; [by rewrite lookup_insert_eq, E|].
      by rewrite lookup_insert_ne.
    + destruct (decide (t' = t)) as [->|Hne]; [by rewrite E|done].
  - destruct (expire_spec now m) as (m' & -> & _ & Hm'). cbn. rewrite Hm'.
    destruct (sessions m !! t) as [s|]; [|done]. cbn.
    pose proof (expired_spec now s) as He. destruct (expired now s), (decide _); try done.
    + exfalso. tauto.
    + exfalso. assert (false = true) by tauto. done.
Qed.

(** C31: after any history, a token has a session exactly when it was created and
    since then neither deleted nor reset, and no tick of the expiry loop came more
    than four hours after its latest activity; the recorded time is that of the
    latest activity.  In particular a session used often enough never expires,
    and one left alone is removed by the first tick past the timeout. *)
Theorem session_lifetime `{MapRange} es token :
  LastActiveAt <$> GetSession (foldl step NewManager es) token =
  foldl (last_activity token) None es.
Proof.
  unfold GetSession. induction es as [|e es IH] using rev_ind; [done|].
  rewrite !foldl_app. cbn. by rewrite step_activity, IH.
Qed.

(** ** Identifiers are version-4 UUIDs *)

Definition is_byte (b : Z) : Prop := 0 ≤ b < 256.

(** A property of bytes, by checking all of them. *)
Lemma byte_forall (P : Z → bool) :
  forallb (λ n, P (Z.of_nat n)) (seq 0 256) = true → ∀ b, is_byte b → P b = true.
Proof.
  intros H b [H0 H1]. rewrite forallb_forall in H. specialize (H (Z.to_nat b)).
  rewrite Z2Nat.id in H by done. apply H, in_seq. lia.
Qed.

Lemma version_byte b :
  is_byte b → is_byte (Z.lor (Z.land b 15) 64) ∧
  hex_digit (Z.to_N (Z.lor (Z.land b 15) 64 / 16)) = "4"%char.
Proof.
  intros Hb. pose proof (byte_forall (λ b, (0 <=? Z.lor (Z.land b 15) 64)
    && (Z.lor (Z.land b 15) 64 <? 256)
    && Ascii.eqb (hex_digit (Z.to_N (Z.lor (Z.land b 15) 64 / 16))) "4") eq_refl b Hb) as H.
  cbn beta in H. apply andb_true_iff in H as [[H1 H2]%andb_true_iff H3].
  split; [unfold is_byte; lia|]. by apply Ascii.eqb_eq.
Qed.

Lemma variant_byte b :
  is_byte b → is_byte (Z.lor (Z.land b 63) 128) ∧
  hex_digit (Z.to_N (Z.lor (Z.land b 63) 128 / 16)) ∈ ["8"; "9"; "a"; "b"]%char.
Proof.
  intros Hb. pose proof (byte_forall (λ b, (0 <=? Z.lor (Z.land b 63) 128)
    && (Z.lor (Z.land b 63) 128 <? 256)
    && existsb (Ascii.eqb (hex_digit (Z.to_N (Z.lor (Z.land b 63) 128 / 16)))) ["8"; "9"; "a"; "b"]%char)
    eq_refl b Hb) as H.
  cbn beta in H. apply andb_true_iff in H as [[H1 H2]%andb_true_iff H3].
  split; [unfold is_byte; lia|]. apply existsb_exists in H3 as (c & Hc & ->%Ascii.eqb_eq).
  by apply list_elem_of_In.
Qed.

Lemma hex_byte_inj b c :
  is_byte b → is_byte c → hex_digit (Z.to_N (b / 16)) = hex_digit (Z.to_N (c / 16)) →
  hex_digit (Z.to_N (b mod 16)) = hex_digit (Z.to_N (c mod 16)) → b = c.
Proof.
  assert (Hd : ∀ x y, 0 ≤ x < 16 → 0 ≤ y < 16 →
    hex_digit (Z.to_N x) = hex_digit (Z.to_N y) → x = y).
  { intros x y Hx Hy E.
    assert (Hx' : x ∈ Z.of_nat <$> seq 0 16).
    { apply list_elem_of_fmap. exists (Z.to_nat x). split; [lia|]. apply elem_of_seq. lia. }
    assert (Hy' : y ∈ Z.of_nat <$> seq 0 16).
    { apply list_elem_of_fmap. exists (Z.to_nat y). split; [lia|]. apply elem_of_seq. lia. }
    cbn in Hx', Hy'. rewrite !elem_of_cons in Hx', Hy'.
    repeat destruct Hx' as [->|Hx']; try (by apply elem_of_nil in Hx');
      repeat destruct Hy' as [->|Hy']; try (by apply elem_of_nil in Hy'); done. }
  unfold is_byte. intros Hb Hc H1 H2.
  pose proof (Z.div_mod b 16 ltac:(lia)). pose proof (Z.div_mod c 16 ltac:(lia)).
  pose proof (Z.mod_pos_bound b 16 ltac:(lia)). pose proof (Z.mod_pos_bound c 16 ltac:(lia)).
  apply Hd in H1; [|split; [apply Z.div_pos; lia|apply Z.div_lt_upper_bound; lia]..].
  apply Hd in H2; [|lia..]. lia.
Qed.

Lemma mask_uuid_bytes buf : Forall is_byte buf → Forall is_byte (mask_uuid buf).
Proof.
  intros Hb. unfold mask_uuid. apply Forall_alter; [apply Forall_alter; [done|]|].
  - intros. by apply version_byte.
  - intros. by apply variant_byte.
Qed.

Lemma hex_byte_ascii b : is_byte b → every is_ascii (hex_byte b) = true.
Proof. apply (byte_forall (λ b, every is_ascii (hex_byte b))). vm_compute. reflexivity. Qed.
Lemma hex_bytes_ascii bs : Forall is_byte bs → every is_ascii (hex_bytes bs) = true.
Proof.
  induction 1 as [|b bs Hb _ IH]; [done|]. cbn [hex_bytes]. by rewrite every_app, hex_byte_ascii, IH.
Qed.

(** Identifiers and tokens survive every encoding of text. *)
Lemma uuid_ascii r : Forall is_byte r → every is_ascii (generateUUID r) = true.
Proof.
  intros Hr%mask_uuid_bytes. unfold generateUUID, format_uuid. rewrite !every_app.
  by rewrite !hex_bytes_ascii by auto using Forall_take, Forall_drop.
Qed.

Lemma hex_bytes_length bs : String.length (hex_bytes bs) = (2 * length bs)%nat.
Proof. induction bs as [|b bs IH]; [done|]. cbn. rewrite IH. lia. Qed.

Lemma hex_bytes_inj b c :
  length b = length c → Forall is_byte b → Forall is_byte c → hex_bytes b = hex_bytes c → b = c.
Proof.
  revert c. induction b as [|x b IH]; intros [|y c] Hl Hb Hc E; try done.
  apply Forall_cons in Hb as [Hx Hb], Hc as [Hy Hc]. cbn in E. injection E as E1 E2 E.
  f_equal; [by apply hex_byte_inj|]. apply IH; [by injection Hl|done..].
Qed.

(** Two texts with the same number of bytes in front of a dash. *)
Lemma hex_field_inj b c s t :
  length b = length c → Forall is_byte b → Forall is_byte c →
  hex_bytes b +:+ "-" +:+ s = hex_bytes c +:+ "-" +:+ t → b = c ∧ s = t.
Proof.
  intros Hl Hb Hc E. apply string_app_inj_len in E as [E1 E2];
    [|by rewrite !hex_bytes_length, Hl].
  split; [by apply hex_bytes_inj|]. by injection E2.
Qed.

Lemma format_uuid_inj b c :
  length b = 16%nat → length c = 16%nat → Forall is_byte b → Forall is_byte c →
  format_uuid b = format_uuid c → b = c.
Proof.
  intros Lb Lc Fb Fc E. unfold format_uuid in E.
  assert (Hlen : ∀ i n, length (take i (drop n b)) = length (take i (drop n c)))
    by (intros; by rewrite !length_take, !length_drop, Lb, Lc).
  assert (Hf : ∀ i n l, Forall is_byte l → Forall is_byte (take i (drop n l)))
    by (intros; by apply Forall_take, Forall_drop).
  apply hex_field_inj in E as [E1 E]; [|by rewrite !length_take, Lb, Lc|by apply Forall_take..].
  apply hex_field_inj in E as [E2 E]; [|auto..].
  apply hex_field_inj in E as [E3 E]; [|auto..].
  apply hex_field_inj in E as [E4 E]; [|auto..].
  apply hex_bytes_inj in E; [|auto..].
  assert (Hsplit : ∀ l : list Z, length l = 16%nat →
    l = take 4 l ++ take 2 (drop 4 l) ++ take 2 (drop 6 l) ++ take 2 (drop 8 l) ++ take 6 (drop 10 l)).
  { intros l Hl. do 16 (destruct l as [|? l]; [done|]). by destruct l. }
  rewrite (Hsplit b Lb), (Hsplit c Lc). congruence.
Qed.

(** From sixteen random bytes, a session identifier or token is a version-4
    UUID of 36 characters (the digit after the second dash is 4, the one after the
    third is 8, 9, a or b), and two of them are equal only when the bytes agree on
    all but the six fixed bits, so that no randomness is lost in the formatting. *)
Theorem uuid_well_formed r :
  length r = 16%nat → Forall is_byte r →
  String.length (generateUUID r) = 36%nat ∧
  String.get 14 (generateUUID r) = Some "4"%char ∧
  (∃ c, String.get 19 (generateUUID r) = Some c ∧ c ∈ ["8"; "9"; "a"; "b"]%char) ∧
  ∀ r', length r' = 16%nat → Forall is_byte r' →
    generateUUID r' = generateUUID r → mask_uuid r' = mask_uuid r.
Proof.
  intros Hl Hb. split; [|split; [|split]].
  - do 16 (destruct r as [|? r]; [done|]). by destruct r.
  - do 16 (destruct r as [|? r]; [done|]). destruct r; [|done].
    rewrite !Forall_cons in Hb. cbn. f_equal. apply version_byte. tauto.
  - do 16 (destruct r as [|? r]; [done|]). destruct r; [|done].
    rewrite !Forall_cons in Hb. eexists. split; [by cbn|]. apply variant_byte. tauto.
  - intros r' Hl' Hb'. apply format_uuid_inj; [..|by apply mask_uuid_bytes|by apply mask_uuid_bytes];
      unfold mask_uuid; by rewrite !length_alter.
Qed.

(** ** Witnesses *)

Definition sample_bytes : list Z := [1;2;3;4;5;6;255;8;9;10;11;12;13;14;15;16].

Lemma uuid_well_formed_witness :
  generateUUID sample_bytes = "01020304-0506-4f08-890a-0b0c0d0e0f10" ∧
  String.length (generateUUID sample_bytes) = 36%nat.
Proof.
  split; [vm_compute; reflexivity|].
  refine (proj1 (uuid_well_formed sample_bytes eq_refl _)).
  repeat constructor; vm_compute; (discriminate || reflexivity).
Defined.
