(* ===== verification/GoPath.v ===== *)
(** * Paths ([path/filepath] of Go on Unix)

    [Clean], [Join], [Base], [Rel] and the like, and when a cleaned path stays inside a
    directory. *)

From S2P Require Import Prelude GoStrings.
From Stdlib Require Import Ascii.

Definition slash : ascii := "/"%char.

(** The elements of a cleaned path, last first: empty elements and [.] are
    dropped, [..] removes the element before it, or stays in front of a relative
    path. *)
Fixpoint clean_go (rooted : bool) (out : list string) (elems : list string) : list string :=
  match elems with
  | [] => out
  | e :: elems =>
      if decide (e = "" ∨ e = ".") then clean_go rooted out elems
      else if decide (e = "..") then
        match out with
        | x :: out' =>
            if decide (x = "..") then clean_go rooted (".." :: out) elems
            else clean_go rooted out' elems
        | [] => if rooted then clean_go rooted [] elems else clean_go rooted [".."] elems
        end
      else clean_go rooted (e :: out) elems
  end.

Definition is_rooted (p : string) : bool := HasPrefix p "/".

Definition Clean (p : string) : string :=
  let rooted := is_rooted p in
  let body := Join "/" (reverse (clean_go rooted [] (SplitByte slash p))) in
  if rooted then "/" +:+ body else if decide (body = "") then "." else body.

(** [filepath.Join]: leading empty elements are ignored. *)
Fixpoint PathJoin (elems : list string) : string :=
  match elems with
  | [] => ""
  | e :: rest => if decide (e = "") then PathJoin rest else Clean (Join "/" elems)
  end.

Example clean_examples :
  Clean "" = "." ∧ Clean "/a/./b//../c/" = "/a/c" ∧ Clean "../../x/.." = "../.." ∧
  Clean "/../x" = "/x" ∧ PathJoin [""; "a"; "../b"; "c"] = "b/c".
Proof. vm_compute. done. Qed.

(** ** Relative paths *)

(** The elements that [filepath.Rel] walks over in a cleaned path. *)
Definition base_elems (p : string) : list string :=
  if decide (p = ".") then [] else if decide (p = "/") then [""] else SplitByte slash p.
Definition targ_elems (p : string) : list string :=
  if decide (p = "/") then [""] else SplitByte slash p.

Fixpoint strip_common (b t : list string) : list string * list string :=
  match b, t with
  | x :: b', y :: t' => if decide (x = y) then strip_common b' t' else (b, t)
  | _, _ => (b, t)
  end.

(** [filepath.Rel] *)
Definition Rel (basepath targpath : string) : result string :=
  let base := Clean basepath in
  let targ := Clean targpath in
  let cannot := Err ("Rel: can't make " +:+ targpath +:+ " relative to " +:+ basepath) in
  if decide (targ = base) then Ok "."
  else if negb (Bool.eqb (is_rooted base) (is_rooted targ)) then cannot
  else
    let '(b, t) := strip_common (base_elems base) (targ_elems targ) in
    match b, t with
    | x :: _, _ :: _ =>
        if decide (x = "..") then cannot else Ok (Join "/" (((λ _, "..") <$> b) ++ t))
    | _, _ => Ok (Join "/" (((λ _, "..") <$> b) ++ t))
    end.

(** [filepath.Dir] and [filepath.Base] *)
Definition Dir (p : string) : string :=
  match reverse (SplitByte slash p) with
  | _ :: ((_ :: _) as dirs) => Clean (Join "/" (reverse dirs) +:+ "/")
  | _ => Clean ""
  end.
Definition Base (p : string) : string :=
  if decide (p = "") then "."
  else let q := trim_right (λ c, bool_decide (c = slash)) p in
       if decide (q = "") then "/" else List.last (SplitByte slash q) "".

Example rel_examples :
  Rel "/a/b" "/a/b/c/d" = Ok "c/d" ∧ Rel "/a/b" "/a/x" = Ok "../x" ∧ Rel "a" "b/c" = Ok "../b/c" ∧
  Rel "." "a/b" = Ok "a/b" ∧ Rel "." ".." = Ok ".." ∧ Rel "/a" "a" = Err "Rel: can't make a relative to /a" ∧
  Rel "/" "/x" = Ok "x" ∧ Rel "/a" "/" = Ok ".." ∧ Dir "/a/b/c" = "/a/b" ∧ Dir "c" = "." ∧
  Dir "/c" = "/" ∧ Base "/a/b.csv" = "b.csv" ∧ Base "a/" = "a".
Proof. vm_compute. repeat split. Qed.

(** ** Elements of a path

    [parts p] are the elements of the cleaned path: first the [..] that climb out
    of the current directory, then ordinary elements. *)

Definition plain (e : string) : Prop := e ≠ "" ∧ e ≠ "." ∧ e ≠ ".." ∧ slash ∉ bytes e.

#[export] Instance plain_dec e : Decision (plain e).
Proof. unfold plain. apply _. Defined.

Definition parts (p : string) : list string :=
  reverse (clean_go (is_rooted p) [] (SplitByte slash p)).

(** A stack of elements, last first, as [clean_go] keeps it. *)
Definition stack_ok (rooted : bool) (out : list string) : Prop :=
  ∃ xs k, out = xs ++ repeat ".." k ∧ Forall plain xs ∧ (rooted = true → k = 0).

Lemma clean_go_app r out a b : clean_go r out (a ++ b) = clean_go r (clean_go r out a) b.
Proof.
  revert out. induction a as [|e a IH]; intros out; [done|]. cbn [app clean_go].
  destruct (decide (e = "" ∨ e = ".")); [apply IH|].
  destruct (decide (e = "..")); [|apply IH].
  destruct out as [|x out]; [destruct r; apply IH|]. case_decide; apply IH.
Qed.

Lemma clean_go_ok r out es : Forall (λ e, slash ∉ bytes e) es → stack_ok r out → stack_ok r (clean_go r out es).
Proof.
  revert out. induction es as [|e es IH]; intros out Hes Hout; [done|].
  inversion Hes as [|? ? He Hes']; subst. cbn [clean_go].
  destruct (decide (e = "" ∨ e = ".")); [by apply IH|].
  destruct Hout as (xs & k & -> & Hxs & Hk).
  destruct (decide (e = "..")) as [->|].
  - destruct xs as [|x xs].
    + destruct k as [|k]; cbn.
      * destruct r; apply IH; try done; [by exists [], 0|by exists [], 1].
      * apply IH; [done|]. exists [], (S (S k)). split; [done|]. split; [done|]. intros Hr.
        by specialize (Hk Hr).
    + inversion Hxs as [|? ? Hx Hxs']; subst. cbn. rewrite decide_False by apply Hx.
      apply IH; [done|]. by exists xs, k.
  - apply IH; [done|]. exists (e :: xs), k. split; [done|]. split; [|done]. constructor; [|done].
    unfold plain. tauto.
Qed.

Lemma clean_go_plain r out es : Forall plain es → clean_go r out es = reverse es ++ out.
Proof.
  revert out. induction es as [|e es IH]; intros out Hes; [done|].
  inversion Hes as [|? ? He Hes']; subst. cbn [clean_go]. destruct He as (H1 & H2 & H3 & _).
  rewrite decide_False by tauto. rewrite decide_False by done.
  rewrite IH by done. by rewrite reverse_cons, <- app_assoc.
Qed.

Lemma clean_go_dots es k : clean_go false (repeat ".." k) es =
  clean_go false [] (repeat ".." k ++ es).
Proof.
  rewrite clean_go_app. f_equal. assert (H : ∀ j k, clean_go false (repeat ".." j) (repeat ".." k) = repeat ".." (j + k)).
  { intros j k'. revert j. induction k' as [|k' IH]; intros j; cbn [repeat]; [by rewrite Nat.add_0_r|].
    cbn [clean_go]. rewrite (decide_False (P:=".." = "" ∨ ".." = ".")) by naive_solver.
    rewrite (decide_True (P:=".."=".."%string)) by done.
    destruct j as [|j]; cbn [repeat]; [apply (IH 1)|]. rewrite (decide_True (P:=".."=".."%string)) by done.
    rewrite (IH (S (S j)) : clean_go false (".." :: ".." :: repeat ".." j) _ = _). f_equal. lia. }
  symmetry. apply (H 0 k).
Qed.

Lemma SplitByte_app c a b : SplitByte c (a +:+ String c b) = SplitByte c a ++ SplitByte c b.
Proof.
  induction a as [|d a IH]; cbn [String.append SplitByte].
  - by rewrite decide_True.
  - rewrite IH. case_decide; [done|]. destruct (SplitByte_cons c a) as (p & ps & ->). done.
Qed.

Lemma SplitByte_single c a : c ∉ bytes a → SplitByte c a = [a].
Proof.
  induction a as [|d a IH]; cbn [bytes SplitByte]; [done|]. rewrite not_elem_of_cons. intros [Hd Ha].
  rewrite decide_False by congruence. by rewrite IH.
Qed.

Lemma SplitByte_Join l : l ≠ [] → Forall (λ e, slash ∉ bytes e) l → SplitByte slash (Join "/" l) = l.
Proof.
  intros Hne Hl. induction l as [|e l IH]; [done|]. inversion Hl; subst.
  destruct l as [|e' l]; [by apply SplitByte_single|].
  assert (E : Join "/" (e :: e' :: l) = e +:+ String slash (Join "/" (e' :: l))) by done.
  rewrite E, SplitByte_app, IH by done. by rewrite SplitByte_single.
Qed.

(** *** Cleaned paths *)

Lemma plain_no_slash es : Forall plain es → Forall (λ e, slash ∉ bytes e) es.
Proof. intros H. eapply Forall_impl; [exact H|]. intros e He. apply He. Qed.

Lemma split_no_slash p : Forall (λ e, slash ∉ bytes e) (SplitByte slash p).
Proof. apply Forall_forall. intros e He. by apply (SplitByte_no_sep slash p). Qed.

Lemma parts_ok p : ∃ k xs, parts p = repeat ".." k ++ xs ∧ Forall plain xs ∧ (is_rooted p = true → k = 0).
Proof.
  destruct (clean_go_ok (is_rooted p) [] (SplitByte slash p)) as (xs & k & E & Hxs & Hk).
  { apply split_no_slash. }
  { by exists [], 0. }
  exists k, (reverse xs). unfold parts. rewrite E, reverse_app. split_all; [|by apply Forall_reverse|done].
  f_equal. clear. induction k as [|k IH]; [done|]. cbn [repeat]. rewrite reverse_cons, IH.
  clear. induction k as [|k IH]; [done|]. cbn. by f_equal.
Qed.

Lemma parts_no_slash p : Forall (λ e, slash ∉ bytes e) (parts p).
Proof.
  destruct (parts_ok p) as (k & xs & -> & Hxs & _). apply Forall_app. split; [|by apply plain_no_slash].
  clear. induction k as [|k IH]; cbn; [constructor|]. constructor; [|done].
  by apply (bool_decide_unpack _).
Qed.

(** A path that starts with a slash, or does not, given its elements. *)
Definition render_path (rooted : bool) (es : list string) : string :=
  if rooted then "/" +:+ Join "/" es else if decide (Join "/" es = "") then "." else Join "/" es.

Lemma Clean_render p : Clean p = render_path (is_rooted p) (parts p).
Proof. done. Qed.

Lemma Join_nonempty es : es ≠ [] → Forall (λ e, e ≠ "") es → Join "/" es ≠ "".
Proof.
  intros Hne He. destruct es as [|e [|e' es]]; [done|..]; inversion He; subst; [done|].
  by destruct e.
Qed.

Lemma Join_rooted es : Forall (λ e, e ≠ "" ∧ slash ∉ bytes e) es → is_rooted (Join "/" es) = false.
Proof.
  intros He. destruct es as [|e es]; [done|]. inversion He as [|? ? [Hne Hs] _]; subst.
  destruct e as [|c e]; [done|]. cbn in Hs. apply not_elem_of_cons in Hs as [Hc _].
  destruct es; unfold is_rooted, HasPrefix; cbn; by rewrite decide_False.
Qed.

Lemma stack_elems k xs : Forall plain xs → Forall (λ e, e ≠ "" ∧ slash ∉ bytes e) (repeat ".." k ++ xs).
Proof.
  intros Hxs. apply Forall_app. split.
  - induction k as [|k IH]; cbn; constructor; [|done]. split; [done|]. by apply (bool_decide_unpack _).
  - eapply Forall_impl; [exact Hxs|]. intros e He. split; apply He.
Qed.

(** Reading back a rendered list of elements. *)
Lemma render_spec r k xs : Forall plain xs → (r = true → k = 0) →
  is_rooted (render_path r (repeat ".." k ++ xs)) = r ∧
  parts (render_path r (repeat ".." k ++ xs)) = repeat ".." k ++ xs.
Proof.
  intros Hxs Hk. pose proof (stack_elems k xs Hxs) as He.
  assert (Hns : Forall (λ e, slash ∉ bytes e) (repeat ".." k ++ xs))
    by (eapply Forall_impl; [exact He|]; by intros e [_ ?]).
  assert (Hne : Forall (λ e, e ≠ "") (repeat ".." k ++ xs))
    by (eapply Forall_impl; [exact He|]; by intros e [? _]).
  destruct r.
  - rewrite (Hk eq_refl) in *. cbn [repeat app] in *. split; [done|].
    unfold parts. rewrite (eq_refl : is_rooted (render_path true xs) = true).
    unfold render_path. destruct (decide (xs = [])) as [->|Hx]; [done|].
    rewrite (SplitByte_app slash "" (Join "/" xs) : SplitByte slash ("/" +:+ _) = _).
    rewrite clean_go_app, SplitByte_Join by done. cbn [SplitByte clean_go].
    rewrite decide_True by tauto. rewrite clean_go_plain by done.
    by rewrite app_nil_r, reverse_involutive.
  - unfold render_path. destruct (decide (repeat ".." k ++ xs = [])) as [Hx|Hx].
    { rewrite Hx. done. }
    rewrite decide_False by by apply Join_nonempty.
    assert (Hr : is_rooted (Join "/" (repeat ".." k ++ xs)) = false) by by apply Join_rooted.
    split; [done|]. unfold parts. rewrite Hr, SplitByte_Join by done.
    rewrite <- clean_go_dots, clean_go_plain by done.
    rewrite reverse_app, reverse_involutive. f_equal.
    clear. induction k as [|k IH]; [done|]. cbn [repeat]. rewrite reverse_cons, IH.
    clear. induction k as [|k IH]; [done|]. cbn. by f_equal.
Qed.

Lemma Clean_spec p : is_rooted (Clean p) = is_rooted p ∧ parts (Clean p) = parts p.
Proof.
  rewrite Clean_render. destruct (parts_ok p) as (k & xs & -> & Hxs & Hk). by apply render_spec.
Qed.

Lemma Clean_idem p : Clean (Clean p) = Clean p.
Proof. rewrite (Clean_render (Clean p)). destruct (Clean_spec p) as [-> ->]. done. Qed.

(** A cleaned path is determined by its elements. *)
Lemma clean_inj p q : Clean p = p → Clean q = q → is_rooted p = is_rooted q → parts p = parts q → p = q.
Proof. intros <- <-. rewrite !(proj1 (Clean_spec _)), !(proj2 (Clean_spec _)), !Clean_render. congruence. Qed.

(** Joining a path below a directory. *)
Lemma PathJoin_spec d p : d ≠ "" →
  Clean (PathJoin [d; p]) = PathJoin [d; p] ∧ is_rooted (PathJoin [d; p]) = is_rooted d ∧
  parts (PathJoin [d; p]) = reverse (clean_go (is_rooted d) (reverse (parts d)) (SplitByte slash p)).
Proof.
  intros Hd. assert (E : PathJoin [d; p] = Clean (d +:+ String slash p)).
  { cbn [PathJoin]. by rewrite decide_False. }
  rewrite E. assert (Hr : is_rooted (d +:+ String slash p) = is_rooted d).
  { destruct d as [|c d]; [done|]. unfold is_rooted, HasPrefix. cbn [String.append TrimPrefixOpt].
    by destruct (decide ("/"%char = c)). }
  split; [apply Clean_idem|]. destruct (Clean_spec (d +:+ String slash p)) as [-> ->]. split; [done|].
  unfold parts at 1. rewrite Hr, SplitByte_app, clean_go_app. unfold parts. by rewrite reverse_involutive.
Qed.

(** ** Containment *)

(** [p] is [d] or below it. *)
Definition within (d p : string) : Prop :=
  is_rooted p = is_rooted d ∧ ∃ rest, parts p = parts d ++ rest ∧ Forall plain rest.

Lemma strip_common_spec b t b' t' : strip_common b t = (b', t') →
  ∃ c, b = c ++ b' ∧ t = c ++ t' ∧
    match b', t' with x :: _, y :: _ => x ≠ y | _, _ => True end.
Proof.
  revert t. induction b as [|x b IH]; intros [|y t]; cbn.
  1-3: intros [= <- <-]; by exists [].
  destruct (decide (x = y)) as [->|Hne]; [|intros [= <- <-]; by exists []].
  intros (c & -> & -> & H)%IH. by exists (y :: c).
Qed.

Lemma strip_common_prefix b t : strip_common b (b ++ t) = ([], t).
Proof. induction b as [|x b IH]; cbn; [by destruct t|]. by rewrite decide_True. Qed.

(** Does a relative path climb? *)
Definition climbs (rel : string) : bool := bool_decide (rel = "..") || HasPrefix rel "../".

Lemma climbs_Join e l : slash ∉ bytes e → climbs (Join "/" (e :: l)) = bool_decide (e = "..").
Proof.
  intros Hs. unfold climbs, HasPrefix.
  destruct e as [|c1 [|c2 [|c3 e]]]; cbn [bytes] in Hs; rewrite ?not_elem_of_cons in Hs.
  - by destruct l.
  - destruct l as [|e' l]; cbn; (repeat case_decide; simplify_eq/=; done).
  - destruct Hs as (_ & Hs2 & _).
    destruct l as [|e' l]; cbn; (repeat case_decide; simplify_eq/=; rewrite ?orb_false_r, ?orb_true_r; done).
  - destruct Hs as (_ & _ & Hs3 & _).
    destruct l as [|e' l]; cbn; (repeat case_decide; simplify_eq/=; done).
Qed.

Lemma plain_suffix k xs a e t : Forall plain xs → repeat ".." k ++ xs = a ++ e :: t → e ≠ ".." →
  Forall plain (e :: t).
Proof.
  intros Hxs. revert a. induction k as [|k IH]; intros a; cbn [repeat app].
  - intros -> _. by apply Forall_app in Hxs as [_ ?].
  - destruct a as [|x a]; cbn; intros [= <- E]; [done|]. by apply (IH a).
Qed.

Lemma base_elems_clean d : Clean d = d →
  base_elems d = (if is_rooted d then [""] else []) ++ parts d.
Proof.
  intros Hd. destruct (parts_ok d) as (k & xs & E & Hxs & Hk). pose proof (stack_elems k xs Hxs) as He.
  rewrite <- E in He. assert (Hns := parts_no_slash d). rewrite <- Hd at 1. rewrite Clean_render.
  unfold render_path, base_elems. destruct (is_rooted d).
  - rewrite decide_False by done. destruct (decide (parts d = [])) as [->|Hne]; [done|].
    rewrite decide_False.
    + rewrite (SplitByte_app slash "" (Join "/" (parts d)) : SplitByte slash ("/" +:+ _) = _).
      by rewrite SplitByte_Join.
    + intros [= Hj]. revert Hj. apply Join_nonempty; [done|]. eapply Forall_impl; [exact He|]. by intros e [? _].
  - destruct (decide (parts d = [])) as [->|Hne]; [done|].
    assert (Hj : Join "/" (parts d) ≠ "").
    { apply Join_nonempty; [done|]. eapply Forall_impl; [exact He|]. by intros e [? _]. }
    rewrite (decide_False (P:=Join "/" (parts d) = "")) by done. rewrite !decide_False.
    + by rewrite SplitByte_Join.
    + intros Hj'. pose proof (Join_rooted (parts d) He) as Hr. by rewrite Hj' in Hr.
    + intros Hj'. assert (Hs : parts d = ["."]) by (rewrite <- (SplitByte_Join (parts d)), Hj' by done; done).
      rewrite Hs in E. destruct k as [|[|k]]; cbn in E; [|done..]. subst xs.
      inversion Hxs as [|? ? Hp _]; subst. by destruct Hp as (_ & ? & _).
Qed.

Lemma targ_elems_clean p : Clean p = p →
  targ_elems p = (if is_rooted p then [""] else []) ++ parts p ∨
  (targ_elems p = ["."] ∧ is_rooted p = false ∧ parts p = []).
Proof.
  intros Hp. destruct (decide (p = ".")) as [->|Hne]; [right; done|left].
  rewrite <- base_elems_clean by done. unfold base_elems, targ_elems. by rewrite (decide_False (P:=p=".")).
Qed.

(** [filepath.Rel] does not climb exactly when the target is inside. *)
Lemma Rel_within d p : Clean d = d → Clean p = p → is_rooted p = is_rooted d →
  (∃ rel, Rel d p = Ok rel ∧ climbs rel = false) ↔ within d p.
Proof.
  intros Hd Hp Hr. unfold Rel. rewrite Hd, Hp.
  destruct (decide (p = d)) as [->|Hne].
  { split; [intros _|intros _; by eexists]. split; [done|]. exists []. by rewrite app_nil_r. }
  rewrite Hr, eqb_reflx. cbn [negb].
  destruct (strip_common (base_elems d) (targ_elems p)) as [b t] eqn:Es.
  assert (Hup : ∀ x b' l, climbs (Join "/" (((λ _ : string, "..") <$> (x :: b')) ++ l)) = true).
  { intros x b' l. cbn [fmap list_fmap app]. rewrite climbs_Join; [done|]. by apply (bool_decide_unpack _). }
  pose proof (strip_common_spec _ _ _ _ Es) as (c & Eb & Et & Hheads).
  rewrite base_elems_clean in Eb by done.
  assert (Hns : b ≠ [] → ¬ within d p).
  { intros Hb (_ & rest & Hparts & _). destruct (targ_elems_clean p Hp) as [E|(E & E1 & E2)].
    - rewrite E, Hr, Hparts, app_assoc, <- base_elems_clean in Es by done.
      rewrite strip_common_prefix in Es. congruence.
    - rewrite E2 in Hparts. symmetry in Hparts. apply app_nil in Hparts as [E3 _].
      apply Hne, clean_inj; [done|done|done|congruence]. }
  destruct b as [|x b].
  - rewrite app_nil_r in Eb. destruct (targ_elems_clean p Hp) as [E|(E & E1 & E2)].
    2:{ exfalso. rewrite E in Et. rewrite <- Hr, E1 in Eb. cbn in Eb. subst c.
        destruct (parts d) as [|y ys] eqn:Ed; [apply Hne, clean_inj; [done..|congruence]|].
        cbn in Et. injection Et as <- Et. symmetry in Et. apply app_nil in Et as [-> _].
        destruct (parts_ok d) as (k & xs & E3 & Hxs & _). rewrite Ed in E3.
        destruct k as [|[|k]]; cbn in E3; [|done..]. subst xs.
        inversion Hxs as [|? ? Hpl _]; subst. by destruct Hpl as (_ & ? & _). }
    rewrite E, Hr, <- Eb, <- app_assoc in Et. apply app_inv_head in Et.
    destruct t as [|e t].
    { exfalso. rewrite app_nil_r in Et. by apply Hne, clean_inj. }
    destruct (parts_ok p) as (k & xs & Ep & Hxs & _).
    cbn [fmap list_fmap app]. split.
    + intros (rel & [= <-] & Hc). split; [done|]. exists (e :: t). split; [done|].
      apply (plain_suffix k xs (parts d)); [done|congruence|]. intros ->.
      change (climbs (Join "/" (".." :: t)) = false) in Hc.
      rewrite climbs_Join in Hc; [done|]. by apply (bool_decide_unpack _).
    + intros (_ & rest & Hparts & Hrest). rewrite Et in Hparts. apply app_inv_head in Hparts as <-.
      inversion Hrest as [|? ? He _]; subst. eexists. split; [done|]. rewrite climbs_Join by apply He.
      apply bool_decide_eq_false, He.
  - split; [|intros Hw; by apply Hns in Hw].
    intros (rel & Hrel & Hc). pose proof (Hup x b t) as Hclimb. destruct t as [|y t]; [congruence|].
    destruct (decide (x = "..")); [done|congruence].
Qed.

Lemma within_refl d : within d d.
Proof. split; [done|]. exists []. by rewrite app_nil_r. Qed.

(** What is inside two directories makes one of them contain the other. *)
Lemma within_nested d d' p : within d p → within d' p →
  parts d `prefix_of` parts d' ∨ parts d' `prefix_of` parts d.
Proof.
  intros (_ & r & E & _) (_ & r' & E' & _).
  destruct (prefix_weak_total (parts d) (parts d') (parts p)) as [?|?]; auto; eexists; eauto.
Qed.

(** ** The last element *)

Lemma split_last a c : c ≠ slash → List.last (SplitByte slash (a +:+ String c "")) "" ≠ "".
Proof.
  intros Hc. induction a as [|d a IH]; cbn [String.append SplitByte].
  - by rewrite decide_False.
  - destruct (SplitByte_cons slash (a +:+ String c "")) as (p & ps & E). rewrite E in IH |- *.
    case_decide; [exact IH|]. destruct ps as [|p' ps]; [done|exact IH].
Qed.

Lemma Base_nonempty p : Base p ≠ "".
Proof.
  unfold Base. case_decide; [done|]. cbv zeta. set (f := λ c, bool_decide (c = slash)).
  case_decide as Hq; [done|].
  assert (Hend : ∃ a c, trim_right f p = a +:+ String c "" ∧ f c = false).
  { unfold trim_right in *. destruct (trim_left f (string_rev p)) as [|c t] eqn:E; [done|].
    exists (string_rev t), c. split; [apply string_rev_cons|]. revert E. generalize (string_rev p). intros u.
    induction u as [|d u IH]; [done|]. cbn. destruct (f d) eqn:Ed; [exact IH|]. by intros [= <- _]. }
  destruct Hend as (a & c & -> & Hc). apply bool_decide_eq_false in Hc. by apply split_last.
Qed.
