(* ===== verification/TimeTravel.v ===== *)
(** * Time travel ([internal/timetravel/timetravel.go])

    Snapshots of a table are Parquet files; the engine keeps their list.  The
    file system and the database are parameters, on a state [W].  The loop of
    [StartCleanupLoop] is in Background.v. *)

From S2P Require Import Prelude GoStrings GoTime GoPath.
From Stdlib Require Import Sorted.
#[local] Open Scope Z_scope.

Record Snapshot := mkSnapshot {
  ID : Z;
  TableName : string;
  Timestamp : Z;
  DataFile : string;
}.

Record Engine := mkEngine {
  snapshots : gmap string (list Snapshot);
  dataDir : string;
  maxAge : Z;
  nextID : Z;
}.

Definition set_snapshots (ss : gmap string (list Snapshot)) (e : Engine) : Engine :=
  mkEngine ss (dataDir e) (maxAge e) (nextID e).

Definition NewEngine (dataDir : string) (maxAge : Z) : Engine :=
  mkEngine ∅ dataDir (if maxAge <=? 0 then 24 * Hour else maxAge) 1.

Definition fqTableName (db schema table : string) : string := ToLower (dotted db schema table).

Definition snapshotDir (e : Engine) (db schema table : string) : string :=
  PathJoin [dataDir e; "snapshots"; db; schema; table]%string.

(** The statement that exports a table to a file. *)
Definition copy_sql (table filePath : string) : string :=
  "COPY " +:+ String dq table +:+ String dq (" TO '" +:+ filePath +:+ "' (FORMAT PARQUET)").

(** The latest snapshot in the list that is not after [ts]: the search runs from
    the end of the list. *)
Definition latest_before (ts : Z) (snaps : list Snapshot) : option Snapshot :=
  find (λ s, Timestamp s <=? ts) (reverse snaps).

Section engine.
Context {W : Type}.
(** [os.MkdirAll], [os.RemoveAll], [os.Remove], the querier, and the text that
    [%v] gives for an instant. *)
Context (mkdirAll removeAll : string → W → result unit * W) (remove : string → W → W).
Context (execute : string → W → result unit * W) (time_string : Z → string).

Definition Reset : GoM (Engine * W) unit :=
  modify (λ s, (mkEngine ∅ (dataDir s.1) (maxAge s.1) 1, s.2)) ;;;
  let! s := get in
  let d := dataDir s.1 in
  if decide (d = "") then ret tt
  else
    wrapped ("timetravel: reset remove " +:+ d) (lift (removeAll d)) ;;;
    wrapped ("timetravel: reset mkdir " +:+ d) (lift (mkdirAll d)).

(** The critical section at the end of [CaptureSnapshot]. *)
Definition add_snapshot (fqn : string) (now : Z) (filePath : string) (e : Engine) : Engine :=
  let snap := mkSnapshot (nextID e) fqn now filePath in
  mkEngine (<[fqn := default [] (snapshots e !! fqn) ++ [snap]]> (snapshots e)) (dataDir e)
    (maxAge e) (wrap64 (nextID e + 1)).

Definition snapshot_file (e : Engine) (now : Z) (db schema table : string) : string :=
  PathJoin [snapshotDir e db schema table; Itoa now +:+ ".parquet"]%string.

Definition CaptureSnapshot (now : Z) (db schema table : string) : GoM (Engine * W) unit :=
  let fqn := fqTableName db schema table in
  let! s := get in
  wrapped "timetravel: create snapshot dir" (lift (mkdirAll (snapshotDir s.1 db schema table))) ;;;
  let filePath := snapshot_file s.1 now db schema table in
  wrapped "timetravel: export snapshot" (lift (execute (copy_sql table filePath))) ;;;
  modify (λ s, (add_snapshot fqn now filePath s.1, s.2)).

Definition QueryAtTimestamp (e : Engine) (db schema table : string) (ts : Z) : result string :=
  let fqn := fqTableName db schema table in
  match default [] (snapshots e !! fqn) with
  | [] => Err ("timetravel: no snapshots for table " +:+ Quote fqn)
  | snaps =>
      match latest_before ts snaps with
      | None => Err ("timetravel: no snapshot at or before " +:+ time_string ts
                      +:+ " for table " +:+ Quote fqn)
      | Some best => Ok (DataFile best)
      end
  end.

(** [-time.Duration(seconds) * time.Second], in 64 bits. *)
Definition QueryAtOffset (now : Z) (e : Engine) (db schema table : string) (seconds : Z)
    : result string :=
  QueryAtTimestamp e db schema table (now + wrap64 (wrap64 (- seconds) * Second)).

Definition Undrop (e : Engine) (db schema table : string) : result string :=
  let fqn := fqTableName db schema table in
  match last (default [] (snapshots e !! fqn)) with
  | None => Err ("timetravel: no snapshots for table " +:+ Quote fqn +:+ " (cannot undrop)")
  | Some latest => Ok (DataFile latest)
  end.

Definition too_old (cutoff : Z) (s : Snapshot) : bool := Timestamp s <? cutoff.

(** The snapshots of one table that are kept; a table left without any loses its
    entry. *)
Definition keep_recent (cutoff : Z) (snaps : list Snapshot) : option (list Snapshot) :=
  match filter (λ s, too_old cutoff s = false) snaps with [] => None | kept => Some kept end.

Definition Cleanup `{MapRange} (now : Z) : GoM (Engine * W) unit :=
  let! s := get in
  let cutoff := now - maxAge s.1 in
  let old := '(_, snaps) ← map_range 0 (snapshots s.1); filter (λ x, too_old cutoff x = true) snaps in
  put (set_snapshots (omap (keep_recent cutoff) (snapshots s.1)) s.1,
       foldl (λ w x, remove (DataFile x) w) s.2 old).

(** [sort.Slice] is not stable: the order of equal timestamps is a parameter. *)
Definition ListSnapshots (sort_slice : list Snapshot → list Snapshot) (e : Engine)
    (db schema table : string) : list Snapshot :=
  sort_slice (default [] (snapshots e !! fqTableName db schema table)).

(** ** Sequences of operations *)

Inductive Op : Type :=
  | OpCapture (now : Z) (db schema table : string)
  | OpCleanup (now : Z)
  | OpReset (now : Z).

Definition op_time (o : Op) : Z :=
  match o with OpCapture now _ _ _ | OpCleanup now | OpReset now => now end.

Definition run_op `{MapRange} (o : Op) : GoM (Engine * W) unit :=
  match o with
  | OpCapture now db sc t => CaptureSnapshot now db sc t
  | OpCleanup now => Cleanup now
  | OpReset _ => Reset
  end.

(** The operations come one after the other, the clock never goes back. *)
Inductive tt_run `{MapRange} : Z → Engine * W → Z → Engine * W → Prop :=
  | tt_nil t s : tt_run t s t s
  | tt_snoc t0 s0 t s o :
      tt_run t0 s0 t s → t ≤ op_time o → tt_run t0 s0 (op_time o) (run_op o s).2.

(** Snapshots are in the order of their times. *)
Definition ordered (t : Z) (e : Engine) : Prop :=
  ∀ fqn snaps, snapshots e !! fqn = Some snaps →
    StronglySorted Z.le (Timestamp <$> snaps) ∧ Forall (λ s, Timestamp s ≤ t) snaps.

Lemma sorted_snoc l x :
  StronglySorted Z.le l → Forall (λ y, y ≤ x) l → StronglySorted Z.le (l ++ [x]).
Proof.
  induction 1 as [|y l Hs IH Hy]; intros Hf; [repeat constructor|].
  apply Forall_cons in Hf as [Hyx Hf]. constructor; [auto|]. apply Forall_app. auto.
Qed.

Lemma sorted_filter (P : Snapshot → Prop) `{∀ s, Decision (P s)} l :
  StronglySorted Z.le (Timestamp <$> l) → StronglySorted Z.le (Timestamp <$> filter P l).
Proof.
  induction l as [|x l IH]; intros Hs; [done|]. rewrite fmap_cons in Hs.
  apply StronglySorted_inv in Hs as [Hs Hx]. rewrite filter_cons. case_decide; [|auto].
  rewrite fmap_cons. constructor; [auto|]. rewrite Forall_fmap in *.
  by apply Forall_filter_sub.
Qed.

Lemma capture_ordered now db sc t s :
  ordered now s.1 → ordered now (CaptureSnapshot now db sc t s).2.1.
Proof.
  destruct s as [e w]. intros He. unfold CaptureSnapshot, wrapped, lift. go_unfold.
  destruct (mkdirAll _ w) as [[[]|] w1]; cbn; [|done].
  destruct (execute _ w1) as [[[]|] w2]; cbn; [|done].
  intros fqn snaps. cbn. intros [[<- <-]|[_ Hk]]%lookup_insert_Some; [|by apply He in Hk].
  assert (Hd : StronglySorted Z.le (Timestamp <$> default [] (snapshots e !! fqTableName db sc t)) ∧
    Forall (λ s, Timestamp s ≤ now) (default [] (snapshots e !! fqTableName db sc t))).
  { destruct (snapshots e !! fqTableName db sc t) as [l|] eqn:E; [by apply He in E|].
    split; constructor. }
  destruct Hd as [Hs Hf]. rewrite fmap_app. split.
  - apply sorted_snoc; [done|]. by apply Forall_fmap.
  - apply Forall_app. split; [done|]. repeat constructor. cbn. lia.
Qed.

Lemma cleanup_ordered `{MapRange} t now s : ordered t s.1 → ordered t (Cleanup now s).2.1.
Proof.
  destruct s as [e w]. intros He fqn snaps. unfold Cleanup. go_unfold. rewrite lookup_omap.
  intros (l & Hl & Hk)%bind_Some. destruct (He fqn l Hl) as [Hs Hf]. unfold keep_recent in Hk.
  destruct (filter _ l) as [|x k] eqn:E; [done|]. injection Hk as <-. rewrite <- E.
  split; [by apply sorted_filter|by apply Forall_filter_sub].
Qed.

Lemma reset_ordered t s : ordered t (Reset s).2.1.
Proof.
  unfold Reset. set (rest := λ _ : unit, _).
  assert (Hrest : ∀ u s, (rest u s).2.1 = s.1).
  { intros u s'. subst rest. apply bind_fst; [done|]. intros a s2. case_decide; [done|].
    apply bind_fst; intros; apply lift_fst. }
  unfold bind, modify. rewrite Hrest. intros fqn snaps. cbn. by rewrite lookup_empty.
Qed.

Lemma ordered_mono t t' e : t ≤ t' → ordered t e → ordered t' e.
Proof.
  intros Ht He fqn snaps Hk. destruct (He fqn snaps Hk) as [Hs Hf]. split; [done|].
  eapply Forall_impl; [done|]. cbn. lia.
Qed.

Lemma tt_run_ordered `{MapRange} t0 s0 t s : tt_run t0 s0 t s → ordered t0 s0.1 → ordered t s.1.
Proof.
  induction 1 as [|t0 s0 t s o Hr IH Ht]; intros H0; [done|]. specialize (IH H0).
  apply (ordered_mono _ (op_time o)) in IH; [|done].
  destruct o; [by apply capture_ordered|by apply cleanup_ordered|apply reset_ordered].
Qed.

Lemma sorted_last l x :
  StronglySorted Z.le (Timestamp <$> (l ++ [x])) →
  StronglySorted Z.le (Timestamp <$> l) ∧ ∀ s, s ∈ l → Timestamp s ≤ Timestamp x.
Proof.
  induction l as [|y l IHl]; [split; [constructor|by intros s ?%elem_of_nil]|].
  cbn [app]. rewrite fmap_cons. intros Hs.
  apply StronglySorted_inv in Hs as [Hs Hy]. destruct (IHl Hs) as [H1 H2].
  rewrite fmap_app, Forall_app in Hy. destruct Hy as [Hy1 Hy2]. split.
  - rewrite fmap_cons. by constructor.
  - intros s [->|Hin]%elem_of_cons; [|auto]. cbn in Hy2. by apply Forall_cons in Hy2 as [? _].
Qed.

(** In an ordered list the search finds a snapshot of the greatest time that is
    not after [ts], when there is one. *)
Lemma latest_before_spec ts snaps :
  StronglySorted Z.le (Timestamp <$> snaps) →
  match latest_before ts snaps with
  | Some b => b ∈ snaps ∧ Timestamp b ≤ ts ∧
      ∀ s, s ∈ snaps → Timestamp s ≤ ts → Timestamp s ≤ Timestamp b
  | None => ∀ s, s ∈ snaps → ts < Timestamp s
  end.
Proof.
  unfold latest_before. induction snaps as [|x l IH] using rev_ind; intros Hs.
  { by intros s ?%elem_of_nil. }
  rewrite reverse_app. cbn.
  destruct (sorted_last l x Hs) as [Hs' Hx]. specialize (IH Hs'). destruct (Z.leb_spec (Timestamp x) ts).
  - split; [set_solver|]. split; [done|].
    intros s [?| ->%list_elem_of_singleton]%elem_of_app _; [auto|lia].
  - destruct (find _ (reverse l)) as [b|].
    + destruct IH as (? & ? & Hb). split; [set_solver|]. split; [done|].
      intros s [?| ->%list_elem_of_singleton]%elem_of_app Ht; [auto|lia].
    + intros s [?| ->%list_elem_of_singleton]%elem_of_app; [auto|lia].
Qed.

(** C32: after any sequence of captures, clean-ups and resets under a clock that
    does not go back, a query at a time succeeds exactly when the table has a
    snapshot taken at or before that time, and then gives the file of one taken
    at the greatest such time; [Undrop] gives the file of one taken last. *)
Theorem query_at_timestamp_latest `{MapRange} t0 dir age w t s db sc tbl ts :
  tt_run t0 (NewEngine dir age, w) t s →
  let snaps := default [] (snapshots s.1 !! fqTableName db sc tbl) in
  match QueryAtTimestamp s.1 db sc tbl ts with
  | Ok f => ∃ b, b ∈ snaps ∧ DataFile b = f ∧ Timestamp b ≤ ts ∧
      ∀ x, x ∈ snaps → Timestamp x ≤ ts → Timestamp x ≤ Timestamp b
  | Err _ => ∀ x, x ∈ snaps → ts < Timestamp x
  end ∧
  match Undrop s.1 db sc tbl with
  | Ok f => ∃ b, b ∈ snaps ∧ DataFile b = f ∧ ∀ x, x ∈ snaps → Timestamp x ≤ Timestamp b
  | Err _ => snaps = []
  end.
Proof.
  intros Hr snaps. apply tt_run_ordered in Hr.
  2: { intros fqn l. cbn. by rewrite lookup_empty. }
  assert (Hs : StronglySorted Z.le (Timestamp <$> snaps)).
  { subst snaps. destruct (snapshots s.1 !! _) as [l|] eqn:E; [by apply Hr in E as [? _]|constructor]. }
  unfold QueryAtTimestamp, Undrop. fold snaps. clearbody snaps. split.
  - pose proof (latest_before_spec ts snaps Hs) as Hl. destruct snaps as [|x l]; [by intros ? ?%elem_of_nil|].
    destruct (latest_before ts (x :: l)) as [b|]; [|done]. exists b. naive_solver.
  - destruct (last snaps) as [b|] eqn:E; [|by apply last_None].
    apply last_Some in E as [l' ->]. exists b. split; [set_solver|]. split; [done|].
    intros x [Hx| ->%list_elem_of_singleton]%elem_of_app; [|lia]. by apply (sorted_last l' b).
Qed.

(** A clean-up keeps exactly the snapshots of a table that are not older than
    the retention period, in their order, and a query that was answered with a snapshot inside the period is answered with the same
    file afterwards. *)
Theorem cleanup_retention `{MapRange} s now db sc tbl ts f b :
  let k := fqTableName db sc tbl in
  let cutoff := now - maxAge s.1 in
  let e' := (Cleanup now s).2.1 in
  QueryAtTimestamp s.1 db sc tbl ts = Ok f →
  latest_before ts (default [] (snapshots s.1 !! k)) = Some b → cutoff ≤ Timestamp b →
  default [] (snapshots e' !! k) =
    filter (λ x, too_old cutoff x = false) (default [] (snapshots s.1 !! k)) ∧
  QueryAtTimestamp e' db sc tbl ts = Ok f.
Proof.
  intros k cutoff e' Hq Hb Hc.
  assert (Hk : default [] (snapshots e' !! k) =
    filter (λ x, too_old cutoff x = false) (default [] (snapshots s.1 !! k))).
  { subst e'. unfold Cleanup. go_unfold. fold cutoff. rewrite lookup_omap.
    destruct (snapshots s.1 !! k) as [l|]; cbn; [|done]. unfold keep_recent.
    by destruct (filter _ l). }
  split; [done|]. unfold QueryAtTimestamp in *. fold k in Hq |- *. rewrite Hk.
  set (l := default [] (snapshots s.1 !! k)) in *.
  assert (Hl : latest_before ts (filter (λ x, too_old cutoff x = false) l) = Some b).
  { clear Hq Hk. clearbody l. unfold latest_before in *.
    rewrite <- (reverse_involutive l) in Hb |- *. revert Hb. generalize (reverse l). clear l.
    intros l. rewrite reverse_involutive.
    assert (∀ l', reverse (filter (λ x, too_old cutoff x = false) (reverse l')) =
      filter (λ x, too_old cutoff x = false) l') as ->.
    { induction l' as [|y l' IH]; [done|]. rewrite reverse_cons, filter_app, reverse_app, IH.
      rewrite !filter_cons. case_decide; done. }
    induction l as [|y l IH]; [done|]. cbn [find]. rewrite filter_cons.
    destruct (Z.leb_spec (Timestamp y) ts).
    - intros [= ->]. rewrite decide_True by (unfold too_old; lia). cbn.
      by rewrite (proj2 (Z.leb_le _ _)).
    - intros Hf. case_decide; [|auto]. cbn. rewrite (proj2 (Z.leb_gt _ _)) by done. auto. }
  destruct (filter _ l); [done|]. rewrite Hl. clear Hl Hk. destruct l; [done|].
  by rewrite Hb in Hq.
Qed.
End engine.

(** ** Witnesses *)

(** A world that records what was done to it. *)
Definition ok_call (p : string) (w : list string) : result unit * list string := (Ok tt, w ++ [p]).
Definition log_remove (p : string) (w : list string) : list string := w ++ [p].

Definition captured (now : Z) (s : Engine * list string) : Engine * list string :=
  (CaptureSnapshot ok_call ok_call now "db" "s" "T" s).2.
Definition sample : Engine * list string :=
  captured 200 (captured 100 (NewEngine "/data" 50, [])).

Lemma timetravel_sample_run :
  @tt_run _ ok_call ok_call log_remove ok_call key_order 0 (NewEngine "/data" 50, []) 200 sample.
Proof.
  apply (@tt_snoc _ ok_call ok_call log_remove ok_call key_order 0 _ 100 _ (OpCapture 200 "db" "s" "T")).
  - by apply (@tt_snoc _ ok_call ok_call log_remove ok_call key_order 0 _ 0 _ (OpCapture 100 "db" "s" "T")); [constructor|].
  - done.
Qed.

Lemma query_at_timestamp_latest_witness :
  QueryAtTimestamp Itoa sample.1 "DB" "S" "t" 150 = Ok "/data/snapshots/db/s/T/100.parquet" ∧
  ∃ b, b ∈ default [] (snapshots sample.1 !! fqTableName "DB" "S" "t") ∧
    DataFile b = "/data/snapshots/db/s/T/100.parquet" ∧ Timestamp b ≤ 150.
Proof.
  split; [vm_compute; reflexivity|].
  pose proof (proj1 (@query_at_timestamp_latest _ ok_call ok_call log_remove ok_call Itoa key_order
    0 "/data" 50 [] 200 sample "DB" "S" "t" 150 timetravel_sample_run)) as H.
  change (QueryAtTimestamp Itoa sample.1 "DB" "S" "t" 150)
    with (@Ok string "/data/snapshots/db/s/T/100.parquet") in H.
  destruct H as (b & H1 & H2 & H3 & _). exists b. split; [exact H1|split; [exact H2|exact H3]].
Defined.

Lemma cleanup_retention_witness :
  QueryAtTimestamp Itoa (@Cleanup _ log_remove key_order 240 sample).2.1 "db" "s" "t" 300 =
    Ok "/data/snapshots/db/s/T/200.parquet".
Proof.
  refine (proj2 (@cleanup_retention _ log_remove Itoa key_order sample 240 "db" "s" "t" 300 "/data/snapshots/db/s/T/200.parquet"
    (mkSnapshot 2 "db.s.t" 200 "/data/snapshots/db/s/T/200.parquet") _ _ _));
    vm_compute; (reflexivity || discriminate).
Defined.
