(* ===== verification/TableStore.v ===== *)
(** * What the managers rely on of the database

    The materialized views, dynamic tables and clones keep their data in tables of
    the database, through statements given to it as text.  The database is not
    part of the program; the class states the documented effect of the statements
    that the managers issue on the set of tables that exist.  A failing statement
    leaves the set alone. *)

From S2P Require Import Prelude GoStrings.
From Stdlib Require Import Ascii.

(** A table name that can be told from the rest of the statement. *)
Definition no_space (s : string) : Prop := " "%char ∉ bytes s.

#[export] Instance no_space_dec s : Decision (no_space s).
Proof. unfold no_space. apply _. Defined.

Definition create_as (t body : string) : string := "CREATE TABLE " +:+ t +:+ " AS " +:+ body.
Definition drop_if_exists (t : string) : string := "DROP TABLE IF EXISTS " +:+ t.
Definition delete_from (t : string) : string := "DELETE FROM " +:+ t.
Definition insert_into (t query : string) : string := "INSERT INTO " +:+ t +:+ " " +:+ query.

#[global] Arguments create_as : simpl never.
#[global] Arguments drop_if_exists : simpl never.
#[global] Arguments delete_from : simpl never.
#[global] Arguments insert_into : simpl never.

Class TableStore (W : Type) := {
  exec : string → W → result unit * W;
  tables : W → gset string;
  exec_create : ∀ t body w w', no_space t → exec (create_as t body) w = (Ok tt, w') →
    (t ∉ tables w) ∧ tables w' = {[t]} ∪ tables w;
  exec_drop : ∀ t w w', no_space t → exec (drop_if_exists t) w = (Ok tt, w') →
    tables w' = tables w ∖ {[t]};
  exec_delete : ∀ t w w', no_space t → exec (delete_from t) w = (Ok tt, w') →
    t ∈ tables w ∧ tables w' = tables w;
  exec_insert : ∀ t q w w', no_space t → exec (insert_into t q) w = (Ok tt, w') →
    t ∈ tables w ∧ tables w' = tables w;
  exec_error : ∀ sql w e w', exec sql w = (Err e, w') → tables w' = tables w;
}.

(** ** A concrete store, which shows that the laws can be met: it keeps the names
    of its tables and a list of the statements it is to refuse. *)

Record Toy := mkToy { toy_tables : gset string; toy_refuse : list string }.

(** The name at the front of the rest of a statement. *)
Definition first_word (s : string) : string :=
  match Cut s " " with Some (w, _) => w | None => s end.

Definition toy_exec (sql : string) (w : Toy) : result unit * Toy :=
  if decide (sql ∈ toy_refuse w) then (Err "refused", w)
  else match TrimPrefixOpt sql "CREATE TABLE " with
  | Some rest =>
      let t := first_word rest in
      if decide (t ∈ toy_tables w) then (Err "table exists", w)
      else (Ok tt, mkToy ({[t]} ∪ toy_tables w) (toy_refuse w))
  | None =>
      match TrimPrefixOpt sql "DROP TABLE IF EXISTS " with
      | Some rest => (Ok tt, mkToy (toy_tables w ∖ {[first_word rest]}) (toy_refuse w))
      | None =>
          match TrimPrefixOpt sql "DELETE FROM ", TrimPrefixOpt sql "INSERT INTO " with
          | Some rest, _ | None, Some rest =>
              if decide (first_word rest ∈ toy_tables w) then (Ok tt, w) else (Err "no table", w)
          | None, None => (Ok tt, w)
          end
      end
  end.

Lemma first_word_app t rest : no_space t → first_word (t +:+ " " +:+ rest) = t.
Proof.
  unfold first_word, no_space. intros Ht.
  assert (Cut (t +:+ " " +:+ rest) " " = Some (t, rest)) as ->; [|done].
  induction t as [|c t IH]; [by destruct rest|]. cbn [bytes] in Ht.
  apply not_elem_of_cons in Ht as [Hc Ht].
  change (String c t +:+ " " +:+ rest) with (String c (t +:+ " " +:+ rest)). cbn [Cut].
  specialize (IH Ht). destruct (TrimPrefixOpt (String c (t +:+ " " +:+ rest)) " ") eqn:E.
  - exfalso. apply TrimPrefixOpt_spec in E. injection E as -> _. done.
  - by rewrite IH.
Qed.

Lemma first_word_id t : no_space t → first_word t = t.
Proof.
  unfold first_word, no_space. intros Ht. destruct (Cut t " ") as [[a b]|] eqn:E; [|done].
  apply Cut_app in E. subst t. exfalso. apply Ht. rewrite !bytes_app. set_solver.
Qed.

#[export] Program Instance toy_store : TableStore Toy := {|
  exec := toy_exec;
  tables := toy_tables;
|}.
Next Obligation.
  intros t body w w' Ht. unfold toy_exec, create_as. case_decide; [done|].
  rewrite TrimPrefixOpt_app. change (" AS " +:+ body) with (" " +:+ ("AS " +:+ body)).
  rewrite first_word_app by done. case_decide; [done|]. by intros [= <-].
Qed.
Next Obligation.
  intros t w w' Ht. unfold toy_exec, drop_if_exists. case_decide; [done|].
  change (TrimPrefixOpt ("DROP TABLE IF EXISTS " +:+ t) "CREATE TABLE ") with (@None string).
  rewrite TrimPrefixOpt_app, first_word_id by done. by intros [= <-].
Qed.
Next Obligation.
  intros t w w' Ht. unfold toy_exec, delete_from. case_decide; [done|].
  change (TrimPrefixOpt ("DELETE FROM " +:+ t) "CREATE TABLE ") with (@None string).
  change (TrimPrefixOpt ("DELETE FROM " +:+ t) "DROP TABLE IF EXISTS ") with (@None string).
  rewrite TrimPrefixOpt_app, first_word_id by done. case_decide; [|done]. by intros [= <-].
Qed.
Next Obligation.
  intros t q w w' Ht. unfold toy_exec, insert_into. case_decide; [done|].
  change (TrimPrefixOpt ("INSERT INTO " +:+ t +:+ " " +:+ q) "CREATE TABLE ") with (@None string).
  change (TrimPrefixOpt ("INSERT INTO " +:+ t +:+ " " +:+ q) "DROP TABLE IF EXISTS ") with (@None string).
  change (TrimPrefixOpt ("INSERT INTO " +:+ t +:+ " " +:+ q) "DELETE FROM ") with (@None string).
  rewrite TrimPrefixOpt_app, first_word_app by done. case_decide; [|done]. by intros [= <-].
Qed.
Next Obligation.
  intros sql w e w'. unfold toy_exec. intros H. repeat case_match; by simplify_eq.
Qed.
