(* ===== verification/MatView.v ===== *)
(** * Materialized views ([internal/matview/matview.go])

    A materialized view is a table of the database, filled by its query when the
    view is created and again at every refresh.  All three operations hold the
    manager's lock while they talk to the database.  The loops of [StartAutoRefresh] are
    in Background.v. *)

From S2P Require Import Prelude GoStrings TableStore.

Record MaterializedView := mkView {
  Name : string;
  Database : string;
  Schema : string;
  Query : string;
  Columns : list string;
  LastRefresh : option Z;
  IsSecure : bool;
  ClusterBy : list string;
  CreatedAt : Z;
}.

Record MaterializedViewInfo := mkInfo {
  i_Name : string;
  i_Database : string;
  i_Schema : string;
  i_Query : string;
  i_IsSecure : bool;
  i_ClusterBy : list string;
  i_LastRefresh : option Z;
  i_CreatedAt : Z;
}.

Record Manager := mkManager { views : gmap string MaterializedView }.

Definition qualifiedName (db schema name : string) : string :=
  dotted (ToUpper db) (ToUpper schema) (ToUpper name).
Definition qualifiedTableName (db schema name : string) : string :=
  dotted (ToUpper db) (ToUpper schema) (ToUpper name).

Definition NewManager : Manager := mkManager ∅.

Definition set_LastRefresh (t : Z) (v : MaterializedView) : MaterializedView :=
  mkView (Name v) (Database v) (Schema v) (Query v) (Columns v) (Some t) (IsSecure v)
    (ClusterBy v) (CreatedAt v).

Definition no_view (key : string) : string :=
  "materialized view " +:+ key +:+ " does not exist".

Section matview.
Context {W : Type} `{TS : TableStore W}.
(** The query function, absent when the manager was created without one. *)
Context (queryFn : option (string → W → result (list string) * W)).

(** The columns are read back from the new table; an error leaves them empty. *)
Definition discover_columns (tableName : string) : GoM (Manager * W) (list string) :=
  match queryFn with
  | None => ret []
  | Some q =>
      let! r := catch (lift (q ("SELECT * FROM " +:+ tableName +:+ " LIMIT 0"))) in
      match r with Ok cols => ret cols | Err _ => ret [] end
  end.

Definition Create (now : Z) (db schema name query : string) (isSecure : bool)
    (clusterBy : list string) : GoM (Manager * W) unit :=
  let key := qualifiedName db schema name in
  let tableName := qualifiedTableName db schema name in
  let! s := get in
  match views s.1 !! key with
  | Some _ => fail ("materialized view " +:+ key +:+ " already exists")
  | None =>
      wrapped "failed to materialize view"
        (lift (exec (create_as tableName ("(" +:+ query +:+ ")")))) ;;;
      let! columns := discover_columns tableName in
      modify (λ s, (mkManager (<[key := mkView (ToUpper name) (ToUpper db) (ToUpper schema) query
                                 columns (Some now) isSecure clusterBy now]> (views s.1)), s.2))
  end.

Definition Drop (db schema name : string) : GoM (Manager * W) unit :=
  let key := qualifiedName db schema name in
  let tableName := qualifiedTableName db schema name in
  let! s := get in
  match views s.1 !! key with
  | None => fail (no_view key)
  | Some _ =>
      wrapped "failed to drop backing table" (lift (exec (drop_if_exists tableName))) ;;;
      modify (λ s, (mkManager (delete key (views s.1)), s.2))
  end.

Definition Refresh (now : Z) (db schema name : string) : GoM (Manager * W) unit :=
  let key := qualifiedName db schema name in
  let tableName := qualifiedTableName db schema name in
  let! s := get in
  match views s.1 !! key with
  | None => fail (no_view key)
  | Some mv =>
      wrapped "failed to drop table during refresh" (lift (exec (drop_if_exists tableName))) ;;;
      wrapped "failed to recreate table during refresh"
        (lift (exec (create_as tableName ("(" +:+ Query mv +:+ ")")))) ;;;
      modify (λ s, (mkManager (<[key := set_LastRefresh now mv]> (views s.1)), s.2))
  end.

Definition Get (m : Manager) (db schema name : string) : result MaterializedView :=
  let key := qualifiedName db schema name in
  match views m !! key with None => Err (no_view key) | Some v => Ok v end.

Definition Show `{MapRange} (m : Manager) (db schema : string) : list MaterializedViewInfo :=
  let prefix := ToUpper db +:+ "." +:+ ToUpper schema +:+ "." in
  '(key, mv) ← map_range 0 (views m);
  if HasPrefix key prefix
  then [mkInfo (Name mv) (Database mv) (Schema mv) (Query mv) (IsSecure mv) (ClusterBy mv)
          (LastRefresh mv) (CreatedAt mv)]
  else [].

(** One tick of [StartAutoRefresh]: the views are listed, then refreshed one after
    the other, errors being ignored; [now i] is the clock at the [i]-th. *)
Definition view_names `{MapRange} (m : Manager) : list (string * string * string) :=
  (λ kv : string * MaterializedView, (Database kv.2, Schema kv.2, Name kv.2))
    <$> map_range 0 (views m).

Definition auto_refresh_tick `{MapRange} (now : string * string * string → Z)
    : GoM (Manager * W) unit :=
  let! s := get in
  for_each (λ k : string * string * string, ignore (Refresh (now k) k.1.1 k.1.2 k.2))
    (view_names s.1).

(** ** Views and their tables *)

(** Reading the columns does not create or remove tables. *)
Context (query_reads : ∀ q sql w r w', queryFn = Some q → q sql w = (r, w') → tables w' = tables w).

Inductive Op : Type :=
  | OpCreate (now : Z) (db schema name query : string) (isSecure : bool) (clusterBy : list string)
  | OpDrop (db schema name : string)
  | OpRefresh (now : Z) (db schema name : string).

Definition run_op (o : Op) : GoM (Manager * W) unit :=
  match o with
  | OpCreate now db sc n q sec cl => Create now db sc n q sec cl
  | OpDrop db sc n => Drop db sc n
  | OpRefresh now db sc n => Refresh now db sc n
  end.

Definition op_key (o : Op) : string :=
  match o with
  | OpCreate _ db sc n _ _ _ | OpDrop db sc n | OpRefresh _ db sc n => qualifiedName db sc n
  end.

(** The registered views, and those of them whose table does not exist. *)
Definition registered (s : Manager * W) : gset string := dom (views s.1).
Definition broken (s : Manager * W) : gset string := registered s ∖ tables s.2.

Lemma discover_columns_spec t s :
  ∃ cols w', discover_columns t s = (Ok cols, (s.1, w')) ∧ tables w' = tables s.2.
Proof.
  unfold discover_columns. destruct queryFn as [q|] eqn:E.
  - unfold bind, catch, lift. destruct (q _ s.2) as [r w'] eqn:Eq.
    destruct r; eexists _, w'; (split; [done|]); by eapply query_reads.
  - exists [], s.2. by destruct s.
Qed.

(** A call on the database: what it answers is what the statement answers. *)
Lemma lift_exec prefix sql (s : Manager * W) :
  (∃ w', wrapped prefix (lift (exec sql)) s = (Ok tt, (s.1, w')) ∧ exec sql s.2 = (Ok tt, w')) ∨
  (∃ e w', wrapped prefix (lift (exec sql)) s = (Err e, (s.1, w')) ∧ tables w' = tables s.2).
Proof.
  unfold wrapped, lift. destruct (exec sql s.2) as [[[]|e] w'] eqn:E; [left; eauto|].
  right. eexists _, w'. split; [done|]. by eapply exec_error.
Qed.

Lemma Create_spec now db sc n q sec cl s r s' :
  no_space (qualifiedName db sc n) → Create now db sc n q sec cl s = (r, s') →
  let key := qualifiedName db sc n in
  if is_ok r
  then registered s' = {[key]} ∪ registered s ∧ broken s' = broken s ∖ {[key]}
  else registered s' = registered s ∧ broken s' = broken s.
Proof.
  intros Hns. unfold Create, bind, get.
  destruct (views s.1 !! qualifiedName db sc n) eqn:Ev; [by intros [= <- <-]|].
  apply not_elem_of_dom in Ev.
  destruct (lift_exec "failed to materialize view"
    (create_as (qualifiedTableName db sc n) ("(" +:+ q +:+ ")")) s) as [(w' & -> & E)|(e & w' & -> & E)].
  - apply exec_create in E as [Hn Ht]; [|done].
    destruct (discover_columns_spec (qualifiedTableName db sc n) (s.1, w')) as (cols & w2 & -> & Ht2).
    intros [= <- <-]. unfold broken, registered. cbn in *. rewrite dom_insert_L, Ht2, Ht.
    change (qualifiedTableName db sc n) with (qualifiedName db sc n) in *. set_solver.
  - intros [= <- <-]. unfold broken, registered. cbn. by rewrite E.
Qed.

Lemma Drop_spec db sc n s r s' :
  no_space (qualifiedName db sc n) → Drop db sc n s = (r, s') →
  let key := qualifiedName db sc n in
  if is_ok r
  then registered s' = registered s ∖ {[key]} ∧ broken s' = broken s ∖ {[key]}
  else registered s' = registered s ∧ broken s' = broken s.
Proof.
  intros Hns. unfold Drop, bind, get.
  destruct (views s.1 !! qualifiedName db sc n) eqn:Ev; [|by intros [= <- <-]].
  destruct (lift_exec "failed to drop backing table"
    (drop_if_exists (qualifiedTableName db sc n)) s) as [(w' & -> & E)|(e & w' & -> & E)].
  - apply exec_drop in E; [|done]. intros [= <- <-]. unfold broken, registered. cbn.
    rewrite dom_delete_L, E. change (qualifiedTableName db sc n) with (qualifiedName db sc n).
    set_solver.
  - intros [= <- <-]. unfold broken, registered. cbn. by rewrite E.
Qed.

Lemma Refresh_spec now db sc n s r s' :
  no_space (qualifiedName db sc n) → Refresh now db sc n s = (r, s') →
  let key := qualifiedName db sc n in
  registered s' = registered s ∧
  if is_ok r then key ∈ registered s ∧ broken s' = broken s ∖ {[key]}
  else broken s' ⊆ broken s ∪ {[key]}.
Proof.
  intros Hns. unfold Refresh, bind, get.
  destruct (views s.1 !! qualifiedName db sc n) as [mv|] eqn:Ev.
  2: { intros [= <- <-]. split; [done|cbn; set_solver]. }
  apply elem_of_dom_2 in Ev.
  destruct (lift_exec "failed to drop table during refresh"
    (drop_if_exists (qualifiedTableName db sc n)) s) as [(w' & -> & E)|(e & w' & -> & E)].
  2: { intros [= <- <-]. unfold broken, registered. cbn. rewrite E. split; [done|set_solver]. }
  apply exec_drop in E; [|done].
  change (qualifiedTableName db sc n) with (qualifiedName db sc n) in *.
  destruct (lift_exec "failed to recreate table during refresh"
    (create_as (qualifiedName db sc n) ("(" +:+ Query mv +:+ ")")) (s.1, w'))
    as [(w2 & -> & E2)|(e & w2 & -> & E2)]; intros [= <- <-].
  - apply exec_create in E2 as [Hn Ht]; [|done]. unfold broken, registered.
    cbn in *. rewrite dom_insert_L, Ht, E.
    split; [set_solver|]. split; [done|]. apply set_eq. intros x.
    destruct (decide (x = qualifiedName db sc n)); set_solver.
  - unfold broken, registered. cbn in *. rewrite E2, E. split; [done|].
    intros x. destruct (decide (x = qualifiedName db sc n)); set_solver.
Qed.

(** What each operation does to the registered views and to those without a
    table.  A successful creation registers a view with its table, a successful
    drop removes both, and a successful refresh leaves the view with its table,
    whatever was the case before.  A failed operation registers and removes
    nothing, and only a failed refresh can leave a view without its table, its own:
    the old table is dropped before the new one is known to work. *)
Theorem matview_tables o s :
  no_space (op_key o) →
  let r := run_op o s in
  let key := op_key o in
  match o, is_ok r.1 with
  | OpCreate _ _ _ _ _ _ _, true =>
      registered r.2 = {[key]} ∪ registered s ∧ broken r.2 = broken s ∖ {[key]}
  | OpDrop _ _ _, true =>
      registered r.2 = registered s ∖ {[key]} ∧ broken r.2 = broken s ∖ {[key]}
  | OpRefresh _ _ _ _, true =>
      registered r.2 = registered s ∧ key ∈ registered s ∧ broken r.2 = broken s ∖ {[key]}
  | OpRefresh _ _ _ _, false =>
      registered r.2 = registered s ∧ broken r.2 ⊆ broken s ∪ {[key]}
  | _, false => registered r.2 = registered s ∧ broken r.2 = broken s
  end.
Proof.
  intros Hns. destruct o as [now db sc n q sec cl|db sc n|now db sc n]; cbn [run_op op_key] in *.
  - destruct (Create now db sc n q sec cl s) as [r s'] eqn:E. apply Create_spec in E; [|done].
    cbn in *. by destruct (is_ok r).
  - destruct (Drop db sc n s) as [r s'] eqn:E. apply Drop_spec in E; [|done].
    cbn in *. by destruct (is_ok r).
  - destruct (Refresh now db sc n s) as [r s'] eqn:E. apply Refresh_spec in E as [H1 H2]; [|done].
    cbn in *. by destruct (is_ok r).
Qed.
End matview.

(** ** Witness: a refresh whose query fails leaves its view without a table *)

Definition sample_key : string := "D.S.V".
Definition refusing : Toy := mkToy ∅ ["CREATE TABLE D.S.V AS (SELECT 1)"].
Definition sample : Manager * Toy :=
  let s := (Create (W := Toy) None 0 "d" "s" "v" "SELECT 1" false [] (NewManager, mkToy ∅ [])).2 in
  (s.1, mkToy (toy_tables s.2) (toy_refuse refusing)).

Lemma matview_tables_witness :
  broken sample = ∅ ∧ is_ok (run_op None (OpRefresh 1 "d" "s" "v") sample).1 = false ∧
  broken (run_op None (OpRefresh 1 "d" "s" "v") sample).2 = {[sample_key]} ∧
  registered (run_op None (OpRefresh 1 "d" "s" "v") sample).2 = registered sample.
Proof.
  split; [vm_compute; reflexivity|]. split; [vm_compute; reflexivity|].
  split; [vm_compute; reflexivity|].
  refine (proj1 (matview_tables None _ (OpRefresh 1 "d" "s" "v") sample _)).
  - intros q sql w r w' H. discriminate H.
  - apply (bool_decide_unpack _). vm_compute. exact I.
Defined.
