(* ===== verification/DynamicTable.v ===== *)
(** * Dynamic tables ([internal/dynamictable/dynamictable.go])

    A dynamic table is a table of the database that a background loop refills from
    its query.  The loop of a table has a stop channel; the [i]-th loop started
    listens on channel [i].  A loop turn is a call of [Refresh]; here it can happen at
    any moment, and Background.v has the loops themselves. *)

From S2P Require Import Prelude GoStrings TableStore.

Record DynamicTable := mkTable {
  Name : string;
  Database : string;
  Schema : string;
  Query : string;
  TargetLag : Z;
  Warehouse : string;
  RefreshMode : string;
  LastRefresh : option Z;
  NextRefresh : option Z;
  RowCount : Z;
  CreatedAt : Z;
}.

(** [DynamicTableInfo] has the same fields. *)
Definition DynamicTableInfo : Type := DynamicTable.

Record Manager := mkManager {
  dtables : gmap string DynamicTable;
  stopChs : gmap string nat;
  closed : gset nat;
  (** the keys of the loops started so far *)
  loops : list string;
}.

Definition set_tables (ts : gmap string DynamicTable) (m : Manager) : Manager :=
  mkManager ts (stopChs m) (closed m) (loops m).

Definition tableKey (db schema name : string) : string := ToUpper (dotted db schema name).

(** The name of the backing table, as written by the creator. *)
Definition fqn (dt : DynamicTable) : string := dotted (Database dt) (Schema dt) (Name dt).

Definition NewManager : Manager := mkManager ∅ ∅ ∅ [].

Definition no_table (key : string) : string := "dynamic table '" +:+ key +:+ "' does not exist".

(** [stopCh := make(...); m.stopChs[key] = stopCh; go m.refreshLoop(key, stopCh)] *)
Definition start_loop (key : string) (m : Manager) : Manager :=
  mkManager (dtables m) (<[key := length (loops m)]> (stopChs m)) (closed m) (loops m ++ [key]).

(** [close(ch)] *)
Definition close_ch (ch : nat) (m : Manager) : result unit * Manager :=
  if decide (ch ∈ closed m) then (Err "panic: close of closed channel", m)
  else (Ok tt, mkManager (dtables m) (stopChs m) ({[ch]} ∪ closed m) (loops m)).

Definition forget_ch (key : string) (m : Manager) : Manager :=
  mkManager (dtables m) (delete key (stopChs m)) (closed m) (loops m).

(** [if ch, ok := m.stopChs[key]; ok { close(ch); delete(m.stopChs, key) }] *)
Definition stop_loop (key : string) (m : Manager) : result unit * Manager :=
  match stopChs m !! key with
  | None => (Ok tt, m)
  | Some ch => let '(r, m) := close_ch ch m in
               match r with Ok _ => (Ok tt, forget_ch key m) | Err e => (Err e, m) end
  end.

Section dynamictable.
Context {W : Type} `{TS : TableStore W}.

(** An operation on the manager only. *)
Definition on_manager (f : Manager → result unit * Manager) : GoM (Manager * W) unit :=
  λ s, let '(r, m) := f s.1 in (r, (m, s.2)).

Definition Create (now : Z) (db schema name query warehouse : string) (targetLag : Z)
    (refreshMode : string) : GoM (Manager * W) unit :=
  let key := tableKey db schema name in
  let! s := get in
  match dtables s.1 !! key with
  | Some _ => fail ("dynamic table '" +:+ key +:+ "' already exists")
  | None =>
      wrapped "failed to create dynamic table"
        (lift (exec (create_as (dotted db schema name) query))) ;;;
      let dt := mkTable name db schema query targetLag warehouse refreshMode (Some now)
                  (Some (now + targetLag)%Z) 0 now in
      modify (λ s, (start_loop key (set_tables (<[key := dt]> (dtables s.1)) s.1), s.2))
  end.

Definition Drop (db schema name : string) : GoM (Manager * W) unit :=
  let key := tableKey db schema name in
  let! s := get in
  match dtables s.1 !! key with
  | None => fail (no_table key)
  | Some dt =>
      on_manager (stop_loop key) ;;;
      wrapped "failed to drop dynamic table" (lift (exec (drop_if_exists (fqn dt)))) ;;;
      modify (λ s, (set_tables (delete key (dtables s.1)) s.1, s.2))
  end.

Definition set_refreshed (now lag : Z) (dt : DynamicTable) : DynamicTable :=
  mkTable (Name dt) (Database dt) (Schema dt) (Query dt) (TargetLag dt) (Warehouse dt)
    (RefreshMode dt) (Some now) (Some (now + lag)%Z) (RowCount dt) (CreatedAt dt).

(** [Refresh] reads the table under the lock, runs the statements without it and
    notes the times under it again.  Here it runs in one go; below, its parts also
    occur on their own, between any other operations. *)
Definition refresh_key (db schema name : string) : string :=
  if decide (db = "" ∧ schema = "") then name else tableKey db schema name.

Definition note_refreshed (now lag : Z) (key : string) (m : Manager) : Manager :=
  match dtables m !! key with
  | None => m
  | Some dt => set_tables (<[key := set_refreshed now lag dt]> (dtables m)) m
  end.

Definition Refresh (now : Z) (db schema name : string) : GoM (Manager * W) unit :=
  let key := refresh_key db schema name in
  let! s := get in
  match dtables s.1 !! key with
  | None => fail (no_table key)
  | Some dt =>
      wrapped "refresh failed (delete)" (lift (exec (delete_from (fqn dt)))) ;;;
      wrapped "refresh failed (insert)" (lift (exec (insert_into (fqn dt) (Query dt)))) ;;;
      modify (λ s, (note_refreshed now (TargetLag dt) key s.1, s.2))
  end.

Definition Get (m : Manager) (db schema name : string) : result DynamicTable :=
  let key := tableKey db schema name in
  match dtables m !! key with None => Err (no_table key) | Some dt => Ok dt end.

Definition Show `{MapRange} (m : Manager) (db schema : string) : list DynamicTableInfo :=
  let prefix := ToUpper (db +:+ "." +:+ schema +:+ ".") in
  '(key, dt) ← map_range 0 (dtables m);
  if HasPrefix key prefix then [dt] else [].

Definition start_one (key : string) (m : Manager) : result unit * Manager :=
  (Ok tt, match stopChs m !! key with Some _ => m | None => start_loop key m end).

Definition stop_one (kc : string * nat) (m : Manager) : result unit * Manager :=
  let '(r, m) := close_ch kc.2 m in
  match r with Ok _ => (Ok tt, forget_ch kc.1 m) | Err e => (Err e, m) end.

Definition Start `{MapRange} : GoM (Manager * W) unit :=
  on_manager (λ m, for_each start_one (map_range 0 (dtables m)).*1 m).

Definition Stop `{MapRange} : GoM (Manager * W) unit :=
  on_manager (λ m, for_each stop_one (map_range 0 (stopChs m)) m).

(** ** Sequences of operations *)

Inductive Op : Type :=
  | OpCreate (now : Z) (db schema name query warehouse : string) (lag : Z) (mode : string)
  | OpDrop (db schema name : string)
  | OpRefresh (now : Z) (db schema name : string)
  (** the parts of a refresh that runs concurrently *)
  | OpDeleteStmt (t : string)
  | OpInsertStmt (t query : string)
  | OpNote (now lag : Z) (key : string)
  | OpStart
  | OpStop.

Definition run_op `{MapRange} (o : Op) : GoM (Manager * W) unit :=
  match o with
  | OpCreate now db sc n q wh lag mode => Create now db sc n q wh lag mode
  | OpDrop db sc n => Drop db sc n
  | OpRefresh now db sc n => Refresh now db sc n
  | OpDeleteStmt t => wrapped "refresh failed (delete)" (lift (exec (delete_from t)))
  | OpInsertStmt t q => wrapped "refresh failed (insert)" (lift (exec (insert_into t q)))
  | OpNote now lag key => modify (λ s, (note_refreshed now lag key s.1, s.2))
  | OpStart => Start
  | OpStop => Stop
  end.

(** The names of tables have no spaces. *)
Definition valid_op (o : Op) : Prop :=
  match o with
  | OpCreate _ db sc n _ _ _ _ => no_space (dotted db sc n)
  | OpDeleteStmt t | OpInsertStmt t _ => no_space t
  | _ => True
  end.

Definition dt_reachable `{MapRange} : Manager * W → Prop :=
  reachable (λ s, s.1 = NewManager)
    (λ s o s', valid_op o ∧ (run_op o s).2 = s').

(** Every registered table is in the database, under the name it was created with. *)
Definition backed (s : Manager * W) : Prop :=
  ∀ k dt, dtables s.1 !! k = Some dt →
    k = ToUpper (fqn dt) ∧ no_space (fqn dt) ∧ fqn dt ∈ tables s.2.

(** The stop channels are open, one for each table that has a running loop. *)
Record chans (m : Manager) : Prop := {
  ch_stop : ∀ k c, stopChs m !! k = Some c →
    (c ∉ closed m) ∧ loops m !! c = Some k ∧ is_Some (dtables m !! k);
  ch_open : ∀ i k, loops m !! i = Some k → i ∉ closed m → stopChs m !! k = Some i;
  ch_closed : ∀ c, c ∈ closed m → c < length (loops m);
}.

Definition panic : result unit := Err "panic: close of closed channel".

Lemma start_loop_chans key m :
  chans m → stopChs m !! key = None → is_Some (dtables m !! key) → chans (start_loop key m).
Proof.
  intros [Hs Ho Hc] Hn Hd. unfold start_loop.
  assert (HL : length (loops m) ∉ closed m) by (intros Hin%Hc; lia). split; cbn.
  - intros k c [[<- <-]|[Hne Hk]]%lookup_insert_Some.
    + by rewrite list_lookup_middle.
    + destruct (Hs k c Hk) as (? & Hl & ?). split; [done|]. split; [|done].
      by rewrite lookup_app_l by (by eapply lookup_lt_Some).
  - intros i k [Hl|[Hle Hl]]%lookup_app_Some Hnc.
    + rewrite lookup_insert_ne; [by apply Ho|]. intros ->. specialize (Ho i k Hl Hnc). congruence.
    + apply list_lookup_singleton_Some in Hl as [Hz <-]. rewrite lookup_insert_eq. f_equal. lia.
  - intros c Hin%Hc. rewrite length_app. lia.
Qed.

Lemma stop_loop_chans key m :
  chans m → ∃ m', stop_loop key m = (Ok tt, m') ∧ chans m' ∧ dtables m' = dtables m ∧
    stopChs m' = delete key (stopChs m).
Proof.
  intros [Hs Ho Hc]. unfold stop_loop. destruct (stopChs m !! key) as [c|] eqn:E.
  - destruct (Hs key c E) as (Hnc & Hl & Hd). unfold close_ch. rewrite decide_False by done.
    eexists. split; [done|]. split; [|done]. split; cbn.
    + intros k c' [Hne Hk]%lookup_delete_Some. destruct (Hs k c' Hk) as (? & ? & ?).
      split; [|done]. intros [->%elem_of_singleton|]%elem_of_union; [congruence|done].
    + intros i k Hi Hni. apply not_elem_of_union in Hni as [Hic Hni].
      rewrite not_elem_of_singleton in Hic. pose proof (Ho i k Hi Hni).
      rewrite lookup_delete_ne; [done|]. intros ->. congruence.
    + intros c' [->%elem_of_singleton|]%elem_of_union; [by eapply lookup_lt_Some|by apply Hc].
  - exists m. split; [done|]. split; [done|]. split; [done|]. by rewrite delete_id.
Qed.

(** Changing the tables without losing one that has a running loop. *)
Lemma set_tables_chans ts m :
  chans m → (∀ k c, stopChs m !! k = Some c → is_Some (dtables m !! k) → is_Some (ts !! k)) →
  chans (set_tables ts m).
Proof.
  intros [Hs Ho Hc] Ht. split; try done. cbn. intros k c Hk.
  destruct (Hs k c Hk) as (? & ? & ?). eauto.
Qed.

Lemma note_refreshed_chans now lag key m : chans m → chans (note_refreshed now lag key m).
Proof.
  intros Hm. unfold note_refreshed. destruct (dtables m !! key) as [dt|] eqn:E; [|done].
  apply set_tables_chans; [done|]. intros k c _ Hk.
  destruct (decide (key = k)) as [<-|]; [rewrite lookup_insert_eq; eauto|by rewrite lookup_insert_ne].
Qed.

Lemma note_refreshed_backed now lag key m w : backed (m, w) → backed (note_refreshed now lag key m, w).
Proof.
  intros Hb. unfold note_refreshed. destruct (dtables m !! key) as [dt|] eqn:E; [|done].
  intros k x. cbn. intros [[<- <-]|[_ Hk]]%lookup_insert_Some; [|by apply (Hb k)].
  apply (Hb key dt E).
Qed.

Lemma start_loops_chans (ks : list string) m :
  chans m → (∀ k, k ∈ ks → is_Some (dtables m !! k)) →
  (for_each start_one ks m).1 = Ok tt ∧ chans (for_each start_one ks m).2 ∧
  dtables (for_each start_one ks m).2 = dtables m.
Proof.
  intros Hm Hks. apply (for_each_total (λ m', chans m' ∧ dtables m' = dtables m)); [|done].
  intros k m' Hk [Hm' Hd]. unfold start_one. cbn. split; [done|].
  destruct (stopChs m' !! k) eqn:E; [done|]. split; [|done].
  apply start_loop_chans; [done..|]. rewrite Hd. auto.
Qed.

Lemma stop_loops_chans (l : list (string * nat)) m :
  NoDup l.*1 → (∀ k c, (k, c) ∈ l → stopChs m !! k = Some c) → chans m →
  ∃ m', for_each stop_one l m = (Ok tt, m') ∧ chans m' ∧ dtables m' = dtables m.
Proof.
  revert m. induction l as [|[k c] l IH]; intros m Hnd Hl Hm; [by exists m|].
  apply NoDup_cons in Hnd as [Hk Hnd]. cbn [for_each].
  destruct (stop_loop_chans k m Hm) as (m1 & E & Hm1 & Hd1 & Hs1).
  assert (Hc : stopChs m !! k = Some c) by (apply Hl; left).
  assert (E' : stop_one (k, c) m = (Ok tt, m1)).
  { revert E. unfold stop_loop, stop_one. by rewrite Hc. }
  unfold bind. rewrite E'. destruct (IH m1 Hnd) as (m' & -> & Hm' & Hd'); [|done|].
  - intros k' c' Hin. rewrite Hs1, lookup_delete_ne; [apply Hl; by right|].
    intros ->. apply Hk, list_elem_of_fmap. by exists (k', c').
  - exists m'. split; [done|]. split; [done|]. congruence.
Qed.

(** A statement of a refresh leaves the set of tables alone, whether it succeeds
    or not. *)
Lemma exec_refresh_stmt prefix sql (s : Manager * W) :
  (∀ w w', exec sql w = (Ok tt, w') → tables w' = tables w) →
  ∃ r w', wrapped prefix (lift (exec sql)) s = (r, (s.1, w')) ∧ tables w' = tables s.2.
Proof.
  intros Hok. unfold wrapped, lift. destruct (exec sql s.2) as [[[]|e] w'] eqn:E; eexists _, w'.
  - split; [done|]. by apply Hok.
  - split; [done|]. by eapply exec_error.
Qed.

Definition good (s : Manager * W) : Prop := chans s.1 ∧ backed s.

Lemma same_tables_good m w w' : tables w' = tables w → good (m, w) → good (m, w').
Proof. intros Ht [Hc Hb]. split; [done|]. intros k dt Hk. cbn. rewrite Ht. by apply (Hb k). Qed.

Lemma wrap_panic {A} p (r : result A) e : wrap_err p r = Err e → ∃ e', e = p +:+ ": " +:+ e'.
Proof. destruct r; cbn; [done|]. intros [= <-]. eauto. Qed.

Lemma Create_good now db sc n q wh lag mode s :
  good s → no_space (dotted db sc n) →
  good (Create now db sc n q wh lag mode s).2 ∧ (Create now db sc n q wh lag mode s).1 ≠ panic.
Proof.
  intros [Hc Hb] Hns. unfold Create, bind, get.
  destruct (dtables s.1 !! tableKey db sc n) eqn:Ed; [done|].
  unfold wrapped, lift. destruct (exec _ s.2) as [[[]|e] w'] eqn:E; cbn.
  2: { split; [|done]. apply exec_error in E. destruct s. by apply (same_tables_good _ w). }
  split; [|done]. apply exec_create in E as [_ Ht]; [|done]. split.
  - cbn. apply start_loop_chans; cbn.
    + apply set_tables_chans; [done|]. intros k c Hk Hd.
      rewrite lookup_insert_ne; [done|]. intros <-. rewrite Ed in Hd. by destruct Hd.
    + destruct (stopChs s.1 !! tableKey db sc n) as [c|] eqn:Es; [|done].
      destruct (ch_stop _ Hc _ _ Es) as (_ & _ & Hd). rewrite Ed in Hd. by destruct Hd.
    + rewrite lookup_insert_eq. eauto.
  - intros k dt. cbn. rewrite Ht. intros [[<- <-]|[_ Hk]]%lookup_insert_Some.
    + split; [done|]. split; [done|]. set_solver.
    + destruct (Hb k dt Hk) as (? & ? & ?). split; [done|]. split; [done|]. set_solver.
Qed.

Lemma Drop_good db sc n s :
  good s → good (Drop db sc n s).2 ∧ (Drop db sc n s).1 ≠ panic.
Proof.
  intros [Hc Hb]. unfold Drop, bind, get.
  destruct (dtables s.1 !! tableKey db sc n) as [dt|] eqn:Ed; [|done].
  unfold on_manager. destruct (stop_loop_chans (tableKey db sc n) s.1 Hc) as (m1 & -> & Hm1 & Hd1 & Hs1).
  destruct (Hb _ _ Ed) as (Hk & Hns & Hin). unfold wrapped, lift. cbn [fst snd].
  assert (Hb1 : backed (m1, s.2)).
  { intros k x. cbn. rewrite Hd1. apply (Hb k). }
  destruct (exec _ s.2) as [[[]|e] w'] eqn:E; cbn.
  2: { split; [|done]. apply exec_error in E. by apply (same_tables_good _ s.2). }
  split; [|done]. apply exec_drop in E; [|done]. split.
  - apply set_tables_chans; [done|]. intros k c. rewrite Hs1.
    intros [Hne _]%lookup_delete_Some. cbn. by rewrite lookup_delete_ne.
  - intros k x. cbn. intros [Hne Hx]%lookup_delete_Some. destruct (Hb1 k x Hx) as (Hkx & ? & ?).
    split; [done|]. split; [done|]. rewrite E. apply elem_of_difference. split; [done|].
    rewrite elem_of_singleton. intros Heq. apply Hne. rewrite Hk, Hkx. by f_equal.
Qed.

Lemma Refresh_good now db sc n s :
  good s → good (Refresh now db sc n s).2 ∧ (Refresh now db sc n s).1 ≠ panic.
Proof.
  intros Hg. unfold Refresh, bind, get.
  destruct (dtables s.1 !! refresh_key db sc n) as [dt|] eqn:Ed; [|done].
  destruct (proj2 Hg _ _ Ed) as (_ & Hns & _). unfold wrapped, lift.
  destruct (exec (delete_from (fqn dt)) s.2) as [[[]|e] w1] eqn:E1; cbn.
  2: { split; [|done]. apply exec_error in E1. destruct s. by apply (same_tables_good _ w). }
  apply exec_delete in E1 as [_ E1]; [|done].
  destruct (exec (insert_into (fqn dt) (Query dt)) w1) as [[[]|e] w2] eqn:E2; cbn.
  2: { split; [|done]. apply exec_error in E2. destruct s as [m w].
       apply (same_tables_good _ w); [|done]. cbn in *. congruence. }
  apply exec_insert in E2 as [_ E2]; [|done]. split; [|done].
  destruct s as [m w]. destruct (same_tables_good m w w2) as [Hc Hb]; [cbn in *; congruence|done|].
  split; [by apply note_refreshed_chans|by apply note_refreshed_backed].
Qed.

Lemma run_op_good `{MapRange} o s :
  good s → valid_op o → good (run_op o s).2 ∧ (run_op o s).1 ≠ panic.
Proof.
  intros Hg Ho. destruct o as [now db sc n q wh lag mode|db sc n|now db sc n|t|t q|now lag key| |];
    cbn [run_op valid_op] in *.
  - by apply Create_good.
  - by apply Drop_good.
  - by apply Refresh_good.
  - unfold wrapped, lift. destruct (exec _ s.2) as [[[]|e] w'] eqn:E; cbn; (split; [|done]); destruct s.
    + apply exec_delete in E as [_ E]; [|done]. by eapply same_tables_good.
    + apply exec_error in E. by eapply same_tables_good.
  - unfold wrapped, lift. destruct (exec _ s.2) as [[[]|e] w'] eqn:E; cbn; (split; [|done]); destruct s.
    + apply exec_insert in E as [_ E]; [|done]. by eapply same_tables_good.
    + apply exec_error in E. by eapply same_tables_good.
  - destruct s, Hg. split; [|done].
    split; [by apply note_refreshed_chans|by apply note_refreshed_backed].
  - unfold Start, on_manager. destruct Hg as [Hc Hb].
    destruct (start_loops_chans (map_range 0 (dtables s.1)).*1 s.1) as (H1 & H2 & H3); [done| |].
    { intros k ([k' dt] & -> & Hin%elem_of_map_range)%list_elem_of_fmap. eauto. }
    destruct (for_each _ _ s.1) as [r m']. cbn in *. subst r. split; [|done]. split; [done|].
    intros k dt. cbn. rewrite H3. apply (Hb k).
  - unfold Stop, on_manager. destruct Hg as [Hc Hb].
    destruct (stop_loops_chans (map_range 0 (stopChs s.1)) s.1) as (m' & -> & H2 & H3).
    { apply map_range_NoDup_fst. }
    { intros k c. apply elem_of_map_range. }
    { done. }
    split; [|done]. split; [done|]. intros k dt. cbn. rewrite H3. apply (Hb k).
Qed.

Lemma good_facts `{MapRange} s : good s →
  (∀ k dt, dtables s.1 !! k = Some dt → k = ToUpper (fqn dt) ∧ fqn dt ∈ tables s.2) ∧
  (∀ i j k, loops s.1 !! i = Some k → loops s.1 !! j = Some k →
     i ∉ closed s.1 → j ∉ closed s.1 → i = j ∧ is_Some (dtables s.1 !! k)) ∧
  (∀ o, valid_op o → (run_op o s).1 ≠ panic).
Proof.
  intros Hg. pose proof Hg as [Hc Hb]. split; [|split].
  - intros k dt Hk. by destruct (Hb k dt Hk) as (? & _ & ?).
  - intros i j k Hi Hj Hni Hnj. pose proof (ch_open _ Hc i k Hi Hni) as E1.
    pose proof (ch_open _ Hc j k Hj Hnj) as E2. split; [congruence|].
    by destruct (ch_stop _ Hc _ _ E1) as (_ & _ & ?).
  - intros o Ho. by apply run_op_good.
Qed.
Lemma new_good w : good (NewManager, w).
Proof. split; [split; cbn; set_solver|]. intros k dt. cbn. by rewrite lookup_empty. Qed.

(** In every state reached by creations, drops, refreshes (whole or
    interleaved piece by piece with anything else), [Start] and [Stop], whatever
    the database answers: every registered dynamic table exists in the database
    under its name; two loops with open stop channels never serve the same table,
    and serve a registered one; and no operation closes a closed channel. *)
Theorem dynamic_tables_backed `{MapRange} s :
  dt_reachable s →
  (∀ k dt, dtables s.1 !! k = Some dt → k = ToUpper (fqn dt) ∧ fqn dt ∈ tables s.2) ∧
  (∀ i j k, loops s.1 !! i = Some k → loops s.1 !! j = Some k →
     i ∉ closed s.1 → j ∉ closed s.1 → i = j ∧ is_Some (dtables s.1 !! k)) ∧
  (∀ o, valid_op o → (run_op o s).1 ≠ panic).
Proof.
  intros Hr. apply good_facts. revert s Hr. apply reachable_inv.
  - intros [m w]. cbn. intros ->. apply new_good.
  - intros s o s' Hs [Ho <-]. by apply run_op_good.
Qed.
End dynamictable.

(** ** Witness *)

Definition sample : Manager * Toy :=
  (Create 0 "d" "s" "T" "SELECT 1" "wh" 60 "AUTO" (NewManager, mkToy ∅ [])).2.

Lemma dynamic_tables_backed_witness :
  ∃ dt, dtables sample.1 !! "D.S.T" = Some dt ∧ fqn dt = "d.s.T" ∧ fqn dt ∈ tables sample.2.
Proof.
  assert (Hr : @dt_reachable Toy toy_store key_order sample).
  { refine (reachable_step _ _ (NewManager, mkToy ∅ [])
      (OpCreate 0 "d" "s" "T" "SELECT 1" "wh" 60 "AUTO") _ _ _); [by apply reachable_init|].
    split; [|reflexivity]. apply (bool_decide_unpack _). vm_compute. exact I. }
  eexists. split; [vm_compute; reflexivity|]. split; [reflexivity|].
  refine (proj2 (proj1 (@dynamic_tables_backed Toy toy_store key_order sample Hr) "D.S.T" _ _)).
  vm_compute; reflexivity.
Defined.
