(* ===== verification/Clone.v ===== *)
(** * Clones ([internal/clone/clone.go])

    A table is cloned by one statement; a schema table by table and a database
    schema by schema, stopping at the first error.  Completed clones are recorded.
    The database is a parameter, on a state [W]. *)

From S2P Require Import Prelude GoStrings.

Definition CloneType : Type := string.
Definition TypeDatabase : CloneType := "DATABASE".
Definition TypeSchema : CloneType := "SCHEMA".
Definition TypeTable : CloneType := "TABLE".

Record CloneRecord := mkRecord {
  SourceName : string;
  CloneName : string;
  Type_ : CloneType;
  CreatedAt : Z;
}.

(** Names between double quotes, separated by dots. *)
Definition quoted (s : string) : string := String dq (s +:+ String dq "").
Definition quoted2 (a b : string) : string := quoted a +:+ "." +:+ quoted b.
Definition quoted3 (a b c : string) : string := quoted a +:+ "." +:+ quoted b +:+ "." +:+ quoted c.

Definition clone_sql (src dst : string) : string :=
  "CREATE TABLE " +:+ dst +:+ " AS SELECT * FROM " +:+ src.
Definition tables_sql (db schema : string) : string :=
  "SELECT table_name FROM duckdb_tables() WHERE database_name = '" +:+ db
    +:+ "' AND schema_name = '" +:+ schema +:+ "' ORDER BY table_name".
Definition schemas_sql (db : string) : string :=
  "SELECT schema_name FROM duckdb_schemas() WHERE database_name = '" +:+ db
    +:+ "' ORDER BY schema_name".

(** The first cells of the rows that are strings; a row without cells panics. *)
Fixpoint first_strings (rows : list (list cell)) : result (list string) :=
  match rows with
  | [] => Ok []
  | [] :: _ => Err "panic: index out of range"
  | (c :: _) :: rows =>
      match first_strings rows with
      | Err e => Err e
      | Ok names => Ok (match c with CStr s => s :: names | _ => names end)
      end
  end.

Section clone.
Context {W : Type}.
Context (execFn : string → W → result unit * W).
Context (queryFn : string → W → result (list (list cell)) * W).

(** The state of the engine is its list of records. *)
Definition Engine : Type := list CloneRecord.

Definition Reset : GoM (Engine * W) unit := modify (λ s, ([], s.2)).

Definition add_record (r : CloneRecord) : GoM (Engine * W) unit :=
  modify (λ s, (s.1 ++ [r], s.2)).

Definition CloneTable (now : Z) (srcDB srcSchema srcTable dstDB dstSchema dstTable : string)
    : GoM (Engine * W) unit :=
  let src := quoted3 srcDB srcSchema srcTable in
  let dst := quoted3 dstDB dstSchema dstTable in
  wrapped "clone table" (lift (execFn (clone_sql src dst))) ;;;
  add_record (mkRecord src dst TypeTable now).

Definition list_names (sql : string) : GoM (Engine * W) (list string) :=
  let! rows := lift (queryFn sql) in
  λ s, (first_strings rows, s).

Definition listTables (db schema : string) : GoM (Engine * W) (list string) :=
  list_names (tables_sql db schema).
Definition listSchemas (db : string) : GoM (Engine * W) (list string) :=
  list_names (schemas_sql db).

(** The loop over the tables; [now i] is the clock at the [i]-th. *)
Fixpoint clone_tables (now : nat → Z) (srcDB srcSchema dstDB dstSchema : string)
    (tables : list string) : GoM (Engine * W) unit :=
  match tables with
  | [] => ret tt
  | tbl :: tables =>
      wrapped ("clone schema: table " +:+ tbl)
        (CloneTable (now 0) srcDB srcSchema tbl dstDB dstSchema tbl) ;;;
      clone_tables (λ i, now (S i)) srcDB srcSchema dstDB dstSchema tables
  end.

Definition CloneSchema (now : nat → Z) (srcDB srcSchema dstDB dstSchema : string)
    : GoM (Engine * W) unit :=
  wrapped "clone schema: create dst schema"
    (lift (execFn ("CREATE SCHEMA IF NOT EXISTS " +:+ quoted2 dstDB dstSchema))) ;;;
  let! tables := wrapped "clone schema: list tables" (listTables srcDB srcSchema) in
  clone_tables now srcDB srcSchema dstDB dstSchema tables ;;;
  add_record (mkRecord (quoted2 srcDB srcSchema) (quoted2 dstDB dstSchema) TypeSchema
                (now (length tables))).

Fixpoint clone_schemas (now : nat → nat → Z) (srcDB dstDB : string) (schemas : list string)
    : GoM (Engine * W) unit :=
  match schemas with
  | [] => ret tt
  | schema :: schemas =>
      wrapped ("clone database: schema " +:+ schema)
        (CloneSchema (now 0) srcDB schema dstDB schema) ;;;
      clone_schemas (λ i, now (S i)) srcDB dstDB schemas
  end.

Definition CloneDatabase (now : nat → nat → Z) (srcDB dstDB : string) : GoM (Engine * W) unit :=
  wrapped "clone database: create dst"
    (lift (execFn ("CREATE SCHEMA IF NOT EXISTS " +:+ quoted2 dstDB "main"))) ;;;
  let! schemas := wrapped "clone database: list schemas" (listSchemas srcDB) in
  clone_schemas now srcDB dstDB schemas ;;;
  add_record (mkRecord srcDB dstDB TypeDatabase (now (length schemas) 0)).

Definition ListClones (e : Engine) : list CloneRecord := e.

(** ** Specification *)

Fixpoint table_records (now : nat → Z) (srcDB srcSchema dstDB dstSchema : string)
    (tables : list string) : list CloneRecord :=
  match tables with
  | [] => []
  | tbl :: tables =>
      mkRecord (quoted3 srcDB srcSchema tbl) (quoted3 dstDB dstSchema tbl) TypeTable (now 0)
      :: table_records (λ i, now (S i)) srcDB srcSchema dstDB dstSchema tables
  end.

(** Running statements in order up to the first failure: how many succeeded,
    whether all did, and the final state. *)
Fixpoint exec_until (sqls : list string) (w : W) : nat * bool * W :=
  match sqls with
  | [] => (0, true, w)
  | sql :: sqls =>
      match execFn sql w with
      | (Ok _, w) => let '(n, b, w) := exec_until sqls w in (S n, b, w)
      | (Err _, w) => (0, false, w)
      end
  end.

Lemma CloneTable_spec now sdb ss st ddb ds dt (e : Engine) w :
  CloneTable now sdb ss st ddb ds dt (e, w) =
  match execFn (clone_sql (quoted3 sdb ss st) (quoted3 ddb ds dt)) w with
  | (Ok _, w1) =>
      (Ok tt, (e ++ [mkRecord (quoted3 sdb ss st) (quoted3 ddb ds dt) TypeTable now], w1))
  | (Err err, w1) => (Err ("clone table" +:+ ": " +:+ err), (e, w1))
  end.
Proof.
  unfold CloneTable, bind, wrapped, lift, add_record, modify. cbn [fst snd].
  by destruct (execFn _ w) as [[[]|err] w1].
Qed.

Lemma clone_tables_spec now sdb ss ddb ds tables (e : Engine) w :
  let sqls := (λ t, clone_sql (quoted3 sdb ss t) (quoted3 ddb ds t)) <$> tables in
  let '(n, b, w') := exec_until sqls w in
  ∃ r, clone_tables now sdb ss ddb ds tables (e, w) =
    (r, (e ++ table_records now sdb ss ddb ds (take n tables), w')) ∧ is_ok r = b ∧
    (b = true → n = length tables) ∧ (b = false → n < length tables).
Proof.
  revert now e w. induction tables as [|t tables IH]; intros now e w; cbn zeta.
  { cbn. exists (Ok tt). by rewrite app_nil_r. }
  rewrite fmap_cons. cbn [exec_until clone_tables]. unfold bind, wrapped. rewrite CloneTable_spec.
  destruct (execFn (clone_sql (quoted3 sdb ss t) (quoted3 ddb ds t)) w) as [[[]|err] w1]; cbn [wrap_err].
  - specialize (IH (λ i, now (S i))
      (e ++ [mkRecord (quoted3 sdb ss t) (quoted3 ddb ds t) TypeTable (now 0)]) w1).
    cbn zeta in IH. destruct (exec_until _ w1) as [[n b] w'].
    destruct IH as (r & E & Hb & Hn & Hm). exists r. split.
    { etrans; [exact E|]. cbn [take table_records]. by rewrite <- app_assoc. }
    split; [done|]. cbn [length]. split; intros Hb'; [by rewrite Hn|]. specialize (Hm Hb'). lia.
  - eexists. cbn. rewrite app_nil_r. split; [done|]. split; [done|]. split; [done|lia].
Qed.

(** Cloning a schema lists its tables and clones them one after the other with
    one statement each, in the order of the listing, stopping at the first that
    fails.  The records grow by exactly the tables whose statement succeeded, and
    the record of the schema itself is added only when all of them did. *)
Theorem clone_schema_records now sdb ss ddb ds (e : Engine) w w0 rows tables w1 :
  execFn ("CREATE SCHEMA IF NOT EXISTS " +:+ quoted2 ddb ds) w = (Ok tt, w0) →
  queryFn (tables_sql sdb ss) w0 = (Ok rows, w1) → first_strings rows = Ok tables →
  let sqls := (λ t, clone_sql (quoted3 sdb ss t) (quoted3 ddb ds t)) <$> tables in
  let '(n, b, w') := exec_until sqls w1 in
  ∃ r, CloneSchema now sdb ss ddb ds (e, w) =
    (r, (e ++ table_records now sdb ss ddb ds (take n tables) ++
          (if b then [mkRecord (quoted2 sdb ss) (quoted2 ddb ds) TypeSchema (now (length tables))]
           else []), w')) ∧
    is_ok r = b ∧ (if b then n = length tables else n < length tables).
Proof.
  intros H0 H1 H2. pose proof (clone_tables_spec now sdb ss ddb ds tables e w1) as Ht.
  cbn zeta in *. destruct (exec_until _ w1) as [[n b] w']. destruct Ht as (r & E & Hb & Hn & Hm).
  unfold CloneSchema, bind, wrapped, lift. cbn [fst snd]. rewrite H0. cbn [wrap_err].
  unfold listTables, list_names, bind, lift. cbn [fst snd]. rewrite H1. cbn [fst snd].
  rewrite H2. cbn [wrap_err]. rewrite E. destruct r as [[]|err], b; try done.
  - eexists. unfold add_record, modify. cbn [fst snd]. rewrite <- app_assoc. auto.
  - eexists. rewrite app_nil_r. auto.
Qed.
End clone.

(** ** Witness *)

Definition refuse_b (sql : string) (w : list string) : result unit * list string :=
  if decide (sql = clone_sql (quoted3 "D" "S" "b") (quoted3 "E" "S" "b"))
  then (Err "exists", w) else (Ok tt, w ++ [sql]).
Definition two_tables (sql : string) (w : list string) : result (list (list cell)) * list string :=
  (Ok [[CStr "a"]; [CStr "b"]], w).

Lemma clone_schema_records_witness :
  ∃ r w', CloneSchema refuse_b two_tables (λ _, 0%Z) "D" "S" "E" "S" ([], []) =
    (r, (table_records (λ _, 0%Z) "D" "S" "E" "S" ["a"], w')) ∧ is_ok r = false.
Proof.
  pose proof (clone_schema_records refuse_b two_tables (λ _, 0%Z) "D" "S" "E" "S" [] []
    _ _ _ _ eq_refl eq_refl eq_refl) as H.
  change (∃ r, CloneSchema refuse_b two_tables (λ _, 0%Z) "D" "S" "E" "S" ([], []) =
    (r, (table_records (λ _, 0%Z) "D" "S" "E" "S" ["a"] ++ [],
      (exec_until refuse_b ((λ t, clone_sql (quoted3 "D" "S" t) (quoted3 "E" "S" t)) <$> ["a"; "b"])
        ["CREATE SCHEMA IF NOT EXISTS " +:+ quoted2 "E" "S"]).2)) ∧ is_ok r = false ∧ 1 < 2) in H.
  destruct H as (r & E & Hr & _). exists r. eexists. split; [exact E|exact Hr].
Defined.
