(* ===== verification/Background.v ===== *)
(** * The managers' background loops

    The goroutines that work beside the operations of a manager, each between its
    waits for a timer or a stop signal: one framework, in which a loop takes its list of
    jobs at a tick and does them one by one while anything else happens in between, and
    its instances, the refresh loops of dynamic tables, the automatic refresh of
    materialized views and the clean-up of snapshots. *)

From S2P Require Import Prelude GoStrings TableStore TimeTravel MatView DynamicTable.
#[local] Open Scope Z_scope.

(** ** Loops *)

(** Where a loop is; one that has just been started is at its top. *)
Inductive Pc (J : Type) : Type :=
  | Selecting
  | Working (todo : list (Z → J))
  | Returned.
Arguments Selecting {J}.
Arguments Working {J}.
Arguments Returned {J}.

Section loops.
Context {S J : Type}.
(** The jobs and what they do, at an instant; whether a failing job ends the turn. *)
Context (run : J → S → result unit * S) (abort : bool).
(** How many loops were started, and which of them were told to stop. *)
Context (count : S → nat) (stopped : S → nat → bool).
(** What a loop finds at its top, whether it has lost its purpose, and at a tick. *)
Context (gone : S → nat → bool) (turn : S → nat → list (Z → J)).
(** What other goroutines do. *)
Context (other : S → S → Prop).

Definition LoopState : Type := S * gmap nat (Pc J).

(** The steps of the loop [i]. *)
Inductive own_step (i : nat) : LoopState → LoopState → Prop :=
  | at_top_gone s pcs : (i < count s)%nat → pcs !! i = None → gone s i = true → own_step i (s, pcs) (s, <[i := Returned]> pcs)
  | at_top s pcs : (i < count s)%nat → pcs !! i = None → gone s i = false → own_step i (s, pcs) (s, <[i := Selecting]> pcs)
  | on_stop s pcs : pcs !! i = Some Selecting → stopped s i = true → own_step i (s, pcs) (s, <[i := Returned]> pcs)
  | on_tick s pcs : pcs !! i = Some Selecting → own_step i (s, pcs) (s, <[i := Working (turn s i)]> pcs)
  | on_job s pcs job todo now r s' : pcs !! i = Some (Working (job :: todo)) → run (job now) s = (r, s') →
      own_step i (s, pcs) (s', <[i := Working (if is_ok r || negb abort then todo else [])]> pcs)
  | on_done s pcs : pcs !! i = Some (Working []) → own_step i (s, pcs) (s, delete i pcs).

Inductive loop_step : LoopState → unit → LoopState → Prop :=
  | step_other s s' pcs : other s s' → loop_step (s, pcs) tt (s', pcs)
  | step_own i st st' : own_step i st st' → loop_step st tt st'.

Context (init : S → Prop).
Definition loop_reachable : LoopState → Prop := reachable (λ st, init st.1 ∧ st.2 = ∅) loop_step.

(** *** Refinement: with loops, the manager does nothing that it does not do without *)

Section refinement.
(** An invariant of the manager alone, and the jobs that keep it. *)
Context (I : S → Prop) (valid : J → Prop).
Context (init_inv : ∀ s, init s → I s) (other_inv : ∀ s s', I s → other s s' → I s').
Context (job_inv : ∀ s j, I s → valid j → I (run j s).2).
Context (turn_valid : ∀ s i job now, I s → job ∈ turn s i → valid (job now)).

Lemma loops_refine st : loop_reachable st → I st.1.
Proof.
  set (K := λ st : LoopState, I st.1 ∧ ∀ i todo job now, st.2 !! i = Some (Working todo) → job ∈ todo → valid (job now)).
  intros Hr. enough (K st) by (by destruct H). revert st Hr. apply reachable_inv.
  - intros [s pcs] [Hi Hp]. cbn in *. split; [by apply init_inv|]. cbn. rewrite Hp. intros i todo job now Hl. by rewrite lookup_empty in Hl.
  - intros st [] st' [HI Hv] Hst. destruct Hst as [s s' pcs Ho|i st st' Hown].
    + split; [by eapply other_inv|done].
    + assert (Hset : ∀ s pcs pc, (∀ todo job now, pc = Working todo → job ∈ todo → valid (job now)) →
        (∀ i todo job now, pcs !! i = Some (Working todo) → job ∈ todo → valid (job now)) → I s →
        K (s, <[i := pc]> pcs)).
      { intros s pcs pc Hpc Hpcs Hs. split; [done|]. cbn. intros k todo job now [[<- ->]|[_ Hk]]%lookup_insert_Some Hin; [by eapply Hpc|by eapply Hpcs]. }
      destruct Hown as [s pcs|s pcs|s pcs|s pcs|s pcs job todo now r s' Hpc E|s pcs Hpc]; cbn in *; try (by apply Hset).
      * apply Hset; [|done..]. intros todo job now [= <-] Hin. by eapply turn_valid.
      * apply Hset; [|done|].
        -- intros todo' job' now' [= <-] Hin. eapply (Hv i); [exact Hpc|]. apply elem_of_cons. right. by destruct (is_ok r || negb abort); [|apply elem_of_nil in Hin].
        -- assert (Hj : valid (job now)) by (eapply (Hv i); [exact Hpc|apply list_elem_of_here]). pose proof (job_inv s (job now) HI Hj) as H. by rewrite E in H.
      * split; [done|]. cbn. intros k todo job now [_ Hk]%lookup_delete_Some. by apply (Hv k).
Qed.
End refinement.

(** *** A loop that was told to stop can always return *)

Inductive own_steps (i : nat) : LoopState → LoopState → Prop :=
  | own_none st : own_steps i st st
  | own_more st st1 st2 : own_step i st st1 → own_steps i st1 st2 → own_steps i st st2.

Context (job_count : ∀ j s, count (run j s).2 = count s) (job_stopped : ∀ j s i, stopped (run j s).2 i = stopped s i).

Lemma stopped_returns i s pcs : (i < count s)%nat → stopped s i = true → ∃ s' pcs', own_steps i (s, pcs) (s', pcs') ∧ pcs' !! i = Some Returned.
Proof.
  intros Hi Hs. assert (Hsel : ∀ s pcs, stopped s i = true → pcs !! i = Some Selecting →
    ∃ s' pcs', own_steps i (s, pcs) (s', pcs') ∧ pcs' !! i = Some Returned).
  { intros s1 pcs1 Hs1 Hp. exists s1, (<[i := Returned]> pcs1). split; [|by rewrite lookup_insert_eq].
    eapply own_more; [by apply on_stop|apply own_none]. }
  assert (Htop : ∀ s pcs, (i < count s)%nat → stopped s i = true → pcs !! i = None →
    ∃ s' pcs', own_steps i (s, pcs) (s', pcs') ∧ pcs' !! i = Some Returned).
  { intros s1 pcs1 Hi1 Hs1 Hp. destruct (gone s1 i) eqn:Hg.
    - exists s1, (<[i := Returned]> pcs1). split; [|by rewrite lookup_insert_eq]. eapply own_more; [by apply at_top_gone|apply own_none].
    - destruct (Hsel s1 (<[i := Selecting]> pcs1) Hs1) as (s' & pcs' & Hr & He); [by rewrite lookup_insert_eq|].
      exists s', pcs'. split; [|done]. eapply own_more; [by apply at_top|done]. }
  destruct (pcs !! i) as [[|todo|]|] eqn:Hp; [by apply Hsel| |exists s, pcs; split; [apply own_none|done]|by apply Htop].
  revert s pcs Hi Hs Hp. induction todo as [todo IH] using (induction_ltof1 _ (@length (Z → J))). intros s pcs Hi Hs Hp.
  destruct todo as [|job todo].
  - destruct (Htop s (delete i pcs) Hi Hs) as (s' & pcs' & Hr & He); [by rewrite lookup_delete_eq|].
    exists s', pcs'. split; [|done]. eapply own_more; [by apply on_done|done].
  - destruct (run (job 0) s) as [r s1] eqn:E. pose proof (job_count (job 0) s) as Hc. pose proof (job_stopped (job 0) s i) as Hst. rewrite E in Hc, Hst. cbn in *.
    destruct (IH (if is_ok r || negb abort then todo else []) ltac:(unfold ltof; destruct (is_ok r || negb abort); cbn; lia) s1
      (<[i := Working (if is_ok r || negb abort then todo else [])]> pcs)) as (s' & pcs' & Hr & He); [lia|congruence|by rewrite lookup_insert_eq|].
    exists s', pcs'. split; [|done]. eapply own_more; [by eapply on_job|done].
Qed.
End loops.

(** ** The refresh loops of dynamic tables ([refreshLoop]) *)

Section dynamic_tables.
Context {W : Type} `{TS : TableStore W} `{MapRange}.
Definition dt_state : Type := DynamicTable.Manager * W.

(** The statements of a refresh, and its note of the times. *)
Inductive RefreshJob : Type :=
  | JDelete (t : string)
  | JInsert (t query : string)
  | JNote (now lag : Z) (key : string).
Definition refresh_op (j : RefreshJob) : DynamicTable.Op :=
  match j with
  | JDelete t => OpDeleteStmt t
  | JInsert t q => OpInsertStmt t q
  | JNote now lag key => OpNote now lag key
  end.
Definition run_refresh (j : RefreshJob) : GoM dt_state unit := DynamicTable.run_op (refresh_op j).

(** The loop [i] serves the key that it was started with. *)
Definition loop_table (s : dt_state) (i : nat) : option (string * DynamicTable) :=
  key ← DynamicTable.loops s.1 !! i; dt ← dtables s.1 !! key; Some (key, dt).
Definition table_gone (s : dt_state) (i : nat) : bool := bool_decide (loop_table s i = None).
Definition refresh_turn (s : dt_state) (i : nat) : list (Z → RefreshJob) :=
  match loop_table s i with
  | None => []
  | Some (key, dt) => [λ _, JDelete (fqn dt); λ _, JInsert (fqn dt) (DynamicTable.Query dt); λ now, JNote now (TargetLag dt) key]
  end.
Definition loop_stopped (s : dt_state) (i : nat) : bool := bool_decide (i ∈ closed s.1).
Definition loop_count (s : dt_state) : nat := length (DynamicTable.loops s.1).
Definition table_op (s s' : dt_state) : Prop := ∃ o, DynamicTable.valid_op o ∧ s' = (DynamicTable.run_op o s).2.

Definition refreshing : LoopState → Prop :=
  loop_reachable run_refresh true loop_count loop_stopped table_gone refresh_turn table_op (λ s, s.1 = DynamicTable.NewManager).

(** The notes of the clock are taken under the lock. *)
Lemma refresh_turn_valid s i job now : DynamicTable.good s → job ∈ refresh_turn s i → DynamicTable.valid_op (refresh_op (job now)).
Proof.
  intros [_ Hb]. unfold refresh_turn, loop_table. destruct (DynamicTable.loops s.1 !! i) as [key|]; cbn; [|by intros ?%elem_of_nil].
  destruct (dtables s.1 !! key) as [dt|] eqn:E; cbn; [|by intros ?%elem_of_nil]. destruct (Hb _ _ E) as (_ & Hns & _).
  rewrite !elem_of_cons, elem_of_nil. by intros [->|[->|[->|[]]]].
Qed.

(** C39: With every refresh loop running as the source runs it, its statements
    interleaved with those of all other loops and operations, whatever the database
    answers: every registered dynamic table exists in the database under its name, two
    loops that were not told to stop never serve the same table, no operation closes a
    closed channel, and a loop that was told to stop can always return by its own
    steps, wherever it is. *)
Theorem dynamic_loops_backed st : refreshing st →
  (∀ k dt, dtables st.1.1 !! k = Some dt → k = ToUpper (fqn dt) ∧ fqn dt ∈ tables st.1.2) ∧
  (∀ i j k, DynamicTable.loops st.1.1 !! i = Some k → DynamicTable.loops st.1.1 !! j = Some k →
     i ∉ closed st.1.1 → j ∉ closed st.1.1 → i = j ∧ is_Some (dtables st.1.1 !! k)) ∧
  (∀ o, DynamicTable.valid_op o → (DynamicTable.run_op o st.1).1 ≠ DynamicTable.panic) ∧
  (∀ i, (i < length (DynamicTable.loops st.1.1))%nat → i ∈ closed st.1.1 → ∃ s' pcs',
     own_steps run_refresh true loop_count loop_stopped table_gone refresh_turn i st (s', pcs') ∧ pcs' !! i = Some Returned).
Proof.
  intros Hr. assert (Hg : DynamicTable.good st.1).
  { revert st Hr. apply (loops_refine _ _ _ _ _ _ _ _ DynamicTable.good (λ j, DynamicTable.valid_op (refresh_op j))).
    - intros [m w]. cbn. intros ->. apply new_good.
    - intros s s' Hs (o & Ho & ->). by apply run_op_good.
    - intros s j Hs Hj. by apply run_op_good.
    - intros s i job now. apply refresh_turn_valid. }
  destruct (good_facts _ Hg) as (H1 & H2 & H3). split_all; [done..|].
  intros i Hi Hc. destruct st as [s pcs]. apply stopped_returns; [| |done|by apply bool_decide_eq_true].
  - intros [t|t q|now lag k] [m w]; unfold loop_count, run_refresh, DynamicTable.run_op, refresh_op, wrapped, lift, modify; cbn;
      [by destruct (exec _ w) as [[]]..|]. unfold note_refreshed. by destruct (dtables m !! k).
  - intros [t|t q|now lag k] [m w] j; unfold loop_stopped, run_refresh, DynamicTable.run_op, refresh_op, wrapped, lift, modify; cbn;
      [by destruct (exec _ w) as [[]]..|]. unfold note_refreshed. by destruct (dtables m !! k).
Qed.
End dynamic_tables.

(** A table whose loop is about to refresh it while it is dropped. *)
Definition a_create : DynamicTable.Op := OpCreate 0 "d" "s" "T" "SELECT 1" "wh" 60 "AUTO".
Definition dt_created : dt_state (W:=Toy) := (DynamicTable.run_op (H:=key_order) a_create (DynamicTable.NewManager, mkToy ∅ [])).2.
Definition dt_dropped : dt_state (W:=Toy) := (DynamicTable.run_op (H:=key_order) (OpDrop "d" "s" "T") dt_created).2.
Definition mid_refresh : gmap nat (Pc RefreshJob) := <[0%nat := Working (refresh_turn dt_created 0)]> (<[0%nat := Selecting]> ∅).

Lemma mid_refresh_reachable : refreshing (H:=key_order) (dt_dropped, mid_refresh).
Proof.
  apply (reachable_step _ _ (dt_created, mid_refresh) tt).
  2:{ apply step_other. by exists (OpDrop "d" "s" "T"). }
  apply (reachable_step _ _ (dt_created, <[0%nat := Selecting]> ∅) tt).
  2:{ eapply step_own, on_tick. reflexivity. }
  apply (reachable_step _ _ (dt_created, ∅) tt).
  2:{ apply (step_own _ _ _ _ _ _ _ 0%nat), at_top; [vm_compute; lia|done|vm_compute; reflexivity]. }
  apply (reachable_step _ _ ((DynamicTable.NewManager, mkToy ∅ []), ∅) tt); [by apply reachable_init|].
  apply step_other. exists a_create. split; [|done]. apply (bool_decide_unpack _). vm_compute. exact I.
Qed.

Lemma dynamic_loops_backed_witness : dtables dt_dropped.1 = ∅ ∧ ∃ s' pcs',
  own_steps (run_refresh (H:=key_order)) true loop_count loop_stopped table_gone refresh_turn 0 (dt_dropped, mid_refresh) (s', pcs') ∧ pcs' !! 0%nat = Some Returned.
Proof.
  split; [vm_compute; reflexivity|]. apply (dynamic_loops_backed (H:=key_order) _ mid_refresh_reachable).
  - vm_compute. lia.
  - apply (bool_decide_unpack _). vm_compute. exact I.
Defined.

(** ** The automatic refresh of materialized views ([StartAutoRefresh]) *)

Section auto_refresh.
Context {W : Type} `{TS : TableStore W} `{MapRange}.
Context (queryFn : option (string → W → result (list string) * W)).

(** The manager with its [cancelAutoRefresh], which belongs to one of the loops
    started, and the loops whose context is done. *)
Record AutoRefresh := mkAuto {
  viewMgr : MatView.Manager * W;
  cancelAutoRefresh : option nat;
  done_loops : list bool;
}.

Definition StartAutoRefresh (a : AutoRefresh) : AutoRefresh :=
  mkAuto (viewMgr a) (Some (length (done_loops a)))
    ((match cancelAutoRefresh a with Some i => <[i := true]> (done_loops a) | None => done_loops a end) ++ [false]).

(** The context that a loop was started with is cancelled by its owner. *)
Definition cancel_parent (i : nat) (a : AutoRefresh) : AutoRefresh :=
  mkAuto (viewMgr a) (cancelAutoRefresh a) (<[i := true]> (done_loops a)).

Definition run_view (j : Z * (string * string * string)) : GoM AutoRefresh unit := λ a,
  let '(r, v) := MatView.Refresh j.1 j.2.1.1 j.2.1.2 j.2.2 (viewMgr a) in (r, mkAuto v (cancelAutoRefresh a) (done_loops a)).
(** The names are listed under the lock, then the views are refreshed one by one, and
    errors ignored. *)
Definition view_turn (a : AutoRefresh) (_ : nat) : list (Z → Z * (string * string * string)) :=
  (λ name now, (now, name)) <$> view_names (viewMgr a).1.
Definition auto_count (a : AutoRefresh) : nat := length (done_loops a).
Definition auto_stopped (a : AutoRefresh) (i : nat) : bool := default false (done_loops a !! i).

Inductive view_other : AutoRefresh → AutoRefresh → Prop :=
  | view_op a o : view_other a (mkAuto (MatView.run_op queryFn o (viewMgr a)).2 (cancelAutoRefresh a) (done_loops a))
  | view_start a : view_other a (StartAutoRefresh a)
  | view_cancel a i : view_other a (cancel_parent i a).

Definition auto_refreshing : LoopState → Prop :=
  loop_reachable run_view false auto_count auto_stopped (λ _ _, false) view_turn view_other
    (λ a, (viewMgr a).1 = MatView.NewManager ∧ cancelAutoRefresh a = None ∧ done_loops a = []).

(** The one that may still go on is the one that [cancelAutoRefresh] would end. *)
Definition one_live (a : AutoRefresh) : Prop :=
  (∀ i, done_loops a !! i = Some false → cancelAutoRefresh a = Some i) ∧
  (∀ i, cancelAutoRefresh a = Some i → i < length (done_loops a))%nat.

Lemma start_one_live a : one_live a → one_live (StartAutoRefresh a).
Proof.
  intros [H1 H2]. unfold StartAutoRefresh. set (d := match cancelAutoRefresh a with Some i => _ | None => _ end).
  assert (Hd : length d = length (done_loops a)) by (unfold d; destruct (cancelAutoRefresh a); by rewrite ?length_insert).
  split; cbn.
  - intros i [Hi|[Hle Hi]]%lookup_app_Some.
    + exfalso. unfold d in Hi. destruct (cancelAutoRefresh a) as [j|] eqn:E; [|specialize (H1 _ Hi); congruence].
      destruct (decide (j = i)) as [->|Hne].
      * rewrite list_lookup_insert_eq in Hi; [done|]. by apply H2.
      * rewrite list_lookup_insert_ne in Hi by done. apply H1 in Hi. congruence.
    + apply list_lookup_singleton_Some in Hi as [Hz _]. f_equal. lia.
  - intros i [= <-]. rewrite length_app. cbn. lia.
Qed.
Lemma cancel_one_live i a : one_live a → one_live (cancel_parent i a).
Proof.
  intros [H1 H2]. split; cbn.
  - intros j. destruct (decide (i = j)) as [->|Hne].
    + intros Hj. exfalso. pose proof (lookup_lt_Some _ _ _ Hj) as Hl. rewrite length_insert in Hl.
      rewrite list_lookup_insert_eq in Hj; done.
    + rewrite list_lookup_insert_ne by done. apply H1.
  - intros j Hj. rewrite length_insert. by apply H2.
Qed.

(** However often the automatic refresh is started, and whatever runs beside it, at
    most one loop is left that was not told to stop, and one that was can always
    return. *)
Theorem one_auto_refresh st : auto_refreshing st →
  (∀ i j, done_loops st.1 !! i = Some false → done_loops st.1 !! j = Some false → i = j) ∧
  (∀ i, done_loops st.1 !! i = Some true → ∃ s' pcs',
     own_steps run_view false auto_count auto_stopped (λ _ _, false) view_turn i st (s', pcs') ∧ pcs' !! i = Some Returned).
Proof.
  intros Hr. assert (Ho : one_live st.1).
  { revert st Hr. apply (loops_refine _ _ _ _ _ _ _ _ one_live (λ _, True)); [| | |done].
    - intros a (_ & Hc & Hd). split; rewrite Hd; [done|]. by rewrite Hc.
    - intros a a' Ha Hs. destruct Hs; [exact Ha|by apply start_one_live|by apply cancel_one_live].
    - intros a j Ha _. unfold run_view. by destruct (MatView.Refresh _ _ _ _ _). }
  split.
  - intros i j Hi Hj. destruct Ho as [Ho _]. apply Ho in Hi, Hj. congruence.
  - intros i Hi. destruct st as [s pcs]. apply stopped_returns.
    + intros j a. unfold run_view, auto_count. by destruct (MatView.Refresh _ _ _ _ _).
    + intros j a k. unfold run_view, auto_stopped. by destruct (MatView.Refresh _ _ _ _ _).
    + by apply lookup_lt_Some in Hi.
    + unfold auto_stopped. cbn in Hi. by rewrite Hi.
Qed.
End auto_refresh.

(** ** The clean-up of snapshots ([StartCleanupLoop]) *)

Section cleanup.
Context {W : Type} `{MapRange}.
Context (mkdirAll removeAll : string → W → result unit * W) (remove : string → W → W).
Context (execute : string → W → result unit * W).

(** The engine, the time of its last operation and the loops whose context is done. *)
Record Cleaning := mkCleaning { tt_state : TimeTravel.Engine * W; tt_time : Z; tt_done : list bool }.

Definition run_cleanup (now : Z) : GoM Cleaning unit := λ c,
  let '(r, s) := TimeTravel.Cleanup remove now (tt_state c) in (r, mkCleaning s (tt_time c) (tt_done c)).
Definition StartCleanupLoop (c : Cleaning) : Cleaning := mkCleaning (tt_state c) (tt_time c) (tt_done c ++ [false]).
Definition cancel_cleanup (i : nat) (c : Cleaning) : Cleaning := mkCleaning (tt_state c) (tt_time c) (<[i := true]> (tt_done c)).

Inductive clean_other : Cleaning → Cleaning → Prop :=
  | clean_op c o : tt_time c ≤ TimeTravel.op_time o →
      clean_other c (mkCleaning (TimeTravel.run_op mkdirAll removeAll remove execute o (tt_state c)).2 (TimeTravel.op_time o) (tt_done c))
  | clean_start c : clean_other c (StartCleanupLoop c)
  | clean_cancel c i : clean_other c (cancel_cleanup i c).

Definition cleanup_stopped (c : Cleaning) (i : nat) : bool := default false (tt_done c !! i).
Definition cleaning : LoopState → Prop :=
  loop_reachable run_cleanup false (λ c, length (tt_done c)) cleanup_stopped (λ _ _, false) (λ _ _, [λ now, now]) clean_other
    (λ c, TimeTravel.snapshots (tt_state c).1 = ∅ ∧ tt_done c = []).

(** Clean-up loops leave the snapshots of every table in the order of their times, at
    whatever moments they work; a loop that was told to stop can always return. *)
Theorem cleanup_loops_ordered st : cleaning st →
  TimeTravel.ordered (tt_time st.1) (tt_state st.1).1 ∧
  ∀ i, tt_done st.1 !! i = Some true → ∃ s' pcs',
    own_steps run_cleanup false (λ c, length (tt_done c)) cleanup_stopped (λ _ _, false) (λ _ _, [λ now, now]) i st (s', pcs') ∧
    pcs' !! i = Some Returned.
Proof.
  intros Hr. split.
  - revert st Hr. apply (loops_refine _ _ _ _ _ _ _ _ (λ c, TimeTravel.ordered (tt_time c) (tt_state c).1) (λ _, True)); [| | |done].
    + intros c [Hc _] fqn l Hl. by rewrite Hc, lookup_empty in Hl.
    + intros c c' Hc Hs. destruct Hs as [c o Ho| |]; cbn; [|exact Hc..]. apply (ordered_mono _ (TimeTravel.op_time o)) in Hc; [|done].
      destruct o; cbn [TimeTravel.run_op TimeTravel.op_time] in *; [by apply capture_ordered|by apply cleanup_ordered|apply reset_ordered].
    + intros c now Hc _. unfold run_cleanup. pose proof (cleanup_ordered remove (tt_time c) now (tt_state c) Hc) as Hk.
      by destruct (TimeTravel.Cleanup _ _ _).
  - intros i Hi. destruct st as [s pcs]. apply stopped_returns.
    + intros j c. unfold run_cleanup. by destruct (TimeTravel.Cleanup _ _ _).
    + intros j c k. unfold run_cleanup, cleanup_stopped. by destruct (TimeTravel.Cleanup _ _ _).
    + by apply lookup_lt_Some in Hi.
    + unfold cleanup_stopped. cbn in Hi. by rewrite Hi.
Qed.
End cleanup.
