(* ===== verification/Cron.v ===== *)
(** * Cron schedules ([internal/task/cron.go])

    The parser of five-field cron expressions and the search for the next minute
    that matches.  The time-zone database is not part of the program:
    [LoadLocation] is a parameter that gives a zone's offset from UTC at every
    instant. *)

From S2P Require Import Prelude GoStrings GoTime.
From Stdlib Require Import Ascii.
#[local] Open Scope Z_scope.

(** ** Locations *)

Record Location := mkLoc {
  loc_name : string;
  utc_offset : Z → Z;   (* seconds east of UTC at an instant *)
}.
Definition UTC : Location := mkLoc "UTC" (λ _, 0).

(** What the accessors [t.Minute()], [t.Hour()], ... see of [t.In(loc)]. *)
Definition wall (loc : Location) (t : Z) : Z := t + utc_offset loc t * Second.

(** ** Fields *)

(** A list is [None] when it is [nil]: a wildcard. *)
Record cronFields := mkFields {
  minute : option (list Z);
  hour : option (list Z);
  dayOfMonth : option (list Z);
  month : option (list Z);
  dayOfWeek : option (list Z);
}.

(** [for v := start; v <= end; v += step]: the values not seen before are
    appended.  [None] would be a loop that does not end; see [expand_total]. *)
Fixpoint expand (fuel : nat) (v end_ step : Z) (seen : gset Z) (out : list Z)
    : option (gset Z * list Z) :=
  match fuel with
  | O => None
  | S fuel =>
      if v <=? end_ then
        if decide (v ∈ seen) then expand fuel (wrap64 (v + step)) end_ step seen out
        else expand fuel (wrap64 (v + step)) end_ step ({[v]} ∪ seen) (out ++ [v])
      else Some (seen, out)
  end.
Definition expand_fuel : nat := 128.

(** The text before the slash and the step after it. *)
Definition parse_step (field p : string) : result (string * Z) :=
  match Cut p "/" with
  | None => Ok (p, 1)
  | Some (p, stepStr) =>
      match Atoi stepStr with
      | Some n =>
          if n <=? 0 then Err ("cron: invalid step " +:+ Quote stepStr +:+ " in " +:+ Quote field)
          else Ok (p, n)
      | None => Err ("cron: invalid step " +:+ Quote stepStr +:+ " in " +:+ Quote field)
      end
  end.

(** The first and the last value of a part. *)
Definition parse_range (field p : string) (minVal maxVal : Z) : result (Z * Z) :=
  if decide (p = "*") then Ok (minVal, maxVal)
  else match Cut p "-" with
       | Some (x, y) =>
           match Atoi x, Atoi y with
           | Some a, Some b => Ok (a, b)
           | _, _ => Err ("cron: invalid range " +:+ Quote p +:+ " in " +:+ Quote field)
           end
       | None =>
           match Atoi p with
           | Some n => Ok (n, n)
           | None => Err ("cron: invalid value " +:+ Quote p +:+ " in " +:+ Quote field)
           end
       end.

(** One part of the comma-separated list: first value, last value and step. *)
Definition parse_part (field : string) (minVal maxVal : Z) (p : string) : result (Z * Z * Z) :=
  match parse_step field p with
  | Err e => Err e
  | Ok (p, step) =>
      match parse_range field p minVal maxVal with
      | Err e => Err e
      | Ok (start, end_) =>
          if (start <? minVal) || (maxVal <? end_) || (end_ <? start)
          then Err ("cron: out-of-range " +:+ Itoa start +:+ "-" +:+ Itoa end_ +:+ " (want "
                    +:+ Itoa minVal +:+ "-" +:+ Itoa maxVal +:+ ") in " +:+ Quote field)
          else Ok (start, end_, step)
      end
  end.

Fixpoint parse_parts (field : string) (minVal maxVal : Z) (parts : list string)
    (seen : gset Z) (out : list Z) : result (list Z) :=
  match parts with
  | [] => Ok out
  | p :: parts =>
      match parse_part field minVal maxVal p with
      | Err e => Err e
      | Ok (start, end_, step) =>
          match expand expand_fuel start end_ step seen out with
          | None => Err "does not terminate"
          | Some (seen, out) => parse_parts field minVal maxVal parts seen out
          end
      end
  end.

Definition parseCronField (field : string) (minVal maxVal : Z) : result (option (list Z)) :=
  if decide (field = "*") then Ok None
  else match parse_parts field minVal maxVal (SplitByte ","%char field) ∅ [] with
       | Ok out => Ok (Some out)
       | Err e => Err e
       end.

(** ** Expressions *)

Section cron.
Context (LoadLocation : string → result Location).

Definition cron_location (parts : list string) : result Location :=
  match parts !! 5%nat with
  | None => Ok UTC
  | Some zoneName =>
      match LoadLocation zoneName with
      | Ok z => Ok z
      | Err e => Err ("cron: unknown timezone " +:+ Quote zoneName +:+ ": " +:+ e)
      end
  end.

(** The five fields in turn; the first error is returned. *)
Definition parse_fields (f0 f1 f2 f3 f4 : string) : result cronFields :=
  match parseCronField f0 0 59 with Err e => Err e | Ok mi =>
  match parseCronField f1 0 23 with Err e => Err e | Ok h =>
  match parseCronField f2 1 31 with Err e => Err e | Ok d =>
  match parseCronField f3 1 12 with Err e => Err e | Ok mo =>
  match parseCronField f4 0 6 with Err e => Err e | Ok w =>
    Ok (mkFields mi h d mo w)
  end end end end end.

Definition parseCronExpr (expr : string) : result (cronFields * Location) :=
  let parts := Fields (TrimSpace expr) in
  match parts with
  | f0 :: f1 :: f2 :: f3 :: f4 :: _ =>
      match cron_location parts with
      | Err e => Err e
      | Ok loc => result_map (λ f, (f, loc)) (parse_fields f0 f1 f2 f3 f4)
      end
  | _ => Err ("cron: expected at least 5 fields, got " +:+ Itoa (Z.of_nat (length parts)))
  end.

(** ** Matching *)

Definition contains (vals : option (list Z)) (x : Z) : bool :=
  match vals with None => true | Some vals => existsb (Z.eqb x) vals end.

Definition cronMatches (f : cronFields) (loc : Location) (t : Z) : bool :=
  let t := wall loc t in
  if negb (contains (minute f) (MinuteOf t)) then false
  else if negb (contains (hour f) (HourOf t)) then false
  else if negb (contains (month f) (Month t)) then false
  else
    let domConstrained := match dayOfMonth f with Some _ => true | None => false end in
    let dowConstrained := match dayOfWeek f with Some _ => true | None => false end in
    let domHit := negb domConstrained || contains (dayOfMonth f) (Day t) in
    let dowHit := negb dowConstrained || contains (dayOfWeek f) (Weekday t) in
    if domConstrained && dowConstrained then domHit || dowHit else domHit && dowHit.

(** [for !t.After(limit)], a minute at a time; the fuel covers the minutes left. *)
Fixpoint cron_search (fuel : nat) (f : cronFields) (loc : Location) (limit t : Z) : option Z :=
  match fuel with
  | O => None
  | S fuel =>
      if limit <? t then None
      else if cronMatches f loc t then Some t
      else cron_search fuel f loc limit (t + Minute)
  end.

Definition four_years : Z := 4 * 365 * 24 * Hour.
Definition search_fuel : nat := Z.to_nat (four_years / Minute + 1).

Definition nextCronTime (expr : string) (after : Z) : result Z :=
  match parseCronExpr expr with
  | Err e => Err e
  | Ok (fields, loc) =>
      let t := Truncate after Minute + Minute in
      let limit := after + four_years in
      match cron_search search_fuel fields loc limit t with
      | Some t => Ok t
      | None => Err ("cron: no match within four years of " +:+ format_rfc3339 after)
      end
  end.
End cron.
Arguments expand_fuel : simpl never.
Arguments search_fuel : simpl never.

(** ** What a schedule means *)

(** A wildcard matches everything. *)
Definition field_ok (vals : option (list Z)) (x : Z) : Prop :=
  match vals with None => True | Some vals => x ∈ vals end.

(** Minute, hour and month must match; of the two day fields, either one when
    both are given. *)
Definition cron_due (f : cronFields) (loc : Location) (t : Z) : Prop :=
  let w := wall loc t in
  field_ok (minute f) (MinuteOf w) ∧ field_ok (hour f) (HourOf w) ∧
  field_ok (month f) (Month w) ∧
  match dayOfMonth f, dayOfWeek f with
  | Some d, Some k => Day w ∈ d ∨ Weekday w ∈ k
  | d, k => field_ok d (Day w) ∧ field_ok k (Weekday w)
  end.

(** A whole minute at which the schedule is due. *)
Definition due_minute (f : cronFields) (loc : Location) (t : Z) : Prop :=
  t `mod` Minute = 0 ∧ cron_due f loc t.

(** [t] is the first whole minute at or after [after], and within four years of
    it, at which the schedule is due. *)
Definition first_due (f : cronFields) (loc : Location) (after t : Z) : Prop :=
  after ≤ t ≤ after + four_years ∧ due_minute f loc t ∧
  ∀ t', after ≤ t' < t → ¬ due_minute f loc t'.

(** The values a field stands for: its parts' ranges, taken at their steps. *)
Definition in_part (field : string) (minVal maxVal : Z) (p : string) (v : Z) : Prop :=
  ∃ start end_ step, parse_part field minVal maxVal p = Ok (start, end_, step) ∧
    start ≤ v ≤ end_ ∧ (v - start) `mod` step = 0.

(** A step so large that adding it to a value overflows [int]. *)
Definition sane_step (field : string) (minVal maxVal : Z) (p : string) : Prop :=
  ∀ start end_ step, parse_part field minVal maxVal p = Ok (start, end_, step) →
    step + maxVal < two63.

(** ** The search *)

Lemma contains_spec vals x : contains vals x = true ↔ field_ok vals x.
Proof.
  destruct vals as [vals|]; cbn; [|done]. rewrite existsb_exists. split.
  - intros (y & Hy & ->%Z.eqb_eq). by apply list_elem_of_In.
  - intros Hx. exists x. split; [by apply list_elem_of_In|apply Z.eqb_refl].
Qed.

Lemma cronMatches_spec f loc t : cronMatches f loc t = true ↔ cron_due f loc t.
Proof.
  unfold cronMatches, cron_due. cbv zeta. rewrite <- !contains_spec.
  destruct (contains (minute f) _); cbn [negb]; [|naive_solver].
  destruct (contains (hour f) _); cbn [negb]; [|naive_solver].
  destruct (contains (month f) _); cbn [negb]; [|naive_solver].
  destruct (dayOfMonth f) as [d|], (dayOfWeek f) as [k|]; cbn [negb orb andb];
    rewrite ?orb_true_iff, ?andb_true_iff, ?contains_spec; cbn; naive_solver.
Qed.

Lemma mod_add_minute t : t `mod` Minute = 0 → (t + Minute) `mod` Minute = 0.
Proof. intros Ht. rewrite Z.add_mod, Ht by done. reflexivity. Qed.

Lemma cron_search_spec fuel f loc limit t r :
  limit < t + Z.of_nat fuel * Minute → t `mod` Minute = 0 →
  cron_search fuel f loc limit t = r →
  match r with
  | Some u => t ≤ u ≤ limit ∧ u `mod` Minute = 0 ∧ cron_due f loc u ∧
      ∀ t', t ≤ t' < u → t' `mod` Minute = 0 → ¬ cron_due f loc t'
  | None => ∀ t', t ≤ t' ≤ limit → t' `mod` Minute = 0 → ¬ cron_due f loc t'
  end.
Proof.
  revert t. induction fuel as [|fuel IH]; intros t Hf Ht; cbn [cron_search].
  { intros <- t' Ht'. lia. }
  destruct (Z.ltb_spec limit t); [intros <- t' Ht'; lia|].
  destruct (cronMatches f loc t) eqn:Em; [intros <-|intros Hr].
  - apply cronMatches_spec in Em. split_all; [lia..|done|done|]. intros t' Ht'. lia.
  - apply IH in Hr; [|lia|].
    + assert (Hstep : ∀ t', t ≤ t' → t' `mod` Minute = 0 → t' = t ∨ t + Minute ≤ t').
      { intros t' Hle Hm. destruct (decide (t' = t)) as [|Hne]; [by left|right].
        apply Z.mod_divide in Ht as [a Ha]; [|done]. apply Z.mod_divide in Hm as [b Hb]; [|done].
        subst. assert (a < b) by nia. nia. }
      assert (Hnot : ¬ cron_due f loc t) by (rewrite <- cronMatches_spec; congruence).
      destruct r as [u|].
      * destruct Hr as (Hu & Hm & Hd & Hl). split_all; [unfold Minute, Second in *; lia..|done|done|].
        intros t' Ht' Hm'. destruct (Hstep t') as [->|Hle]; [lia|done|done|]. apply Hl; [lia|done].
      * intros t' Ht' Hm'. destruct (Hstep t') as [->|Hle]; [lia|done|done|]. apply Hr; [lia|done].
    + by apply mod_add_minute.
Qed.

Lemma next_minute after :
  let t := Truncate after Minute + Minute in
  t `mod` Minute = 0 ∧ after < t ≤ after + Minute ∧
  ∀ t', after < t' → t' `mod` Minute = 0 → t ≤ t'.
Proof.
  cbv zeta. destruct (Truncate_spec after Minute ltac:(done)) as [Hb Hm].
  assert (Hm' : Truncate after Minute `mod` Minute = 0).
  { replace (Truncate after Minute)
      with (Truncate after Minute - zero_time + (-1035593280) * Minute)
      by (unfold zero_time, Minute, Second; lia).
    by rewrite Z_mod_plus_full. }
  split_all; [|lia..|].
  - by apply mod_add_minute.
  - intros t' Hlt Ht'. apply Z.mod_divide in Ht' as [b Hb']; [|done].
    apply Z.mod_divide in Hm' as [a Ha]; [|done]. rewrite Ha in *. subst.
    assert (a < b) by nia. nia.
Qed.

Lemma search_fuel_val : Z.of_nat search_fuel = 2102401.
Proof. unfold search_fuel. rewrite Z2Nat.id; [reflexivity|]. by vm_compute. Qed.

Lemma nextCronTime_after LoadLocation expr after t :
  nextCronTime LoadLocation expr after = Ok t → after < t.
Proof.
  unfold nextCronTime. destruct (parseCronExpr LoadLocation expr) as [[f loc]|e]; [|done].
  destruct (next_minute after) as (Hm & Hlt & _).
  set (t0 := Truncate after Minute + Minute) in *. clearbody t0.
  destruct (cron_search search_fuel f loc (after + four_years) t0) as [u|] eqn:E; [|done].
  intros [= <-]. apply cron_search_spec in E as [? _]; [lia| |done].
  rewrite search_fuel_val. unfold four_years, Hour, Minute, Second in *. lia.
Qed.

(** The minutes strictly after the given instant, in order.  An instant that is
    itself a minute at which the schedule is due is passed over, which the comment
    on [nextCronTime] does not say. *)
Lemma nextCronTime_strict LoadLocation expr after f loc :
  parseCronExpr LoadLocation expr = Ok (f, loc) →
  match nextCronTime LoadLocation expr after with
  | Ok t => after < t ≤ after + four_years ∧ due_minute f loc t ∧
      ∀ t', after < t' < t → ¬ due_minute f loc t'
  | Err _ => ∀ t, after < t ≤ after + four_years → ¬ due_minute f loc t
  end.
Proof.
  intros Hp. unfold nextCronTime, due_minute. rewrite Hp.
  destruct (next_minute after) as (Hm & Hlt & Hleast).
  set (t0 := Truncate after Minute + Minute) in *. clearbody t0.
  pose proof (cron_search_spec search_fuel f loc (after + four_years) t0
    (cron_search search_fuel f loc (after + four_years) t0)) as Hs.
  specialize (Hs ltac:(rewrite search_fuel_val; unfold four_years, Hour, Minute, Second in *; lia)
    Hm eq_refl).
  destruct (cron_search _ _ _ _ _) as [t|].
  - destruct Hs as (Hb & Hmt & Hd & Hl). split; [lia|]. split; [done|].
    intros t' Ht' [Hm' Hd']. revert Hd'. apply Hl; [|done]. split; [apply Hleast; [lia|done]|lia].
  - intros t Hb (Hmt & Hd). apply (Hs t); [|done|done]. split; [apply Hleast; [lia|done]|lia].
Qed.

(** C29: the next run of a cron schedule is the first whole minute at or after the
    given instant, and within four years of it, at which the expression is due in
    its time zone; when there is none the search ends with an error.  The given
    instant is not itself a minute at which the expression is due. *)
Theorem next_cron_time_first LoadLocation expr after f loc :
  parseCronExpr LoadLocation expr = Ok (f, loc) → ¬ due_minute f loc after →
  match nextCronTime LoadLocation expr after with
  | Ok t => first_due f loc after t
  | Err _ => ∀ t, ¬ first_due f loc after t
  end.
Proof.
  intros Hp Hnow. pose proof (nextCronTime_strict _ _ after _ _ Hp) as Hs.
  assert (Hne : ∀ t, due_minute f loc t → after ≤ t → after < t).
  { intros t Ht Hle. destruct (decide (t = after)) as [->|]; [done|lia]. }
  destruct (nextCronTime _ _ _) as [t|].
  - destruct Hs as (Hb & Hd & Hl). split; [lia|]. split; [done|]. intros t' Ht' Hd'.
    apply (Hl t'); [|done]. split; [apply Hne; [done|lia]|lia].
  - intros t (Hb & Hd & _). apply (Hs t); [|done]. split; [apply Hne; [done|lia]|lia].
Qed.

(** ** Fields *)

Lemma expand_step fuel v end_ step seen out :
  expand (S fuel) v end_ step seen out =
  if v <=? end_ then
    if decide (v ∈ seen) then expand fuel (wrap64 (v + step)) end_ step seen out
    else expand fuel (wrap64 (v + step)) end_ step ({[v]} ∪ seen) (out ++ [v])
  else Some (seen, out).
Proof. done. Qed.

(** Without overflow the loop ends after at most [end_ - v + 2] turns. *)
Lemma expand_total_small fuel v end_ step seen out :
  0 ≤ v → 0 < step → step + end_ < two63 → Z.max 0 (end_ - v + 1) < Z.of_nat fuel →
  is_Some (expand fuel v end_ step seen out).
Proof.
  revert v seen out. induction fuel as [|fuel IH]; intros v seen out Hv Hs Hb Hf.
  { lia. }
  rewrite expand_step. destruct (Z.leb_spec v end_); [|eauto].
  rewrite wrap64_id by (unfold in_int64, two63 in *; lia).
  case_decide; apply IH; lia.
Qed.

(** With a step so close to [2^63] that the sum overflows, two turns of the loop
    take the value down by [2 * (2^63 - step)]. *)
Lemma expand_total_large fuel v end_ step seen out :
  - 60 ≤ v ≤ end_ → end_ ≤ 59 → two63 - 60 ≤ step < two63 → v + 63 < Z.of_nat fuel →
  is_Some (expand fuel v end_ step seen out).
Proof.
  remember (Z.to_nat (v + 60)) as k eqn:Hk. revert fuel v seen out Hk.
  induction k as [k IH] using lt_wf_ind; intros fuel v seen out Hk Hv He Hs Hf.
  destruct fuel as [|[|fuel]]; [lia..|]. rewrite expand_step.
  destruct (Z.leb_spec v end_); [|eauto].
  assert (Hstop : ∀ seen out, v + step < two63 →
    is_Some (expand (S fuel) (wrap64 (v + step)) end_ step seen out)).
  { intros seen' out' Hlt. rewrite wrap64_id by (unfold in_int64, two63 in *; lia).
    rewrite expand_step. destruct (Z.leb_spec (v + step) end_); [unfold two63 in *; lia|eauto]. }
  assert (Hgo : ∀ seen out, two63 ≤ v + step →
    is_Some (expand (S fuel) (wrap64 (v + step)) end_ step seen out)).
  { intros seen' out' Hge. rewrite expand_step.
    assert (Hw : wrap64 (v + step) = v + step - two64).
    { unfold wrap64. rewrite (Z.mod_eq _ two64) by done.
      replace ((v + step + two63) `div` two64) with 1; [lia|].
      apply Z.div_unique with (v + step + two63 - two64); unfold two63, two64 in *; lia. }
    rewrite Hw. destruct (Z.leb_spec (v + step - two64) end_);
      [|unfold two63, two64 in *; lia].
    assert (Hw2 : wrap64 (v + step - two64 + step) = v + 2 * step - two64)
      by (rewrite wrap64_id; unfold in_int64, two63, two64 in *; lia).
    rewrite Hw2.
    assert (is_Some (expand fuel (v + 2 * step - two64) end_ step seen' out')).
    { eapply IH; [|reflexivity|..]; unfold two63, two64 in *; lia. }
    assert (is_Some (expand fuel (v + 2 * step - two64) end_ step
              ({[v + step - two64]} ∪ seen') (out' ++ [v + step - two64]))).
    { eapply IH; [|reflexivity|..]; unfold two63, two64 in *; lia. }
    by case_decide. }
  destruct (Z.lt_ge_cases (v + step) two63); case_decide; auto.
Qed.

Lemma expand_total v end_ step seen out :
  0 ≤ v ≤ end_ → end_ ≤ 59 → 0 < step < two63 →
  is_Some (expand expand_fuel v end_ step seen out).
Proof.
  intros Hv He Hs. destruct (Z.lt_ge_cases (step + end_) two63).
  - apply expand_total_small; unfold expand_fuel; lia.
  - apply expand_total_large; unfold expand_fuel; lia.
Qed.

(** What one part adds: the values of its progression, each once. *)
Definition expanded (start end_ step : Z) (out out' : list Z) : Prop :=
  NoDup out' ∧ ∀ v, v ∈ out' ↔ v ∈ out ∨ (start ≤ v ≤ end_ ∧ (v - start) `mod` step = 0).

Lemma progression_step v x end_ step : 0 < step →
  (v ≤ x ≤ end_ ∧ (x - v) `mod` step = 0) ↔
  (x = v ∧ v ≤ end_) ∨ (v + step ≤ x ≤ end_ ∧ (x - (v + step)) `mod` step = 0).
Proof.
  intros Hs.
  assert (Hm : (x - (v + step)) `mod` step = (x - v) `mod` step).
  { replace (x - (v + step)) with ((x - v) + (-1) * step) by lia. apply Z_mod_plus_full. }
  rewrite Hm. split; [|intros [[-> ?]|[? ?]]; [rewrite Z.sub_diag; done|lia]].
  intros [Hr H0]. destruct (decide (x = v)) as [->|]; [left; lia|right]. split; [|done].
  apply Z.mod_divide in H0 as [k Hk]; [|lia]. assert (0 < k) by nia. nia.
Qed.

Lemma expand_spec fuel v end_ step seen out seen' out' :
  0 ≤ v → 0 < step → step + end_ < two63 → NoDup out → (∀ x, x ∈ seen ↔ x ∈ out) →
  expand fuel v end_ step seen out = Some (seen', out') →
  (∀ x, x ∈ seen' ↔ x ∈ out') ∧ expanded v end_ step out out'.
Proof.
  revert v seen out. induction fuel as [|fuel IH]; intros v seen out Hv Hs Hb Hnd Hseen; [done|].
  rewrite expand_step. destruct (Z.leb_spec v end_) as [Hle|Hgt].
  - rewrite wrap64_id by (unfold in_int64, two63 in *; lia).
    case_decide as Hin; intros He.
    + apply IH in He as (H1 & H2 & H3); [|lia|done..].
      split; [done|]. split; [done|]. intros x. rewrite H3, (progression_step v) by done.
      assert (v ∈ out) by by apply Hseen. naive_solver.
    + apply IH in He as (H1 & H2 & H3); [|lia|done|done| |].
      * split; [done|]. split; [done|]. intros x. rewrite H3, (progression_step v) by done.
        rewrite elem_of_app, list_elem_of_singleton. naive_solver.
      * apply NoDup_snoc; [done|]. by rewrite <- Hseen.
      * intros x. rewrite elem_of_union, elem_of_singleton, Hseen, elem_of_app,
          list_elem_of_singleton. tauto.
  - intros [= <- <-]. split; [done|]. split; [done|]. intros x. split; [naive_solver|].
    intros [?|[? _]]; [done|lia].
Qed.

Lemma parse_part_bounds field minVal maxVal p start end_ step :
  parse_part field minVal maxVal p = Ok (start, end_, step) →
  minVal ≤ start ≤ end_ ∧ end_ ≤ maxVal ∧ 0 < step < two63.
Proof.
  unfold parse_part. destruct (parse_step field p) as [[q st]|e] eqn:Es; [|done].
  destruct (parse_range field q minVal maxVal) as [[a b]|e]; [|done].
  destruct ((a <? minVal) || (maxVal <? b) || (b <? a)) eqn:Eb; [done|].
  intros [= -> -> ->]. apply orb_false_iff in Eb as [[?%Z.ltb_ge ?%Z.ltb_ge]%orb_false_iff ?%Z.ltb_ge].
  split_all; [lia..| |].
  - revert Es. unfold parse_step. destruct (Cut p "/") as [[x y]|]; [|intros [= <- <-]; lia].
    destruct (Atoi y) as [n|]; [|done]. destruct (Z.leb_spec n 0); [done|]. intros [= <- <-]. lia.
  - revert Es. unfold parse_step. destruct (Cut p "/") as [[x y]|]; [|by intros [= <- <-]].
    destruct (Atoi y) as [n|] eqn:Ea; [|done]. destruct (n <=? 0); [done|]. intros [= <- <-].
    by apply Atoi_range in Ea as [_ ?].
Qed.

Lemma parse_parts_spec field minVal maxVal parts seen out out' :
  0 ≤ minVal → Forall (sane_step field minVal maxVal) parts →
  NoDup out → (∀ x, x ∈ seen ↔ x ∈ out) →
  parse_parts field minVal maxVal parts seen out = Ok out' →
  NoDup out' ∧ ∀ v, v ∈ out' ↔ v ∈ out ∨ ∃ p, p ∈ parts ∧ in_part field minVal maxVal p v.
Proof.
  intros Hmin. revert seen out. induction parts as [|p parts IH]; intros seen out Hsane Hnd Hseen.
  { intros [= <-]. split; [done|]. intros v. split; [by left|]. intros [?|(p & Hp & _)]; [done|].
    by apply not_elem_of_nil in Hp. }
  cbn [parse_parts]. inversion Hsane as [|? ? Hsp Hsps]; subst.
  destruct (parse_part field minVal maxVal p) as [[[a b] st]|e] eqn:Ep; [|done].
  destruct (parse_part_bounds _ _ _ _ _ _ _ Ep) as (Ha & Hb & Hst). apply Hsp in Ep as Hs'.
  destruct (expand _ _ _ _ _ _) as [[seen1 out1]|] eqn:Ee; [|done].
  apply expand_spec in Ee as (H1 & H2 & H3); [|lia..|done|done].
  intros Hrec. apply IH in Hrec as [Hn Hin]; [|done..]. split; [done|].
  intros v. rewrite Hin, H3. setoid_rewrite elem_of_cons. unfold in_part. split.
  - intros [[?|?]|(q & ? & ?)]; [by left|right; exists p; split; [by left|eauto]|right; eauto].
  - intros [?|(q & [->|?] & Hq)]; [eauto| |eauto]. left. right.
    destruct Hq as (a' & b' & s' & Hq & ?). rewrite Ep in Hq. by simplify_eq.
Qed.

(** The parser of a field only fails on a part that does not parse. *)
Lemma parse_parts_err field minVal maxVal parts seen out e :
  0 ≤ minVal → maxVal ≤ 59 →
  parse_parts field minVal maxVal parts seen out = Err e →
  ∃ p, p ∈ parts ∧ parse_part field minVal maxVal p = Err e.
Proof.
  intros Hmin Hmax. revert seen out. induction parts as [|p parts IH]; intros seen out; [done|].
  cbn [parse_parts]. destruct (parse_part field minVal maxVal p) as [[[a b] st]|e'] eqn:Ep.
  - destruct (parse_part_bounds _ _ _ _ _ _ _ Ep) as (Ha & Hb & Hst).
    destruct (expand_total a b st seen out) as [[seen1 out1] Ee]; [lia..|]. rewrite Ee.
    intros (q & Hq & He)%IH. exists q. split; [by right|done].
  - intros [= ->]. exists p. split; [left|done].
Qed.

(** A field of a cron expression other than the wildcard stands for exactly
    the values of its comma-separated parts - each the range of the part at its
    step - listed once each and all within the bounds of the field; the parser
    ends on every field, and fails only when some part is malformed or out of
    bounds.  (Steps within [maxVal] of [2^63] are excluded: there the sum of a
    value and the step overflows.) *)
Theorem cron_field_values field minVal maxVal :
  0 ≤ minVal → maxVal ≤ 59 → field ≠ "*" →
  Forall (sane_step field minVal maxVal) (SplitByte ","%char field) →
  match parseCronField field minVal maxVal with
  | Ok vals =>
      ∃ l, vals = Some l ∧ NoDup l ∧ (∀ v, v ∈ l → minVal ≤ v ≤ maxVal) ∧
        ∀ v, v ∈ l ↔ ∃ p, p ∈ SplitByte ","%char field ∧ in_part field minVal maxVal p v
  | Err e => ∃ p, p ∈ SplitByte ","%char field ∧ parse_part field minVal maxVal p = Err e
  end.
Proof.
  intros Hmin Hmax Hne Hsane. unfold parseCronField. rewrite decide_False by done.
  destruct (parse_parts _ _ _ _ _ _) as [l|e] eqn:Ep; [|by apply parse_parts_err in Ep].
  apply parse_parts_spec in Ep as [Hnd Hin]; [|done|done|apply NoDup_nil_2|set_solver].
  assert (Hiff : ∀ v, v ∈ l ↔ ∃ p, p ∈ SplitByte ","%char field ∧ in_part field minVal maxVal p v).
  { intros v. rewrite Hin. split; [|by right]. by intros [?%not_elem_of_nil|?]. }
  exists l. split_all; [done|done| |done].
  intros v (p & _ & a & b & st & Hp & Hv & _)%Hiff.
  destruct (parse_part_bounds _ _ _ _ _ _ _ Hp) as (? & ? & _). lia.
Qed.

(** ** Witnesses *)

(** A zone eight hours behind UTC, the only one known. *)
Definition sample_zone (name : string) : result Location :=
  if decide (name = "Etc/GMT+8") then Ok (mkLoc name (λ _, -8 * 3600)) else Err "unknown time zone".

(** Weekdays at nine in the morning there, asked at midnight UTC on Saturday
    6 January 2024: the answer is Monday 17:00 UTC. *)
Lemma next_cron_time_first_witness :
  nextCronTime sample_zone "0 9 * * 1-5 Etc/GMT+8" (1704499200 * Second) = Ok (1704733200 * Second) ∧
  ∃ f loc, first_due f loc (1704499200 * Second) (1704733200 * Second).
Proof.
  assert (Hv : nextCronTime sample_zone "0 9 * * 1-5 Etc/GMT+8" (1704499200 * Second)
               = Ok (1704733200 * Second)) by (vm_compute; reflexivity).
  split; [exact Hv|].
  destruct (parseCronExpr sample_zone "0 9 * * 1-5 Etc/GMT+8") as [[f loc]|e] eqn:Ep;
    [|exfalso; vm_compute in Ep; discriminate].
  exists f, loc.
  assert (Hnow : ¬ due_minute f loc (1704499200 * Second)).
  { vm_compute in Ep. injection Ep as <- <-. intros [_ Hd%cronMatches_spec]. vm_compute in Hd. discriminate. }
  pose proof (next_cron_time_first sample_zone _ (1704499200 * Second) _ _ Ep Hnow) as H.
  rewrite Hv in H. exact H.
Defined.

Lemma cron_field_values_witness :
  parseCronField "0-30/10,5" 0 59 = Ok (Some [0; 10; 20; 30; 5]) ∧
  ∃ l, NoDup l ∧ ∀ v, v ∈ l ↔
    ∃ p, p ∈ SplitByte ","%char "0-30/10,5" ∧ in_part "0-30/10,5" 0 59 p v.
Proof.
  assert (Hv : parseCronField "0-30/10,5" 0 59 = Ok (Some [0; 10; 20; 30; 5])) by (vm_compute; reflexivity).
  split; [exact Hv|].
  pose proof (cron_field_values "0-30/10,5" 0 59 ltac:(lia) ltac:(lia) ltac:(discriminate)) as H.
  rewrite Hv in H.
  destruct H as (l & _ & Hnd & _ & Hin); [|exists l; split; [exact Hnd|exact Hin]].
  repeat constructor; intros start end_ step Hp; vm_compute in Hp;
    injection Hp as <- <- <-; unfold two63; lia.
Defined.

(** An overflowing step: the values 3 and 1 are outside the range asked for. *)
Example cron_step_overflow :
  (λ r, match r with Ok (Some l) => filter (λ v, 0 ≤ v) l | _ => [] end)
    (parseCronField "5-9/9223372036854775807" 0 59) = [5; 3; 1].
Proof. vm_compute. reflexivity. Qed.
