(* ===== verification/Task.v ===== *)
(** * The task scheduler ([internal/task/task.go])

    Tasks are objects on the heap, shared between the scheduler's map and a tick
    in progress: [tick] collects pointers under the lock and then runs the tasks
    with the lock released.  The statement of a task goes through [execFn], which
    is given the whole state, so it may itself change the scheduler.  Two
    iterations over the map of tasks may see different orders: the state counts
    them. *)

From S2P Require Import Prelude GoStrings GoTime Cron.
From Stdlib Require Import Ascii.
#[local] Open Scope Z_scope.

(** ** Data *)

Definition TaskState : Type := string.
Definition TaskStarted : TaskState := "started".
Definition TaskSuspended : TaskState := "suspended".

(** [stopCh] tells whether the channel has been closed. *)
Record Task := mkTask {
  Name : string;
  DatabaseName : string;
  SchemaName : string;
  SQLText : string;
  Schedule : string;
  Warehouse : string;
  State : TaskState;
  Predecessor : string;
  When : string;
  CreatedAt : Z;
  LastRunAt : option Z;
  NextRunAt : option Z;
  stopCh : bool;
}.

Record TaskInfo := mkInfo {
  i_Name : string;
  i_DatabaseName : string;
  i_SchemaName : string;
  i_Schedule : string;
  i_State : TaskState;
  i_Warehouse : string;
  i_Predecessor : string;
  i_CreatedAt : Z;
  i_LastRunAt : option Z;
  i_NextRunAt : option Z;
}.

Definition set_State (st : TaskState) (t : Task) : Task :=
  mkTask (Name t) (DatabaseName t) (SchemaName t) (SQLText t) (Schedule t) (Warehouse t) st
    (Predecessor t) (When t) (CreatedAt t) (LastRunAt t) (NextRunAt t) (stopCh t).
Definition set_stopCh (c : bool) (t : Task) : Task :=
  mkTask (Name t) (DatabaseName t) (SchemaName t) (SQLText t) (Schedule t) (Warehouse t) (State t)
    (Predecessor t) (When t) (CreatedAt t) (LastRunAt t) (NextRunAt t) c.
Definition set_NextRunAt (n : option Z) (t : Task) : Task :=
  mkTask (Name t) (DatabaseName t) (SchemaName t) (SQLText t) (Schedule t) (Warehouse t) (State t)
    (Predecessor t) (When t) (CreatedAt t) (LastRunAt t) n (stopCh t).
Definition set_LastRunAt (l : option Z) (t : Task) : Task :=
  mkTask (Name t) (DatabaseName t) (SchemaName t) (SQLText t) (Schedule t) (Warehouse t) (State t)
    (Predecessor t) (When t) (CreatedAt t) l (NextRunAt t) (stopCh t).

(** ** Schedules *)

Record ScheduleInterval := mkInterval {
  Minutes : Z;
  Cron : string;
  Timezone : string;
}.

(** [(?i)^(\d+)\s+MINUTES?$]: the digits. *)
Definition minuteRe (s : string) : option string :=
  let ds := take_while is_digit s in
  let rest := trim_left is_digit s in
  let unit_ := trim_left re_space rest in
  if bool_decide (ds ≠ "") && bool_decide (take_while re_space rest ≠ "")
     && (EqualFold unit_ "MINUTE" || EqualFold unit_ "MINUTES")
  then Some ds else None.

(** [\s+] *)
Definition skip_spaces (s : string) : option string :=
  if decide (take_while re_space s = "") then None else Some (trim_left re_space s).

(** [(?i)^USING\s+CRON\s+(.+)$]: the rest, on one line.  (The subject is trimmed,
    so the rest is not empty when there is white space before it.) *)
Definition usingCronRe (s : string) : option string :=
  s ← TrimPrefixFold s "USING"; s ← skip_spaces s;
  s ← TrimPrefixFold s "CRON"; s ← skip_spaces s;
  if bool_decide (s = "") || bool_decide ("010"%char ∈ bytes s) then None else Some s.

Section schedule.
Context (LoadLocation : string → result Location).

Definition ParseSchedule (schedule : string) : result ScheduleInterval :=
  let schedule := TrimSpace schedule in
  match minuteRe schedule with
  | Some digits =>
      match Atoi digits with
      | Some n =>
          if n <=? 0 then Err ("invalid minute interval: " +:+ Quote schedule)
          else Ok (mkInterval n "" "")
      | None => Err ("invalid minute interval: " +:+ Quote schedule)
      end
  | None =>
      match usingCronRe schedule with
      | Some m =>
          let cronPart := TrimSpace m in
          if decide (cronPart = "") then Err "empty cron expression"
          else match wrap_err "invalid cron schedule" (parseCronExpr LoadLocation cronPart) with
               | Err e => Err e
               | Ok (_, loc) => Ok (mkInterval 0 cronPart (loc_name loc))
               end
      | None => Err ("unrecognized schedule format: " +:+ Quote schedule)
      end
  end.

(** [time.Duration(si.Minutes) * time.Minute] wraps around. *)
Definition nextRunTime (schedule : string) (now : Z) : Z :=
  match ParseSchedule schedule with
  | Err _ => now + 1 * Minute
  | Ok si =>
      if 0 <? Minutes si then now + wrap64 (Minutes si * Minute)
      else if decide (Cron si = "") then now + 1 * Minute
      else match nextCronTime LoadLocation (Cron si) now with
           | Err _ => now + 1 * Minute
           | Ok next => next
           end
  end.
End schedule.

(** ** The WHEN condition *)

(** One attempt to match [SYSTEM\$STREAM_HAS_DATA\(\s*'([^']+)'\s*\)] here. *)
Definition stream_cond_here (s : string) : option string :=
  s ← TrimPrefixFold s "SYSTEM$STREAM_HAS_DATA(";
  s ← TrimPrefixOpt (trim_left re_space s) "'";
  let name := take_while (λ c, negb (bool_decide (c = sq))) s in
  s ← TrimPrefixOpt (trim_left (λ c, negb (bool_decide (c = sq))) s) "'";
  s ← TrimPrefixOpt (trim_left re_space s) ")";
  if decide (name = "") then None else Some name.

(** The leftmost match. *)
Fixpoint stream_cond (s : string) : option string :=
  match stream_cond_here s with
  | Some name => Some name
  | None => match s with "" => None | String _ s => stream_cond s end
  end.

(** ** The scheduler *)

Section scheduler.
Context {W : Type}.

(** [loops] are the loops started, with whether their context is cancelled;
    [cancel] points to the latest. *)
Record Scheduler := mkScheduler {
  heap : list Task;
  tasks : gmap string nat;
  streamHasDataFn : option (string → string → string → W → bool);
  cancel : option nat;
  loops : list bool;
}.

(** The scheduler, the outside world, and the number of map iterations so far. *)
Record St := mkSt {
  sch : Scheduler;
  world : W;
  moment : nat;
}.

Definition NewScheduler : Scheduler := mkScheduler [] ∅ None None [].

Definition with_tasks (h : list Task) (m : gmap string nat) (s : Scheduler) : Scheduler :=
  mkScheduler h m (streamHasDataFn s) (cancel s) (loops s).

Definition SetStreamHasDataFn (fn : option (string → string → string → W → bool))
    : GoM Scheduler unit :=
  modify (λ s, mkScheduler (heap s) (tasks s) fn (cancel s) (loops s)).

Definition taskKey (db schema name : string) : string := ToLower (dotted db schema name).

Definition CreateTask (LoadLocation : string → result Location) (now : Z)
    (db schema name sql schedule warehouse predecessor whenCond : string)
    : GoM Scheduler unit :=
  let key := taskKey db schema name in
  let! s := get in
  match tasks s !! key with
  | Some _ => fail ("task: " +:+ Quote name +:+ " already exists")
  | None =>
      (if bool_decide (schedule ≠ "") && bool_decide (predecessor = "")
       then match ParseSchedule LoadLocation schedule with
            | Err e => fail ("task: invalid schedule: " +:+ e)
            | Ok _ => ret tt
            end
       else ret tt) ;;;
      put (with_tasks
             (heap s ++ [mkTask name db schema sql schedule warehouse TaskSuspended predecessor
                           whenCond now None None false])
             (<[key := length (heap s)]> (tasks s)) s)
  end.

(** [close(ch)] panics on a closed channel. *)
Definition close_stopCh (p : nat) : GoM Scheduler unit :=
  let! s := get in
  match heap s !! p with
  | None => fail "nil pointer dereference"
  | Some t =>
      if stopCh t then fail "close of closed channel"
      else put (with_tasks (<[p := set_stopCh true t]> (heap s)) (tasks s) s)
  end.

Definition DropTask (db schema name : string) : GoM Scheduler unit :=
  let key := taskKey db schema name in
  let! s := get in
  match tasks s !! key with
  | None => fail ("task: " +:+ Quote name +:+ " does not exist")
  | Some p =>
      match heap s !! p with
      | None => fail "nil pointer dereference"
      | Some t =>
          (if decide (State t = TaskStarted) then close_stopCh p else ret tt) ;;;
          modify (λ s, with_tasks (heap s) (delete key (tasks s)) s)
      end
  end.

Definition AlterTask (db schema name : string) (state : TaskState) : GoM Scheduler unit :=
  let! s := get in
  match tasks s !! taskKey db schema name with
  | None => fail ("task: " +:+ Quote name +:+ " does not exist")
  | Some p => put (with_tasks (alter (set_State state) p (heap s)) (tasks s) s)
  end.

Definition GetTask (s : Scheduler) (db schema name : string) : result nat :=
  match tasks s !! taskKey db schema name with
  | None => Err ("task: " +:+ Quote name +:+ " does not exist")
  | Some p => Ok p
  end.

Definition info (t : Task) : TaskInfo :=
  mkInfo (Name t) (DatabaseName t) (SchemaName t) (Schedule t) (State t) (Warehouse t)
    (Predecessor t) (CreatedAt t) (LastRunAt t) (NextRunAt t).

Definition in_schema (db schema : string) (t : Task) : bool :=
  bool_decide (ToLower (DatabaseName t) = ToLower db)
  && bool_decide (ToLower (SchemaName t) = ToLower schema).

(** The tasks that an iteration over the map visits. *)
Definition range_tasks `{MapRange} (k : nat) (s : Scheduler) : list (nat * Task) :=
  '(_, p) ← map_range k (tasks s);
  t ← option_list (heap s !! p);
  [(p, t)].

Definition ShowTasks `{MapRange} (s : Scheduler) (db schema : string) : list TaskInfo :=
  (λ pt, info pt.2) <$> filter (λ pt, in_schema db schema pt.2 = true) (range_tasks 0 s).

(** Closing a channel that may be closed already, then suspending the task. *)
Definition reset_task (t : Task) : Task :=
  set_State TaskSuspended
    (if decide (State t = TaskStarted) then set_stopCh true t else t).

Definition Reset `{MapRange} : GoM Scheduler unit :=
  modify (λ s,
    with_tasks (foldl (λ h p, alter reset_task p h) (heap s) (map_range 0 (tasks s)).*2) ∅ s).

(** A new context and a loop that runs until it is cancelled. *)
Definition Start : GoM Scheduler unit :=
  modify (λ s, mkScheduler (heap s) (tasks s) (streamHasDataFn s)
                 (Some (length (loops s))) (loops s ++ [false])).

(** [Stop] then waits for every loop started. *)
Definition Stop : GoM Scheduler unit :=
  modify (λ s, mkScheduler (heap s) (tasks s) (streamHasDataFn s) (cancel s)
                 (match cancel s with Some i => <[i := true]> (loops s) | None => loops s end)).

(** ** Running tasks *)

Definition deref (p : nat) : GoM St Task :=
  let! st := get in
  match heap (sch st) !! p with
  | Some t => ret t
  | None => fail "nil pointer dereference"
  end.

(** Writing through a pointer. *)
Definition update_task (p : nat) (f : Task → Task) : GoM St unit :=
  modify (λ st, mkSt (with_tasks (alter f p (heap (sch st))) (tasks (sch st)) (sch st))
                  (world st) (moment st)).

(** Pointers to the tasks that satisfy a predicate, in the order of an iteration
    over the map. *)
Definition collect_tasks `{MapRange} (sel : Task → bool) : GoM St (list nat) :=
  let! st := get in
  put (mkSt (sch st) (world st) (S (moment st))) ;;;
  ret (filter (λ pt, sel pt.2 = true) (range_tasks (moment st) (sch st))).*1.

Definition evaluateWhen (p : nat) : GoM St bool :=
  let! t := deref p in
  if decide (When t = "") then ret true
  else match stream_cond (When t) with
       | Some streamName =>
           let! st := get in
           match streamHasDataFn (sch st) with
           | Some fn => ret (fn (DatabaseName t) (SchemaName t) streamName (world st))
           | None => ret false
           end
       | None => ret true
       end.

Section run.
Context `{MapRange} (LoadLocation : string → result Location).
Context (execFn : string → GoM St unit).

(** The error of a statement is only logged. *)
Definition runTask (p : nat) (now : Z) : GoM St unit :=
  let! t := deref p in
  let! _ := catch (execFn (SQLText t)) in
  update_task p (λ t,
    let t := set_LastRunAt (Some now) t in
    if decide (Schedule t = "") then t
    else set_NextRunAt (Some (nextRunTime LoadLocation (Schedule t) now)) t).

Definition is_successor (db schema predecessorName : string) (t : Task) : bool :=
  bool_decide (State t = TaskStarted) && EqualFold (DatabaseName t) db
  && EqualFold (SchemaName t) schema
  && bool_decide (ToLower (Predecessor t) = ToLower predecessorName).

(** The fuel bounds the depth of the recursion. *)
Fixpoint runSuccessors (fuel : nat) (db schema predecessorName : string) (now : Z)
    : GoM St unit :=
  match fuel with
  | O => fail "stack overflow"
  | S fuel =>
      let! successors := collect_tasks (is_successor db schema predecessorName) in
      for_each (λ p,
        let! ok := evaluateWhen p in
        if negb ok then ret tt
        else
          runTask p now ;;;
          let! t := deref p in
          runSuccessors fuel db schema (Name t) now) successors
  end.

(** A chain of tasks visits each task of the map at most once. *)
Definition dag_fuel (s : Scheduler) : nat := S (size (tasks s)).

Definition executeDAG (root : nat) (now : Z) : GoM St unit :=
  let! ok := evaluateWhen root in
  if negb ok then
    update_task root (λ t, set_NextRunAt (Some (nextRunTime LoadLocation (Schedule t) now)) t)
  else
    runTask root now ;;;
    let! t := deref root in
    let! st := get in
    runSuccessors (dag_fuel (sch st)) (DatabaseName t) (SchemaName t) (Name t) now.

Definition is_root (t : Task) : bool :=
  bool_decide (State t = TaskStarted) && bool_decide (Schedule t ≠ "")
  && bool_decide (Predecessor t = "").

Definition tick_root (now : Z) (p : nat) : GoM St unit :=
  let! t := deref p in
  match NextRunAt t with
  | None => update_task p (λ t, set_NextRunAt (Some (nextRunTime LoadLocation (Schedule t) now)) t)
  | Some next => if now <? next then ret tt else executeDAG p now
  end.

Definition tick (now : Z) : GoM St unit :=
  let! roots := collect_tasks is_root in
  for_each (tick_root now) roots.
End run.

(** ** The order of dependencies *)

Definition Graph : Type := gmap string (list string) * gmap string Z.

(** One task of the loop that builds the adjacency lists and the in-degrees. *)
Definition add_dependency (g : Graph) (t : Task) : Graph :=
  let nameLower := ToLower (Name t) in
  let inDegree := if decide (is_Some (g.2 !! nameLower)) then g.2 else <[nameLower := 0]> g.2 in
  if decide (Predecessor t = "") then (g.1, inDegree)
  else
    let predLower := ToLower (Predecessor t) in
    let adj := <[predLower := default [] (g.1 !! predLower) ++ [nameLower]]> g.1 in
    let inDegree := alter (λ d, d + 1) nameLower inDegree in
    let inDegree :=
      if decide (is_Some (inDegree !! predLower)) then inDegree else <[predLower := 0]> inDegree in
    (adj, inDegree).

Definition build_graph `{MapRange} (s : Scheduler) (db schema : string) : Graph :=
  foldl (λ g pt, if in_schema db schema pt.2 then add_dependency g pt.2 else g)
    (∅, ∅) (range_tasks 0 s).

(** [inDegree[succ]--; if inDegree[succ] == 0 { queue = append(queue, succ) }] *)
Definition relax (qd : list string * gmap string Z) (succ : string)
    : list string * gmap string Z :=
  let d := default 0 (qd.2 !! succ) - 1 in
  (if decide (d = 0) then qd.1 ++ [succ] else qd.1, <[succ := d]> qd.2).

(** Kahn's algorithm; [None] would be a queue that never empties. *)
Fixpoint kahn (fuel : nat) (adj : gmap string (list string)) (queue : list string)
    (inDegree : gmap string Z) (order : list string) : option (list string) :=
  match queue with
  | [] => Some order
  | curr :: queue =>
      match fuel with
      | O => None
      | S fuel =>
          let qd := foldl relax (queue, inDegree) (default [] (adj !! curr)) in
          kahn fuel adj qd.1 qd.2 (order ++ [curr])
      end
  end.

Definition GetDependencyOrder `{MapRange} (s : Scheduler) (db schema : string)
    : option (list string) :=
  let g := build_graph s db schema in
  let queue := (filter (λ nd, nd.2 = 0) (map_range 1 g.2)).*1 in
  kahn (size g.2) g.1 queue g.2 [].
End scheduler.
Arguments Scheduler : clear implicits.
Arguments St : clear implicits.

(** ** Well-formed schedulers *)

(** Every entry of the map points to a task of that name whose channel is open. *)
Definition wf {W} (s : Scheduler W) : Prop :=
  ∀ key p, tasks s !! key = Some p →
    ∃ t, heap s !! p = Some t ∧ key = taskKey (DatabaseName t) (SchemaName t) (Name t) ∧
         stopCh t = false.

(** [p] is registered and [t] is its content. *)
Definition live {W} (s : Scheduler W) (p : nat) (t : Task) : Prop :=
  (∃ key, tasks s !! key = Some p) ∧ heap s !! p = Some t.

(** ** What a tick promises *)

Section spec.
Context {W : Type}.
Implicit Type s : Scheduler W.

(** [p] is a started task that comes after [q]. *)
Definition succ s (q p : nat) : Prop :=
  ∃ t u, live s q t ∧ live s p u ∧
    is_successor (DatabaseName t) (SchemaName t) (Name t) u = true.

(** The WHEN condition of [p], if any, is not one on a stream. *)
Definition always s (p : nat) : Prop :=
  ∃ t, heap s !! p = Some t ∧ (When t = "" ∨ stream_cond (When t) = None).

(** A started root task whose time has come. *)
Definition due_root s (now : Z) (p : nat) : Prop :=
  ∃ t next, live s p t ∧ is_root t = true ∧ NextRunAt t = Some next ∧ next ≤ now.

(** The tasks [L] run from the tasks [cs]: each once, each one of [cs] or after
    one that ran before it, and no unconditional one is left out. *)
Definition dag_run s (cs : nat → Prop) (L : list nat) : Prop :=
  NoDup L ∧
  (∀ i p, L !! i = Some p → cs p ∨ ∃ j q, (j < i)%nat ∧ L !! j = Some q ∧ succ s q p) ∧
  (∀ p, cs p → always s p → p ∈ L) ∧
  (∀ q p, q ∈ L → succ s q p → always s p → p ∈ L).

Definition sql_of s (p : nat) : string :=
  match heap s !! p with Some t => SQLText t | None => "" end.

(** A task without its run times. *)
Definition strip (t : Task) : Task := set_LastRunAt None (set_NextRunAt None t).

(** The statements of tasks that leave the scheduler alone. *)
Definition quiet (exec : string → W → result unit * W) (sql : string) : GoM (St W) unit :=
  λ st, let '(r, w) := exec sql (world st) in (r, mkSt (sch st) w (moment st)).

(** The tasks [L] have run, in that order, and at most the tasks [T] changed. *)
Record ran (exec : string → W → result unit * W) (now : Z) (st : St W) (L T : list nat)
    (st' : St W) : Prop := mkRan {
  ran_tasks : tasks (sch st') = tasks (sch st);
  ran_fn : streamHasDataFn (sch st') = streamHasDataFn (sch st);
  ran_len : length (heap (sch st')) = length (heap (sch st));
  ran_task : ∀ p t, heap (sch st) !! p = Some t → ∃ t', heap (sch st') !! p = Some t' ∧
    strip t' = strip t ∧ LastRunAt t' = (if decide (p ∈ L) then Some now else LastRunAt t) ∧
    (p ∉ T → t' = t);
  ran_world : world st' = foldl (λ w p, (exec (sql_of (sch st) p) w).2) (world st) L;
}.
End spec.

(** ** Ancestors

    The one task that a task comes after, if it is registered. *)

Section ancestors.
Context {W : Type} (s : Scheduler W) (Hwf : wf s).

Definition parent (p : nat) : option nat :=
  match heap s !! p with
  | Some t => if decide (Predecessor t = "") then None
              else tasks s !! taskKey (DatabaseName t) (SchemaName t) (Predecessor t)
  | None => None
  end.

Fixpoint anc (k : nat) (p : nat) : option nat :=
  match k with O => Some p | S k => parent p ≫= anc k end.

(** Every registered task has a name. *)
Definition named : Prop := ∀ p t, live s p t → Name t ≠ "".

(** [q] is [d] steps below a task without predecessor. *)
Definition rooted (d : nat) (q : nat) : Prop := ∃ r, anc d q = Some r ∧ parent r = None.

Lemma live_key p t : live s p t →
  tasks s !! taskKey (DatabaseName t) (SchemaName t) (Name t) = Some p.
Proof.
  intros [[key Hk] Ht]. destruct (Hwf _ _ Hk) as (t' & Ht' & -> & _). by simplify_eq.
Qed.

Lemma anc_add j k p : anc (j + k) p = anc j p ≫= anc k.
Proof.
  revert p. induction j as [|j IH]; intros p; [done|]. cbn. destruct (parent p); cbn; [apply IH|done].
Qed.

Lemma is_successor_fold db schema db' schema' name t :
  EqualFold db db' = true → EqualFold schema schema' = true →
  is_successor db schema name t = is_successor db' schema' name t.
Proof.
  unfold is_successor, EqualFold. rewrite !bool_decide_eq_true. by intros -> ->.
Qed.

Lemma is_successor_spec db schema name t : is_successor db schema name t = true ↔
  State t = TaskStarted ∧ ToLower (DatabaseName t) = ToLower db ∧
  ToLower (SchemaName t) = ToLower schema ∧ ToLower (Predecessor t) = ToLower name.
Proof.
  unfold is_successor, EqualFold. rewrite !andb_true_iff, !bool_decide_eq_true. tauto.
Qed.

Lemma succ_parent q p : named → succ s q p → parent p = Some q.
Proof.
  intros Hn (t & u & Hq & Hp & (_ & Hd & Hs & Hpr)%is_successor_spec).
  unfold parent. destruct Hp as [_ Hp]. rewrite Hp. rewrite decide_False.
  - rewrite <- (live_key q t Hq). unfold taskKey. rewrite !ToLower_dotted. by rewrite Hd, Hs, Hpr.
  - intros E. rewrite E in Hpr. apply (Hn q t Hq). destruct (Name t); [done|]. discriminate Hpr.
Qed.

(** A rooted task is not its own ancestor, and has one chain of ancestors. *)
Lemma rooted_acyclic d q k : rooted d q → anc (S k) q ≠ Some q.
Proof.
  intros (r & Hd & Hr) Hc.
  assert (Hj : ∀ j, anc (j * S k) q = Some q).
  { induction j as [|j IH]; [done|]. rewrite Nat.mul_succ_l, anc_add, IH. done. }
  specialize (Hj (S d)).
  replace (S d * S k)%nat with (d + (S (d * k + k)))%nat in Hj by lia.
  rewrite anc_add, Hd in Hj. cbn in Hj. rewrite Hr in Hj. done.
Qed.

Lemma anc_compare p a b i j : anc i p = Some a → anc j p = Some b → (i ≤ j)%nat →
  anc (j - i) a = Some b.
Proof.
  intros Ha Hb Hle. replace j with (i + (j - i))%nat in Hb by lia.
  rewrite anc_add, Ha in Hb. done.
Qed.

(** The trees below two tasks that come after the same rooted task share
    nothing, nor do those below two roots. *)
Lemma siblings_disjoint d q a b i j p :
  rooted d q → parent a = Some q → parent b = Some q →
  anc i p = Some a → anc j p = Some b → a = b.
Proof.
  intros Hq. assert (Hone : ∀ a b i j, parent a = Some q → parent b = Some q →
    anc i p = Some a → anc j p = Some b → (i ≤ j)%nat → a = b).
  { intros a' b' i' j' Ha Hb Hia Hjb Hle.
    pose proof (anc_compare _ _ _ _ _ Hia Hjb Hle) as Hab.
    destruct (j' - i')%nat as [|m]; cbn in Hab; [by simplify_eq|].
    rewrite Ha in Hab. cbn in Hab. exfalso. apply (rooted_acyclic d q m Hq).
    replace (S m) with (m + 1)%nat by lia. rewrite anc_add, Hab. cbn. by rewrite Hb. }
  intros Ha Hb Hia Hjb. destruct (Nat.le_ge_cases i j); [|symmetry]; eauto.
Qed.

Lemma roots_disjoint a b i j p :
  parent a = None → parent b = None → anc i p = Some a → anc j p = Some b → a = b.
Proof.
  assert (Hone : ∀ a b i j, parent a = None → parent b = None →
    anc i p = Some a → anc j p = Some b → (i ≤ j)%nat → a = b).
  { intros a' b' i' j' Ha Hb Hia Hjb Hle.
    pose proof (anc_compare _ _ _ _ _ Hia Hjb Hle) as Hab.
    destruct (j' - i')%nat as [|m]; cbn in Hab; [by simplify_eq|]. by rewrite Ha in Hab. }
  intros Ha Hb Hia Hjb. destruct (Nat.le_ge_cases i j); [|symmetry]; eauto.
Qed.

Lemma anc_registered i q p : (∃ key, tasks s !! key = Some q) →
  anc i q = Some p → ∃ key, tasks s !! key = Some p.
Proof.
  revert q. induction i as [|i IH]; intros q Hq; cbn; [by intros [= <-]|].
  destruct (parent q) as [q'|] eqn:E; [|done]. cbn. apply IH.
  unfold parent in E. destruct (heap s !! q); [|done]. case_decide; [done|]. eauto.
Qed.

(** The chain of ancestors of a registered task fits in the map. *)
Lemma rooted_depth d q : (∃ key, tasks s !! key = Some q) → rooted d q → (d < size (tasks s))%nat.
Proof.
  intros Hq Hr.
  assert (Hsome : ∀ i, (i ≤ d)%nat → ∃ p, anc i q = Some p).
  { intros i Hi. destruct Hr as (r & Hd & _). replace d with (i + (d - i))%nat in Hd by lia.
    rewrite anc_add in Hd. destruct (anc i q); [eauto|done]. }
  set (chain := (λ i, anc i q) <$> seq 0 (S d)).
  assert (Hnd : NoDup chain).
  { apply NoDup_alt. intros i j x Hi Hj. subst chain. rewrite list_lookup_fmap in Hi, Hj.
    destruct (seq 0 (S d) !! i) as [i'|] eqn:Ei, (seq 0 (S d) !! j) as [j'|] eqn:Ej; try done.
    apply lookup_seq in Ei as [-> Hi'], Ej as [-> Hj']. cbn in Hi, Hj.
    assert (Hno : ∀ i j, (i < j ≤ d)%nat → anc i q ≠ anc j q).
    { intros i' j' Hij E. destruct (Hsome i') as [p Hp]; [lia|]. rewrite Hp in E. symmetry in E.
      pose proof (anc_compare _ _ _ _ _ Hp E ltac:(lia)) as Hc.
      destruct (j' - i')%nat as [|m] eqn:Em; [lia|].
      apply (rooted_acyclic (d - i') p m); [|done]. destruct Hr as (r & Hd & Hr).
      exists r. split; [|done]. apply (anc_compare q); [done|done|lia]. }
    destruct (Nat.lt_trichotomy i j) as [?|[?|?]]; [exfalso; apply (Hno i j); [lia|congruence]|done|].
    exfalso. apply (Hno j i); [lia|congruence]. }
  assert (Hsub : chain ⊆+ Some <$> (map_to_list (tasks s)).*2).
  { apply NoDup_submseteq; [done|]. intros x (i & -> & Hi)%list_elem_of_fmap.
    apply elem_of_seq in Hi. destruct (Hsome i) as [p Hp]; [lia|]. rewrite Hp.
    apply list_elem_of_fmap_2. destruct (anc_registered i q p Hq Hp) as [key Hk].
    apply list_elem_of_fmap. exists (key, p). split; [done|]. by apply elem_of_map_to_list. }
  apply submseteq_length in Hsub. subst chain.
  rewrite !length_fmap, length_map_to_list, length_seq in Hsub. lia.
Qed.
End ancestors.

(** ** Iterations over the map of tasks *)

Section range.
Context {W : Type} `{MapRange} (s : Scheduler W) (Hwf : wf s).

Lemma range_tasks_live k p t : (p, t) ∈ range_tasks k s ↔ live s p t.
Proof.
  unfold range_tasks, live. rewrite list_elem_of_bind. split.
  - intros ([key q] & Hq & Hk%elem_of_map_range). destruct (heap s !! q) eqn:E; cbn in Hq.
    + apply list_elem_of_singleton in Hq. simplify_eq. eauto.
    + by apply not_elem_of_nil in Hq.
  - intros [[key Hk] Ht]. exists (key, p). rewrite elem_of_map_range, Ht. cbn.
    split; [by apply list_elem_of_singleton|done].
Qed.

Lemma range_tasks_NoDup k : NoDup (range_tasks k s).*1.
Proof.
  unfold range_tasks.
  assert (Hf : ∀ l : list (string * nat),
    ((('(_, p) ← l; t ← option_list (heap s !! p); [(p, t)]) : list (nat * Task)).*1)
    = filter (λ p, is_Some (heap s !! p)) l.*2).
  { induction l as [|[key q] l IH]; [done|]. cbn [fmap list_fmap mbind list_bind].
    rewrite fmap_app, IH. destruct (heap s !! q) eqn:E.
    - rewrite filter_cons_True by (cbn; rewrite E; eauto). done.
    - rewrite filter_cons_False by (cbn; rewrite E; by intros []). done. }
  rewrite Hf. apply NoDup_filter. pose proof (map_range_NoDup_fst k (tasks s)) as Hnd.
  apply NoDup_fmap_2_strong; [|by apply NoDup_fmap_1 in Hnd].
  intros [k1 p1] [k2 p2] H1%elem_of_map_range H2%elem_of_map_range Heq. cbn in *. subst p2.
  destruct (Hwf _ _ H1) as (t1 & ? & -> & _), (Hwf _ _ H2) as (t2 & ? & -> & _). by simplify_eq.
Qed.
End range.

(** ** Runs *)

Section runs.
Context {W : Type} `{MapRange} (LoadLocation : string → result Location).
Context (exec : string → W → result unit * W) (now : Z).
Context (st0 : St W) (Hwf : wf (sch st0)) (Hn : named (sch st0)).
Abbreviation s0 := (sch st0).
Abbreviation ran0 := (ran exec now st0).
Abbreviation runSucc := (runSuccessors LoadLocation (quiet exec)).

Lemma ran_refl st : sch st = s0 → world st = world st0 → ran0 [] [] st.
Proof.
  intros E1 E2. constructor; rewrite ?E1; try done. intros p t Hp. exists t. split_all; try done.
Qed.

Lemma ran_back L T st p t : ran0 L T st → heap (sch st) !! p = Some t →
  ∃ t0, heap s0 !! p = Some t0 ∧ strip t = strip t0 ∧ (p ∉ T → t = t0).
Proof.
  intros Hr Hp. destruct (heap s0 !! p) as [t0|] eqn:E.
  - destruct (ran_task _ _ _ _ _ _ Hr p t0 E) as (t' & Ht' & Es & _ & Hf).
    rewrite Hp in Ht'. injection Ht' as ->. eauto.
  - apply lookup_ge_None in E. apply lookup_lt_Some in Hp.
    rewrite (ran_len _ _ _ _ _ _ Hr) in Hp. lia.
Qed.

Lemma strip_sel t t0 : strip t = strip t0 →
  (∀ db schema name, is_successor db schema name t = is_successor db schema name t0) ∧
  is_root t = is_root t0 ∧ Name t = Name t0 ∧ DatabaseName t = DatabaseName t0 ∧
  SchemaName t = SchemaName t0 ∧ SQLText t = SQLText t0 ∧ When t = When t0 ∧
  Schedule t = Schedule t0.
Proof. destruct t, t0. unfold strip, set_LastRunAt, set_NextRunAt. cbn. intros [=]. by subst. Qed.

(** An iteration over the map collects each selected task once. *)
Lemma ran_wf L T st : ran0 L T st → wf (sch st).
Proof.
  intros Hr key p Hk. rewrite (ran_tasks _ _ _ _ _ _ Hr) in Hk.
  destruct (Hwf _ _ Hk) as (t & Ht & -> & Hc).
  destruct (ran_task _ _ _ _ _ _ Hr p t Ht) as (t' & Ht' & E & _). exists t'. split; [done|].
  destruct t, t'. unfold strip, set_LastRunAt, set_NextRunAt in E. cbn in *. injection E as -> -> -> -> -> -> -> -> -> -> ->. by split.
Qed.

Lemma task_collect_spec L T st sel : ran0 L T st →
  (∀ t t', strip t = strip t' → sel t = sel t') →
  ∃ l, collect_tasks sel st = (Ok l, mkSt (sch st) (world st) (S (moment st))) ∧ NoDup l ∧
    ∀ p, p ∈ l ↔ ∃ t, live s0 p t ∧ sel t = true.
Proof.
  intros Hr Hsel. eexists. split; [reflexivity|]. split.
  - apply NoDup_fmap_filter, range_tasks_NoDup. by eapply ran_wf.
  - intros p. rewrite list_elem_of_fmap. split.
    + intros ([q t] & -> & [Hs Ht%range_tasks_live]%list_elem_of_filter). cbn in *.
      destruct Ht as [Hk Ht]. destruct (ran_back _ _ _ _ _ Hr Ht) as (t0 & Ht0 & E & _).
      rewrite (ran_tasks _ _ _ _ _ _ Hr) in Hk. exists t0. split; [by split|]. by rewrite <- (Hsel t).
    + intros (t0 & [Hk Ht0] & Hs). destruct (ran_task _ _ _ _ _ _ Hr p t0 Ht0) as (t & Ht & E & _).
      exists (p, t). split; [done|]. apply list_elem_of_filter. cbn. split; [by rewrite (Hsel t t0)|].
      apply range_tasks_live. split; [|done]. by rewrite (ran_tasks _ _ _ _ _ _ Hr).
Qed.

(** Writing the run times of [p]. *)
Lemma update_spec L T st p (L' : list nat) (f : Task → Task) w' :
  ran0 L T st → (L' = [] ∨ L' = [p]) →
  (∀ t, strip (f t) = strip t ∧ LastRunAt (f t) = (if decide (p ∈ L') then Some now else LastRunAt t)) →
  w' = foldl (λ w p, (exec (sql_of s0 p) w).2) (world st) L' →
  ran0 (L ++ L') (T ++ [p])
    (mkSt (with_tasks (alter f p (heap (sch st))) (tasks (sch st)) (sch st)) w' (moment st)).
Proof.
  intros Hr HL Hf ->. destruct Hr as [H1 H2 H3 H4 H5]. constructor; cbn; try done.
  - by rewrite length_alter.
  - intros q t0 Hq. destruct (H4 q t0 Hq) as (t & Ht & E & El & Hfr).
    destruct (decide (q = p)) as [->|Hne].
    + exists (f t). rewrite list_lookup_alter_eq, Ht. destruct (Hf t) as [Es Ela].
      split; [done|]. split; [congruence|]. split; [|intros Hin; exfalso; apply Hin; set_solver].
      rewrite Ela. destruct (decide (p ∈ L')); [by rewrite decide_True by set_solver|].
      rewrite El. apply decide_ext. set_solver.
    + exists t. rewrite list_lookup_alter_ne by done. split_all; [done|done| |].
      * rewrite El. apply decide_ext. destruct HL as [-> | ->]; set_solver.
      * intros Hin. apply Hfr. set_solver.
  - by rewrite foldl_app, <- H5.
Qed.

Lemma runTask_spec L T st p t : ran0 L T st → heap s0 !! p = Some t →
  ∃ st', runTask LoadLocation (quiet exec) p now st = (Ok tt, st') ∧ ran0 (L ++ [p]) (T ++ [p]) st'.
Proof.
  intros Hr Hp. destruct (ran_task _ _ _ _ _ _ Hr p t Hp) as (t' & Ht' & E & _).
  destruct (strip_sel t' t E) as (_ & _ & _ & _ & _ & Esql & _).
  unfold runTask, deref, bind, get. rewrite Ht'. unfold ret, catch, quiet.
  destruct (exec (SQLText t') (world st)) as [r w] eqn:Ex.
  unfold update_task, modify. cbn [sch world moment]. eexists. split; [reflexivity|].
  apply update_spec; [done|by right| |].
  - intros u. cbv zeta. rewrite (decide_True (P:=p ∈ [p])) by (by apply list_elem_of_singleton). by case_decide.
  - cbn. unfold sql_of. by rewrite Hp, <- Esql, Ex.
Qed.

Lemma evaluateWhen_spec L T st p t : ran0 L T st → heap s0 !! p = Some t →
  ∃ b, evaluateWhen p st = (Ok b, st) ∧ (always s0 p → b = true).
Proof.
  intros Hr Hp. destruct (ran_task _ _ _ _ _ _ Hr p t Hp) as (t' & Ht' & E & _).
  destruct (strip_sel t' t E) as (_ & _ & _ & _ & _ & _ & Ew & _).
  unfold evaluateWhen, deref, bind, get. rewrite Ht'. unfold ret. rewrite Ew.
  assert (Ha : always s0 p → When t = "" ∨ stream_cond (When t) = None).
  { intros (u & Hu & ?). by simplify_eq. }
  destruct (decide (When t = "")); [by eauto|].
  destruct (stream_cond (When t)); [|by eauto].
  destruct (streamHasDataFn (sch st)); eexists; (split; [reflexivity|]); intros [?|?]%Ha; done.
Qed.

Lemma deref_spec L T st p t : ran0 L T st → heap s0 !! p = Some t →
  ∃ t', deref p st = (Ok t', st) ∧ strip t' = strip t ∧ (p ∉ T → t' = t).
Proof.
  intros Hr Hp. destruct (ran_task _ _ _ _ _ _ Hr p t Hp) as (t' & Ht' & E & _ & Hf).
  exists t'. unfold deref, bind, get. by rewrite Ht'.
Qed.

(** *** Trees of runs *)

(** [dag_run] for a list of first tasks, with each task below one of them. *)
Definition forest (cs L : list nat) : Prop :=
  dag_run s0 (λ p, p ∈ cs) L ∧ ∀ p, p ∈ L → ∃ c k, c ∈ cs ∧ anc s0 k p = Some c.

Lemma forest_nil cs : (∀ c, c ∈ cs → ¬ always s0 c) → forest cs [].
Proof.
  intros Hc. unfold forest, dag_run. split_all.
  - apply NoDup_nil_2.
  - done.
  - intros p Hp Ha. exfalso. by apply (Hc p).
  - intros q p Hq. by apply not_elem_of_nil in Hq.
  - intros p Hp. by apply not_elem_of_nil in Hp.
Qed.

Lemma forest_app cs1 cs2 L1 L2 :
  forest cs1 L1 → forest cs2 L2 → (∀ p, p ∈ L1 → p ∈ L2 → False) →
  forest (cs1 ++ cs2) (L1 ++ L2).
Proof.
  intros ((N1 & O1 & C1 & D1) & A1) ((N2 & O2 & C2 & D2) & A2) Hdis.
  unfold forest, dag_run. setoid_rewrite elem_of_app. split_all.
  - apply NoDup_app. split_all; [done| |done]. intros p H1 H2. eauto.
  - intros i p Hi. apply lookup_app_Some in Hi as [Hi|[Hle Hi]].
    + destruct (O1 i p Hi) as [?|(j & q & Hj & Hq & Hs)]; [naive_solver|].
      right. exists j, q. split_all; [done| |done]. by apply lookup_app_l_Some.
    + destruct (O2 _ p Hi) as [?|(j & q & Hj & Hq & Hs)]; [naive_solver|].
      right. exists (length L1 + j)%nat, q. split_all; [lia| |done].
      rewrite lookup_app_r by lia. by replace (length L1 + j - length L1)%nat with j by lia.
  - naive_solver.
  - naive_solver.
  - intros p [(c & k & ? & ?)%A1|(c & k & ? & ?)%A2]; eauto.
Qed.

(** A task and then the tasks after it. *)
Lemma forest_node c cs L d :
  rooted s0 d c → (∀ p, p ∈ cs ↔ succ s0 c p) → forest cs L → forest [c] (c :: L).
Proof.
  intros Hr Hcs ((N & O & C & D) & A). unfold forest, dag_run.
  setoid_rewrite list_elem_of_singleton. setoid_rewrite elem_of_cons. split_all.
  - apply NoDup_cons. split; [|done]. intros (c' & k & Hc' & Hk)%A.
    apply Hcs, (succ_parent _ Hwf _ _ Hn) in Hc'. apply (rooted_acyclic _ _ _ k Hr).
    replace (S k) with (k + 1)%nat by lia. rewrite anc_add, Hk. cbn. by rewrite Hc'.
  - intros [|i] p Hi; cbn in Hi; [left; congruence|right].
    destruct (O i p Hi) as [Hp%Hcs|(j & q & Hj & Hq & Hs)].
    + exists 0%nat, c. split_all; [lia|done|done].
    + exists (S j), q. split_all; [lia|done|done].
  - intros p -> _. by left.
  - intros q p [->|Hq] Hs Ha; right; [|by eauto]. apply C; [by apply Hcs|done].
  - intros p [->|Hp]; [by exists c, 0%nat|]. destruct (A p Hp) as (c' & k & Hc' & Hk).
    exists c, (k + 1)%nat. split; [done|]. apply Hcs, (succ_parent _ Hwf _ _ Hn) in Hc'.
    rewrite anc_add, Hk. cbn. by rewrite Hc'.
Qed.

(** What a call of [runSuccessors] for [q] does. *)
Definition runs_below (fuel : nat) : Prop := ∀ q t d db schema L0 T0 st,
  live s0 q t → EqualFold (DatabaseName t) db = true → EqualFold (SchemaName t) schema = true →
  rooted s0 d q → (fuel + d = dag_fuel s0)%nat → ran0 L0 T0 st →
  ∃ L st' cs, runSucc fuel db schema (Name t) now st = (Ok tt, st') ∧
    ran0 (L0 ++ L) (T0 ++ L) st' ∧ (∀ p, p ∈ cs ↔ succ s0 q p) ∧ forest cs L.

(** One successor: it is skipped, or run with what comes after it. *)
Lemma run_child fuel q t d db schema L0 T0 st c :
  runs_below fuel → live s0 q t →
  EqualFold (DatabaseName t) db = true → EqualFold (SchemaName t) schema = true →
  rooted s0 d q → (S fuel + d = dag_fuel s0)%nat → succ s0 q c → ran0 L0 T0 st →
  ∃ L st',
    (let! ok := evaluateWhen c in
     if negb ok then ret tt
     else runTask LoadLocation (quiet exec) c now ;;;
       let! t := deref c in runSucc fuel db schema (Name t) now) st = (Ok tt, st') ∧
    ran0 (L0 ++ L) (T0 ++ L) st' ∧ forest [c] L.
Proof.
  intros IH Hq Hdb Hsc Hr Hf Hs Hran.
  pose proof Hs as (t' & u & Hq' & Hc & Hsucc).
  assert (t' = t) as -> by (destruct Hq, Hq'; congruence).
  destruct (evaluateWhen_spec _ _ _ _ u Hran (proj2 Hc)) as (b & Hb & Ha).
  unfold bind at 1. rewrite Hb. destruct b; cbn [negb].
  - destruct (runTask_spec _ _ _ _ u Hran (proj2 Hc)) as (st1 & H1 & Hran1).
    unfold bind at 1. rewrite H1.
    destruct (deref_spec _ _ _ _ u Hran1 (proj2 Hc)) as (u' & H2 & Eu & _).
    unfold bind at 1. rewrite H2.
    destruct (strip_sel u' u Eu) as (_ & _ & -> & _).
    apply is_successor_spec in Hsucc as (_ & E1 & E2 & _).
    unfold EqualFold in Hdb, Hsc. rewrite !bool_decide_eq_true in Hdb, Hsc.
    assert (Hrc : rooted s0 (S d) c).
    { destruct Hr as (r & Hd & Hp). exists r. split; [|done]. cbn.
      by rewrite (succ_parent _ Hwf _ _ Hn Hs). }
    destruct (IH c u (S d) db schema (L0 ++ [c]) (T0 ++ [c]) st1 Hc) as (L & st' & cs & H3 & Hran3 & Hcs & Hfor);
      [unfold EqualFold; apply bool_decide_eq_true; congruence..|done|lia|done|].
    exists (c :: L), st'. rewrite H3, <- !app_assoc in *. split_all; [done|done|].
    by apply (forest_node c cs L (S d)).
  - exists [], st. rewrite !app_nil_r. split_all; [done|done|].
    apply forest_nil. intros c' ->%list_elem_of_singleton Hal. by apply Ha in Hal.
Qed.

(** The loop over some of the successors of [q]. *)
Lemma run_children fuel q t d db schema cs L0 T0 st :
  runs_below fuel → live s0 q t →
  EqualFold (DatabaseName t) db = true → EqualFold (SchemaName t) schema = true →
  rooted s0 d q → (S fuel + d = dag_fuel s0)%nat →
  NoDup cs → (∀ c, c ∈ cs → succ s0 q c) → ran0 L0 T0 st →
  ∃ L st',
    for_each (λ c,
      let! ok := evaluateWhen c in
      if negb ok then ret tt
      else runTask LoadLocation (quiet exec) c now ;;;
        let! t := deref c in runSucc fuel db schema (Name t) now) cs st = (Ok tt, st') ∧
    ran0 (L0 ++ L) (T0 ++ L) st' ∧ forest cs L.
Proof.
  intros IH Hq Hdb Hsc Hr Hf. revert L0 T0 st.
  induction cs as [|c cs IHcs]; intros L0 T0 st Hnd Hcs Hran.
  { exists [], st. rewrite !app_nil_r. split_all; [done|done|].
    apply forest_nil. intros c Hc. by apply not_elem_of_nil in Hc. }
  apply NoDup_cons in Hnd as [Hc Hnd]. assert (Hsc' : succ s0 q c) by (apply Hcs; left).
  destruct (run_child fuel q t d db schema L0 T0 st c) as (L1 & st1 & H1 & Hran1 & F1); try done.
  destruct (IHcs (L0 ++ L1) (T0 ++ L1) st1) as (L2 & st2 & H2 & Hran2 & F2); [done| |done|].
  { intros c' Hc'. apply Hcs. by right. }
  exists (L1 ++ L2), st2. rewrite <- !app_assoc in Hran2. cbn [for_each]. unfold bind at 1.
  rewrite H1. split_all; [done|done|].
  apply (forest_app [c] cs); [done|done|]. intros p Hp1 Hp2.
  destruct (proj2 F1 p Hp1) as (a & i & ->%list_elem_of_singleton & Ha).
  destruct (proj2 F2 p Hp2) as (b & j & Hb & Hbp).
  assert (c = b) as ->; [|done].
  eapply (siblings_disjoint s0 d q c b i j p); [done| | |done|done];
    apply (succ_parent _ Hwf); [done|done|done|]. apply Hcs. by right.
Qed.

Lemma runSuccessors_spec fuel : runs_below fuel.
Proof.
  induction fuel as [|fuel IH]; intros q t d db schema L0 T0 st Hq Hdb Hsc Hr Hf Hran.
  { pose proof (rooted_depth s0 d q (proj1 Hq) Hr). unfold dag_fuel in Hf. lia. }
  destruct (task_collect_spec _ _ st (is_successor db schema (Name t)) Hran) as (cs & Hc & Hnd & Hin).
  { intros u u' E. by apply strip_sel in E as [-> _]. }
  cbn [runSuccessors]. unfold bind at 1. rewrite Hc.
  assert (Hcs : ∀ p, p ∈ cs ↔ succ s0 q p).
  { intros p. rewrite Hin. unfold succ. split.
    - intros (u & Hp & Hu). exists t, u. split_all; try done.
      by rewrite (is_successor_fold _ _ db schema).
    - intros (t' & u & Hq' & Hp & Hu). exists u. split; [done|].
      assert (t' = t) as -> by (destruct Hq, Hq'; congruence).
      by rewrite <- (is_successor_fold (DatabaseName t) (SchemaName t)). }
  destruct (run_children fuel q t d db schema cs L0 T0
    (mkSt (sch st) (world st) (S (moment st)))) as (L & st' & H1 & Hran1 & F); try done.
  - intros c. by rewrite Hcs.
  - by destruct Hran.
  - exists L, st', cs. split_all; done.
Qed.

(** *** A tick *)

Lemma ran_weaken L T T' st : (∀ p, p ∈ T → p ∈ T') → ran0 L T st → ran0 L T' st.
Proof.
  intros HT [H1 H2 H3 H4 H5]. constructor; try done. intros p t Hp.
  destruct (H4 p t Hp) as (t' & ? & ? & ? & Hf). exists t'. split_all; eauto.
Qed.

Lemma is_root_spec t : is_root t = true ↔
  State t = TaskStarted ∧ Schedule t ≠ "" ∧ Predecessor t = "".
Proof. unfold is_root. rewrite !andb_true_iff, !bool_decide_eq_true. tauto. Qed.

Lemma root_parent p t : live s0 p t → is_root t = true → parent s0 p = None.
Proof.
  intros [_ Hp] (_ & _ & E)%is_root_spec. unfold parent. by rewrite Hp, decide_True.
Qed.

(** [executeDAG] runs the tree below a root, or skips it. *)
Lemma executeDAG_spec L0 T0 st p t : live s0 p t → is_root t = true → ran0 L0 T0 st →
  ∃ L st', executeDAG LoadLocation (quiet exec) p now st = (Ok tt, st') ∧
    ran0 (L0 ++ L) (T0 ++ p :: L) st' ∧ forest [p] L.
Proof.
  intros Hp Hroot Hran. pose proof (root_parent p t Hp Hroot) as Hpar.
  destruct (evaluateWhen_spec _ _ _ _ t Hran (proj2 Hp)) as (b & Hb & Ha).
  unfold executeDAG, bind at 1. rewrite Hb. destruct b; cbn [negb].
  - destruct (runTask_spec _ _ _ _ t Hran (proj2 Hp)) as (st1 & H1 & Hran1).
    unfold bind at 1. rewrite H1.
    destruct (deref_spec _ _ _ _ t Hran1 (proj2 Hp)) as (u & H2 & Eu & _).
    unfold bind at 1. rewrite H2. destruct (strip_sel u t Eu) as (_ & _ & -> & -> & -> & _).
    unfold bind, get. assert (Hfuel : dag_fuel (sch st1) = dag_fuel s0)
      by (unfold dag_fuel; by rewrite (ran_tasks _ _ _ _ _ _ Hran1)).
    rewrite Hfuel.
    destruct (runSuccessors_spec (dag_fuel s0) p t 0%nat (DatabaseName t) (SchemaName t)
      (L0 ++ [p]) (T0 ++ [p]) st1 Hp) as (L & st' & cs & H3 & Hran3 & Hcs & Hfor);
      [by apply bool_decide_eq_true..| |lia|done|].
    { by exists p. }
    exists (p :: L), st'. rewrite <- !app_assoc in Hran3. split_all; [done| |].
    + eapply ran_weaken; [|exact Hran3]. set_solver.
    + apply (forest_node p cs L 0%nat); [by exists p|done|done].
  - eexists [], _. rewrite !app_nil_r. split; [reflexivity|]. split.
    + rewrite <- (app_nil_r L0). apply update_spec; [done|by left| |done]. intros u. by split.
    + apply forest_nil. intros c ->%list_elem_of_singleton Hal. by apply Ha in Hal.
Qed.

Lemma tick_root_spec L0 T0 st p t :
  live s0 p t → is_root t = true → p ∉ T0 → ran0 L0 T0 st →
  ∃ L st' cs, tick_root LoadLocation (quiet exec) now p st = (Ok tt, st') ∧
    ran0 (L0 ++ L) (T0 ++ p :: L) st' ∧ forest cs L ∧
    (∀ c, c ∈ cs ↔ c = p ∧ due_root s0 now p).
Proof.
  intros Hp Hroot HT Hran.
  assert (Hdue : due_root s0 now p ↔ ∃ next, NextRunAt t = Some next ∧ next ≤ now).
  { unfold due_root. split.
    - intros (t' & next & [_ Hp'] & _ & ?). destruct Hp as [_ Hp]. simplify_eq. eauto.
    - intros (next & ? & ?). by exists t, next. }
  destruct (deref_spec _ _ _ _ t Hran (proj2 Hp)) as (u & H1 & _ & Hu).
  rewrite (Hu HT) in H1. unfold tick_root, bind at 1. rewrite H1.
  assert (Hno : ∀ st', ran0 L0 (T0 ++ [p]) st' → ¬ due_root s0 now p →
    ran0 (L0 ++ []) (T0 ++ [p]) st' ∧ forest [] [] ∧ ∀ c, c ∈ [] ↔ c = p ∧ due_root s0 now p).
  { intros st' Hst Hnd. rewrite app_nil_r. split; [done|]. split; [apply forest_nil|]; set_solver. }
  destruct (NextRunAt t) as [next|] eqn:En.
  - destruct (Z.ltb_spec now next) as [Hlt|Hge].
    + eexists [], st, []. split; [done|]. apply Hno.
      * eapply ran_weaken; [|done]. set_solver.
      * rewrite Hdue. intros (n & [= <-] & ?). lia.
    + destruct (executeDAG_spec L0 T0 st p t Hp Hroot Hran) as (L & st' & H2 & Hran2 & F).
      exists L, st', [p]. split_all; [done|done|done|]. intros c.
      rewrite list_elem_of_singleton, Hdue. naive_solver.
  - eexists [], _, []. split; [reflexivity|]. apply Hno.
    + rewrite <- (app_nil_r L0). apply update_spec; [done|by left| |done]. intros v. by split.
    + rewrite Hdue. by intros (n & ? & _).
Qed.

(** The loop over the roots; [done_] are those already visited. *)
Lemma tick_roots_spec rs done_ L0 T0 st :
  NoDup (done_ ++ rs) → (∀ p, p ∈ done_ ++ rs → ∃ t, live s0 p t ∧ is_root t = true) →
  (∀ x, x ∈ T0 → ∃ r k, r ∈ done_ ∧ anc s0 k x = Some r) → ran0 L0 T0 st →
  ∃ L T st' cs, for_each (tick_root LoadLocation (quiet exec) now) rs st = (Ok tt, st') ∧
    ran0 (L0 ++ L) (T0 ++ T) st' ∧ forest cs L ∧ (∀ c, c ∈ cs ↔ c ∈ rs ∧ due_root s0 now c) ∧
    (∀ p, p ∈ T → p ∈ L ∨ p ∈ rs).
Proof.
  revert done_ L0 T0 st. induction rs as [|p rs IH]; intros done_ L0 T0 st Hnd Hroots HT Hran.
  { exists [], [], st, []. rewrite !app_nil_r. split_all; [done|done|apply forest_nil; set_solver|set_solver|set_solver]. }
  destruct (Hroots p) as (t & Hp & Hroot); [set_solver|].
  pose proof (root_parent p t Hp Hroot) as Hpar.
  assert (HpT : p ∉ T0).
  { intros (r & [|k] & Hr & Hk)%HT; cbn in Hk; [|by rewrite Hpar in Hk]. simplify_eq.
    apply NoDup_app in Hnd as (_ & Hd & _). apply (Hd r Hr). left. }
  destruct (tick_root_spec L0 T0 st p t Hp Hroot HpT Hran) as (L1 & st1 & cs1 & H1 & R1 & F1 & C1).
  destruct (IH (done_ ++ [p]) (L0 ++ L1) (T0 ++ p :: L1) st1)
    as (L2 & T2 & st2 & cs2 & H2 & R2 & F2 & C2 & T2spec).
  { by rewrite <- app_assoc. }
  { intros c Hc. apply Hroots. rewrite <- app_assoc in Hc. done. }
  { intros x [Hx|[->|Hx]%elem_of_cons]%elem_of_app.
    - destruct (HT x Hx) as (r & k & ? & ?). exists r, k. split; [set_solver|done].
    - exists p, 0%nat. split; [set_solver|done].
    - destruct (proj2 F1 x Hx) as (c & k & [-> _]%C1 & ?). exists p, k. split; [set_solver|done]. }
  { done. }
  exists (L1 ++ L2), (p :: L1 ++ T2), st2, (cs1 ++ cs2). rewrite <- !app_assoc in R2.
  cbn [for_each]. unfold bind at 1. rewrite H1. split_all; [done|done| | |].
  - apply forest_app; [done|done|]. intros x Hx1 Hx2.
    destruct (proj2 F1 x Hx1) as (c1 & k1 & [-> _]%C1 & Hk1).
    destruct (proj2 F2 x Hx2) as (c2 & k2 & [Hc2 _]%C2 & Hk2).
    destruct (Hroots c2) as (t2 & Hp2 & Hroot2); [set_solver|].
    assert (p = c2) as ->. { eapply (roots_disjoint s0); [done| |done|done]. by eapply root_parent. }
    apply NoDup_app in Hnd as (_ & _ & Hnd). apply NoDup_cons in Hnd as [? _]. done.
  - intros c. rewrite elem_of_app, C1, C2, elem_of_cons. naive_solver.
  - intros x. rewrite !elem_of_cons, !elem_of_app. intros [->|[?|[?|?]%T2spec]]; tauto.
Qed.

Lemma tick_spec :
  ∃ L T st', tick LoadLocation (quiet exec) now st0 = (Ok tt, st') ∧ ran0 L T st' ∧
    dag_run s0 (due_root s0 now) L ∧
    (∀ p, p ∈ T → p ∈ L ∨ ∃ t, live s0 p t ∧ is_root t = true).
Proof.
  destruct (task_collect_spec [] [] st0 is_root) as (rs & Hc & Hnd & Hin).
  { by apply ran_refl. }
  { intros t t' E. by apply strip_sel in E as (_ & -> & _). }
  destruct (tick_roots_spec rs [] [] [] (mkSt s0 (world st0) (S (moment st0))))
    as (L & T & st' & cs & H1 & R & [(N & O & C & D) _] & Ccs & HT).
  { done. }
  { intros p. apply Hin. }
  { set_solver. }
  { by apply ran_refl. }
  exists L, T, st'. unfold tick, bind at 1. rewrite Hc. split_all; [done|done| |].
  - unfold dag_run. split_all; [done| | |done].
    + intros i p Hi. destruct (O i p Hi) as [Hp|?]; [left|by right]. by apply Ccs in Hp as [_ ?].
    + intros p Hp Ha. apply C; [|done]. apply Ccs. split; [|done]. apply Hin.
      destruct Hp as (t & next & ? & ? & _). eauto.
  - intros p Hp. destruct (HT p Hp) as [?|?%Hin]; auto.
Qed.
End runs.

(** ** The order of dependencies: proofs *)

Section graph.
Context (ts : list Task).

(** [c] comes after [p]; the nodes are the tasks and the tasks they come after. *)
Definition dep_in (p c : string) : Prop :=
  ∃ t, t ∈ ts ∧ ToLower (Name t) = c ∧ Predecessor t ≠ "" ∧ ToLower (Predecessor t) = p.
Definition node_in (n : string) : Prop :=
  ∃ t, t ∈ ts ∧ (ToLower (Name t) = n ∨ (Predecessor t ≠ "" ∧ ToLower (Predecessor t) = n)).
End graph.

Record graph_ok (ts : list Task) (g : Graph) : Prop := mkGraphOk {
  graph_node : ∀ n, is_Some (g.2 !! n) ↔ node_in ts n;
  graph_deg : ∀ n d, g.2 !! n = Some d →
    (d = 1 ∧ ∃ p, dep_in ts p n) ∨ (d = 0 ∧ ∀ p, ¬ dep_in ts p n);
  graph_adj : ∀ p c, c ∈ default [] (g.1 !! p) ↔ dep_in ts p c;
  graph_nodup : ∀ p, NoDup (default [] (g.1 !! p));
}.

Lemma node_in_snoc ts t n : node_in (ts ++ [t]) n ↔
  node_in ts n ∨ ToLower (Name t) = n ∨ (Predecessor t ≠ "" ∧ ToLower (Predecessor t) = n).
Proof.
  unfold node_in. split.
  - intros (u & [Hu| ->%list_elem_of_singleton]%elem_of_app & Hx); [left; exists u; auto|right; auto].
  - intros [(u & Hu & Hx)|Hx]; [exists u|exists t];
      (split; [rewrite elem_of_app, ?list_elem_of_singleton; auto|done]).
Qed.

Lemma dep_in_snoc ts t p c : dep_in (ts ++ [t]) p c ↔
  dep_in ts p c ∨ (ToLower (Name t) = c ∧ Predecessor t ≠ "" ∧ ToLower (Predecessor t) = p).
Proof.
  unfold dep_in. split.
  - intros (u & [Hu| ->%list_elem_of_singleton]%elem_of_app & Hx); [left; exists u; auto|right; auto].
  - intros [(u & Hu & Hx)|Hx]; [exists u|exists t];
      (split; [rewrite elem_of_app, ?list_elem_of_singleton; auto|done]).
Qed.

(** Adding a node that is not there yet. *)
Lemma ensure_lookup (d : gmap string Z) n m :
  (if decide (is_Some (d !! n)) then d else <[n := 0]> d) !! m =
  if decide (m = n) then Some (default 0 (d !! n)) else d !! m.
Proof.
  case_decide as H; case_decide as E; subst.
  - by destruct H as [x ->].
  - done.
  - rewrite lookup_insert_eq. destruct (d !! n) eqn:E; [exfalso; eauto|done].
  - by rewrite lookup_insert_ne.
Qed.

(** The degree that a well-formed graph gives a node, as one statement. *)
Definition deg_ok (ts : list Task) (n : string) (d : Z) : Prop :=
  (d = 1 ∧ ∃ p, dep_in ts p n) ∨ (d = 0 ∧ ∀ p, ¬ dep_in ts p n).

Lemma deg_ok_default ts g n : graph_ok ts g → deg_ok ts n (default 0 (g.2 !! n)).
Proof.
  intros Hg. destruct (g.2 !! n) as [d|] eqn:E; [by apply (graph_deg _ _ Hg)|].
  right. split; [done|]. intros p (u & Hin & Eu & _). eapply eq_None_not_Some; [exact E|].
  apply (graph_node _ _ Hg). exists u. auto.
Qed.

(** A task of another name does not change the degree of [m]. *)
Lemma deg_ok_snoc ts t m d : m ≠ ToLower (Name t) → deg_ok ts m d → deg_ok (ts ++ [t]) m d.
Proof.
  intros Hm [[-> [p Hp]]|[-> Hp]]; [left|right]; (split; [done|]).
  - exists p. apply dep_in_snoc. by left.
  - intros p [?|[? _]]%dep_in_snoc; [by eapply Hp|congruence].
Qed.

(** A task without predecessor adds a node. *)
Lemma add_root_ok ts g t : graph_ok ts g → (∀ p, ¬ dep_in ts p (ToLower (Name t))) →
  Predecessor t = "" → graph_ok (ts ++ [t]) (add_dependency g t).
Proof.
  intros Hg Hno E. unfold add_dependency. rewrite decide_True by done.
  constructor; cbn [fst snd].
  - intros m. rewrite ensure_lookup, node_in_snoc, <- (graph_node _ _ Hg).
    case_decide; subst; split; eauto. intros [?|[?|[? _]]]; done.
  - intros m d. rewrite ensure_lookup. intros Hm. change (deg_ok (ts ++ [t]) m d).
    case_decide as Em; [subst m|by apply deg_ok_snoc, (graph_deg _ _ Hg)].
    injection Hm as <-. destruct (deg_ok_default ts g (ToLower (Name t)) Hg) as [[_ [p Hp]]|[-> _]];
      [by apply Hno in Hp|]. right. split; [done|]. intros p [?|(_ & ? & _)]%dep_in_snoc; [by eapply Hno|done].
  - intros p c. rewrite (graph_adj _ _ Hg), dep_in_snoc. split; [by left|]. by intros [?|(_ & ? & _)].
  - apply (graph_nodup _ _ Hg).
Qed.

(** A task with a predecessor adds an edge. *)
Lemma add_edge_ok ts g t : graph_ok ts g → (∀ p, ¬ dep_in ts p (ToLower (Name t))) →
  Predecessor t ≠ "" → graph_ok (ts ++ [t]) (add_dependency g t).
Proof.
  intros Hg Hno E. unfold add_dependency. rewrite decide_False by done.
  set (n := ToLower (Name t)) in *. set (q := ToLower (Predecessor t)).
  set (d1 := if decide (is_Some (g.2 !! n)) then _ else _).
  assert (H1 : ∀ m, alter (λ d, d + 1) n d1 !! m = if decide (m = n) then Some 1 else g.2 !! m).
  { intros m. unfold d1. destruct (decide (m = n)) as [->|Hne].
    - rewrite lookup_alter_eq, ensure_lookup, decide_True by done. cbn.
      destruct (deg_ok_default ts g n Hg) as [[_ [p Hp]]|[-> _]]; [by apply Hno in Hp|done].
    - by rewrite lookup_alter_ne, ensure_lookup, decide_False by done. }
  assert (Hself : deg_ok (ts ++ [t]) n 1).
  { left. split; [done|]. exists q. apply dep_in_snoc. by right. }
  constructor; cbn [fst snd].
  - intros m. rewrite ensure_lookup, !H1, node_in_snoc, <- (graph_node _ _ Hg). fold n q.
    destruct (decide (m = q)); subst; [split; eauto|].
    destruct (decide (m = n)); subst; split; eauto. intros [?|[?|[_ ?]]]; done.
  - intros m d. rewrite ensure_lookup, !H1. intros Hm. change (deg_ok (ts ++ [t]) m d).
    destruct (decide (m = q)) as [->|Hq].
    + injection Hm as <-. destruct (decide (q = n)) as [->|Hqn]; [done|].
      apply deg_ok_snoc; [done|]. by apply deg_ok_default.
    + destruct (decide (m = n)) as [->|Hmn]; [by injection Hm as <-|].
      apply deg_ok_snoc; [done|]. by apply (graph_deg _ _ Hg).
  - intros p c. rewrite dep_in_snoc, <- (graph_adj _ _ Hg). fold n q.
    destruct (decide (p = q)) as [->|Hne].
    + rewrite lookup_insert_eq. cbn. rewrite elem_of_app, list_elem_of_singleton. naive_solver.
    + rewrite lookup_insert_ne by done. naive_solver.
  - intros p. destruct (decide (p = q)) as [->|Hne];
      [|rewrite lookup_insert_ne by done; apply (graph_nodup _ _ Hg)].
    rewrite lookup_insert_eq. cbn. apply NoDup_snoc; [apply (graph_nodup _ _ Hg)|].
    rewrite (graph_adj _ _ Hg). apply Hno.
Qed.

Lemma build_ok ts : NoDup ((ToLower ∘ Name) <$> ts) → graph_ok ts (foldl add_dependency (∅, ∅) ts).
Proof.
  induction ts as [|t ts IH] using rev_ind; intros Hnd.
  - assert (Hno : ∀ p n, ¬ dep_in [] p n) by (by intros p n (u & ?%not_elem_of_nil & _)).
    constructor; cbn.
    + intros n. rewrite lookup_empty. split; [by intros []|]. by intros (u & ?%not_elem_of_nil & _).
    + done.
    + intros p c. rewrite lookup_empty. cbn. split; [by intros ?%not_elem_of_nil|]. by intros ?%Hno.
    + intros p. rewrite lookup_empty. apply NoDup_nil_2.
  - rewrite foldl_app. cbn. rewrite fmap_app in Hnd. apply NoDup_app in Hnd as (H1 & H2 & _).
    assert (Hno : ∀ p, ¬ dep_in ts p (ToLower (Name t))).
    { intros p (u & Hu & E & _). apply (H2 (ToLower (Name u))); [apply list_elem_of_fmap; by exists u|].
      cbn. rewrite E. left. }
    destruct (decide (Predecessor t = "")); [apply add_root_ok|apply add_edge_ok]; auto.
Qed.

(** Successors that wait for one task only all join the queue. *)
Lemma relax_all cs q d : NoDup cs → (∀ c, c ∈ cs → d !! c = Some 1) →
  ∃ d', foldl relax (q, d) cs = (q ++ cs, d') ∧
    ∀ n, d' !! n = if decide (n ∈ cs) then Some 0 else d !! n.
Proof.
  revert q d. induction cs as [|c cs IH]; intros q d Hnd Hc.
  { exists d. split; [by rewrite app_nil_r|]. intros n. rewrite decide_False; [done|apply not_elem_of_nil]. }
  apply NoDup_cons in Hnd as [Hnc Hnd]. cbn [foldl]. unfold relax at 2. cbn [fst snd].
  rewrite (Hc c (list_elem_of_here _ _)). cbn [default from_option id]. rewrite decide_True by done.
  destruct (IH (q ++ [c]) (<[c := 1 - 1]> d)) as (d' & E & Hd'); [done| |].
  { intros c' Hc'. rewrite lookup_insert_ne by (intros ->; done). apply Hc. by right. }
  exists d'. rewrite E, <- app_assoc. split; [done|]. intros n. rewrite Hd'.
  destruct (decide (n = c)) as [->|Hne].
  - rewrite decide_False, decide_True by (done || left). by rewrite lookup_insert_eq.
  - rewrite lookup_insert_ne by done. apply decide_ext. rewrite elem_of_cons. naive_solver.
Qed.

(** What [kahn] returns, relative to the dependencies. *)
Definition topological (ts : list Task) (order : list string) : Prop :=
  NoDup order ∧
  (∀ n, n ∈ order ↔ node_in ts n ∧ ∀ p, dep_in ts p n → p ∈ order) ∧
  (∀ i p c, order !! i = Some c → dep_in ts p c → ∃ j, (j < i)%nat ∧ order !! j = Some p).

(** Between two turns of the loop: the queue and the order together hold the nodes
    whose dependencies are all in the order, and the others wait for one task. *)
Record kahn_inv (ts : list Task) (queue : list string) (inDegree : gmap string Z)
    (order : list string) : Prop := mkKahnInv {
  kahn_nodup : NoDup (order ++ queue);
  kahn_mem : ∀ n, n ∈ order ++ queue ↔ node_in ts n ∧ ∀ p, dep_in ts p n → p ∈ order;
  kahn_deg : ∀ n, node_in ts n →
    inDegree !! n = Some (if decide (n ∈ order ++ queue) then 0 else 1);
  kahn_prec : ∀ i p c, order !! i = Some c → dep_in ts p c →
    ∃ j, (j < i)%nat ∧ order !! j = Some p;
}.

Lemma prec_snoc ts order curr :
  (∀ i p c, order !! i = Some c → dep_in ts p c → ∃ j, (j < i)%nat ∧ order !! j = Some p) →
  (∀ p, dep_in ts p curr → p ∈ order) →
  ∀ i p c, (order ++ [curr]) !! i = Some c → dep_in ts p c →
    ∃ j, (j < i)%nat ∧ (order ++ [curr]) !! j = Some p.
Proof.
  intros Hprec Hcurr i p c Hi Hpc. apply lookup_app_Some in Hi as [Hi|[Hle Hi]].
  - destruct (Hprec i p c Hi Hpc) as (j & ? & ?). exists j. split; [done|]. by apply lookup_app_l_Some.
  - apply list_lookup_singleton_Some in Hi as [Hi <-].
    apply Hcurr, list_elem_of_lookup in Hpc as (j & Hj). exists j.
    split; [apply lookup_lt_Some in Hj; lia|]. by apply lookup_app_l_Some.
Qed.

Lemma kahn_step ts g curr queue inDegree order :
  graph_ok ts g → (∀ p p' c, dep_in ts p c → dep_in ts p' c → p = p') →
  kahn_inv ts (curr :: queue) inDegree order →
  ∃ d', foldl relax (queue, inDegree) (default [] (g.1 !! curr))
        = (queue ++ default [] (g.1 !! curr), d') ∧
    kahn_inv ts (queue ++ default [] (g.1 !! curr)) d' (order ++ [curr]).
Proof.
  intros Hg Huniq [Hnd Hmem Hdeg Hprec]. set (kids := default [] (g.1 !! curr)).
  assert (Hadj : ∀ c, c ∈ kids ↔ dep_in ts curr c) by (intros c; apply (graph_adj _ _ Hg)).
  assert (Hco : curr ∉ order).
  { intros H. apply NoDup_app in Hnd as (_ & Hdis & _). apply (Hdis _ H). left. }
  assert (Hkids : ∀ c, c ∈ kids → c ∉ order ++ curr :: queue).
  { intros c Hc%Hadj Hin. apply Hmem in Hin as [_ Hin]. by apply Hco, Hin. }
  destruct (relax_all kids queue inDegree) as (d' & E & Hd').
  { apply (graph_nodup _ _ Hg). }
  { intros c Hc. rewrite Hdeg, decide_False; [done|by apply Hkids|].
    apply Hadj in Hc as (t & Hin & <- & _). exists t. auto. }
  assert (Hmem' : ∀ n, n ∈ (order ++ [curr]) ++ queue ++ kids ↔ n ∈ order ++ curr :: queue ∨ n ∈ kids).
  { intros n. rewrite !elem_of_app, !elem_of_cons. pose proof (not_elem_of_nil n). tauto. }
  exists d'. split; [done|]. constructor.
  - rewrite <- app_assoc. cbn. rewrite app_comm_cons, app_assoc. apply NoDup_app.
    split_all; [done| |apply (graph_nodup _ _ Hg)]. intros n H1 H2. by apply (Hkids n).
  - intros n. rewrite Hmem', Hmem, Hadj. setoid_rewrite elem_of_app.
    setoid_rewrite list_elem_of_singleton. split.
    + intros [[Hn Hp]|Hc]; [naive_solver|]. pose proof Hc as (t & Hin & <- & _).
      split; [exists t; auto|]. intros p Hp. right. by apply (Huniq _ _ (ToLower (Name t))).
    + intros [Hn Hp]. destruct (decide (n ∈ kids)) as [Hc|Hc]; [right; by apply Hadj|left].
      split; [done|]. intros p Hpn. destruct (Hp p Hpn) as [?| ->]; [done|].
      exfalso. by apply Hc, Hadj.
  - intros n Hn. rewrite Hd', Hdeg by done. pose proof (Hmem' n) as Hm.
    repeat case_decide; try done; naive_solver.
  - apply prec_snoc; [done|]. apply (proj1 (Hmem curr)). set_solver.
Qed.

Lemma kahn_spec ts g fuel queue inDegree order :
  graph_ok ts g → (∀ p p' c, dep_in ts p c → dep_in ts p' c → p = p') →
  kahn_inv ts queue inDegree order → (fuel + length order = size g.2)%nat →
  ∃ order', kahn fuel g.1 queue inDegree order = Some order' ∧ topological ts order'.
Proof.
  intros Hg Huniq. revert queue inDegree order.
  induction fuel as [|fuel IH]; intros [|curr queue] inDegree order Hinv Hfuel.
  1, 3: exists order; destruct Hinv; rewrite app_nil_r in *; done.
  - exfalso. assert (Hsub : order ++ curr :: queue ⊆+ elements (dom g.2)).
    { apply NoDup_submseteq; [apply Hinv|]. intros n Hn. apply elem_of_elements, elem_of_dom.
      apply (graph_node _ _ Hg). by apply Hinv in Hn as [? _]. }
    apply submseteq_length in Hsub. rewrite length_app in Hsub. cbn in Hsub.
    rewrite <- size_dom in Hfuel. unfold size, set_size in *. cbn in *. lia.
  - cbn [kahn]. destruct (kahn_step ts g curr queue inDegree order Hg Huniq Hinv) as (d' & -> & Hinv').
    apply IH; [done|]. rewrite length_app. cbn. lia.
Qed.

(** The same notions for the tasks of a schema. *)
Definition depends {W} (s : Scheduler W) (db schema p c : string) : Prop :=
  ∃ q t, live s q t ∧ in_schema db schema t = true ∧
    ToLower (Name t) = c ∧ Predecessor t ≠ "" ∧ ToLower (Predecessor t) = p.
Definition task_node {W} (s : Scheduler W) (db schema n : string) : Prop :=
  ∃ q t, live s q t ∧ in_schema db schema t = true ∧
    (ToLower (Name t) = n ∨ (Predecessor t ≠ "" ∧ ToLower (Predecessor t) = n)).

Section order.
Context {W : Type} `{MapRange} (s : Scheduler W) (Hwf : wf s) (db schema : string).

Definition schema_tasks : list Task :=
  (filter (λ pt : nat * Task, in_schema db schema pt.2 = true) (range_tasks 0 s)).*2.

Lemma elem_schema_tasks t : t ∈ schema_tasks ↔ ∃ p, live s p t ∧ in_schema db schema t = true.
Proof.
  unfold schema_tasks. rewrite list_elem_of_fmap. split.
  - intros ([p u] & -> & [Hs Hl%range_tasks_live]%list_elem_of_filter). eauto.
  - intros (p & Hl & Hs). exists (p, t). split; [done|]. apply list_elem_of_filter.
    split; [done|]. by apply range_tasks_live.
Qed.

Lemma dep_schema p c : dep_in schema_tasks p c ↔ depends s db schema p c.
Proof. unfold dep_in, depends. setoid_rewrite elem_schema_tasks. naive_solver. Qed.
Lemma node_schema n : node_in schema_tasks n ↔ task_node s db schema n.
Proof. unfold node_in, task_node. setoid_rewrite elem_schema_tasks. naive_solver. Qed.

(** Two tasks of the schema with the same name, up to case, are the same task. *)
Lemma schema_names p q t u : live s p t → live s q u →
  in_schema db schema t = true → in_schema db schema u = true →
  ToLower (Name t) = ToLower (Name u) → p = q ∧ t = u.
Proof.
  intros Hp Hq. unfold in_schema. rewrite !andb_true_iff, !bool_decide_eq_true.
  intros [Et1 Et2] [Eu1 Eu2] En.
  apply (live_key s Hwf) in Hp as Kp. apply (live_key s Hwf) in Hq as Kq.
  unfold taskKey in *. rewrite ToLower_dotted in *. rewrite Et1, Et2, En, <- Eu1, <- Eu2 in Kp.
  rewrite Kp in Kq. injection Kq as ->. split; [done|]. destruct Hp, Hq. congruence.
Qed.

Lemma schema_tasks_NoDup : NoDup ((ToLower ∘ Name) <$> schema_tasks).
Proof.
  unfold schema_tasks. rewrite <- list_fmap_compose. apply NoDup_fmap_2_strong.
  - intros [p t] [q u] [H1 L1%range_tasks_live]%list_elem_of_filter
      [H2 L2%range_tasks_live]%list_elem_of_filter E. cbn in *.
    by destruct (schema_names p q t u L1 L2 H1 H2 E) as [-> ->].
  - by apply (NoDup_fmap_1 fst), NoDup_fmap_filter, range_tasks_NoDup.
Qed.

Lemma build_graph_ok : graph_ok schema_tasks (build_graph s db schema).
Proof.
  unfold build_graph.
  assert (E : ∀ l g, foldl (λ g (pt : nat * Task), if in_schema db schema pt.2 then add_dependency g pt.2 else g) g l
    = foldl add_dependency g (filter (λ pt : nat * Task, in_schema db schema pt.2 = true) l).*2).
  { induction l as [|pt l IH]; intros g; [done|]. cbn [foldl].
    destruct (in_schema db schema pt.2) eqn:Es;
      [rewrite filter_cons_True by done|rewrite filter_cons_False by congruence]; apply IH. }
  rewrite E. apply build_ok, schema_tasks_NoDup.
Qed.

Lemma dep_unique p p' c : dep_in schema_tasks p c → dep_in schema_tasks p' c → p = p'.
Proof.
  intros (q & t & Hq & St & <- & _ & <-)%dep_schema (q' & t' & Hq' & St' & En & _ & <-)%dep_schema.
  by destruct (schema_names q' q t' t Hq' Hq St' St En) as [_ ->].
Qed.

Lemma order_spec : ∃ order, GetDependencyOrder s db schema = Some order ∧ topological schema_tasks order.
Proof.
  pose proof build_graph_ok as Hg. unfold GetDependencyOrder. cbv zeta.
  set (g := build_graph s db schema) in *.
  apply (kahn_spec schema_tasks); [done|apply dep_unique| |cbn; lia].
  assert (Hq : ∀ n, n ∈ (filter (λ nd : string * Z, nd.2 = 0) (map_range 1 g.2)).*1 ↔ g.2 !! n = Some 0).
  { intros n. rewrite list_elem_of_fmap. split.
    - intros ([m d] & -> & [Hd Hm%elem_of_map_range]%list_elem_of_filter). cbn in *. congruence.
    - intros Hn. exists (n, 0). split; [done|]. apply list_elem_of_filter. by rewrite elem_of_map_range. }
  constructor; cbn [app].
  - apply NoDup_fmap_filter, map_range_NoDup_fst.
  - intros n. rewrite Hq. split.
    + intros Hn. split; [apply (graph_node _ _ Hg); eauto|]. intros p Hp.
      destruct (graph_deg _ _ Hg n 0 Hn) as [[? _]|[_ Hno]]; [done|]. by apply Hno in Hp.
    + intros [[d Hd]%(graph_node _ _ Hg) Hp].
      destruct (graph_deg _ _ Hg n d Hd) as [(_ & p & ?%Hp)|[-> _]]; [by apply not_elem_of_nil in H0|done].
  - intros n [d Hd]%(graph_node _ _ Hg). rewrite Hd. f_equal.
    destruct (graph_deg _ _ Hg n d Hd) as [(-> & _)|[-> _]]; case_decide as Hin; try done;
      rewrite Hq in Hin; congruence.
  - intros i p c. done.
Qed.
End order.

(** ** Reachable states *)

Section system.
Context {W : Type} `{MapRange} (LoadLocation : string → result Location).
Context (exec : string → W → result unit * W).

Inductive Op : Type :=
  | OCreate (now : Z) (db schema name sql schedule warehouse predecessor whenCond : string)
  | ODrop (db schema name : string)
  | OAlter (db schema name : string) (state : TaskState)
  | OSetFn (fn : option (string → string → string → W → bool))
  | OReset
  | OStart
  | OStop
  | OTick (now : Z).

Definition on_scheduler (m : GoM (Scheduler W) unit) : GoM (St W) unit :=
  λ st, let '(r, s) := m (sch st) in (r, mkSt s (world st) (moment st)).

Definition run_op (op : Op) : GoM (St W) unit :=
  match op with
  | OCreate now db sc n sql sch wh pred cond =>
      on_scheduler (CreateTask LoadLocation now db sc n sql sch wh pred cond)
  | ODrop db sc n => on_scheduler (DropTask db sc n)
  | OAlter db sc n state => on_scheduler (AlterTask db sc n state)
  | OSetFn fn => on_scheduler (SetStreamHasDataFn fn)
  | OReset => on_scheduler Reset
  | OStart => on_scheduler Start
  | OStop => on_scheduler Stop
  | OTick now => tick LoadLocation (quiet exec) now
  end.

(** Tasks have names. *)
Definition valid_op (op : Op) : Prop :=
  match op with OCreate _ _ _ n _ _ _ _ _ => n ≠ "" | _ => True end.

Definition task_reachable : St W → Prop :=
  reachable (λ st, sch st = NewScheduler)
    (λ st op st', valid_op op ∧ st' = (run_op op st).2).

(** The map of tasks alone is well formed whatever their names. *)
Lemma CreateTask_wf (s : Scheduler W) now db sc n sql schd wh pred cond : wf s →
  wf (CreateTask LoadLocation now db sc n sql schd wh pred cond s).2.
Proof.
  intros Hw. unfold CreateTask, bind at 1, get.
  destruct (tasks s !! _) eqn:Ek; [done|]. unfold bind.
  match goal with |- context [ if ?b then _ else _ ] => destruct b end;
    [destruct (ParseSchedule _ _); [|done]|]; cbn [ret put snd].
  all: intros key p Hkey; cbn in Hkey |- *; apply lookup_insert_Some in Hkey as [[<- <-]|[_ Hk]];
    [rewrite lookup_app_r, Nat.sub_diag by lia; eexists; by split_all|].
  all: destruct (Hw key p Hk) as (u & Hu & Ekey & Hc); exists u;
    rewrite lookup_app_l by (by eapply lookup_lt_Some); done.
Qed.

Lemma AlterTask_wf (s : Scheduler W) db sc n state : wf s → wf (AlterTask db sc n state s).2.
Proof.
  intros Hw. unfold AlterTask, bind, get. destruct (tasks s !! _) as [p|]; [|done]. cbn.
  intros key q Hk. cbn in Hk |- *. destruct (Hw key q Hk) as (t & Ht & E & Hc).
  destruct (decide (q = p)) as [->|Hne].
  - exists (set_State state t). by rewrite list_lookup_alter_eq, Ht.
  - exists t. by rewrite list_lookup_alter_ne.
Qed.

Lemma DropTask_wf (s : Scheduler W) db sc n : wf s → wf (DropTask db sc n s).2.
Proof.
  intros Hw. unfold DropTask, bind at 1, get. destruct (tasks s !! taskKey db sc n) as [p|] eqn:Ek; [|done].
  destruct (Hw _ _ Ek) as (t & Ht & Ekey & Hc). rewrite Ht.
  assert (Hdel : ∀ h, (∀ q, q ≠ p → h !! q = heap s !! q) →
    wf (with_tasks h (delete (taskKey db sc n) (tasks s)) s)).
  { intros h Hh key q Hk. cbn in Hk |- *. apply lookup_delete_Some in Hk as [Hne Hk]. destruct (Hw _ _ Hk) as (u & Hu & Eu & Cu). exists u.
    rewrite Hh; [done|]. intros ->. congruence. }
  unfold close_stopCh, bind, get. case_decide; [rewrite Ht, Hc|]; cbn; apply Hdel; [|done].
  intros q Hne. by rewrite list_lookup_insert_ne.
Qed.

Definition good (s : Scheduler W) : Prop := wf s ∧ named s.

(** Changing the heap so that registered tasks keep their names and channels. *)
Lemma good_heap (s : Scheduler W) h :
  good s → (∀ p t, live s p t → ∃ t', h !! p = Some t' ∧ Name t' = Name t ∧
    DatabaseName t' = DatabaseName t ∧ SchemaName t' = SchemaName t ∧ stopCh t' = stopCh t) →
  good (with_tasks h (tasks s) s).
Proof.
  intros [Hw Hn] Hh. split.
  - intros key p Hk. destruct (Hw key p Hk) as (t & Ht & -> & Hc).
    destruct (Hh p t) as (t' & Ht' & E1 & E2 & E3 & E4); [split; eauto|].
    exists t'. by rewrite E1, E2, E3, E4.
  - intros p t' [[key Hk] Ht']. destruct (Hw key p Hk) as (t & Ht & _).
    destruct (Hh p t) as (u & Hu & E & _); [split; eauto|]. cbn in Ht'. rewrite Hu in Ht'.
    injection Ht' as ->. rewrite E. apply (Hn p). split; eauto.
Qed.

Lemma create_good s now db sc n sql schd wh pred cond : n ≠ "" → good s →
  good (CreateTask LoadLocation now db sc n sql schd wh pred cond s).2.
Proof.
  intros Hne [Hw Hn]. unfold CreateTask, bind at 1, get.
  destruct (tasks s !! _) eqn:Ek; [done|]. unfold bind.
  match goal with |- context [ if ?b then _ else _ ] => destruct b end;
    [destruct (ParseSchedule _ _); [|done]|]; cbn [ret put snd].
  all: assert (Hlive : ∀ key p, <[taskKey db sc n := length (heap s)]> (tasks s) !! key = Some p →
      (key = taskKey db sc n ∧ p = length (heap s)) ∨ tasks s !! key = Some p)
    by (intros key p [[<- <-]|[_ ?]]%lookup_insert_Some; auto).
  all: split; [intros key p [[-> ->]|Hk]%Hlive|intros p t [[key [[-> ->]|Hk]%Hlive] Ht]]; cbn in *.
  all: try (rewrite lookup_app_r, Nat.sub_diag in * by lia; cbn in *; simplify_eq; eauto; done).
  all: destruct (Hw key p Hk) as (u & Hu & Ekey & Hc); pose proof (lookup_lt_Some _ _ _ Hu) as Hlt;
    try (rewrite lookup_app_l in Ht by done; apply (Hn p); split; eauto).
  all: exists u; rewrite lookup_app_l by done; done.
Qed.

(** Dropping a registered task never closes a closed channel. *)
Lemma drop_spec s db sc n : good s →
  good (DropTask db sc n s).2 ∧
  (DropTask db sc n s).1 = (if decide (is_Some (tasks s !! taskKey db sc n)) then Ok tt
                            else Err ("task: " +:+ Quote n +:+ " does not exist")) ∧
  tasks (DropTask db sc n s).2 = delete (taskKey db sc n) (tasks s).
Proof.
  intros [Hw Hn]. unfold DropTask, bind at 1 3 5, get.
  destruct (tasks s !! taskKey db sc n) as [p|] eqn:Ek.
  - rewrite decide_True by eauto. destruct (Hw _ _ Ek) as (t & Ht & Ekey & Hc). rewrite Ht.
    assert (Hdel : ∀ h, (∀ q u, live s q u → q ≠ p → h !! q = Some u) →
      good (with_tasks h (delete (taskKey db sc n) (tasks s)) s)).
    { intros h Hh. assert (Hl : ∀ key q, delete (taskKey db sc n) (tasks s) !! key = Some q →
        ∃ u, live s q u ∧ h !! q = Some u ∧ tasks s !! key = Some q).
      { intros key q [Hne Hk]%lookup_delete_Some. destruct (Hw _ _ Hk) as (u & Hu & Eu & _).
        exists u. assert (live s q u) by (split; eauto). split_all; [done| |done]. apply Hh; [done|].
        intros ->. rewrite Ht in Hu. injection Hu as <-. congruence. }
      split.
      - intros key q Hk. destruct (Hl key q Hk) as (u & _ & Hu & Hk').
        destruct (Hw _ _ Hk') as (u' & Hu' & Eu & Cu). exists u'.
        destruct (Hl key q Hk) as (u'' & [_ Hl''] & Hh'' & _). cbn. split_all; congruence.
      - intros q u [[key Hk] Hu]. destruct (Hl key q Hk) as (u' & Hlu & Hu' & _). cbn in Hu.
        rewrite Hu' in Hu. injection Hu as <-. by apply (Hn q). }
    unfold close_stopCh, bind, get. case_decide; [rewrite Ht, Hc|]; cbn.
    + split_all; [|done|done]. apply (Hdel (<[p := set_stopCh true t]> (heap s))). intros q u [_ Hu] Hne.
      by rewrite list_lookup_insert_ne.
    + split_all; [|done|done]. apply (Hdel (heap s)). by intros q u [_ Hu] _.
  - rewrite decide_False by (by intros []). cbn. split_all; [by split|done|]. by rewrite delete_id.
Qed.

Lemma op_good op st : valid_op op → good (sch st) → good (sch (run_op op st).2).
Proof.
  intros Hv Hg. destruct op as [now db sc n sql schd wh pred cond|db sc n|db sc n state|fn| | | |now]; cbn [run_op];
    unfold on_scheduler.
  - pose proof (create_good (sch st) now db sc n sql schd wh pred cond Hv Hg) as Hc.
    by destruct (CreateTask _ _ _ _ _ _ _ _ _ _ _).
  - pose proof (proj1 (drop_spec (sch st) db sc n Hg)) as Hd. by destruct (DropTask _ _ _ _).
  - unfold AlterTask, bind, get. destruct (tasks (sch st) !! taskKey db sc n) as [p|]; [|done]. cbn.
    apply good_heap; [done|]. intros q t [_ Ht]. destruct (decide (q = p)) as [->|Hne].
    + exists (set_State state t). by rewrite list_lookup_alter_eq, Ht.
    + exists t. by rewrite list_lookup_alter_ne.
  - done.
  - cbn. split; [intros key p Hk|intros p t [[key Hk] _]]; cbn in Hk; by rewrite lookup_empty in Hk.
  - done.
  - done.
  - destruct Hg as [Hw Hn].
    destruct (tick_spec LoadLocation exec now st Hw Hn) as (L & T & st' & -> & Hr & _). cbn [snd].
    split; [by eapply ran_wf|]. intros p t [Hk Ht]. destruct (ran_back _ _ _ _ _ _ _ _ Hr Ht) as (t0 & Ht0 & E & _).
    apply strip_sel in E as (_ & _ & -> & _). apply (Hn p). split; [|done].
    by rewrite (ran_tasks _ _ _ _ _ _ Hr) in Hk.
Qed.

Lemma reachable_good st : task_reachable st → good (sch st).
Proof.
  apply (reachable_inv _ _ (λ st, good (sch st))).
  - intros s ->. split; [intros key p Hk|intros p t [[key Hk] _]]; cbn in Hk; by rewrite lookup_empty in Hk.
  - intros s op s' Hs [Hv ->]. by apply op_good.
Qed.
End system.

(** ** Properties *)

(** A tick of the scheduler, whatever the order in which it meets the tasks,
    ends without error and runs a list of tasks [L]: each task at most once; each
    one either a started root task whose time has come or a started task whose
    predecessor ran before it in [L]; and every such task whose condition does not
    depend on a stream.  The statements are executed in the order of [L], exactly
    the tasks of [L] get the new last run time, and no task but those and the
    roots is changed. *)
Theorem tick_runs_dag {W} `{MapRange} LoadLocation (exec : string → W → result unit * W) now st :
  task_reachable LoadLocation exec st →
  ∃ L T st', tick LoadLocation (quiet exec) now st = (Ok tt, st') ∧ ran exec now st L T st' ∧
    dag_run (sch st) (due_root (sch st) now) L ∧
    (∀ p, p ∈ T → p ∈ L ∨ ∃ t, live (sch st) p t ∧ is_root t = true).
Proof. intros [Hw Hn]%reachable_good. by apply tick_spec. Qed.

(** C35: The dependency order of a schema's tasks is found by a loop that always
    ends; it names each task or predecessor at most once, always after the task it
    depends on; a name is left out exactly when what it depends on is left out,
    so that nothing is when the dependencies have no cycle. *)
Theorem dependency_order_topological {W} `{MapRange} LoadLocation
    (exec : string → W → result unit * W) st db schema :
  task_reachable LoadLocation exec st →
  ∃ order, GetDependencyOrder (sch st) db schema = Some order ∧ NoDup order ∧
    (∀ n, n ∈ order ↔ task_node (sch st) db schema n ∧
                      ∀ p, depends (sch st) db schema p n → p ∈ order) ∧
    (∀ i p c, order !! i = Some c → depends (sch st) db schema p c →
       ∃ j, (j < i)%nat ∧ order !! j = Some p) ∧
    (∀ rank : string → nat,
       (∀ p c, depends (sch st) db schema p c → (rank p < rank c)%nat) →
       ∀ n, task_node (sch st) db schema n → n ∈ order).
Proof.
  intros [Hw _]%reachable_good. destruct (order_spec _ Hw db schema) as (order & Ho & Hnd & Hmem & Hprec).
  setoid_rewrite node_schema in Hmem. setoid_rewrite dep_schema in Hmem. setoid_rewrite dep_schema in Hprec.
  exists order. split_all; [done|done|done|done|]. intros rank Hrank n.
  induction n as [n IH] using (well_founded_induction (well_founded_ltof _ rank)).
  intros Hn. apply Hmem. split; [done|]. intros p Hp. apply IH; [by apply Hrank|].
  destruct Hp as (q & t & Hq & Hs & _ & Hne & E). exists q, t. auto.
Qed.

(** The registered tasks are always under their own key with an open stop
    channel, so that dropping a task never panics: it removes exactly that task,
    or reports that there is none. *)
Theorem drop_task_total {W} `{MapRange} LoadLocation (exec : string → W → result unit * W) st db sc n :
  task_reachable LoadLocation exec st →
  wf (sch st) ∧
  (DropTask db sc n (sch st)).1 =
    (if decide (is_Some (tasks (sch st) !! taskKey db sc n)) then Ok tt
     else Err ("task: " +:+ Quote n +:+ " does not exist")) ∧
  tasks (DropTask db sc n (sch st)).2 = delete (taskKey db sc n) (tasks (sch st)).
Proof. intros Hg%reachable_good. split; [apply Hg|]. by apply (drop_spec (sch st) db sc n Hg). Qed.

(** A task is always rescheduled to a later time, for cron schedules and for
    intervals of up to 153722867 minutes (about 292 years; beyond that the
    interval overflows a duration). *)
Theorem next_run_in_future LoadLocation schedule now :
  (∀ si, ParseSchedule LoadLocation schedule = Ok si → Minutes si ≤ 153722867) →
  now < nextRunTime LoadLocation schedule now.
Proof.
  intros Hb. unfold nextRunTime. destruct (ParseSchedule LoadLocation schedule) as [si|e];
    [|unfold Minute, Second; lia].
  specialize (Hb si eq_refl). destruct (Z.ltb_spec 0 (Minutes si)).
  - rewrite wrap64_id; unfold in_int64, Minute, Second, two63; lia.
  - case_decide; [unfold Minute, Second; lia|].
    destruct (nextCronTime LoadLocation (Cron si) now) eqn:E; [|unfold Minute, Second; lia].
    by apply nextCronTime_after in E.
Qed.

(** ** Witnesses *)

Definition sample_ops : list (Op (W:=list string)) :=
  [OCreate 0 "db" "s" "root" "R" "1 MINUTE" "wh" "" "";
   OCreate 0 "db" "s" "child" "C" "" "wh" "ROOT" "";
   OCreate 0 "db" "s" "leaf" "L" "" "wh" "child" "";
   OAlter "db" "s" "root" TaskStarted; OAlter "db" "s" "child" TaskStarted;
   OAlter "db" "s" "leaf" TaskStarted; OTick 0].

(** Statements append their text to a log. *)
Definition log_exec (sql : string) (w : list string) : result unit * list string := (Ok tt, w ++ [sql]).

Definition sample : St (list string) :=
  foldl (λ st op, (run_op (H:=key_order) sample_zone log_exec op st).2)
    (mkSt NewScheduler [] 0) sample_ops.

Lemma sample_task_reachable : task_reachable (H:=key_order) sample_zone log_exec sample.
Proof.
  exists (mkSt NewScheduler [] 0), sample_ops. split; [done|]. unfold sample, sample_ops.
  cbn [foldl]. repeat (econstructor; [split; [done|reflexivity]|]). constructor.
Qed.

(** A minute later the root is due, and the three statements run in order. *)
Lemma tick_runs_dag_witness :
  world (tick (H:=key_order) sample_zone (quiet log_exec) Minute sample).2 = ["R"; "C"; "L"] ∧
  ∃ L, dag_run (sch sample) (due_root (sch sample) Minute) L.
Proof.
  split; [vm_compute; reflexivity|].
  destruct (tick_runs_dag (H:=key_order) sample_zone log_exec Minute sample sample_task_reachable)
    as (L & T & st' & _ & _ & HL & _).
  exists L. exact HL.
Defined.

Lemma dependency_order_topological_witness :
  GetDependencyOrder (H:=key_order) (sch sample) "DB" "S" = Some ["root"; "child"; "leaf"] ∧
  ∃ order, GetDependencyOrder (H:=key_order) (sch sample) "DB" "S" = Some order ∧ NoDup order.
Proof.
  split; [vm_compute; reflexivity|].
  destruct (dependency_order_topological (H:=key_order) sample_zone log_exec sample "DB" "S"
    sample_task_reachable) as (order & Ho & Hnd & _).
  exists order. split; [exact Ho|exact Hnd].
Defined.

Lemma drop_task_total_witness :
  (DropTask "db" "s" "Child" (sch sample)).1 = Ok tt ∧ wf (sch sample).
Proof.
  split; [vm_compute; reflexivity|].
  exact (proj1 (drop_task_total (H:=key_order) sample_zone log_exec sample "db" "s" "Child"
    sample_task_reachable)).
Defined.

Lemma next_run_in_future_witness :
  nextRunTime sample_zone " 5 minutes" 7 = 7 + 5 * Minute ∧ 7 < nextRunTime sample_zone " 5 minutes" 7.
Proof.
  split; [vm_compute; reflexivity|]. apply (next_run_in_future sample_zone " 5 minutes" 7).
  intros si Hs. vm_compute in Hs. injection Hs as <-. cbn. lia.
Defined.

(** Beyond the bound, the next run lies in the past. *)
Example next_run_overflow : nextRunTime sample_zone "153722868 MINUTE" 0 < 0.
Proof. vm_compute. reflexivity. Qed.
