(* ===== verification/Binding.v ===== *)
(** * Bind variables ([internal/binding/binding.go] and [bulk.go])

    Statements are scanned from left to right: an index [i] into the text becomes
    the rest of the text from [i] together with the byte before it.  The decoding
    of JSON values and the conversion of floating-point numbers are parameters. *)

From S2P Require Import Prelude GoStrings GoTime.
From stdpp Require Import sorting.
From Stdlib Require Import Ascii.

(** ** Values *)

Record Binding := mkBinding {
  Type_ : string;
  Value : string;   (* the raw JSON text *)
}.

(** What [strconv.ParseFloat] and [FormatFloat(f, 'g', -1, 64)] make of a text. *)
Inductive Float : Type :=
  | NaN
  | PosInf
  | NegInf
  | Finite (text : string).

(** [[+-]?] *)
Definition skip_sign (s : string) : string :=
  match s with String "+" t | String "-" t => t | _ => s end.

Definition all_bytes (f : ascii → bool) (s : string) : bool := forallb f (bytes s).

(** [^[+-]?\d+$] *)
Definition intRe (s : string) : bool :=
  let t := skip_sign s in bool_decide (t ≠ "") && all_bytes is_digit t.

(** [([eE][+-]?\d+)?$] *)
Definition exponent_ok (s : string) : bool :=
  match s with
  | "" => true
  | String c t => (bool_decide (c = "e"%char) || bool_decide (c = "E"%char))
                  && bool_decide (skip_sign t ≠ "") && all_bytes is_digit (skip_sign t)
  end.

(** [decimalRe]: a sign, digits with an optional fraction or a fraction alone, and
    an exponent. *)
Definition decimalRe (s : string) : bool :=
  let t := skip_sign s in
  let ds := take_while is_digit t in
  let rest := trim_left is_digit t in
  match rest with
  | String "." u =>
      (bool_decide (ds ≠ "") || bool_decide (take_while is_digit u ≠ ""))
      && exponent_ok (trim_left is_digit u)
  | _ => bool_decide (ds ≠ "") && exponent_ok rest
  end.

Definition is_hex (c : ascii) : bool := is_digit c || byte_in 97 102 c || byte_in 65 70 c.
(** [^([0-9a-fA-F]{2})*$] *)
Definition hexRe (s : string) : bool := all_bytes is_hex s && Nat.even (String.length s).

(** [strconv.ParseInt] with its error dropped: a value out of range is clamped. *)
Definition ParseInt_clamped (s : string) : Z :=
  let neg := match s with String "-" _ => true | _ => false end in
  match digits_val 0 (skip_sign s) with
  | None => 0
  | Some v => let v := if neg then (- v)%Z else v in Z.max (- two63) (Z.min (two63 - 1) v)
  end.

(** [t.Format("15:04:05.000000")] in UTC. *)
Definition format_clock (t : Z) : string :=
  pad 2 (HourOf t) +:+ ":" +:+ pad 2 (MinuteOf t) +:+ ":" +:+ pad 2 (SecondOf t) +:+ "."
  +:+ pad 6 ((t `mod` Second) `div` 1000)%Z.

Definition quote (s : string) : string := "'" +:+ ReplaceAll s "'" "''" +:+ "'".

Definition parenNegative (s : string) : string :=
  if HasPrefix s "-" then "(" +:+ s +:+ ")" else TrimPrefix s "+".

(** [<nanos>] or [<nanos> <tzIndex>] *)
Definition epochNanos (v : string) : option Z :=
  let field := take_while (λ c, negb (bool_decide (c = " "%char))) v in
  if intRe field then Atoi field else None.

Section literal.
(** [json.Unmarshal] into a string and into a list of raw values. *)
Context (unmarshal_string : string → option string).
Context (parse_float : string → option Float).

Definition literal (b : Binding) : result string :=
  let raw := TrimSpace (Value b) in
  if bool_decide (raw = "") || bool_decide (raw = "null") then Ok "NULL"
  else if HasPrefix raw "[" then Err "array bindings are not supported"
  else match unmarshal_string (Value b) with
  | None => Err ("invalid bind value for type " +:+ Type_ b)
  | Some v =>
      let typ := ToUpper (Type_ b) in
      let bad := Err ("cannot bind value " +:+ Quote v +:+ " as " +:+ typ) in
      if decide (typ = "FIXED") then
        if intRe v || decimalRe v then Ok (parenNegative v) else bad
      else if decide (typ = "REAL") then
        match parse_float v with
        | None => bad
        | Some NaN => Ok "'NaN'::DOUBLE"
        | Some PosInf => Ok "'Infinity'::DOUBLE"
        | Some NegInf => Ok "'-Infinity'::DOUBLE"
        | Some (Finite text) => Ok (parenNegative text +:+ "::DOUBLE")
        end
      else if decide (typ = "BOOLEAN") then
        if bool_decide (ToLower v ∈ ["true"; "1"; "t"; "yes"; "y"; "on"]) then Ok "TRUE"
        else if bool_decide (ToLower v ∈ ["false"; "0"; "f"; "no"; "n"; "off"]) then Ok "FALSE"
        else bad
      else if decide (typ = "DATE") then
        if intRe v then
          Ok ("CAST(" +:+ quote (format_date (ParseInt_clamped v * Millisecond)) +:+ " AS DATE)")
        else Ok ("CAST(" +:+ quote v +:+ " AS DATE)")
      else if decide (typ = "TIME") then
        if intRe v then Ok ("CAST(" +:+ quote (format_clock (ParseInt_clamped v)) +:+ " AS TIME)")
        else Ok ("CAST(" +:+ quote v +:+ " AS TIME)")
      else if decide (typ = "TIMESTAMP_NTZ") then
        match epochNanos v with
        | Some ts => Ok ("CAST(" +:+ quote (format_date ts +:+ " " +:+ format_clock ts) +:+ " AS TIMESTAMP)")
        | None => Ok ("CAST(" +:+ quote v +:+ " AS TIMESTAMP)")
        end
      else if bool_decide (typ = "TIMESTAMP_LTZ") || bool_decide (typ = "TIMESTAMP_TZ") then
        match epochNanos v with
        | Some ts => Ok ("CAST(" +:+ quote (format_date ts +:+ " " +:+ format_clock ts +:+ "+00")
                         +:+ " AS TIMESTAMPTZ)")
        | None => Ok ("CAST(" +:+ quote v +:+ " AS TIMESTAMPTZ)")
        end
      else if decide (typ = "BINARY") then
        if negb (hexRe v) then bad else Ok ("from_hex(" +:+ quote v +:+ ")")
      else Ok (quote v)
  end.
End literal.

(** ** Scanning *)

Definition isIdentChar (c : ascii) : bool :=
  bool_decide (c = "_"%char) || bool_decide (c = "$"%char) || is_digit c || is_lower c || is_upper c.

(** [sql[i+1:]] up to and including the closing quote, and what follows; a doubled
    quote is an escaped quote. *)
Fixpoint skipQuoted (q : ascii) (s : string) : string * string :=
  match s with
  | "" => ("", "")
  | String c s' =>
      if decide (c = q) then
        match s' with
        | String d s'' =>
            if decide (d = q) then
              let '(a, b) := skipQuoted q s'' in (String c (String d a), b)
            else (String c "", s')
        | "" => (String c "", "")
        end
      else let '(a, b) := skipQuoted q s' in (String c a, b)
  end.

(** From the two opening bytes [open] on, up to and including [end_]. *)
Definition skipUntil (open s end_ : string) : string * string :=
  match Cut s end_ with
  | Some (a, b) => (open +:+ a +:+ end_, b)
  | None => (open +:+ s, "")
  end.

Definition newline : ascii := "010"%char.
Definition not_newline (c : ascii) : bool := negb (bool_decide (c = newline)).

(** The string literal, quoted identifier, dollar-quoted string or comment at the
    start of [s], and what follows it. *)
Definition skipSpecial (s : string) : option (string * string) :=
  match s with
  | "" => None
  | String c s' =>
      if bool_decide (c = sq) || bool_decide (c = dq) then
        let '(a, b) := skipQuoted c s' in Some (String c a, b)
      else match TrimPrefixOpt s "$$" with
      | Some t => Some (skipUntil "$$" t "$$")
      | None => match TrimPrefixOpt s "/*" with
      | Some t => Some (skipUntil "/*" t "*/")
      | None =>
          if HasPrefix s "--" || HasPrefix s "//"
          then Some (take_while not_newline s, trim_left not_newline s)
          else None
      end end
  end.

Definition ident_before (prev : option ascii) : bool :=
  match prev with Some c => isIdentChar c | None => false end.
Definition ident_next (s : string) : bool :=
  match s with String c _ => isIdentChar c | "" => false end.

(** [idx, _ := strconv.Atoi(digits)] *)
Definition bind_index (digits : string) : Z := ParseInt_clamped digits.

(** [render]: the loop, at the rest [s] of the text after the byte [prev], with
    [next] the number of the next positional placeholder.  The state is what
    [lookup] captures. *)
Section render.
Context {S : Type} (lookup : Z → GoM S string).

Definition emit (a : string) (k : GoM S string) : GoM S string :=
  let! r := k in ret (a +:+ r).

Fixpoint render_from (fuel : nat) (prev : option ascii) (next : Z) (s : string) : GoM S string :=
  match fuel with
  | O => fail "does not terminate"
  | Datatypes.S fuel =>
      match s with
      | "" => ret ""
      | String c t =>
          match skipSpecial s with
          | Some (a, b) => emit a (render_from fuel (last_byte prev a) next b)
          | None =>
              if decide (c = "?"%char) then
                let! lit := lookup next in
                emit lit (render_from fuel (Some c) (next + 1)%Z t)
              else if decide (c = ":"%char) then
                match t with
                | String ":" u => emit "::" (render_from fuel (Some ":"%char) next u)
                | _ =>
                    let digits := take_while is_digit t in
                    let rest := trim_left is_digit t in
                    if bool_decide (digits = "") || ident_next rest || ident_before prev
                    then emit (String c "") (render_from fuel (Some c) next t)
                    else
                      let! lit := lookup (bind_index digits) in
                      emit lit (render_from fuel (last_byte (Some c) digits) next rest)
                end
              else emit (String c "") (render_from fuel (Some c) next t)
          end
      end
  end.

Definition render (sql : string) : GoM S string :=
  render_from (Datatypes.S (String.length sql)) None 1 sql.
End render.

(** A closure without captured variables. *)
Definition pure_lookup (f : Z → result string) (idx : Z) : GoM unit string := λ u, (f idx, u).

(** [found = true] *)
Definition hasPlaceholder (sql : string) : bool :=
  (render (λ _, put true ;;; ret (Quote "")) sql false).2.

Definition FillNull (sql : string) : string :=
  match (render (pure_lookup (λ _, Ok "NULL")) sql tt).1 with Ok out => out | Err _ => "" end.

Section substitute.
Context (unmarshal_string : string → option string).
Context (parse_float : string → option Float).
Context (unmarshal_array : string → option (list string)).

Definition bind_lookup (bindings : gmap string Binding) (idx : Z) : result string :=
  match bindings !! Itoa idx with
  | None => Err ("bind variable " +:+ Itoa idx +:+ " not set")
  | Some b => literal unmarshal_string parse_float b
  end.

Definition Substitute (sql : string) (bindings : gmap string Binding) : result string :=
  if decide (bindings = ∅) then Ok sql
  else (render (pure_lookup (bind_lookup bindings)) sql tt).1.

(** ** Arrays of values *)

Definition isArray (v : string) : bool := HasPrefix (TrimSpace v) "[".

Definition IsBulk `{MapRange} (bindings : gmap string Binding) : bool :=
  existsb (λ kb : string * Binding, isArray (Value kb.2)) (map_range 0 bindings).

(** The loop over the sorted keys; [n] is [None] for -1. *)
Fixpoint bind_columns (bindings : gmap string Binding) (keys : list string) (n : option nat)
    (cols : gmap string (list string)) : result (option nat * gmap string (list string)) :=
  match keys with
  | [] => Ok (n, cols)
  | k :: keys =>
      match bindings !! k with
      | None => Err "unreachable"
      | Some b =>
          if negb (isArray (Value b)) then bind_columns bindings keys n cols
          else match unmarshal_array (Value b) with
          | None => Err ("invalid bind array for variable " +:+ k)
          | Some vals =>
              match n with
              | Some m =>
                  if decide (length vals = m)
                  then bind_columns bindings keys (Some (length vals)) (<[k := vals]> cols)
                  else Err ("bind arrays must all have the same length (variable " +:+ k +:+ " has "
                            +:+ Itoa (Z.of_nat (length vals)) +:+ ", expected "
                            +:+ Itoa (Z.of_nat m) +:+ ")")
              | None => bind_columns bindings keys (Some (length vals)) (<[k := vals]> cols)
              end
          end
      end
  end.

(** The bindings of row [r]; reading past the end of a column would panic, but all
    columns have the same length. *)
Definition bind_row (bindings : gmap string Binding) (cols : gmap string (list string)) (r : nat)
    : gmap string Binding :=
  map_imap (λ k b, match cols !! k with
                   | Some vals => mkBinding (Type_ b) <$> vals !! r
                   | None => Some b
                   end) bindings.

Definition splitRows `{MapRange} (bindings : gmap string Binding) : result (list (gmap string Binding)) :=
  let keys := merge_sort str_le (map_range 1 bindings).*1 in
  match bind_columns bindings keys None ∅ with
  | Err e => Err e
  | Ok (None, _) => Err "panic: makeslice: len out of range"
  | Ok (Some 0, _) => Err "bind arrays must not be empty"
  | Ok (Some n, cols) => Ok (bind_row bindings cols <$> seq 0 n)
  end.

(** [VALUES] here, outside of a word? *)
Definition values_here (prev : option ascii) (s : string) : option string :=
  match TrimPrefixFold s "VALUES" with
  | Some rest => if ident_before prev || ident_next rest then None else Some rest
  | None => None
  end.

(** The first loop: the text before and after the keyword. *)
Fixpoint find_values (fuel : nat) (depth : Z) (prev : option ascii) (s : string)
    : option (string * string) :=
  match fuel with
  | O => None
  | S fuel =>
      match s with
      | "" => None
      | String c t =>
          match skipSpecial s with
          | Some (a, b) => (λ '(x, y), (a +:+ x, y)) <$> find_values fuel depth (last_byte prev a) b
          | None =>
              let next := λ depth, (λ '(x, y), (String c x, y)) <$> find_values fuel depth (Some c) t in
              if decide (c = "("%char) then next (depth + 1)%Z
              else if decide (c = ")"%char) then next (depth - 1)%Z
              else if (depth =? 0)%Z
                   then match values_here prev s with
                        | Some rest => Some ("", rest)
                        | None => next depth
                        end
                   else next depth
          end
      end
  end.

(** The second loop: one balanced group that spans the text. *)
Fixpoint one_tuple (fuel : nat) (depth : Z) (s : string) : bool :=
  match fuel with
  | O => false
  | S fuel =>
      match s with
      | "" => (depth =? 0)%Z
      | String c t =>
          match skipSpecial s with
          | Some (_, b) => one_tuple fuel depth b
          | None =>
              if decide (c = "("%char) then one_tuple fuel (depth + 1) t
              else if decide (c = ")"%char) then
                if ((depth - 1 =? 0)%Z && bool_decide (t ≠ "")) then false
                else one_tuple fuel (depth - 1) t
              else one_tuple fuel depth t
          end
      end
  end.

Definition splitInsertValues (sql : string) : option (string * string) :=
  let sql := TrimSpace sql in
  let sql := TrimSpace (TrimSuffix sql ";") in
  match TrimPrefixFold sql "INSERT" with
  | None => None
  | Some _ =>
      match find_values (S (String.length sql)) 0 None sql with
      | None => None
      | Some (before, after) =>
          let prefix := TrimSpace before in
          let tuple := TrimSpace after in
          if negb (HasPrefix tuple "(") || hasPlaceholder prefix then None
          else if one_tuple (S (String.length tuple)) 0 tuple then Some (prefix, tuple) else None
      end
  end.

(** The loop over the rows: the first error ends it. *)
Fixpoint substitute_rows (sql : string) (rows : list (gmap string Binding)) : result (list string) :=
  match rows with
  | [] => Ok []
  | row :: rows =>
      match Substitute sql row with
      | Err e => Err e
      | Ok t => result_map (cons t) (substitute_rows sql rows)
      end
  end.

Definition Expand `{MapRange} (sql : string) (bindings : gmap string Binding) : result (list string) :=
  if negb (IsBulk bindings) then result_map (λ out, [out]) (Substitute sql bindings)
  else match splitRows bindings with
  | Err e => Err e
  | Ok rows =>
      match splitInsertValues sql with
      | Some (prefix, tuple) =>
          result_map (λ ts, [prefix +:+ " VALUES " +:+ GoStrings.Join ", " ts]) (substitute_rows tuple rows)
      | None => substitute_rows sql rows
      end
  end.
End substitute.

(** ** Tokens

    What the scanner sees: a special section, an ordinary byte (or [::]), or a
    placeholder with its text and its number. *)

Inductive token : Type :=
  | Special (a : string)
  | Plain (a : string)
  | Hole (src : string) (idx : Z).

Definition src_of (tk : token) : string :=
  match tk with Special a | Plain a | Hole a _ => a end.

Definition colon : ascii := ":"%char.
Definition qmark : ascii := "?"%char.
Definition starts (c : ascii) (s : string) : bool :=
  match s with String d _ => bool_decide (d = c) | "" => false end.

(** [Scan prev n s ts]: after the byte [prev] and with [n] the number of the next
    positional placeholder, the text [s] is read as [ts]. *)
Inductive Scan : option ascii → Z → string → list token → Prop :=
  | Scan_nil prev n : Scan prev n "" []
  | Scan_special prev n s a b ts :
      skipSpecial s = Some (a, b) → Scan (last_byte prev a) n b ts →
      Scan prev n s (Special a :: ts)
  | Scan_pos prev n t ts :
      Scan (Some qmark) (n + 1) t ts →
      Scan prev n (String qmark t) (Hole (String qmark "") n :: ts)
  | Scan_cast prev n u ts :
      Scan (Some colon) n u ts →
      Scan prev n (String colon (String colon u)) (Plain "::" :: ts)
  | Scan_num prev n t ts :
      take_while is_digit t ≠ "" → ident_next (trim_left is_digit t) = false →
      ident_before prev = false →
      Scan (last_byte (Some colon) (take_while is_digit t)) n (trim_left is_digit t) ts →
      Scan prev n (String colon t)
        (Hole (String colon (take_while is_digit t)) (bind_index (take_while is_digit t)) :: ts)
  | Scan_colon prev n t ts :
      starts colon t = false →
      take_while is_digit t = "" ∨ ident_next (trim_left is_digit t) = true ∨ ident_before prev = true →
      Scan (Some colon) n t ts →
      Scan prev n (String colon t) (Plain ":" :: ts)
  | Scan_plain prev n c t ts :
      skipSpecial (String c t) = None → c ≠ qmark → c ≠ colon →
      Scan (Some c) n t ts →
      Scan prev n (String c t) (Plain (String c "") :: ts).

(** The text with every placeholder replaced; the first error is returned. *)
Fixpoint filled (f : Z → result string) (ts : list token) : result string :=
  match ts with
  | [] => Ok ""
  | Hole _ i :: ts =>
      match f i with
      | Err e => Err e
      | Ok lit => result_map (String.append lit) (filled f ts)
      end
  | tk :: ts => result_map (String.append (src_of tk)) (filled f ts)
  end.

(** ** The scanner: what it reads and that it ends *)

Lemma skipQuoted_app q s a b : skipQuoted q s = (a, b) → s = a +:+ b.
Proof.
  remember (String.length s) as n eqn:Hn. revert s Hn a b.
  induction n as [n IH] using lt_wf_ind; intros [|c s] Hn a b; cbn; [by intros [= <- <-]|].
  cbn in Hn. destruct (decide (c = q)) as [->|Hc].
  - destruct s as [|d s]; [by intros [= <- <-]|]. case_decide.
    + destruct (skipQuoted q s) as [x y] eqn:E. intros [= <- <-]. cbn in *.
      by rewrite (IH (String.length s) ltac:(lia) s eq_refl x y E).
    + by intros [= <- <-].
  - destruct (skipQuoted q s) as [x y] eqn:E. intros [= <- <-]. cbn.
    by rewrite (IH (String.length s) ltac:(lia) s eq_refl x y E).
Qed.

Lemma skipUntil_app open s end_ a b : skipUntil open s end_ = (a, b) → open +:+ s = a +:+ b.
Proof.
  unfold skipUntil. destruct (Cut s end_) as [[x y]|] eqn:E; intros [= <- <-].
  - apply Cut_app in E. by rewrite E, !string_app_assoc.
  - by rewrite string_app_nil_r.
Qed.

(** A special section is not empty and what follows it is the rest. *)
Lemma skipSpecial_app s a b : skipSpecial s = Some (a, b) → s = a +:+ b ∧ a ≠ "".
Proof.
  destruct s as [|c s]; [done|]. unfold skipSpecial.
  destruct (bool_decide (c = sq) || bool_decide (c = dq)).
  { destruct (skipQuoted c s) as [x y] eqn:E. intros [= <- <-].
    apply skipQuoted_app in E. by rewrite E. }
  destruct (TrimPrefixOpt (String c s) "$$") as [t|] eqn:E1.
  { apply TrimPrefixOpt_spec in E1. intros [= E]. apply skipUntil_app in E as E'. rewrite E1, E'.
    split; [done|]. intros ->. unfold skipUntil in E. by destruct (Cut t "$$") as [[??]|]. }
  destruct (TrimPrefixOpt (String c s) "/*") as [t|] eqn:E2.
  { apply TrimPrefixOpt_spec in E2. intros [= E]. apply skipUntil_app in E as E'. rewrite E2, E'.
    split; [done|]. intros ->. unfold skipUntil in E. by destruct (Cut t "*/") as [[??]|]. }
  destruct (HasPrefix (String c s) "--" || HasPrefix (String c s) "//") eqn:E3; [|done].
  intros E. assert (a = take_while not_newline (String c s) ∧ b = trim_left not_newline (String c s))
    as [-> ->] by (split; congruence).
  rewrite take_trim. split; [done|].
  apply orb_true_iff in E3 as [[t Ht]%HasPrefix_spec|[t Ht]%HasPrefix_spec];
    injection Ht as -> ->; done.
Qed.

Lemma skipSpecial_qmark t : skipSpecial (String qmark t) = None.
Proof. done. Qed.
Lemma skipSpecial_colon t : skipSpecial (String colon t) = None.
Proof. done. Qed.

Lemma scan_exists prev n s : ∃ ts, Scan prev n s ts.
Proof.
  remember (String.length s) as k eqn:Hk. revert prev n s Hk.
  induction k as [k IH] using lt_wf_ind; intros prev n [|c t] Hk; [eauto using Scan|]. cbn in Hk.
  assert (IHt : ∀ prev n u, (String.length u < k)%nat → ∃ ts, Scan prev n u ts) by (intros; eauto).
  destruct (skipSpecial (String c t)) as [[a b]|] eqn:E.
  { pose proof (skipSpecial_app _ _ _ E) as [Ea Hne].
    apply (f_equal String.length) in Ea. rewrite string_app_length in Ea. cbn in Ea.
    destruct a; [done|]. cbn in Ea. destruct (IHt (last_byte prev (String a a0)) n b) as [ts ?]; [lia|].
    eauto using Scan. }
  destruct (decide (c = qmark)) as [->|Hq].
  { destruct (IHt (Some qmark) (n + 1)%Z t) as [ts ?]; [lia|]. eauto using Scan. }
  destruct (decide (c = colon)) as [->|Hc].
  - destruct (starts colon t) eqn:Es.
    { destruct t as [|d u]; [done|]. cbn in Es. apply bool_decide_eq_true in Es as ->. cbn in Hk.
      destruct (IHt (Some colon) n u) as [ts ?]; [lia|]. eauto using Scan. }
    destruct (IHt (Some colon) n t) as [ts Hts]; [lia|].
    destruct (decide (take_while is_digit t = "")); [eauto using Scan|].
    destruct (ident_next (trim_left is_digit t)) eqn:En; [eauto 6 using Scan|].
    destruct (ident_before prev) eqn:Eb; [eauto 6 using Scan|].
    pose proof (take_trim is_digit t) as Et. apply (f_equal String.length) in Et.
    rewrite string_app_length in Et.
    destruct (IHt (last_byte (Some colon) (take_while is_digit t)) n (trim_left is_digit t)) as [us ?];
      [lia|]. eauto using Scan.
  - destruct (IHt (Some c) n t) as [ts ?]; [lia|]. eauto using Scan.
Qed.

Lemma scan_src prev n s ts : Scan prev n s ts → GoStrings.Join "" (src_of <$> ts) = s.
Proof.
  assert (Hj : ∀ a l, GoStrings.Join "" (a :: l) = a +:+ GoStrings.Join "" l).
  { intros a [|b l]; cbn; [by rewrite string_app_nil_r|done]. }
  induction 1 as [|? ? ? ? ? ? E ? IH|? ? ? ? ? IH|? ? ? ? ? IH|? ? t ? ? ? ? ? IH|? ? ? ? ? ? ? IH|? ? ? ? ? ? ? ? ? IH];
    rewrite ?fmap_cons, ?Hj; cbn [src_of]; rewrite ?IH; try done.
  - by apply skipSpecial_app in E as [-> _].
  - cbn. by rewrite take_trim.
Qed.

(** ** [render] in terms of tokens *)

Fixpoint fill_m {S} (lookup : Z → GoM S string) (ts : list token) : GoM S string :=
  match ts with
  | [] => ret ""
  | Hole _ i :: ts => let! lit := lookup i in emit lit (fill_m lookup ts)
  | tk :: ts => emit (src_of tk) (fill_m lookup ts)
  end.

Lemma emit_ext {S} a (k k' : GoM S string) st : (∀ st, k st = k' st) → emit a k st = emit a k' st.
Proof. intros E. unfold emit, bind. by rewrite E. Qed.

Lemma bind_ext {S A B} (m : GoM S A) (k k' : A → GoM S B) st :
  (∀ a st, k a st = k' a st) → bind m k st = bind m k' st.
Proof. intros E. unfold bind. destruct (m st) as [[]]; [apply E|done]. Qed.

Lemma render_scan {S} (lookup : Z → GoM S string) prev n s ts fuel :
  Scan prev n s ts → (String.length s < fuel)%nat →
  ∀ st, render_from lookup fuel prev n s st = fill_m lookup ts st.
Proof.
  intros Hs. revert fuel.
  induction Hs as [prev n|prev n s a b ts E Hs IH|prev n t ts Hs IH|prev n u ts Hs IH
    |prev n t ts Hd Hn Hb Hs IH|prev n t ts Hst Hor Hs IH|prev n c t ts E Hq Hc Hs IH];
    intros [|fuel] Hf; try lia; intros st; cbn [render_from].
  - done.
  - pose proof (skipSpecial_app _ _ _ E) as [Ea Hne].
    destruct s as [|c t]; [done|]. rewrite E. cbn [fill_m src_of]. apply emit_ext, IH.
    rewrite Ea, string_app_length in Hf. destruct a; [done|]. cbn in Hf. lia.
  - rewrite skipSpecial_qmark, decide_True by done. cbn [fill_m]. apply bind_ext. intros lit st'.
    apply emit_ext, IH. cbn in Hf. lia.
  - rewrite skipSpecial_colon, decide_False, decide_True by done. cbn [fill_m src_of].
    apply emit_ext, IH. cbn in Hf. lia.
  - rewrite skipSpecial_colon, decide_False, decide_True by done.
    destruct t as [|d t]; [done|]. destruct (decide (d = colon)) as [->|Hne]; [done|].
    rewrite Hn, Hb, (bool_decide_false _ Hd). cbn [orb fill_m].
    transitivity (bind (lookup (bind_index (take_while is_digit (String d t))))
      (λ lit, emit lit (render_from lookup fuel (last_byte (Some colon) (take_while is_digit (String d t)))
        n (trim_left is_digit (String d t)))) st).
    { destruct d as [[] [] [] [] [] [] [] []]; done. }
    apply bind_ext. intros lit st'. apply emit_ext, IH. cbn in Hf.
    pose proof (f_equal String.length (take_trim is_digit (String d t))) as El.
    rewrite string_app_length in El. cbn [String.length] in El. lia.
  - rewrite skipSpecial_colon, decide_False, decide_True by done.
    assert (Hbool : bool_decide (take_while is_digit t = "") || ident_next (trim_left is_digit t)
      || ident_before prev = true).
    { destruct Hor as [-> | [-> | ->]]; [done| |]; rewrite ?orb_true_r; done. }
    transitivity (emit (String colon "") (render_from lookup fuel (Some colon) n t) st).
    { destruct t as [|d t]; [by rewrite Hbool|].
      destruct (decide (d = colon)) as [->|Hne]; [done|]. rewrite Hbool.
      destruct d as [[] [] [] [] [] [] [] []]; done. }
    apply emit_ext, IH. cbn in Hf. lia.
  - rewrite E, !decide_False by done. cbn [fill_m src_of]. apply emit_ext, IH. cbn in Hf. lia.
Qed.

Lemma fill_pure f ts u : fill_m (pure_lookup f) ts u = (filled f ts, u).
Proof.
  induction ts as [|[a|a|a i] ts IH]; [done|..]; cbn [fill_m filled src_of]; unfold emit, bind.
  - rewrite IH. by destruct (filled f ts).
  - rewrite IH. by destruct (filled f ts).
  - destruct (f i) as [lit|e] eqn:E; unfold pure_lookup at 1; rewrite E; [|done].
    rewrite IH. by destruct (filled f ts).
Qed.

Definition is_hole (tk : token) : bool := match tk with Hole _ _ => true | _ => false end.

Lemma fill_found ts b :
  (fill_m (λ _, put true ;;; ret (Quote "")) ts b).2 = (b || existsb is_hole ts) ∧
  is_ok (fill_m (λ _, put true ;;; ret (Quote "")) ts b).1 = true.
Proof.
  revert b. induction ts as [|[a|a|a i] ts IH]; intros b; cbn [fill_m existsb is_hole orb].
  - by rewrite orb_false_r.
  - unfold emit, bind. destruct (IH b) as [E1 E2]. destruct (fill_m _ ts b) as [[?|?] ?]; cbn in *; done.
  - unfold emit, bind. destruct (IH b) as [E1 E2]. destruct (fill_m _ ts b) as [[?|?] ?]; cbn in *; done.
  - unfold emit, bind at 1 2. cbn [put ret]. destruct (IH true) as [E1 E2]. rewrite orb_true_r.
    unfold bind in *. cbn in *. destruct (fill_m _ ts true) as [[?|?] ?]; cbn in *; done.
Qed.

Lemma render_filled f sql ts : Scan None 1 sql ts →
  (render (pure_lookup f) sql tt).1 = filled f ts.
Proof. intros Hs. unfold render. rewrite (render_scan _ _ _ _ _ _ Hs) by lia. by rewrite fill_pure. Qed.

Lemma hasPlaceholder_scan sql ts : Scan None 1 sql ts → hasPlaceholder sql = existsb is_hole ts.
Proof.
  intros Hs. unfold hasPlaceholder, render. rewrite (render_scan _ _ _ _ _ _ Hs) by lia.
  by destruct (fill_found ts false) as [-> _].
Qed.

(** ** Replacing what follows a token

    The scanner reads a token in the same way when the text after it changes, as
    long as the new text does not run into the token. *)

Lemma last_byte_some p a c : last_byte None a = Some c → last_byte p a = Some c.
Proof. by destruct a. Qed.
Lemma last_byte_nonempty p p' a : a ≠ "" → last_byte p a = last_byte p' a.
Proof. by destruct a. Qed.

Lemma starts_spec c s : starts c s = true ↔ ∃ t, s = String c t.
Proof.
  destruct s as [|d t]; cbn; [split; [done|by intros []]|].
  rewrite bool_decide_eq_true. split; [intros ->; eauto|intros [u [= ->]]; done].
Qed.

Lemma skipQuoted_ext q s a b o :
  skipQuoted q s = (a, b) → (b = "" → o = "") →
  (last_byte None a = Some q → starts q b = false → starts q o = false) →
  skipQuoted q (a +:+ o) = (a, o).
Proof.
  remember (String.length s) as n eqn:Hn. revert s Hn a.
  induction n as [n IH] using lt_wf_ind; intros [|c s] Hn a; cbn [skipQuoted].
  { intros [= <- <-] Hb _. by rewrite Hb. }
  cbn in Hn. destruct (decide (c = q)) as [->|Hc].
  - destruct s as [|d s].
    { intros [= <- <-] Hb _. rewrite Hb by done. cbn. by rewrite decide_True. }
    case_decide as Hd.
    + subst d. destruct (skipQuoted q s) as [x y] eqn:E. intros [= <- <-] Hb Hl. cbn.
      rewrite !decide_True by done. rewrite (IH (String.length s) ltac:(cbn in *; lia) s eq_refl x E); [done|done|].
      intros Hx. apply Hl. cbn. by apply last_byte_some.
    + intros [= <- <-] _ Hl. cbn. rewrite decide_True by done. destruct o as [|d' o]; [done|].
      specialize (Hl eq_refl). cbn in Hl. rewrite (bool_decide_false _ Hd) in Hl.
      specialize (Hl eq_refl). apply bool_decide_eq_false in Hl. by rewrite decide_False.
  - destruct (skipQuoted q s) as [x y] eqn:E. intros [= <- <-] Hb Hl. cbn. rewrite decide_False by done.
    rewrite (IH (String.length s) ltac:(lia) s eq_refl x E); [done|done|].
    intros Hx. apply Hl. cbn. by apply last_byte_some.
Qed.

Lemma TrimPrefixOpt_ext x y y' p : (String.length p ≤ String.length x)%nat →
  TrimPrefixOpt (x +:+ y) p = None → TrimPrefixOpt (x +:+ y') p = None.
Proof.
  revert x. induction p as [|c p IH]; intros [|d x] Hl; cbn in *; try done; [lia|].
  case_decide; [|done]. apply IH. lia.
Qed.

Lemma Cut_ext s p a b o : p ≠ "" → Cut s p = Some (a, b) → Cut (a +:+ p +:+ o) p = Some (a, o).
Proof.
  intros Hp. assert (H0 : Cut (p +:+ o) p = Some ("", o)).
  { destruct p as [|c p]; [done|]. cbn [String.append Cut].
    rewrite (TrimPrefixOpt_app (String c p) o : TrimPrefixOpt (String c (p +:+ o)) _ = _). done. }
  revert a b. induction s as [|c s IH]; intros a b H; cbn [Cut] in H.
  - destruct (TrimPrefixOpt "" p); [|done]. injection H as <- <-. done.
  - destruct (TrimPrefixOpt (String c s) p) eqn:E; [by injection H as <- <-|].
    destruct (Cut s p) as [[x y]|] eqn:Ec; [|done]. cbn in H. injection H as <- <-.
    cbn [String.append Cut].
    apply Cut_app in Ec as Es. rewrite Es in E.
    assert (E' : TrimPrefixOpt (String c (x +:+ p +:+ o)) p = None).
    { pose proof (TrimPrefixOpt_ext (String c (x +:+ p)) y o p) as Hx. cbn [String.append] in Hx.
      rewrite !string_app_assoc in Hx. apply Hx; [|done]. cbn. rewrite string_app_length. lia. }
    by rewrite E', (IH x y eq_refl).
Qed.

Lemma skipUntil_ext open s end_ a b o :
  end_ ≠ "" → skipUntil open s end_ = (a, b) → (b = "" → o = "") →
  ∃ s', a +:+ o = open +:+ s' ∧ skipUntil open s' end_ = (a, o).
Proof.
  intros He. unfold skipUntil. destruct (Cut s end_) as [[x y]|] eqn:E; intros [= <- <-] Hb.
  - exists (x +:+ end_ +:+ o). rewrite !string_app_assoc. split; [done|].
    by rewrite (Cut_ext s end_ x y o).
  - rewrite Hb by done. exists s. rewrite string_app_nil_r. split; [done|]. by rewrite E.
Qed.

Lemma take_trim_ext f a o :
  all_bytes f a = true → (∀ c o', o = String c o' → f c = false) →
  take_while f (a +:+ o) = a ∧ trim_left f (a +:+ o) = o.
Proof.
  intros Ha Ho. induction a as [|c a IH]; cbn.
  - destruct o as [|c o]; [done|]. cbn. by rewrite (Ho c o).
  - unfold all_bytes in Ha. cbn in Ha. apply andb_true_iff in Ha as [Hc Ha].
    rewrite Hc. destruct (IH Ha) as [-> ->]. done.
Qed.

Lemma all_take_while f s : all_bytes f (take_while f s) = true.
Proof.
  unfold all_bytes. induction s as [|c s IH]; cbn; [done|]. destruct (f c) eqn:E; cbn; [by rewrite E|done].
Qed.

Lemma trim_left_head f s c t : trim_left f s = String c t → f c = false.
Proof.
  induction s as [|d s IH]; cbn; [done|]. destruct (f d) eqn:E; [done|]. by intros [= <- <-].
Qed.

(** The text [o] after the special section [a] does not run into it. *)
Definition follows (a b o : string) : Prop :=
  (b = "" → o = "") ∧ (starts newline b = true → starts newline o = true) ∧
  (∀ q, q = sq ∨ q = dq → last_byte None a = Some q → starts q b = false → starts q o = false).

Lemma skipSpecial_ext s a b o :
  skipSpecial s = Some (a, b) → follows a b o → skipSpecial (a +:+ o) = Some (a, o).
Proof.
  intros Hs (Hb & Hnl & Hq). destruct s as [|c s]; [done|]. revert Hs. unfold skipSpecial at 1.
  destruct (bool_decide (c = sq) || bool_decide (c = dq)) eqn:Eq.
  { destruct (skipQuoted c s) as [x y] eqn:E. intros [= <- <-]. cbn. rewrite Eq.
    apply orb_true_iff in Eq. rewrite !bool_decide_eq_true in Eq.
    rewrite (skipQuoted_ext c s x y o E Hb); [done|]. intros Hx. apply Hq; [done|].
    cbn. by apply last_byte_some. }
  destruct (TrimPrefixOpt (String c s) "$$") as [t|] eqn:E1.
  { intros [= E]. destruct (skipUntil_ext "$$" t "$$" a b o ltac:(done) E Hb) as (s' & -> & E').
    change (Some (skipUntil "$$" s' "$$") = Some (a, o)). by rewrite E'. }
  destruct (TrimPrefixOpt (String c s) "/*") as [t|] eqn:E2.
  { intros [= E]. destruct (skipUntil_ext "/*" t "*/" a b o ltac:(done) E Hb) as (s' & -> & E').
    change (Some (skipUntil "/*" s' "*/") = Some (a, o)). by rewrite E'. }
  destruct (HasPrefix (String c s) "--" || HasPrefix (String c s) "//") eqn:E3; [|done].
  intros E. assert (Ea : a = take_while not_newline (String c s)) by congruence.
  assert (Eb : b = trim_left not_newline (String c s)) by congruence.
  assert (Ho : ∀ d o', o = String d o' → not_newline d = false).
  { intros d o' ->. destruct b as [|e b]; [by specialize (Hb eq_refl)|].
    symmetry in Eb. apply trim_left_head in Eb. unfold not_newline in Eb.
    apply negb_false_iff, bool_decide_eq_true in Eb as ->.
    cbn in Hnl. rewrite bool_decide_true in Hnl by done. specialize (Hnl eq_refl).
    apply bool_decide_eq_true in Hnl as ->. done. }
  destruct (take_trim_ext not_newline a o) as [Et El]; [rewrite Ea; apply all_take_while|done|].
  assert (Hs : skipSpecial (a +:+ o)
    = Some (take_while not_newline (a +:+ o), trim_left not_newline (a +:+ o))).
  { apply orb_true_iff in E3 as [[t Ht]%HasPrefix_spec|[t Ht]%HasPrefix_spec];
      injection Ht as -> ->; rewrite Ea; reflexivity. }
  by rewrite Hs, Et, El.
Qed.

(** The pairs of bytes that open a special section. *)
Definition opens (c d : ascii) : bool :=
  match c, d with
  | "$", "$" | "/", "*" | "-", "-" | "/", "/" => true
  | _, _ => false
  end%char.

Lemma skipSpecial_None c t : skipSpecial (String c t) = None ↔
  c ≠ sq ∧ c ≠ dq ∧ ∀ d u, t = String d u → opens c d = false.
Proof.
  unfold skipSpecial. destruct (bool_decide (c = sq) || bool_decide (c = dq)) eqn:Eq.
  { apply orb_true_iff in Eq. rewrite !bool_decide_eq_true in Eq.
    destruct (skipQuoted c t). split; [done|]. intros (? & ? & _). tauto. }
  apply orb_false_iff in Eq as [E1%bool_decide_eq_false E2%bool_decide_eq_false].
  destruct t as [|d u].
  { split; [intros _; done|]. intros _. destruct c as [[] [] [] [] [] [] [] []]; done. }
  trans (opens c d = false).
  - destruct (opens c d) eqn:E.
    + split; [|done]. destruct c as [[] [] [] [] [] [] [] []]; try done;
        destruct d as [[] [] [] [] [] [] [] []]; done.
    + split; [done|]. intros _. cbn [TrimPrefixOpt HasPrefix].
      destruct (decide _) as [<-|]; [|destruct (decide _) as [<-|]];
        [| |unfold HasPrefix; cbn; destruct (decide _) as [<-|]; [|destruct (decide _) as [<-|]]; try done];
        destruct d as [[] [] [] [] [] [] [] []]; done.
  - split; [intros H; split_all; try done; intros d' u' [= <- <-]; done|].
    intros (_ & _ & H). by eapply H.
Qed.

(** ** Literals are self-contained *)

(** Bytes that never open a section, a comment or a placeholder. *)
Definition harmless (c : ascii) : bool :=
  negb (bool_decide (c ∈ [sq; dq; "$"; "?"; ":"; "/"; "-"; "*"]%char)).

(** Text built of harmless bytes, signs, casts and complete quoted strings. *)
Inductive safe : string → Prop :=
  | safe_nil : safe ""
  | safe_char c w : harmless c = true → safe w → safe (String c w)
  | safe_minus c w : harmless c = true → safe (String c w) → safe (String "-" (String c w))
  | safe_cast w : safe w → safe ("::" +:+ w)
  | safe_quote v w : starts sq w = false → safe w → safe (quote v +:+ w).

Lemma harmless_spec c : harmless c = true →
  c ≠ sq ∧ c ≠ dq ∧ c ≠ qmark ∧ c ≠ colon ∧ (∀ d, opens c d = false) ∧ (∀ d, opens d c = false).
Proof.
  intros H. split_all.
  1-4: by intros ->.
  - intros d. destruct c as [[] [] [] [] [] [] [] []]; try done; by cbv in H.
  - intros d. destruct d as [[] [] [] [] [] [] [] []]; try done;
      destruct c as [[] [] [] [] [] [] [] []]; try done; by cbv in H.
Qed.

(** A quoted value is read as one string, whatever the value. *)
Lemma skipQuoted_double v o : starts sq o = false →
  skipQuoted sq (double_quotes sq v +:+ String sq o) = (double_quotes sq v +:+ String sq "", o).
Proof.
  intros Ho. induction v as [|c v IH].
  - cbn [double_quotes String.append skipQuoted]. rewrite decide_True by done.
    destruct o as [|d o]; [done|]. cbn in Ho. apply bool_decide_eq_false in Ho. by rewrite decide_False.
  - cbn [double_quotes]. destruct (decide (c = sq)) as [->|Hc]; cbn [String.append skipQuoted].
    + rewrite !decide_True by done. by rewrite IH.
    + rewrite decide_False by done. by rewrite IH.
Qed.

Lemma quote_eq v : quote v = String sq (double_quotes sq v +:+ String sq "").
Proof. unfold quote. by rewrite (ReplaceAll_double sq v : ReplaceAll v "'" "''" = _). Qed.

Lemma skipSpecial_quote v o : starts sq o = false →
  skipSpecial (quote v +:+ o) = Some (quote v, o).
Proof.
  intros Ho. rewrite quote_eq. cbn [String.append]. rewrite string_app_assoc. cbn [String.append].
  unfold skipSpecial. rewrite (bool_decide_true (sq = sq)) by done. cbn [orb].
  by rewrite skipQuoted_double.
Qed.

Lemma starts_app c w o : starts c (w +:+ o) = match w with "" => starts c o | _ => starts c w end.
Proof. by destruct w. Qed.

(** Safe text is read by itself, whatever precedes and follows it. *)
Lemma safe_scan w : safe w → ∃ lts, existsb is_hole lts = false ∧
  ∀ prev n o ts, starts sq o = false → Scan (last_byte prev w) n o ts → Scan prev n (w +:+ o) (lts ++ ts).
Proof.
  induction 1 as [|c w Hc _ (lts & Hl & IH)|c w Hc _ (lts & Hl & IH)|w _ (lts & Hl & IH)|v w Hw _ (lts & Hl & IH)].
  - by exists [].
  - exists (Plain (String c "") :: lts). split; [done|]. intros prev n o ts Ho Hs.
    destruct (harmless_spec c Hc) as (? & ? & ? & ? & Hop & _).
    apply Scan_plain; [by apply skipSpecial_None|done|done|]. by apply IH.
  - exists (Plain "-" :: lts). split; [done|]. intros prev n o ts Ho Hs.
    destruct (harmless_spec c Hc) as (_ & _ & _ & _ & _ & Hop).
    apply (Scan_plain prev n "-"%char); [|done|done|by apply IH].
    apply skipSpecial_None. split_all; [done|done|]. intros d u [= <- _]. apply Hop.
  - exists (Plain "::" :: lts). split; [done|]. intros prev n o ts Ho Hs. apply Scan_cast. by apply IH.
  - exists (Special (quote v) :: lts). split; [done|]. intros prev n o ts Ho Hs.
    rewrite string_app_assoc. apply (Scan_special _ _ _ (quote v) (w +:+ o)).
    + apply skipSpecial_quote. rewrite starts_app. by destruct w.
    + apply IH; [done|]. by rewrite <- last_byte_app.
Qed.

(** ** Filling the placeholders of a statement *)

(** The literals of the bindings begin with a harmless byte or a quote. *)
Definition good_literal (lit : string) : Prop :=
  safe lit ∧ ∃ c t, lit = String c t ∧ (harmless c || bool_decide (c = sq)) = true.

(** [ts'] is [ts] with every placeholder replaced by the tokens of its literal. *)
Inductive fills (f : Z → result string) : list token → list token → Prop :=
  | fills_nil : fills f [] []
  | fills_hole src i lit lts ts ts' :
      f i = Ok lit → Scan None 1 lit lts → existsb is_hole lts = false →
      fills f ts ts' → fills f (Hole src i :: ts) (lts ++ ts')
  | fills_other tk ts ts' : is_hole tk = false → fills f ts ts' → fills f (tk :: ts) (tk :: ts').

(** Placeholders stand apart: not next to each other, to a string literal or to a
    colon. *)
Definition apart (t1 t2 : token) : bool :=
  match t1, t2 with
  | Hole _ _, Hole _ _ => false
  | Hole _ _, Special a => negb (starts sq a)
  | Hole _ _, Plain a => negb (bool_decide (a = ":"))
  | Special a, Hole _ _ => negb (bool_decide (last_byte None a = Some sq))
  | Plain a, Hole _ _ => negb (bool_decide (a = ":"))
  | _, _ => true
  end.
Fixpoint spaced (ts : list token) : bool :=
  match ts with
  | t1 :: ((t2 :: _) as ts') => apart t1 t2 && spaced ts'
  | _ => true
  end.

Lemma spaced_cons t ts : spaced (t :: ts) = true →
  spaced ts = true ∧ match ts with t2 :: _ => apart t t2 = true | [] => True end.
Proof. destruct ts as [|t2 ts]; cbn [spaced]; [done|]. rewrite andb_true_iff. tauto. Qed.

(** How the text of a filled statement begins. *)
Lemma filled_head prev n f ts s o : (∀ i lit, f i = Ok lit → good_literal lit) →
  Scan prev n s ts → filled f ts = Ok o →
  (s = "" → o = "") ∧
  ∀ c s', s = String c s' → ∃ d o', o = String d o' ∧
    (d = c ∨ ∃ src i ts', ts = Hole src i :: ts' ∧ (harmless d || bool_decide (d = sq)) = true).
Proof.
  intros Hf Hs Ho.
  assert (Hhole : ∀ src i ts', ts = Hole src i :: ts' → ∃ d o', o = String d o' ∧
    (harmless d || bool_decide (d = sq)) = true).
  { intros src i ts' ->. cbn [filled] in Ho. destruct (f i) as [lit|] eqn:E; [|done].
    destruct (Hf i lit E) as [_ (d & t & -> & Hd)]. destruct (filled f ts') as [o2|]; [|done].
    injection Ho as <-. eauto. }
  inversion Hs; subst.
  - cbn in Ho. by injection Ho as <-.
  - split; [intros ->; done|]. intros c s' ->. cbn [filled src_of] in Ho.
    destruct (filled f ts0) as [o2|]; [|done]. injection Ho as <-.
    apply skipSpecial_app in H as [E Hne]. destruct a as [|c' a]; [done|]. injection E as <- _. cbn. eauto.
  - split; [done|]. intros c s' [= <- <-]. destruct (Hhole _ _ _ eq_refl) as (d & o' & -> & ?). eauto 9.
  - split; [done|]. intros c s' [= <- <-]. cbn [filled src_of] in Ho.
    destruct (filled f ts0) as [o2|]; [|done]. injection Ho as <-. cbn. eauto.
  - split; [done|]. intros c s' [= <- <-]. destruct (Hhole _ _ _ eq_refl) as (d & o' & -> & ?). eauto 9.
  - split; [done|]. intros c s' [= <- <-]. cbn [filled src_of] in Ho.
    destruct (filled f ts0) as [o2|]; [|done]. injection Ho as <-. cbn. eauto.
  - split; [done|]. intros c' s' [= <- <-]. cbn [filled src_of] in Ho.
    destruct (filled f ts0) as [o2|]; [|done]. injection Ho as <-. cbn. eauto.
Qed.

(** The same without a placeholder in front: the first byte is kept. *)
Lemma filled_same_head prev n f ts s o c : (∀ i lit, f i = Ok lit → good_literal lit) →
  Scan prev n s ts → filled f ts = Ok o →
  match ts with Hole _ _ :: _ => False | _ => True end → starts c o = starts c s.
Proof.
  intros Hf Hs Ho Hts. destruct (filled_head _ _ _ _ _ _ Hf Hs Ho) as [Hn Hc].
  destruct s as [|d s]; [by rewrite Hn|].
  destruct (Hc d s eq_refl) as (e & o' & -> & [->|(src & i & ts' & -> & _)]); done.
Qed.

(** Digits that run up to an identifier stay so. *)
Lemma filled_ident prev n f ts s o : (∀ i lit, f i = Ok lit → good_literal lit) →
  Scan prev n s ts → filled f ts = Ok o →
  ident_next (trim_left is_digit s) = true → ident_next (trim_left is_digit o) = true.
Proof.
  intros Hf Hs. revert o.
  induction Hs as [prev n|prev n s a b ts E Hs IH|prev n t ts Hs IH|prev n u ts Hs IH
    |prev n t ts Hd Hn Hb Hs IH|prev n t ts Hst Hor Hs IH|prev n c t ts E Hq Hc Hs IH];
    intros o Ho Hi; try done; cbn [filled src_of] in Ho.
  - destruct (filled f ts) as [o2|]; [|done]. injection Ho as <-.
    pose proof (skipSpecial_app _ _ _ E) as [-> Hne]. destruct a as [|c a]; [done|].
    cbn in *. destruct (is_digit c) eqn:Ed; [|done]. exfalso.
    assert (Hnone : skipSpecial (String c (a +:+ b)) = None);
      [|change (skipSpecial (String c (a +:+ b)) = Some (String c a, b)) in E; congruence].
    assert (Hh : harmless c = true) by (destruct c as [[] [] [] [] [] [] [] []]; done).
    apply harmless_spec in Hh as (? & ? & _ & _ & Hop & _). by apply skipSpecial_None.
  - destruct (filled f ts) as [o2|] eqn:Ef; [|done]. injection Ho as <-. cbn in *.
    destruct (is_digit c); [by apply IH|done].
Qed.

Definition colon_first (ts : list token) : bool :=
  match ts with Plain a :: _ => bool_decide (a = ":") | _ => false end.

(** What follows a placeholder in the filled text is no quote. *)
Lemma after_hole prev n f src i ts s o : (∀ i lit, f i = Ok lit → good_literal lit) →
  Scan prev n s ts → filled f ts = Ok o → spaced (Hole src i :: ts) = true →
  starts sq o = false ∧ colon_first ts = false.
Proof.
  intros Hf Hs Ho [_ Ha]%spaced_cons. split; [|destruct ts as [|[] ]; try done; by apply negb_true_iff].
  inversion Hs; subst; cbn in Ha; try done.
  - cbn in Ho. by injection Ho as <-.
  - rewrite (filled_same_head _ _ _ _ _ _ sq Hf Hs Ho I). apply skipSpecial_app in H as [-> Hne].
    destruct a; [done|]. by apply negb_true_iff in Ha.
  - rewrite (filled_same_head _ _ _ _ _ _ sq Hf Hs Ho I). done.
  - rewrite (filled_same_head _ _ _ _ _ _ sq Hf Hs Ho I). cbn. apply skipSpecial_None in H as (? & _).
    by apply bool_decide_eq_false.
Qed.

(** Reading a filled placeholder. *)
Lemma scan_hole f src i lit ts o ts2 prev n :
  f i = Ok lit → good_literal lit → starts sq o = false →
  Scan (last_byte prev lit) n o ts2 → fills f ts ts2 →
  ∃ ts', Scan prev n (lit +:+ o) ts' ∧ fills f (Hole src i :: ts) ts'.
Proof.
  intros Hi [Hs _] Ho Hsc Hf. destruct (safe_scan lit Hs) as (lts & Hl & Hscan).
  exists (lts ++ ts2). split; [by apply Hscan|]. econstructor; [exact Hi| |exact Hl|exact Hf].
  rewrite <- (app_nil_r lts), <- (string_app_nil_r lit). apply Hscan; [done|]. constructor.
Qed.

(** The filled text after a special section does not run into it. *)
Lemma follows_filled prev n f a b ts o :
  (∀ i lit, f i = Ok lit → good_literal lit) → Scan prev n b ts → filled f ts = Ok o →
  skipSpecial (a +:+ b) = Some (a, b) → spaced (Special a :: ts) = true → follows a b o.
Proof.
  intros Hf Hs Ho Hsp [_ Ha]%spaced_cons.
  destruct (filled_head _ _ _ _ _ _ Hf Hs Ho) as [Hn Hc]. unfold follows. split_all; [done| |].
  - intros [t ->]%starts_spec. destruct (Hc _ _ eq_refl) as (d & o' & -> & [->|(src & i & ts' & -> & _)]).
    + cbn. by apply bool_decide_eq_true.
    + inversion Hs.
  - intros q Hq Hl Hb. destruct o as [|d o']; [done|]. cbn. apply bool_decide_eq_false. intros ->.
    destruct b as [|c s']; [by specialize (Hn eq_refl)|].
    destruct (Hc c s' eq_refl) as (e & o2 & [= <- <-] & [->|(src & i & ts' & -> & Hh)]).
    + cbn in Hb. by apply bool_decide_eq_false in Hb.
    + cbn in Ha. apply negb_true_iff, bool_decide_eq_false in Ha.
      destruct Hq as [->| ->]; [done|]. by cbv in Hh.
Qed.

(** Filling the placeholders changes nothing else of how the statement is read. *)
Lemma scan_filled f prev n s ts : (∀ i lit, f i = Ok lit → good_literal lit) →
  Scan prev n s ts → spaced ts = true → ∀ prev' n' out,
  (colon_first ts = true → ident_before prev' = ident_before prev) → filled f ts = Ok out →
  ∃ ts', Scan prev' n' out ts' ∧ fills f ts ts'.
Proof.
  intros Hf Hs.
  induction Hs as [prev n|prev n s a b ts E Hs IH|prev n t ts Hs IH|prev n u ts Hs IH
    |prev n t ts Hd Hn Hb Hs IH|prev n t ts Hst Hor Hs IH|prev n c t ts E Hq Hc Hs IH];
    intros Hsp prev' n' out Hprev Ho; pose proof Hsp as [Hsp' Hap]%spaced_cons || clear Hsp;
    cbn [filled src_of] in Ho.
  - injection Ho as <-. exists []. split; constructor.
  - destruct (filled f ts) as [o|] eqn:Ef; [|done]. injection Ho as <-.
    pose proof (skipSpecial_app _ _ _ E) as [-> Hne].
    destruct (IH Hsp' (last_byte prev' a) n' o) as (ts' & Hs' & Hfill); [|done|].
    { intros _. by rewrite (last_byte_nonempty prev' prev). }
    exists (Special a :: ts'). split; [|by constructor]. apply (Scan_special _ _ _ a o); [|done].
    eapply skipSpecial_ext; [exact E|]. by eapply follows_filled.
  - destruct (f n) as [lit|] eqn:Ei; [|done]. destruct (filled f ts) as [o|] eqn:Ef; [|done].
    injection Ho as <-. destruct (after_hole _ _ _ _ _ _ _ _ Hf Hs Ef Hsp) as [Hsq Hcf].
    destruct (IH Hsp' (last_byte prev' lit) n' o) as (ts2 & Hs2 & Hfill); [congruence|done|].
    eapply scan_hole; eauto.
  - destruct (filled f ts) as [o|] eqn:Ef; [|done]. injection Ho as <-.
    destruct (IH Hsp' (Some colon) n' o) as (ts' & Hs' & Hfill); [done|done|].
    exists (Plain "::" :: ts'). split; [by apply Scan_cast|by constructor].
  - destruct (f _) as [lit|] eqn:Ei; [|done]. destruct (filled f ts) as [o|] eqn:Ef; [|done].
    injection Ho as <-. destruct (after_hole _ _ _ _ _ _ _ _ Hf Hs Ef Hsp) as [Hsq Hcf].
    destruct (IH Hsp' (last_byte prev' lit) n' o) as (ts2 & Hs2 & Hfill); [congruence|done|].
    eapply scan_hole; eauto.
  - destruct (filled f ts) as [o|] eqn:Ef; [|done]. injection Ho as <-.
    destruct (IH Hsp' (Some colon) n' o) as (ts' & Hs' & Hfill); [done|done|].
    assert (Hh : match ts with Hole _ _ :: _ => False | _ => True end) by (by destruct ts as [|[] ]).
    exists (Plain ":" :: ts'). split; [|by constructor]. apply Scan_colon; [| |done].
    + by rewrite (filled_same_head _ _ _ _ _ _ colon Hf Hs Ef Hh).
    + destruct Hor as [Hor|[Hor|Hor]].
      * left. destruct o as [|d o]; [done|]. cbn.
        assert (Hd : starts d t = true).
        { rewrite <- (filled_same_head _ _ _ _ _ _ d Hf Hs Ef Hh). cbn. by apply bool_decide_eq_true. }
        apply starts_spec in Hd as [t' ->]. cbn in Hor. by destruct (is_digit d).
      * right. left. exact (filled_ident _ _ _ _ _ _ Hf Hs Ef Hor).
      * right. right. rewrite Hprev; [done|]. cbn. by apply bool_decide_eq_true.
  - destruct (filled f ts) as [o|] eqn:Ef; [|done]. injection Ho as <-.
    destruct (IH Hsp' (Some c) n' o) as (ts' & Hs' & Hfill); [done|done|].
    exists (Plain (String c "") :: ts'). split; [|by constructor]. apply Scan_plain; [|done|done|done].
    apply skipSpecial_None in E as (H1 & H2 & H3). apply skipSpecial_None. split_all; [done|done|].
    intros d u ->. destruct (filled_head _ _ _ _ _ _ Hf Hs Ef) as [Hn' Hc'].
    destruct t as [|e t]; [by specialize (Hn' eq_refl)|].
    destruct (Hc' e t eq_refl) as (d' & o' & [= <- <-] & [->|(src & i & ts2 & _ & Hh)]); [by eapply H3|].
    apply orb_true_iff in Hh as [Hh|Hh%bool_decide_eq_true]; [by apply harmless_spec in Hh as (_ & _ & _ & _ & _ & Hop)|].
    subst d. destruct c as [[] [] [] [] [] [] [] []]; done.
Qed.

(** ** Literals of bindings *)

Lemma safe_text a w : all_bytes harmless a = true → safe w → safe (a +:+ w).
Proof.
  unfold all_bytes. intros Ha Hw. induction a as [|c a IH]; [done|]. cbn in *.
  apply andb_true_iff in Ha as [Hc Ha]. constructor; auto.
Qed.

Lemma harmless_digit c : is_digit c = true → harmless c = true.
Proof. by destruct c as [[] [] [] [] [] [] [] []]. Qed.

Lemma harmless_digits s : all_bytes is_digit s = true → all_bytes harmless s = true.
Proof.
  unfold all_bytes. rewrite !forallb_forall. intros H c Hc. by apply harmless_digit, H.
Qed.

(** An optional sign before digits. *)
Lemma safe_signed s w : skip_sign s ≠ "" → all_bytes is_digit (skip_sign s) = true → safe w → safe (s +:+ w).
Proof.
  intros Hne Hd Hw. assert (Hs : safe (skip_sign s +:+ w)) by (apply safe_text; [by apply harmless_digits|done]).
  destruct s as [|c s]; [done|]. destruct (decide (c = "-"%char)) as [->|Hm].
  - cbn in *. destruct s as [|d s]; [done|]. cbn in *. apply safe_minus; [|done].
    unfold all_bytes in Hd. cbn in Hd. apply andb_true_iff in Hd as [? _]. by apply harmless_digit.
  - destruct (decide (c = "+"%char)) as [->|Hp]; [by apply safe_char|].
    assert (E : skip_sign (String c s) = String c s) by (destruct c as [[] [] [] [] [] [] [] []]; done).
    by rewrite E in Hs.
Qed.

Lemma safe_exponent s w : exponent_ok s = true → safe w → safe (s +:+ w).
Proof.
  destruct s as [|c t]; [done|]. cbn [exponent_ok].
  rewrite !andb_true_iff, orb_true_iff, !bool_decide_eq_true. intros [[Hc Hne] Hd] Hw.
  cbn. apply safe_char; [by destruct Hc as [-> | ->]|]. by apply safe_signed.
Qed.

(** A number without its sign: safe, and it begins with a digit or a point. *)
Lemma safe_decimal v w : decimalRe v = true → safe w →
  safe (skip_sign v +:+ w) ∧ ∃ c t, skip_sign v = String c t ∧ harmless c = true.
Proof.
  unfold decimalRe. set (t := skip_sign v). intros H Hw.
  assert (Hds : all_bytes harmless (take_while is_digit t) = true) by apply harmless_digits, all_take_while.
  assert (Hrest : safe (trim_left is_digit t +:+ w) ∧
    (take_while is_digit t ≠ "" ∨ ∃ u, trim_left is_digit t = String "." u)).
  { assert (Hplain : bool_decide (take_while is_digit t ≠ "") && exponent_ok (trim_left is_digit t) = true →
      safe (trim_left is_digit t +:+ w) ∧
      (take_while is_digit t ≠ "" ∨ ∃ u, trim_left is_digit t = String "." u)).
    { intros [?%bool_decide_eq_true He]%andb_true_iff. split; [by apply safe_exponent|by left]. }
    destruct (trim_left is_digit t) as [|d u] eqn:Et; [by apply Hplain|].
    destruct (decide (d = "."%char)) as [->|Hd].
    - apply andb_true_iff in H as [_ He]. split; [|right; eauto]. cbn. apply safe_char; [done|].
      rewrite <- (take_trim is_digit u), string_app_assoc. apply safe_text; [by apply harmless_digits, all_take_while|].
      by apply safe_exponent.
    - apply Hplain. destruct d as [[] [] [] [] [] [] [] []]; done. }
  destruct Hrest as [Hr Hhead]. split.
  - rewrite <- (take_trim is_digit t), string_app_assoc. by apply safe_text.
  - destruct t as [|c t']; [cbn in Hhead; destruct Hhead as [?|[u ?]]; done|]. exists c, t'. split; [done|].
    cbn in Hhead. destruct (is_digit c) eqn:Ed; [by apply harmless_digit|].
    destruct Hhead as [?|[u [= -> _]]]; done.
Qed.

Lemma intRe_decimalRe v : intRe v = true → decimalRe v = true.
Proof.
  unfold intRe, decimalRe. rewrite andb_true_iff, bool_decide_eq_true. intros [Hne Hd].
  destruct (take_trim_ext is_digit (skip_sign v) "" Hd) as [E1 E2]; [done|].
  rewrite string_app_nil_r in *. rewrite E1, E2. by rewrite bool_decide_true.
Qed.

Lemma safe_paren v w : decimalRe v = true → safe w → good_literal (parenNegative v +:+ w).
Proof.
  intros Hv Hw. unfold parenNegative. destruct (HasPrefix v "-") eqn:E.
  - apply HasPrefix_spec in E as [t ->]. rewrite !string_app_assoc.
    destruct (safe_decimal _ (")" +:+ w) Hv) as (Hs & c & u & E & Hc); [by apply safe_text|].
    cbn in E, Hs. subst t. split; [|by eexists _, _]. cbn. apply safe_char; [done|]. by apply safe_minus.
  - destruct (safe_decimal v w Hv Hw) as (Hs & c & u & Eu & Hc).
    assert (Et : TrimPrefix v "+" = skip_sign v).
    { destruct v as [|d v]; [done|]. unfold TrimPrefix. cbn [TrimPrefixOpt].
      destruct (decide ("+"%char = d)) as [<-|Hp]; [done|].
      cbn. destruct d as [[] [] [] [] [] [] [] []]; done. }
    rewrite Et. split; [done|]. rewrite Eu. exists c, (u +:+ w). by rewrite Hc.
Qed.

(** Quoted text inside harmless text. *)
Lemma good_quoted a v b : all_bytes harmless a = true → safe b → starts sq b = false →
  good_literal (a +:+ quote v +:+ b).
Proof.
  intros Ha Hb Hs. split; [apply safe_text; [done|by apply safe_quote]|].
  destruct a as [|c a].
  - rewrite quote_eq. cbn. by eexists _, _.
  - unfold all_bytes in Ha. cbn in *. apply andb_true_iff in Ha as [Hc _]. eexists c, _. by rewrite Hc.
Qed.

Lemma good_text a : all_bytes harmless a = true → a ≠ "" → good_literal a.
Proof.
  intros Ha Hne. split; [rewrite <- (string_app_nil_r a); apply safe_text; [done|constructor]|].
  destruct a as [|c a]; [done|]. unfold all_bytes in Ha. cbn in Ha. apply andb_true_iff in Ha as [Hc _]. exists c, a. by rewrite Hc.
Qed.

Section literals.
Context (unmarshal_string : string → option string).
Context (parse_float : string → option Float).

(** What [strconv.FormatFloat] writes is a decimal number. *)
Hypothesis float_text : ∀ s text, parse_float s = Some (Finite text) → decimalRe text = true.

Lemma literal_good b lit : literal unmarshal_string parse_float b = Ok lit → good_literal lit.
Proof.
  assert (Hcast : ∀ v b, all_bytes harmless b = true → starts sq b = false →
    good_literal ("CAST(" +:+ quote v +:+ b)).
  { intros v b' Hb Hs. apply good_quoted; [done| |done]. rewrite <- (string_app_nil_r b').
    apply safe_text; [done|constructor]. }
  assert (Hdouble : safe "::DOUBLE") by (apply (safe_cast "DOUBLE"), (safe_text "DOUBLE" ""); [done|constructor]).
  unfold literal. cbv zeta.
  destruct (bool_decide _ || bool_decide _); [intros [= <-]; by apply good_text|].
  destruct (HasPrefix _ _); [done|]. destruct (unmarshal_string (Value b)) as [v|]; [|done].
  case_decide.
  { destruct (intRe v || decimalRe v) eqn:E; intros [= <-]. rewrite <- (string_app_nil_r (parenNegative v)).
    apply safe_paren; [|constructor]. apply orb_true_iff in E as [?%intRe_decimalRe|?]; done. }
  case_decide.
  { destruct (parse_float v) as [[| | |text]|] eqn:E; intros [= <-].
    - by apply (good_quoted "" "NaN" "::DOUBLE").
    - by apply (good_quoted "" "Infinity" "::DOUBLE").
    - by apply (good_quoted "" "-Infinity" "::DOUBLE").
    - apply safe_paren; [by eapply float_text|done]. }
  case_decide; [repeat case_bool_decide; intros [= <-]; by apply good_text|].
  case_decide; [destruct (intRe v); intros [= <-]; by apply Hcast|].
  case_decide; [destruct (intRe v); intros [= <-]; by apply Hcast|].
  case_decide; [destruct (epochNanos v); intros [= <-]; by apply Hcast|].
  destruct (bool_decide _ || bool_decide _); [destruct (epochNanos v); intros [= <-]; by apply Hcast|].
  case_decide; [destruct (hexRe v); intros [= <-]|intros [= <-]].
  - apply (good_quoted "from_hex(" v ")"); [done| |done]. apply (safe_text ")" ""); [done|constructor].
  - rewrite <- (string_app_nil_r (quote v)). apply (good_quoted "" v ""); [done|constructor|done].
Qed.

Lemma bind_lookup_good bindings i lit :
  bind_lookup unmarshal_string parse_float bindings i = Ok lit → good_literal lit.
Proof. unfold bind_lookup. destruct (bindings !! Itoa i); [apply literal_good|done]. Qed.
End literals.

Lemma fills_no_hole f ts ts' : fills f ts ts' → existsb is_hole ts' = false.
Proof.
  induction 1 as [|? ? ? ? ? ? ? ? Hl ? IH|tk ? ? Hh ? IH]; [done| |]; cbn.
  - by rewrite existsb_app, Hl, IH.
  - by rewrite Hh, IH.
Qed.

(** ** Bulk bindings: proofs *)

Section bulk.
Context (unmarshal_string : string → option string).
Context (parse_float : string → option Float).
Context (unmarshal_array : string → option (list string)).
Implicit Type bindings : gmap string Binding.

(** The columns read so far belong to array bindings and have [n] values. *)
Definition columns_ok bindings (n : option nat) (cols : gmap string (list string)) : Prop :=
  ∀ k vals, cols !! k = Some vals → n = Some (length vals) ∧
    ∃ b, bindings !! k = Some b ∧ isArray (Value b) = true ∧ unmarshal_array (Value b) = Some vals.

Lemma bind_columns_spec bindings keys n cols n' cols' :
  columns_ok bindings n cols →
  bind_columns unmarshal_array bindings keys n cols = Ok (n', cols') →
  columns_ok bindings n' cols' ∧
  ∀ k b, bindings !! k = Some b → isArray (Value b) = true →
    k ∈ keys ∨ is_Some (cols !! k) → is_Some (cols' !! k).
Proof.
  revert n cols. induction keys as [|k keys IH]; intros n cols Hok; cbn [bind_columns].
  { intros [= <- <-]. split; [done|]. intros k b _ _ [?%not_elem_of_nil|?]; done. }
  destruct (bindings !! k) as [b|] eqn:Eb; [|done].
  assert (Hadd : ∀ vals, unmarshal_array (Value b) = Some vals → isArray (Value b) = true →
      n = None ∨ n = Some (length vals) → columns_ok bindings (Some (length vals)) (<[k := vals]> cols)).
  { intros vals Hu Ha Hn k' vals' [[<- <-]|[_ Hk]]%lookup_insert_Some; [eauto|].
    destruct (Hok k' vals' Hk) as [-> ?]. destruct Hn as [?|[= ->]]; [done|]. auto. }
  assert (Hstep : ∀ n1 cols1, columns_ok bindings n1 cols1 →
      (∀ j, is_Some (cols !! j) → is_Some (cols1 !! j)) →
      (isArray (Value b) = true → is_Some (cols1 !! k)) →
      bind_columns unmarshal_array bindings keys n1 cols1 = Ok (n', cols') →
      columns_ok bindings n' cols' ∧ ∀ j c, bindings !! j = Some c → isArray (Value c) = true →
        j ∈ k :: keys ∨ is_Some (cols !! j) → is_Some (cols' !! j)).
  { intros n1 cols1 Hok1 Hmono Hk [Hok2 Hin]%IH; [|done]. split; [done|].
    intros j c Hj Ha Hor. apply (Hin j c Hj Ha). destruct Hor as [[->|?]%elem_of_cons|?]; auto.
    right. apply Hk. by simplify_eq. }
  destruct (isArray (Value b)) eqn:Ea; cbn [negb]; [|by apply Hstep].
  destruct (unmarshal_array (Value b)) as [vals|] eqn:Eu; [|done].
  assert (Hmono : ∀ j, is_Some (cols !! j) → is_Some (<[k := vals]> cols !! j)).
  { intros j Hj. destruct (decide (j = k)) as [->|]; [rewrite lookup_insert_eq; eauto|by rewrite lookup_insert_ne]. }
  assert (Hk : true = true → is_Some (<[k := vals]> cols !! k)) by (rewrite lookup_insert_eq; eauto).
  destruct n as [m|]; [case_decide as Em; [|done]; subst m|]; apply Hstep; auto.
Qed.

(** The row of a bulk binding that a placeholder reads: the value of its column, or
    the scalar. *)
Definition row_value bindings (r : nat) (k : string) (c : Binding) : Prop :=
  ∃ b, bindings !! k = Some b ∧
    if isArray (Value b)
    then ∃ vals v, unmarshal_array (Value b) = Some vals ∧ vals !! r = Some v ∧ c = mkBinding (Type_ b) v
    else c = b.

Lemma splitRows_spec `{MapRange} bindings rows :
  splitRows unmarshal_array bindings = Ok rows →
  rows ≠ [] ∧
  (∀ k b, bindings !! k = Some b → isArray (Value b) = true →
     ∃ vals, unmarshal_array (Value b) = Some vals ∧ length vals = length rows) ∧
  (∀ r row, rows !! r = Some row →
     dom row = dom bindings ∧ ∀ k c, row !! k = Some c → row_value bindings r k c).
Proof.
  unfold splitRows. set (keys := merge_sort _ _).
  assert (Hkeys : ∀ k b, bindings !! k = Some b → k ∈ keys).
  { intros k b Hb. unfold keys. rewrite merge_sort_Permutation. apply list_elem_of_fmap.
    exists (k, b). split; [done|]. by apply elem_of_map_range. }
  destruct (bind_columns _ _ _ _ _) as [[[n|] cols]|e] eqn:Ec; [|done..].
  apply bind_columns_spec in Ec as [Hok Hin]; [|by intros k vals; rewrite lookup_empty].
  destruct n as [|n]; [done|]. intros Heq.
  assert (rows = bind_row bindings cols <$> seq 0 (S n)) as -> by congruence. clear Heq.
  assert (Harr : ∀ k b, bindings !! k = Some b → isArray (Value b) = true →
    ∃ vals, cols !! k = Some vals ∧ unmarshal_array (Value b) = Some vals ∧ length vals = S n).
  { intros k b Hb Ha. destruct (Hin k b Hb Ha) as [vals Hv]; [left; by eapply Hkeys|].
    destruct (Hok k vals Hv) as ([= ->] & b' & Hb' & _ & Hu). rewrite Hb in Hb'. injection Hb' as <-. eauto. }
  assert (Hcols : ∀ k b, bindings !! k = Some b → isArray (Value b) = false → cols !! k = None).
  { intros k b Hb Ha. destruct (cols !! k) as [vals|] eqn:Ev; [|done].
    destruct (Hok k vals Ev) as (_ & b' & Hb' & Ha' & _). congruence. }
  split_all; [done| |].
  - intros k b Hb Ha. destruct (Harr k b Hb Ha) as (vals & _ & ? & ?). exists vals.
    by rewrite length_fmap, length_seq.
  - intros r row Hr. rewrite list_lookup_fmap in Hr.
    destruct (seq 0 (S n) !! r) as [r'|] eqn:Er; [|done]. apply lookup_seq in Er as [-> Hlt].
    cbn in Hr. injection Hr as <-.
    assert (Hrow : ∀ k, bind_row bindings cols r !! k = bindings !! k ≫= λ b,
      match cols !! k with Some vals => mkBinding (Type_ b) <$> vals !! r | None => Some b end)
      by (intros k; unfold bind_row; apply map_lookup_imap).
    assert (Hval : ∀ k b, bindings !! k = Some b →
      ∃ c, bind_row bindings cols r !! k = Some c ∧ row_value bindings r k c).
    { intros k b Hb. rewrite Hrow, Hb. cbn. unfold row_value. destruct (isArray (Value b)) eqn:Ea.
      - destruct (Harr k b Hb Ea) as (vals & -> & Hu & Hl).
        destruct (lookup_lt_is_Some_2 vals r) as [v Hv]; [lia|]. rewrite Hv. cbn.
        eexists. split; [done|]. exists b. rewrite Ea. split; [done|]. eauto.
      - rewrite (Hcols k b Hb Ea). exists b. split; [done|]. exists b. by rewrite Ea. }
    split.
    + apply set_eq. intros k. rewrite !elem_of_dom. split.
      * rewrite Hrow. intros [c Hc]. destruct (bindings !! k); [eauto|done].
      * intros [b Hb]. destruct (Hval k b Hb) as (c & -> & _). eauto.
    + intros k c Hc. destruct (bindings !! k) as [b|] eqn:Eb.
      * destruct (Hval k b Eb) as (c' & Hc' & Hv). rewrite Hc in Hc'. by injection Hc' as ->.
      * by rewrite Hrow, Eb in Hc.
Qed.

Lemma substitute_rows_spec sql rows out :
  substitute_rows unmarshal_string parse_float sql rows = Ok out →
  Forall2 (λ row t, Substitute unmarshal_string parse_float sql row = Ok t) rows out.
Proof.
  revert out. induction rows as [|row rows IH]; intros out; cbn [substitute_rows].
  { intros [= <-]. constructor. }
  destruct (Substitute _ _ sql row) as [t|] eqn:E; [|done].
  destruct (substitute_rows _ _ sql rows) as [ts|]; [|done]. intros [= <-]. by constructor; [|apply IH].
Qed.
End bulk.

(** ** Properties *)

(** C22: bound data never alters the structure of a statement.  When the
    placeholders stand apart - not next to each other, to a string literal or to a
    colon - the text that [Substitute] returns is read, token by token, as the
    original with every placeholder replaced by its literal: every string, quoted
    identifier, comment and other byte of the statement stays what it was, each
    literal is read exactly as it is on its own, and no placeholder is left. *)
Theorem substitute_keeps_structure unmarshal_string parse_float sql ts bindings out :
  (∀ s text, parse_float s = Some (Finite text) → decimalRe text = true) →
  Scan None 1 sql ts → spaced ts = true → bindings ≠ ∅ →
  Substitute unmarshal_string parse_float sql bindings = Ok out →
  (∃ ts', Scan None 1 out ts' ∧ fills (bind_lookup unmarshal_string parse_float bindings) ts ts') ∧
  hasPlaceholder out = false.
Proof.
  intros Hfl Hs Hsp Hne. unfold Substitute. rewrite decide_False by done.
  rewrite (render_filled _ _ _ Hs). intros Ho.
  destruct (scan_filled (bind_lookup unmarshal_string parse_float bindings) None 1 sql ts
    (bind_lookup_good _ _ Hfl bindings) Hs Hsp None 1 out) as (ts' & Hs' & Hf); [done|done|].
  split; [eauto|]. rewrite (hasPlaceholder_scan _ _ Hs'). by eapply fills_no_hole.
Qed.

(** Substitution always ends, whatever the statement.  The statement is the
    concatenation of its tokens; the result is the same concatenation with the
    literal of binding [i] in place of every placeholder numbered [i], or the
    error of the first binding that is missing or invalid; without bindings the
    statement is returned unchanged; a describe-only request gets NULL everywhere. *)
Theorem substitute_fills unmarshal_string parse_float sql bindings :
  ∃ ts, Scan None 1 sql ts ∧ GoStrings.Join "" (src_of <$> ts) = sql ∧
    Substitute unmarshal_string parse_float sql bindings =
      (if decide (bindings = ∅) then Ok sql
       else filled (bind_lookup unmarshal_string parse_float bindings) ts) ∧
    Ok (FillNull sql) = filled (λ _, Ok "NULL") ts ∧
    hasPlaceholder sql = existsb is_hole ts.
Proof.
  destruct (scan_exists None 1 sql) as [ts Hs]. exists ts.
  split_all; [done|by eapply scan_src| | |by apply hasPlaceholder_scan].
  - unfold Substitute. case_decide; [done|]. by rewrite (render_filled _ _ _ Hs).
  - unfold FillNull. rewrite (render_filled _ _ _ Hs).
    assert (Hok : ∀ ts, is_ok (filled (λ _, Ok "NULL") ts) = true).
    { intros us. induction us as [|[]]; cbn; [done|..]; by destruct (filled _ us). }
    specialize (Hok ts). by destruct (filled _ ts).
Qed.

(** Bulk bindings.  When a statement with array bindings expands, every array
    has one value per row and there is at least one row; the bindings of row [r]
    are the [r]-th value of every array and the scalars as they are.  An
    [INSERT ... VALUES] becomes one statement with one tuple per row, and any
    other statement one statement per row, in the order of the rows. *)
Theorem expand_bulk `{MapRange} unmarshal_string parse_float unmarshal_array sql bindings stmts :
  IsBulk bindings = true →
  Expand unmarshal_string parse_float unmarshal_array sql bindings = Ok stmts →
  ∃ rows, rows ≠ [] ∧
    (∀ k b, bindings !! k = Some b → isArray (Value b) = true →
       ∃ vals, unmarshal_array (Value b) = Some vals ∧ length vals = length rows) ∧
    (∀ r row, rows !! r = Some row → dom row = dom bindings ∧
       ∀ k c, row !! k = Some c → row_value unmarshal_array bindings r k c) ∧
    match splitInsertValues sql with
    | Some (prefix, tuple) =>
        ∃ ts, Forall2 (λ row t, Substitute unmarshal_string parse_float tuple row = Ok t) rows ts ∧
          stmts = [prefix +:+ " VALUES " +:+ GoStrings.Join ", " ts]
    | None => Forall2 (λ row t, Substitute unmarshal_string parse_float sql row = Ok t) rows stmts
    end.
Proof.
  intros Hb. unfold Expand. rewrite Hb. cbn [negb].
  destruct (splitRows unmarshal_array bindings) as [rows|] eqn:Er; [|done].
  apply splitRows_spec in Er as (Hne & Hlen & Hrows). intros He. exists rows. split_all; [done..|].
  destruct (splitInsertValues sql) as [[prefix tuple]|]; [|by apply substitute_rows_spec].
  destruct (substitute_rows _ _ tuple rows) as [ts|] eqn:Es; [|done]. injection He as <-.
  exists ts. split; [by apply substitute_rows_spec|done].
Qed.

(** ** Witnesses *)

(** Decoders that know the values used below. *)
Definition sample_string (raw : string) : option string :=
  match raw with
  | String c t => if decide (c = dq) then Some (TrimSuffix t (String dq "")) else None
  | "" => None
  end.
Definition sample_float (s : string) : option Float :=
  if decide (s = "1.50") then Some (Finite "1.5") else None.
Definition json (s : string) : string := String dq s +:+ String dq "".
Definition sample_bindings : gmap string Binding :=
  {["1" := mkBinding "TEXT" (json "it's ?"); "2" := mkBinding "REAL" (json "1.50")]}.

Definition sample_tokens : list token :=
  [Plain "a"; Plain "="; Hole "?" 1; Plain " "; Plain "b"; Plain "="; Hole ":2" 2].

Lemma sample_scan : Scan None 1 "a=? b=:2" sample_tokens.
Proof.
  do 2 (apply Scan_plain; [reflexivity|done|done|]). apply Scan_pos.
  do 3 (apply Scan_plain; [reflexivity|done|done|]).
  apply (Scan_num (Some "="%char) 2 "2" []); [done|done|done|]. constructor.
Qed.

Lemma substitute_keeps_structure_witness :
  Substitute sample_string sample_float "a=? b=:2" sample_bindings = Ok "a='it''s ?' b=1.5::DOUBLE" ∧
  hasPlaceholder "a='it''s ?' b=1.5::DOUBLE" = false.
Proof.
  assert (Hv : Substitute sample_string sample_float "a=? b=:2" sample_bindings
               = Ok "a='it''s ?' b=1.5::DOUBLE") by (vm_compute; reflexivity).
  split; [exact Hv|].
  refine (proj2 (substitute_keeps_structure sample_string sample_float "a=? b=:2" sample_tokens
    sample_bindings _ _ sample_scan _ _ Hv)).
  - intros s text. unfold sample_float. destruct (decide (s = "1.50")); [|discriminate].
    intros E. injection E as <-. reflexivity.
  - reflexivity.
  - intros E. apply (f_equal (λ m : gmap string Binding, m !! "1")) in E. vm_compute in E. discriminate.
Defined.

Definition sample_array (raw : string) : option (list string) :=
  if decide (raw = "[A]") then Some [json "x"; json "y"] else None.
Definition sample_bulk : gmap string Binding :=
  {["1" := mkBinding "TEXT" "[A]"; "2" := mkBinding "FIXED" (json "9")]}.

Lemma expand_bulk_witness :
  Expand (H:=key_order) sample_string sample_float sample_array
    "insert into t values (?, ?);" sample_bulk = Ok ["insert into t VALUES ('x', 9), ('y', 9)"] ∧
  ∃ rows : list (gmap string Binding), rows ≠ [] ∧ ∀ r row, rows !! r = Some row →
    dom row = dom sample_bulk ∧ ∀ k c, row !! k = Some c → row_value sample_array sample_bulk r k c.
Proof.
  assert (Hv : Expand (H:=key_order) sample_string sample_float sample_array
    "insert into t values (?, ?);" sample_bulk = Ok ["insert into t VALUES ('x', 9), ('y', 9)"])
    by (vm_compute; reflexivity).
  split; [exact Hv|].
  destruct (expand_bulk (H:=key_order) sample_string sample_float sample_array
    "insert into t values (?, ?);" sample_bulk _ ltac:(vm_compute; reflexivity) Hv)
    as (rows & Hne & _ & Hrows & _).
  exists rows. split; [exact Hne|exact Hrows].
Defined.

(** Without the condition on placeholders a literal may run into the text before
    it: here two strings become one. *)
Example adjacent_strings_merge :
  Substitute sample_string sample_float "'a'?" {["1" := mkBinding "TEXT" (json "b")]} = Ok "'a''b'" ∧
  Scan None 1 "'a''b'" [Special "'a''b'"].
Proof.
  split; [vm_compute; reflexivity|]. apply (Scan_special _ _ _ _ ""); [reflexivity|constructor].
Qed.
