(* ===== verification/Stage.v ===== *)
(** * Stages ([internal/stage/stage.go])

    A stage is a directory.  The file system is outside the program: its calls are
    parameters on a state [W], those on open files in a record [OsFiles], and the
    class [FileSystem] states what they promise.  The patterns of listings ([filepath.Match] and [regexp]) are
    parameters too. *)

From S2P Require Import Prelude GoStrings GoTime GoPath.

(** ** Data *)

Definition StageType : Type := string.
Definition StageInternal : StageType := "INTERNAL".
Definition StageExternal : StageType := "EXTERNAL".
Definition StageUser : StageType := "USER".
Definition StageTable : StageType := "TABLE".

Record StageMeta := mkMeta {
  Name : string;
  Type_ : StageType;
  URL : string;
  LocalPath : string;
  CreatedAt : Z;
}.

Record FileInfo := mkFile {
  f_Name : string;
  Size : Z;
  ModTime : Z;
  MD5 : string;
}.

Record Manager := mkManager {
  baseDir : string;
  stages : gmap string StageMeta;
}.

Record ListOptions := mkOptions {
  Prefix : string;
  Pattern : string;
  Regex : string;
  Checksum : bool;
}.

(** ** Names and paths *)

Definition NewManager (baseDir : string) : Manager := mkManager baseDir ∅.

Definition stageKey (db schema name : string) : string := ToUpper (dotted db schema name).

(** The error of [CreateStage] for a stage that exists. *)
Definition stage_exists (key : string) : string := "stage '" +:+ key +:+ "': stage already exists".
Definition no_stage (key : string) : string := "stage '" +:+ key +:+ "' does not exist".

Definition stage_dir (base db schema name : string) : string :=
  PathJoin [base; "stages"; ToUpper db; ToUpper schema; ToUpper name]%string.
Definition user_stage_dir (base user : string) : string :=
  PathJoin [base; "user_stages"; ToUpper user]%string.
Definition table_stage_dir (base db schema table : string) : string :=
  PathJoin [base; "table_stages"; ToUpper db; ToUpper schema; ToUpper table]%string.

Definition GetStage (m : Manager) (db schema name : string) : result StageMeta :=
  match stages m !! stageKey db schema name with
  | None => Err (no_stage (stageKey db schema name))
  | Some meta => Ok meta
  end.

(** The containment check. *)
Definition ResolveInStage (meta : StageMeta) (path : string) : result string :=
  let target := PathJoin [LocalPath meta; path] in
  match Rel (LocalPath meta) target with
  | Err e => Err ("invalid stage path " +:+ Quote path +:+ ": " +:+ e)
  | Ok rel =>
      if bool_decide (rel = "..") || HasPrefix rel "../"
      then Err ("stage path " +:+ Quote path +:+ " escapes the stage")
      else Ok target
  end.

(** ** Operations *)

(** What [filepath.WalkDir] hands to its callback: the path, the error if there is
    one, whether it is a directory, and what [d.Info()] says; [gone] stands for
    [fs.ErrNotExist]. *)
Inductive OsError : Type := gone | other (e : string).
Record WalkEntry := mkEntry {
  e_path : string;
  e_err : option OsError;
  e_dir : bool;
  e_info : Z * Z + OsError;
}.

(** [os.Open], [os.Create], [io.Copy(out, in)] and [f.Close()], on the handles of
    open files. *)
Record OsFiles (W : Type) := mkOsFiles {
  Handle : Type;
  os_Open : string → W → result Handle * W;
  os_Create : string → W → result Handle * W;
  io_Copy : Handle → Handle → W → result Z * W;
  file_Close : Handle → W → result unit * W;
}.
Arguments mkOsFiles {W}.
Arguments Handle {W}.
Arguments os_Open {W}.
Arguments os_Create {W}.
Arguments io_Copy {W}.
Arguments file_Close {W}.

(** [defer c()] before [m]: [c] runs at the end, and its error is dropped. *)
Definition deferring {W A} (c : GoM W unit) (m : GoM W A) : GoM W A :=
  λ w, let '(r, w) := m w in (r, (c w).2).

Definition copyFile {W} (os : OsFiles W) (src dst : string) : GoM W unit :=
  let! in_ := wrapped "open source" (os_Open os src) in
  deferring (file_Close os in_)
    (let! out := wrapped "create destination" (os_Create os dst) in
     deferring (file_Close os out)
       (let! _ := wrapped "copy" (io_Copy os out in_) in
        file_Close os out)).

Section stage.
Context {W : Type}.
Context (osMkdirAll osRemoveAll osRemove : string → W → result unit * W).
Context (osFiles : OsFiles W).
Context (walkDir : string → W → list WalkEntry).
Context (fileMD5 : string → W → string).
Context (glob : string → string → result bool).
Context (compile : string → result (string → bool)).

Definition Reset : GoM (Manager * W) unit :=
  let! s := get in
  put (mkManager (baseDir s.1) ∅, s.2) ;;;
  wrapped ("stage: reset remove " +:+ baseDir s.1) (lift (osRemoveAll (baseDir s.1))) ;;;
  wrapped ("stage: reset mkdir " +:+ baseDir s.1) (lift (osMkdirAll (baseDir s.1))).

Definition CreateStage (now : Z) (db schema name : string) (stageType : StageType) (url : string)
    : GoM (Manager * W) unit :=
  let key := stageKey db schema name in
  let! s := get in
  match stages s.1 !! key with
  | Some _ => fail (stage_exists key)
  | None =>
      let localPath := stage_dir (baseDir s.1) db schema name in
      wrapped "failed to create stage directory" (lift (osMkdirAll localPath)) ;;;
      modify (λ s, (mkManager (baseDir s.1)
                      (<[key := mkMeta (ToUpper name) stageType url localPath now]> (stages s.1)), s.2))
  end.

Definition DropStage (db schema name : string) : GoM (Manager * W) unit :=
  let key := stageKey db schema name in
  let! s := get in
  match stages s.1 !! key with
  | None => fail (no_stage key)
  | Some meta =>
      ignore (lift (osRemoveAll (LocalPath meta))) ;;;
      modify (λ s, (mkManager (baseDir s.1) (delete key (stages s.1)), s.2))
  end.

Definition PutMetaFile (meta : StageMeta) (localPath destPath : string) : GoM (Manager * W) unit :=
  match ResolveInStage meta destPath with
  | Err e => fail e
  | Ok dest =>
      wrapped "failed to create destination directory" (lift (osMkdirAll (Dir dest))) ;;;
      lift (copyFile osFiles localPath dest)
  end.

Definition GetMetaFile (meta : StageMeta) (srcPath localPath : string) : GoM (Manager * W) unit :=
  match ResolveInStage meta srcPath with
  | Err e => fail e
  | Ok src =>
      wrapped "failed to create destination directory" (lift (osMkdirAll (Dir localPath))) ;;;
      lift (copyFile osFiles src localPath)
  end.

Definition RemoveMetaFile (meta : StageMeta) (path : string) : GoM (Manager * W) unit :=
  match ResolveInStage meta path with
  | Err e => fail e
  | Ok target => wrapped "failed to remove file" (lift (osRemove target))
  end.

(** A call on a named stage. *)
Definition with_stage (db schema name : string) (f : StageMeta → GoM (Manager * W) unit)
    : GoM (Manager * W) unit :=
  let! s := get in
  match GetStage s.1 db schema name with Err e => fail e | Ok meta => f meta end.

Definition PutFile (db schema stageName localPath destPath : string) : GoM (Manager * W) unit :=
  with_stage db schema stageName (λ meta, PutMetaFile meta localPath destPath).
Definition GetFile (db schema stageName srcPath localPath : string) : GoM (Manager * W) unit :=
  with_stage db schema stageName (λ meta, GetMetaFile meta srcPath localPath).
Definition RemoveFile (db schema stageName path : string) : GoM (Manager * W) unit :=
  with_stage db schema stageName (λ meta, RemoveMetaFile meta path).

(** *** Listing *)

(** The callback of the walk: the file to report, if any. *)
Definition visit (meta : StageMeta) (opts : ListOptions) (re : option (string → bool)) (w : W)
    (e : WalkEntry) : result (option FileInfo) :=
  let prefix := TrimPrefix (Prefix opts) "/" in
  match e_err e with
  | Some gone => Ok None
  | Some (other err) => Err err
  | None =>
      if e_dir e then Ok None
      else match Rel (LocalPath meta) (e_path e) with
      | Err err => Err err
      | Ok rel =>
          if bool_decide (prefix ≠ "") && negb (HasPrefix rel prefix) then Ok None
          else
            let matched := if decide (Pattern opts = "") then Ok true
                           else glob (Pattern opts) (Base rel) in
            match matched with
            | Err err => Err err
            | Ok false => Ok None
            | Ok true =>
                if match re with Some re => negb (re rel) | None => false end then Ok None
                else match e_info e with
                | inr gone => Ok None
                | inr (other err) => Err err
                | inl (size, mtime) =>
                    Ok (Some (mkFile rel size mtime
                                (if Checksum opts then fileMD5 (e_path e) w else "")))
                end
            end
      end
  end.

(** The walk ends at the first error of the callback. *)
Fixpoint walk_files (meta : StageMeta) (opts : ListOptions) (re : option (string → bool)) (w : W)
    (entries : list WalkEntry) : result (list FileInfo) :=
  match entries with
  | [] => Ok []
  | e :: entries =>
      match visit meta opts re w e with
      | Err err => Err err
      | Ok None => walk_files meta opts re w entries
      | Ok (Some fi) => result_map (cons fi) (walk_files meta opts re w entries)
      end
  end.

Definition ListMetaFiles (meta : StageMeta) (opts : ListOptions) (w : W) : result (list FileInfo) :=
  let re := if decide (Regex opts = "") then Ok None
            else result_map Some (compile ("^(?:" +:+ Regex opts +:+ ")$")) in
  match re with
  | Err e => Err ("invalid PATTERN regexp: " +:+ e)
  | Ok re => wrap_err "failed to list files" (walk_files meta opts re w (walkDir (LocalPath meta) w))
  end.

Definition ListFilesWithOptions (db schema stageName : string) (opts : ListOptions) (s : Manager * W)
    : result (list FileInfo) :=
  match GetStage s.1 db schema stageName with
  | Err e => Err e
  | Ok meta => ListMetaFiles meta opts s.2
  end.

Definition ListFiles (db schema stageName pattern : string) : Manager * W → result (list FileInfo) :=
  ListFilesWithOptions db schema stageName (mkOptions "" pattern "" false).

(** *** User and table stages *)

(** The stage at [key], created at the directory when it is missing; the error of
    making the directory is dropped. *)
Definition get_or_create (key : string) (dir : string → string) (meta : string → StageMeta)
    : GoM (Manager * W) StageMeta :=
  let! s := get in
  match stages s.1 !! key with
  | Some meta => ret meta
  | None =>
      let localPath := dir (baseDir s.1) in
      ignore (lift (osMkdirAll localPath)) ;;;
      modify (λ s, (mkManager (baseDir s.1) (<[key := meta localPath]> (stages s.1)), s.2)) ;;;
      ret (meta localPath)
  end.

Definition GetUserStage (now : Z) (user : string) : GoM (Manager * W) StageMeta :=
  get_or_create (stageKey "~" "~" (ToUpper user)) (λ base, user_stage_dir base user)
    (λ localPath, mkMeta ("@~" +:+ ToUpper user) StageUser "" localPath now).

Definition GetTableStage (now : Z) (db schema table : string) : GoM (Manager * W) StageMeta :=
  get_or_create (stageKey db schema ("%" +:+ ToUpper table)) (λ base, table_stage_dir base db schema table)
    (λ localPath, mkMeta ("@%" +:+ ToUpper table) StageTable "" localPath now).
End stage.

(** ** What the file system promises

    [files w p] is the content of the file at the cleaned path [p].  A call changes
    no file but those it names; symbolic links are left out.  [opened w h] is the
    path that a handle is open on, and the offset in the file.  [os.Create]
    truncates the file; [io.Copy] writes what the one handle has left to read where
    the other one is, here at the end of its file; a file that is copied to itself
    with something left to read is left out. *)

Class FileSystem (W : Type) := {
  files : W → string → option string;
  mkdirAll : string → W → result unit * W;
  removeAll : string → W → result unit * W;
  remove : string → W → result unit * W;
  os_files : OsFiles W;
  opened : W → Handle os_files → option (string * nat);
  mkdirAll_files : ∀ p w q, files (mkdirAll p w).2 q = files w q;
  removeAll_files : ∀ p w q, ¬ within p q → files (removeAll p w).2 q = files w q;
  remove_files : ∀ p w q, q ≠ p → files (remove p w).2 q = files w q;
  open_files : ∀ p w q, files (os_Open os_files p w).2 q = files w q;
  open_handle : ∀ p w h w', os_Open os_files p w = (Ok h, w') → opened w' h = Some (Clean p, 0) ∧ is_Some (files w (Clean p));
  create_files : ∀ p w q, q ≠ Clean p → files (os_Create os_files p w).2 q = files w q;
  create_handle : ∀ p w h w', os_Create os_files p w = (Ok h, w') →
    opened w' h = Some (Clean p, 0) ∧ files w' (Clean p) = Some "" ∧
    ∀ h' x, opened w h' = Some x → opened w' h' = Some x;
  copy_files : ∀ out in_ w p i q, opened w out = Some (p, i) → q ≠ p → files (io_Copy os_files out in_ w).2 q = files w q;
  copy_content : ∀ out in_ w n w' p q i old c, io_Copy os_files out in_ w = (Ok n, w') →
    opened w out = Some (p, String.length old) → files w p = Some old →
    opened w in_ = Some (q, i) → files w q = Some c → p ≠ q ∨ str_drop i c = "" →
    files w' p = Some (old +:+ str_drop i c);
  close_files : ∀ h w q, files (file_Close os_files h w).2 q = files w q;
}.

(** A concrete one: a map from paths to contents. *)
#[export] Instance within_dec d p : Decision (within d p).
Proof.
  refine (cast_if (decide (is_rooted p = is_rooted d ∧
    parts p = parts d ++ drop (length (parts d)) (parts p) ∧
    Forall plain (drop (length (parts d)) (parts p))))).
  - abstract (destruct a as (? & ? & ?); split; [done|eauto]).
  - abstract (intros (? & rest & E & H); apply n; rewrite E, drop_app_length; done).
Defined.

(** A handle is the path and the offset. *)
Definition toy_os : OsFiles (gmap string string) := {|
  Handle := string * nat;
  os_Open p w := (if decide (is_Some (w !! Clean p)) then Ok (Clean p, 0%nat) else Err "no such file", w);
  os_Create p w := (Ok (Clean p, 0%nat), <[Clean p := ""]> w);
  io_Copy out in_ w :=
    let new := str_drop in_.2 (default "" (w !! in_.1)) in
    (Ok (Z.of_nat (String.length new)), <[out.1 := str_take out.2 (default "" (w !! out.1)) +:+ new]> w);
  file_Close _ w := (Ok tt, w);
|}.

#[refine] Definition toy_fs : FileSystem (gmap string string) := {|
  files w p := w !! p;
  mkdirAll p w := (Ok tt, w);
  removeAll p w := (Ok tt, filter (λ kv, ¬ within p kv.1) w);
  remove p w := (if decide (is_Some (w !! p)) then Ok tt else Err "no such file", delete p w);
  os_files := toy_os;
  opened _ h := Some h;
|}.
Proof.
  - done.
  - intros p w q Hq. cbn. destruct (w !! q) as [c|] eqn:E.
    + by apply map_lookup_filter_Some.
    + apply map_lookup_filter_None. by left.
  - intros p w q Hq. by apply lookup_delete_ne.
  - done.
  - intros p w h w'. cbn. case_decide; [|done]. by intros [= <- <-].
  - intros p w q Hq. cbn. by rewrite lookup_insert_ne.
  - intros p w h w'. cbn. intros [= <- <-]. by rewrite lookup_insert_eq.
  - intros out in_ w p i q [= ->] Hq. cbn. by rewrite lookup_insert_ne.
  - intros out in_ w n w' p q i old c. cbn. intros [= _ <-] [= ->] Hp [= ->] Hc _. cbn.
    rewrite Hp, Hc. cbn. by rewrite lookup_insert_eq, str_take_all.
  - done.
Defined.

(** ** Containment *)

Lemma resolve_spec meta path : Clean (LocalPath meta) = LocalPath meta →
  match ResolveInStage meta path with
  | Ok target => target = PathJoin [LocalPath meta; path] ∧ within (LocalPath meta) target
  | Err _ => ¬ within (LocalPath meta) (PathJoin [LocalPath meta; path])
  end.
Proof.
  intros Hd. assert (Hne : LocalPath meta ≠ "") by (intros E; rewrite E in Hd; discriminate).
  destruct (PathJoin_spec (LocalPath meta) path Hne) as (Hc & Hr & _).
  pose proof (Rel_within _ _ Hd Hc Hr) as Hiff. unfold ResolveInStage. cbv zeta.
  destruct (Rel (LocalPath meta) _) as [rel|e].
  - unfold climbs in Hiff. destruct (bool_decide (rel = "..") || HasPrefix rel "../") eqn:E.
    + intros (rel' & [= <-] & Hc')%Hiff. congruence.
    + split; [done|]. apply Hiff. eauto.
  - by intros (rel & ? & _)%Hiff.
Qed.

Lemma resolve_clean meta path target : Clean (LocalPath meta) = LocalPath meta →
  ResolveInStage meta path = Ok target → Clean target = target.
Proof.
  intros Hd Ht. assert (Hne : LocalPath meta ≠ "") by (intros E; rewrite E in Hd; discriminate).
  pose proof (resolve_spec meta path Hd) as Hs. rewrite Ht in Hs. destruct Hs as [-> _].
  by destruct (PathJoin_spec (LocalPath meta) path Hne).
Qed.

(** The directory of a stage, when its names are single path elements. *)
Lemma PathJoin_plain base es : base ≠ "" → es ≠ [] → Forall plain es →
  Clean (PathJoin (base :: es)) = PathJoin (base :: es) ∧
  is_rooted (PathJoin (base :: es)) = is_rooted base ∧ parts (PathJoin (base :: es)) = parts base ++ es.
Proof.
  intros Hb Hne Hes. assert (E : PathJoin (base :: es) = PathJoin [base; Join "/" es]).
  { cbn [PathJoin]. rewrite !decide_False by done. destruct es; [done|]. done. }
  rewrite E. destruct (PathJoin_spec base (Join "/" es) Hb) as (H1 & H2 & H3). split_all; [done|done|].
  rewrite H3, SplitByte_Join by (done || by apply plain_no_slash).
  rewrite clean_go_plain by done. by rewrite reverse_app, !reverse_involutive.
Qed.

(** A single path element, in upper case as the directories have it. *)
Definition name_ok (s : string) : Prop := plain (ToUpper s).

(** Where a registered stage keeps its files. *)
Inductive stage_place (base : string) : string → string → Prop :=
  | place_named db sc n : name_ok db → name_ok sc → name_ok n →
      stage_place base (stageKey db sc n) (stage_dir base db sc n)
  | place_user u : name_ok u →
      stage_place base (stageKey "~" "~" (ToUpper u)) (user_stage_dir base u)
  | place_table db sc t : name_ok db → name_ok sc → name_ok t →
      stage_place base (stageKey db sc ("%" +:+ ToUpper t)) (table_stage_dir base db sc t).

Lemma place_parts base key dir : base ≠ "" → stage_place base key dir →
  Clean dir = dir ∧ is_rooted dir = is_rooted base ∧
  ∃ es, parts dir = parts base ++ es ∧
    ((∃ db sc n, es = ["stages"; ToUpper db; ToUpper sc; ToUpper n]%string ∧ key = stageKey db sc n) ∨
     (∃ u, es = ["user_stages"; ToUpper u]%string ∧ key = stageKey "~" "~" (ToUpper u)) ∨
     (∃ db sc t, es = ["table_stages"; ToUpper db; ToUpper sc; ToUpper t]%string ∧
        key = stageKey db sc ("%" +:+ ToUpper t))).
Proof.
  intros Hb Hp.
  assert (Hroot : ∀ e, e ∈ ["stages"; "user_stages"; "table_stages"]%string → plain e).
  { intros e He. repeat (apply elem_of_cons in He as [->|He]; [by apply (bool_decide_unpack _)|]).
    by apply not_elem_of_nil in He. }
  destruct Hp as [db sc n H1 H2 H3|u H1|db sc t H1 H2 H3].
  - destruct (PathJoin_plain base ["stages"; ToUpper db; ToUpper sc; ToUpper n]%string) as (? & ? & ?);
      [done|done|rewrite !Forall_cons; split_all; try assumption; [apply Hroot; set_solver|apply Forall_nil_2]|]. split_all; [done|done|]. eauto 9.
  - destruct (PathJoin_plain base ["user_stages"; ToUpper u]%string) as (? & ? & ?);
      [done|done|rewrite !Forall_cons; split_all; try assumption; [apply Hroot; set_solver|apply Forall_nil_2]|]. split_all; [done|done|]. eauto 9.
  - destruct (PathJoin_plain base ["table_stages"; ToUpper db; ToUpper sc; ToUpper t]%string) as (? & ? & ?);
      [done|done|rewrite !Forall_cons; split_all; try assumption; [apply Hroot; set_solver|apply Forall_nil_2]|]. split_all; [done|done|]. eauto 9.
Qed.

Lemma stageKey_upper db sc n db' sc' n' :
  ToUpper db = ToUpper db' → ToUpper sc = ToUpper sc' → ToUpper n = ToUpper n' →
  stageKey db sc n = stageKey db' sc' n'.
Proof. unfold stageKey. rewrite !ToUpper_dotted. by intros -> -> ->. Qed.

(** Nothing is inside the directories of two stages. *)
Lemma places_disjoint base key key' dir dir' p : base ≠ "" →
  stage_place base key dir → stage_place base key' dir' → key ≠ key' → within dir p → ¬ within dir' p.
Proof.
  intros Hb Hp Hp' Hne Hw Hw'. apply Hne.
  destruct (place_parts base key dir Hb Hp) as (_ & _ & es & E & Hes).
  destruct (place_parts base key' dir' Hb Hp') as (_ & _ & es' & E' & Hes').
  assert (Hpre : es `prefix_of` es' ∨ es' `prefix_of` es).
  { destruct (within_nested dir dir' p Hw Hw') as [H|H]; rewrite E, E' in H;
      apply prefix_app_inv in H; auto. }
  assert (Heq : es = es').
  { destruct Hes as [(?&?&?&->&_)|[(?&->&_)|(?&?&?&->&_)]], Hes' as [(?&?&?&->&_)|[(?&->&_)|(?&?&?&->&_)]];
      destruct Hpre as [[k Hk]|[k Hk]]; destruct k; cbn in Hk; congruence. }
  subst es'.
  destruct Hes as [(?&?&?&->&->)|[(?&->&->)|(?&?&?&->&->)]],
    Hes' as [(?&?&?&Hx&->)|[(?&Hx&->)|(?&?&?&Hx&->)]]; simplify_eq; by apply stageKey_upper; rewrite ?ToUpper_app, ?ToUpper_idem; congruence.
Qed.

(** ** Reachable states *)

Section system.
Context {W : Type} `{FileSystem W}.

Inductive Op : Type :=
  | OReset
  | OCreate (now : Z) (db schema name : string) (stageType : StageType) (url : string)
  | ODrop (db schema name : string)
  | OPut (db schema name localPath destPath : string)
  | OGet (db schema name srcPath localPath : string)
  | ORemove (db schema name path : string)
  | OUser (now : Z) (user : string)
  | OTable (now : Z) (db schema table : string).

Definition run_op (op : Op) (s : Manager * W) : Manager * W :=
  match op with
  | OReset => (Reset mkdirAll removeAll s).2
  | OCreate now db sc n ty url => (CreateStage mkdirAll now db sc n ty url s).2
  | ODrop db sc n => (DropStage removeAll db sc n s).2
  | OPut db sc n l d => (PutFile mkdirAll os_files db sc n l d s).2
  | OGet db sc n src l => (GetFile mkdirAll os_files db sc n src l s).2
  | ORemove db sc n p => (RemoveFile remove db sc n p s).2
  | OUser now u => (GetUserStage mkdirAll now u s).2
  | OTable now db sc t => (GetTableStage mkdirAll now db sc t s).2
  end.

(** Names are single path elements. *)
Definition valid_op (op : Op) : Prop :=
  match op with
  | OCreate _ db sc n _ _ | OTable _ db sc n => name_ok db ∧ name_ok sc ∧ name_ok n
  | OUser _ u => name_ok u
  | _ => True
  end.

Definition stage_reachable (base : string) : Manager * W → Prop :=
  reachable (λ s, s.1 = NewManager base) (λ s op s', valid_op op ∧ s' = run_op op s).

Definition placed (base : string) (m : Manager) : Prop :=
  baseDir m = base ∧ ∀ key meta, stages m !! key = Some meta → stage_place base key (LocalPath meta).

Lemma placed_insert base m key meta : placed base m → stage_place base key (LocalPath meta) →
  placed base (mkManager (baseDir m) (<[key := meta]> (stages m))).
Proof. intros [Hb Hm] Hp. split; [done|]. cbn. intros k x [[<- <-]|[_ ?]]%lookup_insert_Some; eauto. Qed.

Lemma wrapped_lift_fst prefix (f : W → result unit * W) (s : Manager * W) :
  (wrapped prefix (lift f) s).2.1 = s.1.
Proof. apply lift_fst. Qed.

Lemma op_placed base op s : valid_op op → placed base s.1 → placed base (run_op op s).1.
Proof.
  intros Hv Hp. pose proof Hp as [Hb Hm]. destruct s as [m w]. cbn [fst] in *.
  assert (Hfiles : ∀ db sc n (f : StageMeta → GoM (Manager * W) unit),
    (∀ meta s, (f meta s).2.1 = s.1) → placed base (with_stage db sc n f (m, w)).2.1).
  { intros db sc n f Hf. unfold with_stage, bind, get. cbn. by destruct (GetStage m db sc n); [rewrite Hf|]. }
  destruct op as [|now db sc n ty url|db sc n|db sc n l d|db sc n src l|db sc n p|now u|now db sc t];
    cbn [run_op valid_op] in *.
  - assert (Hr : placed base (mkManager (baseDir m) ∅)) by (split; [done|cbn; intros k x Hk; by rewrite lookup_empty in Hk]).
    unfold Reset, bind, get, put. cbn. rewrite <- Hb in *.
    pose proof (wrapped_lift_fst ("stage: reset remove " +:+ baseDir m) (removeAll (baseDir m))
      (mkManager (baseDir m) ∅, w)) as E1. cbn in E1.
    destruct (wrapped _ _ _) as [[[]|e] [m1 w1]]; cbn in *; subst m1; [|done].
    by rewrite wrapped_lift_fst.
  - unfold CreateStage, bind, get. cbn. destruct (stages m !! _); [done|].
    pose proof (wrapped_lift_fst "failed to create stage directory" (mkdirAll (stage_dir (baseDir m) db sc n)) (m, w)) as E1.
    destruct (wrapped _ _ _) as [[[]|e] [m1 w1]]; cbn in *; subst m1; [|done].
    apply placed_insert; [done|]. cbn. rewrite Hb. by constructor; apply Hv.
  - unfold DropStage. unfold bind at 1, get. cbn. destruct (stages m !! _) as [meta|]; [|done].
    rewrite bind_ignore. unfold modify, lift. cbn. destruct (removeAll _ _) as [r w']. cbn.
    split; [done|]. cbn. intros k x [_ ?]%lookup_delete_Some. eauto.
  - apply Hfiles. intros meta s. unfold PutMetaFile. destruct (ResolveInStage meta d); [|done].
    apply bind_fst; [apply lift_fst|]. intros _ s'. unfold lift. by destruct (copyFile _ _ _ _).
  - apply Hfiles. intros meta s. unfold GetMetaFile. destruct (ResolveInStage meta src); [|done].
    apply bind_fst; [apply lift_fst|]. intros _ s'. unfold lift. by destruct (copyFile _ _ _ _).
  - apply Hfiles. intros meta s. unfold RemoveMetaFile. destruct (ResolveInStage meta p); [|done].
    apply lift_fst.
  - unfold GetUserStage, get_or_create. unfold bind at 1, get. cbn. destruct (stages m !! _); [done|].
    rewrite bind_ignore. unfold bind, modify, lift, ret. cbn. destruct (mkdirAll _ _) as [r w']. cbn.
    apply placed_insert; [done|]. cbn. rewrite Hb. by constructor.
  - unfold GetTableStage, get_or_create. unfold bind at 1, get. cbn. destruct (stages m !! _); [done|].
    rewrite bind_ignore. unfold bind, modify, lift, ret. cbn. destruct (mkdirAll _ _) as [r w']. cbn.
    apply placed_insert; [done|]. cbn. rewrite Hb. by constructor; apply Hv.
Qed.

Lemma stage_reachable_placed base s : stage_reachable base s → placed base s.1.
Proof.
  apply (reachable_inv _ _ (λ s, placed base s.1)).
  - intros s0 ->. split; [done|]. intros k x Hk. cbn in Hk. by rewrite lookup_empty in Hk.
  - intros s0 op s' Hs [Hv ->]. by apply op_placed.
Qed.

(** Copying changes the destination only. *)
Lemma copyFile_files src dst w q : q ≠ Clean dst → files (copyFile os_files src dst w).2 q = files w q.
Proof.
  intros Hq. unfold copyFile, bind, deferring, wrapped.
  pose proof (open_files src w q) as Ho. destruct (os_Open os_files src w) as [[h|e] w1]; cbn in *; [|done].
  pose proof (create_files dst w1 q Hq) as Hc. destruct (os_Create os_files dst w1) as [[h'|e] w2] eqn:E; cbn in *;
    [|by rewrite close_files, Hc].
  apply create_handle in E as (Hh & _ & _). pose proof (copy_files h' h w2 _ _ q Hh Hq) as Hcp.
  destruct (io_Copy os_files h' h w2) as [[n|e] w3]; cbn in *; [|by rewrite !close_files, Hcp, Hc].
  pose proof (close_files h' w3 q) as Hcl. destruct (file_Close os_files h' w3) as [r w4]. cbn in *.
  by rewrite !close_files, Hcl, Hcp, Hc.
Qed.

(** A copy that succeeds has the content that the source had; a file copied to itself
    is left empty. *)
Lemma copyFile_content src dst w w' : copyFile os_files src dst w = (Ok tt, w') →
  is_Some (files w (Clean src)) ∧
  files w' (Clean dst) = if decide (Clean src = Clean dst) then Some "" else files w (Clean src).
Proof.
  unfold copyFile, bind, deferring, wrapped.
  pose proof (open_files src w) as Ho. destruct (os_Open os_files src w) as [[h|e] w1] eqn:E1; cbn in *; [|done].
  apply open_handle in E1 as [Hh [c Hc]].
  pose proof (create_files dst w1) as Hcf. destruct (os_Create os_files dst w1) as [[h'|e] w2] eqn:E2; cbn in *; [|done].
  apply create_handle in E2 as (Hh' & Hnew & Hkeep). apply Hkeep in Hh.
  destruct (io_Copy os_files h' h w2) as [[n|e] w3] eqn:E3; cbn; [|done].
  assert (H3 : files w3 (Clean dst) = if decide (Clean src = Clean dst) then Some "" else files w (Clean src)).
  { case_decide as Heq.
    - rewrite Heq in Hh. exact (copy_content _ _ _ _ _ _ _ 0 "" "" E3 Hh' Hnew Hh Hnew (or_intror eq_refl)).
    - rewrite Hc. refine (copy_content _ _ _ _ _ _ _ 0 "" c E3 Hh' Hnew Hh _ (or_introl _)); [|congruence].
      by rewrite Hcf, Ho. }
  pose proof (close_files h' w3 (Clean dst)) as Hcl. destruct (file_Close os_files h' w3) as [[[]|e] w4]; cbn in *; [|done].
  intros [= <-]. split; [by eexists|]. by rewrite !close_files, Hcl.
Qed.

(** The only file that a call on a stage's file can change. *)
Lemma RemoveMetaFile_files meta name s q : files (RemoveMetaFile remove meta name s).2.2 q ≠ files s.2 q →
  ResolveInStage meta name = Ok q.
Proof.
  unfold RemoveMetaFile. destruct (ResolveInStage meta name) as [t|e]; [|done]. unfold wrapped, lift.
  pose proof (remove_files t s.2 q) as Hr. destruct (remove t s.2) as [r w]. cbn in *.
  intros Hne. destruct (decide (q = t)) as [->|Hq]; [done|]. by rewrite Hr in Hne.
Qed.

Lemma put_files meta localPath path s q : Clean (LocalPath meta) = LocalPath meta →
  files (PutMetaFile mkdirAll os_files meta localPath path s).2.2 q ≠ files s.2 q → ResolveInStage meta path = Ok q.
Proof.
  intros Hcl. unfold PutMetaFile. destruct (ResolveInStage meta path) as [t|e] eqn:Et; [|done].
  apply resolve_clean in Et as Ht; [|done]. unfold bind, wrapped, lift.
  pose proof (mkdirAll_files (Dir t) s.2 q) as Hm. destruct (mkdirAll (Dir t) s.2) as [[[]|e] w]; cbn in *; [|done].
  pose proof (copyFile_files localPath t w q) as Hc. destruct (copyFile _ localPath t w) as [r w']. cbn in *. intros Hne.
  destruct (decide (q = t)) as [->|Hq]; [done|]. rewrite Hc in Hne by congruence. congruence.
Qed.

Lemma get_files meta path localPath s q :
  files (GetMetaFile mkdirAll os_files meta path localPath s).2.2 q ≠ files s.2 q → q = Clean localPath.
Proof.
  unfold GetMetaFile. destruct (ResolveInStage meta path) as [t|e]; [|done]. unfold bind, wrapped, lift.
  pose proof (mkdirAll_files (Dir localPath) s.2 q) as Hm. destruct (mkdirAll (Dir localPath) s.2) as [[[]|e] w]; cbn in *; [|done].
  pose proof (copyFile_files t localPath w q) as Hc. destruct (copyFile _ t localPath w) as [r w']. cbn in *. intros Hne.
  destruct (decide (q = Clean localPath)) as [->|Hq]; [done|]. rewrite Hc in Hne by done. congruence.
Qed.

(** ** Properties *)

(** A path inside a stage never leads out of it.  Whatever the path, with any
    number of [..] in it, [ResolveInStage] on a registered stage either returns a
    path that is the stage's directory or below it, or refuses a path that is not;
    and a path made of ordinary elements is always accepted, as the path of these
    elements below the directory. *)
Theorem resolve_in_stage_contained base s key meta path :
  stage_reachable base s → base ≠ "" → stages s.1 !! key = Some meta →
  match ResolveInStage meta path with
  | Ok target => within (LocalPath meta) target
  | Err _ => ¬ within (LocalPath meta) (PathJoin [LocalPath meta; path])
  end ∧
  ∀ es, es ≠ [] → Forall plain es →
    ResolveInStage meta (Join "/" es) = Ok (PathJoin (LocalPath meta :: es)) ∧
    parts (PathJoin (LocalPath meta :: es)) = parts (LocalPath meta) ++ es.
Proof.
  intros [_ Hm]%stage_reachable_placed Hb Hk.
  destruct (place_parts base key _ Hb (Hm key meta Hk)) as (Hc & _ & _).
  assert (Hne : LocalPath meta ≠ "") by (intros E; rewrite E in Hc; discriminate). split.
  - pose proof (resolve_spec meta path Hc) as Hs. by destruct (ResolveInStage meta path) as [t|e]; [destruct Hs|].
  - intros es Hes Hpl. destruct (PathJoin_plain _ es Hne Hes Hpl) as (_ & Hr & Hp). split; [|done].
    assert (E : PathJoin (LocalPath meta :: es) = PathJoin [LocalPath meta; Join "/" es]).
    { cbn [PathJoin]. rewrite !decide_False by done. by destruct es. }
    pose proof (resolve_spec meta (Join "/" es) Hc) as Hs.
    destruct (ResolveInStage meta (Join "/" es)) as [t|e]; [destruct Hs as [-> _]; by rewrite E|].
    exfalso. apply Hs. rewrite <- E. split; [done|]. eauto.
Qed.

(** Stages do not touch each other's files.  As long as names are single path
    elements, no file in the directory of a stage changes when a file is put into
    or removed from another stage, whatever path it is given, or when the other
    stage is dropped. *)
Theorem stages_isolated base s keyA A keyB B q :
  stage_reachable base s → base ≠ "" →
  stages s.1 !! keyA = Some A → stages s.1 !! keyB = Some B → keyA ≠ keyB → within (LocalPath B) q →
  (∀ localPath destPath, files (PutMetaFile mkdirAll os_files A localPath destPath s).2.2 q = files s.2 q) ∧
  (∀ path, files (RemoveMetaFile remove A path s).2.2 q = files s.2 q) ∧
  (∀ db schema name, stageKey db schema name = keyA →
     files (DropStage removeAll db schema name s).2.2 q = files s.2 q).
Proof.
  intros [_ Hm]%stage_reachable_placed Hb HA HB Hne Hq.
  destruct (place_parts base keyA _ Hb (Hm _ _ HA)) as (Hc & _ & _).
  assert (Hout : ¬ within (LocalPath A) q) by (eapply places_disjoint; [exact Hb|by apply Hm|by apply Hm| |exact Hq]; done).
  assert (Htarget : ∀ p t, ResolveInStage A p = Ok t → q ≠ t).
  { intros p t Ht ->. pose proof (resolve_spec A p Hc) as Hs. rewrite Ht in Hs. by apply Hout, Hs. }
  destruct s as [m w]. cbn [fst snd] in *. split_all.
  - intros l d. unfold PutMetaFile. destruct (ResolveInStage A d) as [t|e] eqn:Et; [|done].
    unfold bind, wrapped, lift. cbn. pose proof (mkdirAll_files (Dir t) w q) as Hmk.
    destruct (mkdirAll (Dir t) w) as [[[]|e] w1]; cbn in *; [|done].
    assert (Hqt : q ≠ Clean t) by (rewrite (resolve_clean A d t Hc Et); by eapply Htarget).
    pose proof (copyFile_files l t w1 q Hqt) as Hcp.
    destruct (copyFile _ l t w1) as [r w2]. cbn in *. congruence.
  - intros p. unfold RemoveMetaFile. destruct (ResolveInStage A p) as [t|e] eqn:Et; [|done].
    unfold wrapped, lift. cbn. pose proof (remove_files t w q (Htarget p t Et)) as Hrm.
    by destruct (remove t w) as [r w1].
  - intros db sc n <-. unfold DropStage. unfold bind at 1, get. cbn. rewrite HA.
    rewrite bind_ignore. unfold modify, lift. cbn. pose proof (removeAll_files (LocalPath A) w q Hout) as Hra.
    by destruct (removeAll _ w) as [r w1].
Qed.

(** C40: what is put into a stage comes out of it.  A file that is put and then got
    from the same path of the stage, both with success, has in the stage and at its
    destination the content it had at its source, unless one of the local paths is
    the file in the stage itself; and no other file changes. *)
Theorem put_get_roundtrip meta localPath path target localPath' s s1 s2 :
  Clean (LocalPath meta) = LocalPath meta → ResolveInStage meta path = Ok target →
  Clean localPath ≠ target → Clean localPath' ≠ target →
  PutMetaFile mkdirAll os_files meta localPath path s = (Ok tt, s1) →
  GetMetaFile mkdirAll os_files meta path localPath' s1 = (Ok tt, s2) →
  ∃ content, files s.2 (Clean localPath) = Some content ∧ files s1.2 target = Some content ∧
    files s2.2 (Clean localPath') = Some content ∧
    ∀ q, q ≠ target → q ≠ Clean localPath' → files s2.2 q = files s.2 q.
Proof.
  intros Hd Ht Hl Hl'. apply resolve_clean in Ht as Hct; [|done].
  unfold PutMetaFile, GetMetaFile. rewrite Ht. unfold bind, wrapped, lift.
  destruct s as [m w]. cbn. pose proof (mkdirAll_files (Dir target) w) as Hm1.
  destruct (mkdirAll (Dir target) w) as [[[]|e] w1]; cbn in *; [|done].
  pose proof (copyFile_files localPath target w1) as Hf1.
  destruct (copyFile _ localPath target w1) as [r w2] eqn:E1. intros [= -> <-].
  apply copyFile_content in E1 as [[content Hc] E1]. rewrite Hct, decide_False in E1 by done. cbn in *.
  pose proof (mkdirAll_files (Dir localPath') w2) as Hm2.
  destruct (mkdirAll (Dir localPath') w2) as [[[]|e] w3]; cbn in *; [|done].
  pose proof (copyFile_files target localPath' w3) as Hf2.
  destruct (copyFile _ target localPath' w3) as [r w4] eqn:E2. intros [= -> <-].
  apply copyFile_content in E2 as [_ E2]. rewrite Hct, decide_False in E2 by congruence. cbn in *.
  exists content. split_all; [congruence..|]. intros q Hq Hq'. by rewrite Hf2, Hm2, Hf1, Hm1 by congruence.
Qed.
End system.

(** ** Witnesses *)

Definition sample_ops : list Op :=
  [OCreate 0 "db" "s" "one" StageInternal ""; OCreate 0 "db" "s" "two" StageInternal "";
   OUser 0 "bob"; OPut "db" "s" "two" "/tmp/f" "in/f.csv"].

Definition sample : Manager * gmap string string :=
  foldl (λ s op, run_op (H:=toy_fs) op s) (NewManager "./stages", {["/tmp/f" := "content"]}) sample_ops.

Lemma stage_sample_reachable : stage_reachable (H:=toy_fs) "./stages" sample.
Proof.
  exists (NewManager "./stages", {["/tmp/f" := "content"]}), sample_ops. split; [done|].
  unfold sample, sample_ops. cbn [foldl].
  repeat (econstructor; [split; [apply (bool_decide_unpack _); vm_compute; exact I|reflexivity]|]). constructor.
Qed.

Definition sample_one : StageMeta := mkMeta "ONE" StageInternal "" "stages/stages/DB/S/ONE" 0.
Definition sample_two : StageMeta := mkMeta "TWO" StageInternal "" "stages/stages/DB/S/TWO" 0.

Lemma resolve_in_stage_contained_witness :
  ResolveInStage sample_one "a/../b.csv" = Ok "stages/stages/DB/S/ONE/b.csv" ∧
  is_ok (ResolveInStage sample_one "a/../../TWO/in/f.csv") = false ∧
  within "stages/stages/DB/S/ONE" "stages/stages/DB/S/ONE/b.csv".
Proof.
  split; [vm_compute; reflexivity|]. split; [vm_compute; reflexivity|].
  destruct (resolve_in_stage_contained (H:=toy_fs) "./stages" sample "DB.S.ONE" sample_one "a/../b.csv"
    stage_sample_reachable ltac:(discriminate) ltac:(vm_compute; reflexivity)) as [H _].
  exact H.
Defined.

Lemma stages_isolated_witness :
  sample.2 !! "stages/stages/DB/S/TWO/in/f.csv" = Some "content" ∧
  (DropStage (removeAll (FileSystem:=toy_fs)) "DB" "S" "One" sample).2.2 !! "stages/stages/DB/S/TWO/in/f.csv"
    = Some "content".
Proof.
  split; [vm_compute; reflexivity|].
  destruct (stages_isolated (H:=toy_fs) "./stages" sample "DB.S.ONE" sample_one "DB.S.TWO" sample_two
    "stages/stages/DB/S/TWO/in/f.csv" stage_sample_reachable ltac:(discriminate)
    ltac:(vm_compute; reflexivity) ltac:(vm_compute; reflexivity) ltac:(discriminate)
    ltac:(apply (bool_decide_unpack _); vm_compute; exact I)) as (_ & _ & Hd).
  etransitivity; [exact (Hd "DB" "S" "One" eq_refl)|vm_compute; reflexivity].
Defined.

Lemma put_get_roundtrip_witness :
  ∃ s1 s2, PutMetaFile (mkdirAll (FileSystem:=toy_fs)) (os_files (FileSystem:=toy_fs)) sample_one "/tmp/f" "g" sample = (Ok tt, s1) ∧
    GetMetaFile (mkdirAll (FileSystem:=toy_fs)) (os_files (FileSystem:=toy_fs)) sample_one "g" "/tmp/h" s1 = (Ok tt, s2) ∧
    s2.2 !! "/tmp/h" = Some "content".
Proof.
  eexists _, _. split; [reflexivity|]. split; [reflexivity|].
  edestruct (put_get_roundtrip (H:=toy_fs) sample_one "/tmp/f" "g" "stages/stages/DB/S/ONE/g" "/tmp/h" sample)
    as (content & Hc & _ & Hh & _); [vm_compute; reflexivity|vm_compute; reflexivity|discriminate|discriminate|reflexivity|reflexivity|].
  refine (eq_trans Hh _). rewrite <- Hc. vm_compute. reflexivity.
Defined.

(** A file that is put onto itself is emptied. *)
Example put_onto_itself :
  (PutMetaFile (mkdirAll (FileSystem:=toy_fs)) (os_files (FileSystem:=toy_fs)) sample_two
     "stages/stages/DB/S/TWO/in/f.csv" "in/f.csv" sample).2.2 !! "stages/stages/DB/S/TWO/in/f.csv" = Some "".
Proof. vm_compute. reflexivity. Qed.

(** A stage name is not checked to be a path element: a name with enough [..] has
    its directory outside the base directory, and dropping the stage removes it. *)
Example stage_name_escapes :
  stage_dir "/data/stages" "DB" "S" "../../../../../ETC" = "/ETC" ∧
  ¬ within "/data/stages" (stage_dir "/data/stages" "DB" "S" "../../../../../ETC").
Proof. split; [vm_compute; reflexivity|]. apply (bool_decide_unpack _). vm_compute. exact I. Qed.
