(* ===== verification/Regexp.v ===== *)
(** * Regular expressions ([regexp] of Go)

    The syntax that the patterns of the program use, and its leftmost-first
    matching: at the leftmost position where there is a match, the first match of
    a backtracking search is taken, alternatives being tried from left to right
    and repetitions longest first (shortest first after [?]).  Text and patterns
    are bytes; on ASCII patterns a byte of a longer rune is one more byte of a
    negated class.  A pattern is a string, parsed by [regexp], so that the
    definitions show the source's own text. *)

From S2P Require Import Prelude GoStrings.
From Stdlib Require Import Ascii.

(** ** Syntax *)

Inductive Regexp : Type :=
  | Empty
  | Never
  | Class (f : ascii → bool)
  | Cat (r1 r2 : Regexp)
  | Alt (r1 r2 : Regexp)
  | Star (greedy : bool) (r : Regexp)
  | Group (n : nat) (r : Regexp)
  | TextStart
  | TextEnd
  | WordEdge (inside : bool).

Definition Plus (greedy : bool) (r : Regexp) : Regexp := Cat r (Star greedy r).
Definition Opt (greedy : bool) (r : Regexp) : Regexp := if greedy then Alt r Empty else Alt Empty r.

Definition is_word (c : ascii) : bool :=
  is_lower c || is_upper c || is_digit c || bool_decide (c = "_"%char).

(** ** Matching *)

(** A position in the text: the byte before it and the text after it. *)
Record Pos := mkPos { before : option ascii; rest : string }.

(** The groups matched so far, the last one first: where each begins and ends. *)
Definition Caps : Type := list (nat * (Pos * Pos)).

Definition ahead (p : Pos) : option ascii :=
  match rest p with "" => None | String c _ => Some c end.
Definition word_side (c : option ascii) : bool :=
  match c with Some c => is_word c | None => false end.
Definition at_edge (p : Pos) : bool := xorb (word_side (before p)) (word_side (ahead p)).

(** A turn of a repetition must consume something. *)
Definition shorter (p' p : Pos) : bool := (String.length (rest p') <? String.length (rest p))%nat.

Section search.
Context {R : Type}.

(** A search continues with [k] and goes back when [k] fails. *)
Definition Search : Type := (Pos → Caps → option R) → Pos → Caps → option R.

Fixpoint star (greedy : bool) (step : Search) (fuel : nat) : Search := λ k p c,
  match fuel with
  | O => None
  | S fuel =>
      let again := λ _ : unit,
        step (λ p' c', if shorter p' p then star greedy step fuel k p' c' else None) p c in
      if greedy
      then match again tt with Some x => Some x | None => k p c end
      else match k p c with Some x => Some x | None => again tt end
  end.

Fixpoint search (r : Regexp) : Search := λ k p c,
  match r with
  | Empty => k p c
  | Never => None
  | Class f =>
      match rest p with
      | "" => None
      | String ch s => if f ch then k (mkPos (Some ch) s) c else None
      end
  | Cat r1 r2 => search r1 (search r2 k) p c
  | Alt r1 r2 =>
      match search r1 k p c with Some x => Some x | None => search r2 k p c end
  | Star greedy r => star greedy (search r) (S (String.length (rest p))) k p c
  | Group n r => search r (λ p' c', k p' ((n, (p, p')) :: c')) p c
  | TextStart => match before p with None => k p c | Some _ => None end
  | TextEnd => if decide (rest p = "") then k p c else None
  | WordEdge inside => if Bool.eqb (at_edge p) (negb inside) then k p c else None
  end.
End search.

(** The text between two positions. *)
Definition span (p p' : Pos) : string :=
  str_take (String.length (rest p) - String.length (rest p')) (rest p).

Record Match := mkMatch { m_start : Pos; m_end : Pos; m_caps : Caps }.

(** The match at a position, and the first match from it on with the text before
    it. *)
Definition match_at (r : Regexp) (p : Pos) : option Match :=
  search r (λ p' c, Some (mkMatch p p' c)) p [].

Fixpoint find_from (r : Regexp) (b : option ascii) (s : string) : option (string * Match) :=
  match match_at r (mkPos b s) with
  | Some m => Some ("", m)
  | None => match s with
            | "" => None
            | String c s => (λ '(pre, m), (String c pre, m)) <$> find_from r (Some c) s
            end
  end.

(** [re.FindStringIndex], with the text before the match. *)
Definition find (r : Regexp) (s : string) : option (string * Match) := find_from r None s.

Definition MatchString (r : Regexp) (s : string) : bool :=
  match find r s with Some _ => true | None => false end.

(** The group [n] of a match ([m[n]] of [FindStringSubmatch]), empty when it took
    no part; group 0 is the whole match. *)
Fixpoint cap_find (n : nat) (c : Caps) : string :=
  match c with
  | [] => ""
  | (i, (p, p')) :: c => if decide (i = n) then span p p' else cap_find n c
  end.
Definition group (m : Match) (n : nat) : string :=
  match n with O => span (m_start m) (m_end m) | _ => cap_find n (m_caps m) end.

Definition FindStringSubmatch (r : Regexp) (s : string) : option Match := snd <$> find r s.

(** [re.FindAllStringSubmatch(s, -1)]; the fuel is the length of the text, which
    every turn shortens.  [fresh]: see [replace_from]. *)
Fixpoint find_all (fuel : nat) (r : Regexp) (fresh : bool) (p : Pos) : list Match :=
  match fuel with
  | O => []
  | S fuel =>
      match find_from r (before p) (rest p) with
      | None => []
      | Some (pre, m) =>
          if decide (span (m_start m) (m_end m) = "") then
            (if fresh || bool_decide (pre ≠ "") then [m] else []) ++
            match rest (m_end m) with
            | "" => []
            | String c s => find_all fuel r true (mkPos (Some c) s)
            end
          else m :: find_all fuel r false (m_end m)
      end
  end.
Definition FindAllStringSubmatch (r : Regexp) (s : string) : list Match :=
  find_all (S (String.length s)) r true (mkPos None s).

(** ** Replacing *)

(** The loop of the replacing functions; [fresh] says that no match ends at the
    position, since an empty match right after another one is skipped.  The fuel is
    the length of the text, which every turn shortens. *)
Fixpoint replace_from (fuel : nat) (r : Regexp) (f : Match → string) (fresh : bool) (p : Pos) : string :=
  match fuel with
  | O => rest p
  | S fuel =>
      match find_from r (before p) (rest p) with
      | None => rest p
      | Some (pre, m) =>
          let out := if decide (span (m_start m) (m_end m) = "") then
                       if fresh || bool_decide (pre ≠ "") then f m else ""
                     else f m in
          if decide (span (m_start m) (m_end m) = "") then
            match rest (m_end m) with
            | "" => pre +:+ out
            | String c s => pre +:+ out +:+ String c (replace_from fuel r f true (mkPos (Some c) s))
            end
          else pre +:+ out +:+ replace_from fuel r f false (m_end m)
      end
  end.

Definition ReplaceAllMatch (r : Regexp) (s : string) (f : Match → string) : string :=
  replace_from (S (String.length s)) r f true (mkPos None s).

(** [re.ReplaceAllStringFunc] *)
Definition ReplaceAllStringFunc (r : Regexp) (s : string) (f : string → string) : string :=
  ReplaceAllMatch r s (λ m, f (group m 0)).

(** The [$1] and [${1}] of a replacement. *)
Fixpoint expand (fuel : nat) (m : Match) (t : string) : string :=
  match fuel with
  | O => t
  | S fuel =>
      match t with
      | "" => ""
      | String "$" (String "$" t) => String "$" (expand fuel m t)
      | String "$" (String "{" t) =>
          match Cut t "}" with
          | Some (name, t) =>
              match Atoi name with
              | Some n => group m (Z.to_nat n) +:+ expand fuel m t
              | None => expand fuel m t
              end
          | None => String "$" (String "{" (expand fuel m t))
          end
      | String "$" t =>
          let name := take_while is_word t in
          if decide (name = "") then String "$" (expand fuel m t)
          else match Atoi name with
               | Some n => group m (Z.to_nat n) +:+ expand fuel m (trim_left is_word t)
               | None => expand fuel m (trim_left is_word t)
               end
      | String c t => String c (expand fuel m t)
      end
  end.

(** [re.ReplaceAllString] *)
Definition ReplaceAllString (r : Regexp) (s repl : string) : string :=
  ReplaceAllMatch r s (λ m, expand (S (String.length repl)) m repl).

(** ** Parsing patterns *)

Record Flags := mkFlags { foldCase : bool; dotNL : bool }.

Definition folded (fl : Flags) (f : ascii → bool) : ascii → bool :=
  if foldCase fl then λ c, f (lower_byte c) || f (upper_byte c) else f.
Definition lit (fl : Flags) (c : ascii) : Regexp :=
  Class (if foldCase fl then λ d, bool_decide (lower_byte d = lower_byte c) else λ d, bool_decide (d = c)).

(** The Perl classes. *)
Definition perl_class (c : ascii) : option (ascii → bool) :=
  if bool_decide (c = "d"%char) then Some is_digit
  else if bool_decide (c = "D"%char) then Some (λ c, negb (is_digit c))
  else if bool_decide (c = "s"%char) then Some re_space
  else if bool_decide (c = "S"%char) then Some (λ c, negb (re_space c))
  else if bool_decide (c = "w"%char) then Some is_word
  else if bool_decide (c = "W"%char) then Some (λ c, negb (is_word c))
  else None.

(** A punctuation byte stands for itself after a backslash. *)
Definition escaped_lit (c : ascii) : option ascii :=
  if bool_decide (c = "n"%char) then Some (ascii_of_nat 10)
  else if bool_decide (c = "t"%char) then Some (ascii_of_nat 9)
  else if bool_decide (c = "r"%char) then Some (ascii_of_nat 13)
  else if is_word c || (127 <? N_of_ascii c)%N then None else Some c.

(** The items of a bracketed class up to its [\]]. *)
Fixpoint parse_class (fuel : nat) (first : bool) (acc : ascii → bool) (s : string)
    : option ((ascii → bool) * string) :=
  match fuel with
  | O => None
  | S fuel =>
      match s with
      | "" => None
      | String "]" s =>
          if first then parse_class fuel false (λ c, acc c || bool_decide (c = "]"%char)) s else Some (acc, s)
      | String "\" (String e s) =>
          match perl_class e, escaped_lit e with
          | Some f, _ => parse_class fuel false (λ c, acc c || f c) s
          | None, Some l => parse_class fuel false (λ c, acc c || bool_decide (c = l)) s
          | None, None => None
          end
      | String lo (String "-" (String hi s')) =>
          if bool_decide (hi = "]"%char)
          then parse_class fuel false (λ c, acc c || bool_decide (c = lo)) (String "-" (String hi s'))
          else parse_class fuel false
                 (λ c, acc c || byte_in (N_of_ascii lo) (N_of_ascii hi) c) s'
      | String c0 s => parse_class fuel false (λ c, acc c || bool_decide (c = c0)) s
      end
  end.

(** [?], [*], [+] and their lazy forms. *)
Definition parse_rep (r : Regexp) (s : string) : Regexp * string :=
  match s with
  | String "*" (String "?" s) => (Star false r, s)
  | String "*" s => (Star true r, s)
  | String "+" (String "?" s) => (Plus false r, s)
  | String "+" s => (Plus true r, s)
  | String "?" (String "?" s) => (Opt false r, s)
  | String "?" s => (Opt true r, s)
  | _ => (r, s)
  end.

(** An alternation ends at a closing parenthesis or at the end; [n] is the number
    of the next group. *)
Fixpoint parse_alt (fuel : nat) (fl : Flags) (n : nat) (s : string) : option (Regexp * nat * string) :=
  match fuel with
  | O => None
  | S fuel =>
      match parse_cat fuel fl n None s with
      | Some (r, fl, n, String "|" s) =>
          match parse_alt fuel fl n s with
          | Some (r', n, s) => Some (Alt r r', n, s)
          | None => None
          end
      | Some (r, _, n, s) => Some (r, n, s)
      | None => None
      end
  end
with parse_cat (fuel : nat) (fl : Flags) (n : nat) (acc : option Regexp) (s : string)
    : option (Regexp * Flags * nat * string) :=
  match fuel with
  | O => None
  | S fuel =>
      let more := λ (r : Regexp) (n : nat) (s : string),
        let '(r, s) := parse_rep r s in
        parse_cat fuel fl n (Some (match acc with Some a => Cat a r | None => r end)) s in
      match s with
      | "" | String "|" _ | String ")" _ => Some (default Empty acc, fl, n, s)
      | String "*" _ | String "+" _ | String "?" _ | String "{" _ => None
      | String "(" (String "?" (String ":" s)) =>
          match parse_alt fuel fl n s with
          | Some (r, n, String ")" s) => more r n s
          | _ => None
          end
      | String "(" (String "?" (String "i" (String ")" s))) => parse_cat fuel (mkFlags true (dotNL fl)) n acc s
      | String "(" (String "?" (String "s" (String ")" s))) => parse_cat fuel (mkFlags (foldCase fl) true) n acc s
      | String "(" (String "?" (String "i" (String "s" (String ")" s)))) => parse_cat fuel (mkFlags true true) n acc s
      | String "(" (String "?" _) => None
      | String "(" s =>
          match parse_alt fuel fl (S n) s with
          | Some (r, n', String ")" s) => more (Group n r) n' s
          | _ => None
          end
      | String "[" (String "^" s) =>
          match parse_class fuel true (λ _, false) s with
          | Some (f, s) => more (Class (λ c, negb (folded fl f c))) n s
          | None => None
          end
      | String "[" s =>
          match parse_class fuel true (λ _, false) s with
          | Some (f, s) => more (Class (folded fl f)) n s
          | None => None
          end
      | String "." s => more (Class (λ c, dotNL fl || negb (N_of_ascii c =? 10)%N)) n s
      | String "^" s => more TextStart n s
      | String "$" s => more TextEnd n s
      | String "\" (String "b" s) => more (WordEdge false) n s
      | String "\" (String "B" s) => more (WordEdge true) n s
      | String "\" (String e s) =>
          match perl_class e, escaped_lit e with
          | Some f, _ => more (Class f) n s
          | None, Some l => more (lit fl l) n s
          | None, None => None
          end
      | String "\" "" => None
      | String c s => more (lit fl c) n s
      end
  end.

(** [regexp.Compile], [None] for what Go refuses or this file leaves out. *)
Definition Compile (pattern : string) : option Regexp :=
  match parse_alt (2 * String.length pattern + 2) (mkFlags false false) 1 pattern with
  | Some (r, _, "") => Some r
  | _ => None
  end.

(** [regexp.MustCompile]; where Go would panic at start-up the expression matches
    nothing. *)
Definition regexp (pattern : string) : Regexp := default Never (Compile pattern).

Example regexp_sample :
  (λ m, (group m 0, group m 1, group m 2)) <$>
    FindStringSubmatch (regexp "(?i)^DROP\s+STAGE\s+(IF\s+EXISTS\s+)?(\S+)") "drop stage  if exists s;"
  = Some ("drop stage  if exists s;", "if exists ", "s;")%string.
Proof. vm_compute. reflexivity. Qed.

Example replace_sample :
  ReplaceAllString (regexp "\b([a-zA-Z_][a-zA-Z0-9_]*)\[(\d+)\]") "SELECT a[0], b[12] FROM t" "${1}->>${2}"
  = "SELECT a->>0, b->>12 FROM t"%string ∧
  ReplaceAllString (regexp "a*") "baac" "x" = "xbxcx"%string.
Proof. vm_compute. split; reflexivity. Qed.

(** ** What a search decides

    [matches r p c p' c'] relates the positions and groups before and after a match
    of [r], whatever the priorities.  A search succeeds exactly when a match leads
    to a position where its continuation does. *)

Inductive matches : Regexp → Pos → Caps → Pos → Caps → Prop :=
  | matches_empty p c : matches Empty p c p c
  | matches_class f b ch s c : f ch = true → matches (Class f) (mkPos b (String ch s)) c (mkPos (Some ch) s) c
  | matches_cat r1 r2 p1 c1 p2 c2 p3 c3 :
      matches r1 p1 c1 p2 c2 → matches r2 p2 c2 p3 c3 → matches (Cat r1 r2) p1 c1 p3 c3
  | matches_alt_l r1 r2 p c p' c' : matches r1 p c p' c' → matches (Alt r1 r2) p c p' c'
  | matches_alt_r r1 r2 p c p' c' : matches r2 p c p' c' → matches (Alt r1 r2) p c p' c'
  | matches_star_nil g r p c : matches (Star g r) p c p c
  | matches_star_cons g r p1 c1 p2 c2 p3 c3 :
      matches r p1 c1 p2 c2 → shorter p2 p1 = true → matches (Star g r) p2 c2 p3 c3 →
      matches (Star g r) p1 c1 p3 c3
  | matches_group n r p c p' c' : matches r p c p' c' → matches (Group n r) p c p' ((n, (p, p')) :: c')
  | matches_start s c : matches TextStart (mkPos None s) c (mkPos None s) c
  | matches_end b c : matches TextEnd (mkPos b "") c (mkPos b "") c
  | matches_edge inside p c : at_edge p = negb inside → matches (WordEdge inside) p c p c.

Section search_spec.
Context {R : Type}.
Implicit Types (k : Pos → Caps → option R).

(** What holds of a search for [r]. *)
Definition decides (r : Regexp) (sr : Search (R:=R)) : Prop := ∀ k p c,
  (∀ x, sr k p c = Some x → ∃ p' c', matches r p c p' c' ∧ k p' c' = Some x) ∧
  (sr k p c = None → ∀ p' c', matches r p c p' c' → k p' c' = None).

Lemma star_decides g r sr fuel k p c : decides r sr → (String.length (rest p) < fuel)%nat →
  (∀ x, star g sr fuel k p c = Some x → ∃ p' c', matches (Star g r) p c p' c' ∧ k p' c' = Some x) ∧
  (star g sr fuel k p c = None → ∀ p' c', matches (Star g r) p c p' c' → k p' c' = None).
Proof.
  intros Hr. revert p c. induction fuel as [|fuel IH]; intros p c Hlen; [lia|]. cbn [star].
  set (k' := λ p' c', if shorter p' p then star g sr fuel k p' c' else None).
  destruct (Hr k' p c) as [Hs Hn].
  assert (Hagain : (∀ x, sr k' p c = Some x → ∃ p' c', matches (Star g r) p c p' c' ∧ k p' c' = Some x) ∧
    (sr k' p c = None → ∀ p1 c1 p' c', matches r p c p1 c1 → shorter p1 p = true →
       matches (Star g r) p1 c1 p' c' → k p' c' = None)).
  { split.
    - intros x (p1 & c1 & Hm & Hk)%Hs. unfold k' in Hk. destruct (shorter p1 p) eqn:Hsh; [|done].
      destruct (IH p1 c1) as [IHs _]; [apply Nat.ltb_lt in Hsh; lia|].
      apply IHs in Hk as (p' & c' & ? & ?). eauto using matches.
    - intros Hnone p1 c1 p' c' Hm Hsh Hst. specialize (Hn Hnone p1 c1 Hm). unfold k' in Hn.
      rewrite Hsh in Hn. destruct (IH p1 c1) as [_ IHn]; [apply Nat.ltb_lt in Hsh; lia|]. eauto. }
  destruct Hagain as [Has Han].
  assert (Hall : sr k' p c = None → k p c = None → ∀ p' c', matches (Star g r) p c p' c' → k p' c' = None).
  { intros H1 H2 p' c' Hm. inversion Hm; subst; [done|]. eauto. }
  destruct g.
  - destruct (sr k' p c) as [y|] eqn:E; [split; [|done]; intros x [= <-]; eauto|].
    split; [|eauto]. intros x Hx. eauto using matches.
  - destruct (k p c) as [y|] eqn:E; [split; [|done]; intros x [= <-]; eauto using matches|].
    split; [eauto|eauto].
Qed.

Lemma search_decides r : decides r (search (R:=R) r).
Proof.
  induction r as [| |f|r1 IH1 r2 IH2|r1 IH1 r2 IH2|g r IH|n r IH| | |inside]; intros k p c; cbn [search].
  - split; [eauto using matches|]. intros H p' c' Hm. by inversion Hm; subst.
  - split; [done|]. intros _ p' c' Hm. inversion Hm.
  - destruct p as [b [|ch s]]; cbn.
    + split; [done|]. intros _ p' c' Hm. inversion Hm.
    + destruct (f ch) eqn:E.
      * split; [eauto using matches|]. intros H p' c' Hm. by inversion Hm; subst.
      * split; [done|]. intros _ p' c' Hm. inversion Hm; subst. congruence.
  - destruct (IH1 (search r2 k) p c) as [Hs Hn]. split.
    + intros x (p1 & c1 & Hm & Hk)%Hs. apply (IH2 k p1 c1) in Hk as (p' & c' & ? & ?). eauto using matches.
    + intros H p' c' Hm. inversion Hm; subst. by eapply (IH2 k); [eapply Hn|].
  - destruct (IH1 k p c) as [Hs1 Hn1], (IH2 k p c) as [Hs2 Hn2].
    destruct (search r1 k p c) as [y|] eqn:E.
    + split; [|done]. intros x [= <-]. destruct (Hs1 y) as (? & ? & ? & ?); eauto using matches.
    + split; [intros x (? & ? & ? & ?)%Hs2; eauto using matches|].
      intros H p' c' Hm. inversion Hm; subst; eauto.
  - apply star_decides; [apply IH|lia].
  - destruct (IH (λ p' c', k p' ((n, (p, p')) :: c')) p c) as [Hs Hn]. split.
    + intros x (p' & c' & ? & ?)%Hs. eauto using matches.
    + intros H p' c' Hm. inversion Hm; subst. by eapply Hn in H.
  - destruct p as [[b|] s]; cbn.
    + split; [done|]. intros _ p' c' Hm. inversion Hm.
    + split; [eauto using matches|]. intros H p' c' Hm. by inversion Hm; subst.
  - destruct p as [b s]; cbn. destruct (decide (s = "")) as [->|Hne].
    + split; [eauto using matches|]. intros H p' c' Hm. by inversion Hm; subst.
    + split; [done|]. intros _ p' c' Hm. by inversion Hm; subst.
  - destruct (Bool.eqb (at_edge p) (negb inside)) eqn:E.
    + apply Bool.eqb_prop in E. split; [eauto using matches|]. intros H p' c' Hm. by inversion Hm; subst.
    + split; [done|]. intros _ p' c' Hm. inversion Hm as [| | | | | | | | | |? ? ? He]; subst. by rewrite He, Bool.eqb_reflx in E.
Qed.
End search_spec.

Lemma match_at_spec r p : match match_at r p with
  | Some m => m_start m = p ∧ matches r p [] (m_end m) (m_caps m)
  | None => ∀ p' c', ¬ matches r p [] p' c'
  end.
Proof.
  unfold match_at. destruct (search_decides r (λ p' c, Some (mkMatch p p' c)) p []) as [Hs Hn].
  destruct (search r _ p []) as [m|].
  - destruct (Hs m eq_refl) as (p' & c' & Hm & [= <-]). done.
  - intros p' c' Hm. by specialize (Hn eq_refl p' c' Hm).
Qed.

(** The search takes the leftmost match. *)
Lemma find_from_spec r b s : match find_from r b s with
  | Some (pre, m) => s = pre +:+ rest (m_start m) ∧ before (m_start m) = last_byte b pre ∧
      matches r (m_start m) [] (m_end m) (m_caps m) ∧
      ∀ a t, s = a +:+ t → (String.length a < String.length pre)%nat →
        ∀ p' c', ¬ matches r (mkPos (last_byte b a) t) [] p' c'
  | None => ∀ a t, s = a +:+ t → ∀ p' c', ¬ matches r (mkPos (last_byte b a) t) [] p' c'
  end.
Proof.
  revert b. induction s as [|ch s IH]; intros b; cbn [find_from].
  - pose proof (match_at_spec r (mkPos b "")) as Hat. destruct (match_at r _) as [m|].
    + destruct Hat as [E Hm]. rewrite E in *. cbn. split_all; [done|done|done|]. intros; lia.
    + intros [|] t E; [|done]. cbn in *. subst t. apply Hat.
  - pose proof (match_at_spec r (mkPos b (String ch s))) as Hat. destruct (match_at r _) as [m|].
    + destruct Hat as [E Hm]. rewrite E in *. cbn. split_all; [done|done|done|]. intros; lia.
    + specialize (IH (Some ch)). destruct (find_from r (Some ch) s) as [[pre m]|]; cbn.
      * destruct IH as (-> & Hb & Hm & Hleft). split_all; [done|done|done|].
        intros [|c a] t E Hlen; cbn in *; [subst t; apply Hat|].
        injection E as <- E. apply Hleft; [done|lia].
      * intros [|c a] t E; cbn in *; [subst t; apply Hat|]. injection E as <- E. by apply IH.
Qed.

(** *** Where a match can be *)

Lemma spaces_matches f p c p' c' : matches (Star true (Class f)) p c p' c' ↔
  c' = c ∧ ∃ ws, rest p = ws +:+ rest p' ∧ every f ws = true ∧ before p' = last_byte (before p) ws.
Proof.
  split.
  - remember (Star true (Class f)) as r eqn:Er. intros H. induction H; simplify_eq.
    + split; [done|]. by exists "".
    + match goal with H : matches (Class f) _ _ _ _ |- _ => inversion H as [|? b ch s ? Hch| | | | | | | | |]; subst end.
      destruct IHmatches2 as (-> & ws & Hr & He & Hb); [done|]. split; [done|].
      exists (String ch ws). cbn in *. by rewrite Hr, He, Hch.
  - intros (-> & ws & Hr & He & Hb). destruct p as [b s]. cbn in *. subst s.
    revert b Hb. induction ws as [|ch ws IH]; intros b Hb.
    + destruct p'. cbn in *. subst. constructor.
    + cbn in He. apply andb_true_iff in He as [Hc He].
      econstructor; [by constructor| |by apply IH]. apply Nat.ltb_lt. exact (Nat.lt_succ_diag_r _).
Qed.

(** A match takes some bytes away. *)
Lemma matches_span r p c p' c' : matches r p c p' c' →
  ∃ w, rest p = w +:+ rest p' ∧ before p' = last_byte (before p) w.
Proof.
  induction 1 as [p c|f b ch s c H|r1 r2 p1 c1 p2 c2 p3 c3 _ (w1 & E1 & B1) _ (w2 & E2 & B2)|
    r1 r2 p c p' c' _ IH|r1 r2 p c p' c' _ IH|g r p c|g r p1 c1 p2 c2 p3 c3 _ (w1 & E1 & B1) _ _ (w2 & E2 & B2)|
    n r p c p' c' _ IH|s c|b c|inside p c H]; try done; try by exists "".
  - by exists (String ch "").
  - exists (w1 +:+ w2). rewrite E1, E2, B2, B1, last_byte_app. by rewrite string_app_assoc.
  - exists (w1 +:+ w2). rewrite E1, E2, B2, B1, last_byte_app. by rewrite string_app_assoc.
Qed.

(** The ends of the matches that begin with a known text [s] and lie in it, as what
    is left of [s]; [None] when a match may go beyond [s]. *)
Fixpoint reach_star (step : string → option (list string)) (fuel : nat) (s : string) : option (list string) :=
  match fuel with
  | O => None
  | S fuel =>
      l ← step s;
      l' ← mapM (reach_star step fuel) (filter (λ t, String.length t < String.length s)%nat l);
      Some (s :: concat l')
  end.

Fixpoint reach (r : Regexp) (s : string) : option (list string) :=
  match r with
  | Empty | TextStart | WordEdge _ => Some [s]
  | Never => Some []
  | Class f => match s with "" => None | String c t => Some (if f c then [t] else []) end
  | Cat r1 r2 => l ← reach r1 s; l' ← mapM (reach r2) l; Some (concat l')
  | Alt r1 r2 => l1 ← reach r1 s; l2 ← reach r2 s; Some (l1 ++ l2)
  | Star _ r => reach_star (reach r) (S (String.length s)) s
  | Group _ r => reach r s
  | TextEnd => Some (if decide (s = "") then [s] else [])
  end.

(** What [reach] promises of a step. *)
Definition covers (step : string → option (list string)) (r : Regexp) : Prop := ∀ s t l p c p' c',
  step s = Some l → rest p = s +:+ t → matches r p c p' c' → ∃ s', s' ∈ l ∧ rest p' = s' +:+ t.

Lemma mapM_concat {A B} (f : A → option (list B)) l l' a la b : mapM f l = Some l' → a ∈ l → f a = Some la → b ∈ la →
  b ∈ concat l'.
Proof.
  intros Hm Ha Hf Hb. apply mapM_Some in Hm. apply list_elem_of_lookup in Ha as [i Hi].
  destruct (Forall2_lookup_l _ _ _ _ _ Hm Hi) as (la' & Hi' & E). rewrite Hf in E. injection E as <-.
  apply list_elem_of_In, in_concat. exists la. rewrite <- !list_elem_of_In. split; [by eapply list_elem_of_lookup_2|done].
Qed.
Lemma mapM_elem {A B} (f : A → option B) l l' a : mapM f l = Some l' → a ∈ l → ∃ b, f a = Some b.
Proof.
  intros Hm Ha. apply mapM_Some in Hm. apply list_elem_of_lookup in Ha as [i Hi].
  destruct (Forall2_lookup_l _ _ _ _ _ Hm Hi) as (b & _ & E). eauto.
Qed.

Lemma reach_star_covers step g r fuel : covers step r → covers (reach_star step fuel) (Star g r).
Proof.
  intros Hr. induction fuel as [|fuel IH]; intros s t l p c p' c'; cbn [reach_star]; [done|].
  destruct (step s) as [l1|] eqn:E1; [|done]. cbn. destruct (mapM _ _) as [l2|] eqn:E2; [|done]. cbn.
  intros [= <-] Hp Hm. inversion Hm as [| | | | | |? ? ? ? p1 c1 ? ? H1 H2 H3| | | |]; subst; [exists s; by rewrite elem_of_cons; auto|].
  destruct (Hr _ _ _ _ _ _ _ E1 Hp H1) as (s1 & Hs1 & Hp1).
  apply Nat.ltb_lt in H2. rewrite Hp, Hp1, !string_app_length in H2.
  assert (Hf : s1 ∈ filter (λ t, String.length t < String.length s)%nat l1) by (apply list_elem_of_filter; split; [lia|done]).
  destruct (mapM_elem _ _ _ _ E2 Hf) as (ls & Els). destruct (IH _ _ _ _ _ _ _ Els Hp1 H3) as (s' & Hs' & Hp').
  exists s'. split; [|done]. apply elem_of_cons. right. by eapply mapM_concat.
Qed.

Lemma reach_covers r : covers (reach r) r.
Proof.
  induction r as [| |f|r1 IH1 r2 IH2|r1 IH1 r2 IH2|g r IH|n r IH| | |inside]; cbn [reach].
  6: { intros s t l p c p' c'. by apply (reach_star_covers (reach r) g r (S (String.length s))). }
  all: intros s t l p c p' c' Hl Hp Hm; try (inversion Hm; subst; simplify_eq; exists s; by rewrite list_elem_of_singleton).
  - inversion Hm as [|? b ch u ? Hf| | | | | | | | |]; subst. destruct s as [|d s]; [done|]. cbn in Hp. injection Hp as -> ->.
    rewrite Hf in Hl. injection Hl as <-. exists s. by rewrite list_elem_of_singleton.
  - inversion Hm as [| |? ? ? ? p1 c1 ? ? H1 H2| | | | | | | |]; subst. destruct (reach r1 s) as [l1|] eqn:E1; [|done]. cbn in Hl.
    destruct (mapM _ _) as [l2|] eqn:E2; [|done]. injection Hl as <-.
    destruct (IH1 _ _ _ _ _ _ _ E1 Hp H1) as (s1 & Hs1 & Hp1). destruct (mapM_elem _ _ _ _ E2 Hs1) as (ls & Els).
    destruct (IH2 _ _ _ _ _ _ _ Els Hp1 H2) as (s' & Hs' & Hp'). exists s'. split; [|done]. by eapply mapM_concat.
  - destruct (reach r1 s) as [l1|] eqn:E1; [|done]. destruct (reach r2 s) as [l2|] eqn:E2; [|done]. cbn in Hl.
    injection Hl as <-. setoid_rewrite elem_of_app. inversion Hm; subst.
    + edestruct IH1 as (s' & ? & ?); eauto.
    + edestruct IH2 as (s' & ? & ?); eauto.
  - inversion Hm; subst. by eapply IH.
  - inversion Hm; subst. destruct s as [|d s]; [|done]. rewrite decide_True in Hl by done. injection Hl as <-.
    exists "". by rewrite list_elem_of_singleton.
Qed.

(** No match begins with the text [s]. *)
Lemma reach_none r b s t c p' c' : reach r s = Some [] → ¬ matches r (mkPos b (s +:+ t)) c p' c'.
Proof. intros Hr Hm. by destruct (reach_covers r s t _ (mkPos b (s +:+ t)) c p' c' Hr eq_refl Hm) as (s' & []%not_elem_of_nil & _). Qed.

(** The two bytes that a match begins with. *)
Fixpoint first_two (r : Regexp) : option ((ascii → bool) * (ascii → bool)) :=
  match r with
  | Cat (Class f) (Class g) => Some (f, g)
  | Cat r1 _ => first_two r1
  | _ => None
  end.

Lemma first_two_spec r f g p c p' c' : first_two r = Some (f, g) → matches r p c p' c' →
  ∃ a b t, rest p = String a (String b t) ∧ f a = true ∧ g b = true.
Proof.
  revert p' c'. induction r as [| | |r1 IH1 r2 IH2| | | | | |]; cbn; try done. intros p' c' Hf Hm.
  inversion Hm as [| |? ? ? ? p1 c1 ? ? H1 H2| | | | | | | |]; subst.
  destruct r1; try done; [|by eapply IH1].
  destruct r2; try done. injection Hf as <- <-. inversion H1; subst. inversion H2; subst. by eexists _, _, _.
Qed.

(** Groups are the only part of a match that [matches] records. *)
Fixpoint groupless (r : Regexp) : bool :=
  match r with
  | Cat r1 r2 | Alt r1 r2 => groupless r1 && groupless r2
  | Star _ r => groupless r
  | Group _ _ => false
  | _ => true
  end.
Lemma groupless_caps r p c p' c' : groupless r = true → matches r p c p' c' → c' = c.
Proof.
  intros Hg Hm. induction Hm; cbn in Hg; try apply andb_true_iff in Hg as [? ?]; try done; auto.
  - rewrite IHHm2, IHHm1; done.
  - rewrite IHHm2, IHHm1; done.
Qed.

(** A search for what can match in one way only goes on from there. *)
Lemma search_unique {R} r (k : Pos → Caps → option R) p c p1 c1 : matches r p c p1 c1 →
  (∀ p' c', matches r p c p' c' → p' = p1 ∧ c' = c1) → search r k p c = k p1 c1.
Proof.
  intros Hm Hu. destruct (search_decides r k p c) as [Hs Hn]. destruct (search r k p c) as [x|].
  - destruct (Hs x eq_refl) as (p' & c' & [-> ->]%Hu & Hk). done.
  - symmetry. by apply Hn.
Qed.

(** A lazy repetition stops at the first position where the rest succeeds. *)
Lemma lazy_first {R} (f : ascii → bool) (k : Pos → Caps → option R) fuel b x y c res : every f x = true →
  (String.length x < fuel)%nat →
  (∀ x1 x2, x = x1 +:+ x2 → x2 ≠ "" → k (mkPos (last_byte b x1) (x2 +:+ y)) c = None) →
  k (mkPos (last_byte b x) y) c = Some res →
  star false (search (Class f)) fuel k (mkPos b (x +:+ y)) c = Some res.
Proof.
  revert b fuel. induction x as [|ch x IH]; intros b [|fuel] Hf Hl Hno Hyes; try (cbn in Hl; lia); cbn [star].
  - cbn in Hyes |- *. by rewrite Hyes.
  - cbn in Hf. apply andb_true_iff in Hf as [Hc Hf].
    pose proof (Hno "" (String ch x) eq_refl ltac:(done)) as H0. cbn [last_byte] in H0. rewrite H0. cbn [search rest]. change (String ch x +:+ y) with (String ch (x +:+ y)). cbn iota.
    rewrite Hc. assert (Hsh : ∀ b1 s, shorter (mkPos b1 s) (mkPos b (String ch s)) = true)
      by (intros; apply Nat.ltb_lt; exact (Nat.lt_succ_diag_r _)).
    rewrite Hsh. apply IH; [done|cbn in Hl; lia| |done].
    intros x1 x2 -> Hx2. by apply (Hno (String ch x1) x2).
Qed.

(** A greedy repetition of a class takes all that it can, when the rest succeeds there. *)
Lemma greedy_first {R} (f : ascii → bool) (k : Pos → Caps → option R) fuel b x y c res : every f x = true →
  (match y with "" => true | String d _ => negb (f d) end) = true → (String.length x < fuel)%nat →
  k (mkPos (last_byte b x) y) c = Some res →
  star true (search (Class f)) fuel k (mkPos b (x +:+ y)) c = Some res.
Proof.
  revert b fuel. induction x as [|ch x IH]; intros b [|fuel] Hf Hy Hl Hk; try (cbn in Hl; lia); cbn [star].
  - cbn [last_byte] in Hk. change ("" +:+ y) with y. cbn [search rest]. destruct y as [|d y]; [by rewrite Hk|].
    apply negb_true_iff in Hy. by rewrite Hy, Hk.
  - cbn in Hf. apply andb_true_iff in Hf as [Hc Hf]. cbn [search rest]. change (String ch x +:+ y) with (String ch (x +:+ y)). cbn iota.
    rewrite Hc. assert (Hsh : ∀ b1 s, shorter (mkPos b1 s) (mkPos b (String ch s)) = true)
      by (intros; apply Nat.ltb_lt; exact (Nat.lt_succ_diag_r _)).
    rewrite Hsh, IH; [done|done|done|cbn in Hl; lia|done].
Qed.
Lemma greedy_plus {R} (f : ascii → bool) (k : Pos → Caps → option R) b x y c res : x ≠ "" → every f x = true →
  (match y with "" => true | String d _ => negb (f d) end) = true → k (mkPos (last_byte b x) y) c = Some res →
  search (Plus true (Class f)) k (mkPos b (x +:+ y)) c = Some res.
Proof.
  destruct x as [|d x]; [done|]. intros _ Hf Hy Hk. cbn in Hf. apply andb_true_iff in Hf as [Hd Hf].
  unfold Plus. cbn [search rest]. change (String d x +:+ y) with (String d (x +:+ y)). cbn iota. rewrite Hd.
  apply greedy_first; [done|done|rewrite string_app_length; lia|done].
Qed.

Lemma span_app b b' x y : span (mkPos b (x +:+ y)) (mkPos b' y) = x.
Proof. unfold span. cbn [rest]. rewrite string_app_length, Nat.add_sub. apply str_take_app. Qed.

Lemma find_from_here r b s x : match_at r (mkPos b s) = Some x → find_from r b s = Some ("", x).
Proof. intros H. destruct s; cbn [find_from]; by rewrite H. Qed.

(** ** Expressions for the beginning of a text *)

(** An expression that begins with [^]. *)
Fixpoint anchored (r : Regexp) : bool :=
  match r with TextStart => true | Cat r1 _ => anchored r1 | _ => false end.
Lemma anchored_start r p c p' c' : anchored r = true → matches r p c p' c' → before p = None.
Proof.
  revert p' c'. induction r as [| | |r1 IH1 r2 IH2| | | | | |]; cbn; try done; intros p' c' Ha Hm.
  - inversion Hm; subst. by eapply IH1.
  - by inversion Hm.
Qed.
Lemma anchored_none r A t : anchored r = true → reach r A = Some [] → FindStringSubmatch r (A +:+ t) = None.
Proof.
  intros Ha HA. unfold FindStringSubmatch, find. pose proof (find_from_spec r None (A +:+ t)) as H.
  destruct (find_from r None _) as [[pre m]|]; [|done]. exfalso. destruct H as (E & Hb & Hm & _).
  pose proof (anchored_start _ _ _ _ _ Ha Hm) as Hn. destruct (m_start m) as [b u]. cbn in *. subst b.
  destruct pre as [|c pre]; [|exfalso; clear -Hn; cbn in Hn; revert c Hn; induction pre; cbn; eauto; done].
  cbn in E. subst u. by apply (reach_none _ _ _ _ _ _ _ HA) in Hm.
Qed.

(** A word in either case after [acc]. *)
Fixpoint lits (acc : Regexp) (name : string) : Regexp :=
  match name with
  | "" => acc
  | String c name => lits (Cat acc (lit (mkFlags true false) c)) name
  end.
Fixpoint word_then {R} (w : string) (k : Pos → Caps → option R) : Pos → Caps → option R :=
  match w with
  | "" => k
  | String a w => search (lit (mkFlags true false) a) (word_then w k)
  end.
Lemma search_lits {R} acc w (k : Pos → Caps → option R) p c : search (lits acc w) k p c = search acc (word_then w k) p c.
Proof. revert acc. induction w as [|a w IH]; intros acc; [done|]. cbn [lits word_then]. by rewrite IH. Qed.
Lemma word_then_here {R} w (k : Pos → Caps → option R) b t c :
  word_then w k (mkPos b (w +:+ t)) c = k (mkPos (last_byte b w) t) c.
Proof.
  revert b. induction w as [|a w IH]; intros b; [done|]. cbn [word_then]. change (String a w +:+ t) with (String a (w +:+ t)).
  unfold lit. cbn [search rest]. cbn. rewrite ?bool_decide_eq_true_2 by done. apply IH.
Qed.

(** Words with white space after each. *)
Fixpoint lead (words : list string) (acc : Regexp) : Regexp :=
  match words with
  | [] => acc
  | w :: words => lead words (Cat (lits acc w) (Plus true (Class re_space)))
  end.
Inductive led_by : list string → string → string → Prop :=
  | led_none t : led_by [] t t
  | led_word w words ws s t : ws ≠ "" → every re_space ws = true →
      match s with "" => true | String d _ => negb (re_space d) end = true → led_by words s t →
      led_by (w :: words) (w +:+ ws +:+ s) t.
Fixpoint lead_then {R} (words : list string) (k : Pos → Caps → option R) : Pos → Caps → option R :=
  match words with
  | [] => k
  | w :: words => word_then w (search (Plus true (Class re_space)) (lead_then words k))
  end.
Lemma search_lead {R} words acc (k : Pos → Caps → option R) p c : search (lead words acc) k p c = search acc (lead_then words k) p c.
Proof.
  revert acc. induction words as [|w words IH]; intros acc; [done|]. cbn [lead lead_then]. rewrite IH.
  change (search (Cat (lits acc w) (Plus true (Class re_space))) (lead_then words k) p c)
    with (search (lits acc w) (search (Plus true (Class re_space)) (lead_then words k)) p c). apply search_lits.
Qed.
Lemma lead_then_here {R} words (k : Pos → Caps → option R) s t c res : led_by words s t → (∀ b, k (mkPos b t) c = Some (res b)) →
  ∀ b, ∃ b', lead_then words k (mkPos b s) c = Some (res b').
Proof.
  induction 1 as [t|w words ws s t Hne Hws Hs _ IH]; intros Hk b; cbn [lead_then]; [eauto|].
  rewrite word_then_here. destruct (IH Hk (last_byte (last_byte b w) ws)) as [b' Hb]. exists b'. by apply greedy_plus.
Qed.
