(* ===== verification/Rewriter.v ===== *)
(** * The SQL rewriter ([internal/rewriter/rewriter.go] and [snowflake_ddl.go])

    A statement goes through a list of rules, each of which rewrites its text.
    Some rules are regular expressions; others look for calls of a function and
    replace them until none is left, a loop that need not end: it takes fuel here,
    and its results are optional. *)

From S2P Require Import Prelude GoStrings Regexp.
From Stdlib Require Import Ascii.

(** ** Splitting statements *)

(** [cur] is the statement being collected. *)
Fixpoint split_go (cur : string) (inQuote : bool) (s : string) : list string :=
  match s with
  | "" => if decide (cur = "") then [] else [cur]
  | String ch s =>
      if decide (ch = sq) then
        if inQuote then
          match s with
          | String ch' s' =>
              if decide (ch' = sq) then split_go (cur +:+ String ch (String ch' "")) true s'
              else split_go (cur +:+ String ch "") false s
          | "" => split_go (cur +:+ String ch "") false s
          end
        else split_go (cur +:+ String ch "") true s
      else if bool_decide (ch = ";"%char) && negb inQuote then cur :: split_go "" inQuote s
      else split_go (cur +:+ String ch "") inQuote s
  end.

Definition splitStatements (sql : string) : list string := split_go "" false sql.

(** ** Calls of a function *)

(** The scan of the arguments after the opening parenthesis: [cur] is the text
    since the argument began. *)
Fixpoint scan_args (depth : nat) (inQuote : bool) (cur : string) (args : list string) (s : string)
    : option (list string * string) :=
  match s with
  | "" => None
  | String ch s =>
      let cur' := cur +:+ String ch "" in
      if decide (ch = sq) then
        if inQuote then
          match s with
          | String ch' s' =>
              if decide (ch' = sq) then scan_args depth true (cur' +:+ String ch' "") args s'
              else scan_args depth false cur' args s
          | "" => scan_args depth false cur' args s
          end
        else scan_args depth true cur' args s
      else if inQuote then scan_args depth true cur' args s
      else if decide (ch = "("%char) then scan_args (S depth) false cur' args s
      else if decide (ch = ")"%char) then
        if decide (depth = 1) then
          let arg := TrimSpace cur in
          Some (if decide (arg = "") then args else args ++ [arg], s)
        else scan_args (pred depth) false cur' args s
      else if decide (ch = ","%char) then
        if decide (depth = 1) then scan_args depth false "" (args ++ [TrimSpace cur]) s
        else scan_args depth false cur' args s
      else scan_args depth false cur' args s
  end.

(** The text from the opening parenthesis on; the result is the arguments and the
    text after the closing one. *)
Definition extractFuncArgs (sql : string) : option (list string * string) :=
  match sql with
  | String "(" s => scan_args 1 false "" [] s
  | _ => None
  end.

(** The text before the call, its arguments and the text after it. *)
Definition findFuncCall (sql funcName : string) : option (string * list string * string) :=
  let pat := regexp ("(?i)\b" +:+ funcName +:+ "\s*\(") in
  match find pat sql with
  | None => None
  | Some (pre, m) =>
      match Cut (rest (m_start m)) "(" with
      | None => None
      | Some (_, s) =>
          match extractFuncArgs (String "(" s) with
          | None => None
          | Some (args, post) => Some (pre, args, post)
          end
      end
  end.

(** [None]: the fuel is spent and there still is a call. *)
Fixpoint replaceFuncCall (fuel : nat) (sql funcName : string) (replacer : list string → string)
    : option string :=
  match findFuncCall sql funcName with
  | None => Some sql
  | Some (pre, args, post) =>
      match fuel with
      | O => None
      | S fuel => replaceFuncCall fuel (pre +:+ replacer args +:+ post) funcName replacer
      end
  end.

(** ** The replacements of function calls *)

Definition commas (args : list string) : string := Join ", " args.
Definition arg (args : list string) (i : nat) : string := nth i args "".
(** A call left as it is. *)
Definition same_call (name : string) (args : list string) : string := name +:+ "(" +:+ commas args +:+ ")".

(** The replacer of calls with at least [n] arguments. *)
Definition at_least (n : nat) (name : string) (f : list string → string) (args : list string) : string :=
  if decide (length args < n) then same_call name args else f args.

Definition iff_call : list string → string := at_least 3 "IFF" (λ args,
  "CASE WHEN " +:+ arg args 0 +:+ " THEN " +:+ arg args 1 +:+ " ELSE " +:+ arg args 2 +:+ " END").
Definition nvl2_call : list string → string := at_least 3 "NVL2" (λ args,
  "CASE WHEN " +:+ arg args 0 +:+ " IS NOT NULL THEN " +:+ arg args 1 +:+ " ELSE " +:+ arg args 2 +:+ " END").
Definition nvl_call (args : list string) : string := "COALESCE(" +:+ commas args +:+ ")".
Definition div0null_call : list string → string := at_least 2 "DIV0NULL" (λ args,
  "CASE WHEN COALESCE(" +:+ arg args 1 +:+ ", 0) = 0 THEN 0 ELSE " +:+ arg args 0 +:+ " / " +:+ arg args 1 +:+ " END").
Definition div0_call : list string → string := at_least 2 "DIV0" (λ args,
  "CASE WHEN " +:+ arg args 1 +:+ " = 0 THEN 0 ELSE " +:+ arg args 0 +:+ " / " +:+ arg args 1 +:+ " END").
Definition square_call : list string → string := at_least 1 "SQUARE" (λ args,
  "POWER(" +:+ arg args 0 +:+ ", 2)").
Definition array_construct_call (args : list string) : string := "[" +:+ commas args +:+ "]".
Definition array_size_call (args : list string) : string :=
  if decide (length args < 1) then "len()" else "len(" +:+ arg args 0 +:+ ")".
Fixpoint pairs (args : list string) : list string :=
  match args with
  | k :: v :: args => (k +:+ ": " +:+ v) :: pairs args
  | _ => []
  end.
Definition object_construct_call (args : list string) : string :=
  if decide (Nat.modulo (length args) 2 = 0) then "{" +:+ Join ", " (pairs args) +:+ "}"
  else same_call "OBJECT_CONSTRUCT" args.
Definition parse_json_call : list string → string := at_least 1 "PARSE_JSON" (λ args, arg args 0 +:+ "::JSON").
Definition regexp_like_call (args : list string) : string := "regexp_full_match(" +:+ commas args +:+ ")".
Definition listagg_call (args : list string) : string := "STRING_AGG(" +:+ commas args +:+ ")".
Definition strtok_call (args : list string) : string := "STRING_SPLIT(" +:+ commas args +:+ ")".
Definition is_quote (c : ascii) : bool := bool_decide (c = sq) || bool_decide (c = dq).
Definition dateadd_call : list string → string := at_least 3 "DATEADD" (λ args,
  TrimSpace (arg args 2) +:+ " + INTERVAL '" +:+ TrimSpace (arg args 1) +:+ " " +:+
  Trim is_quote (TrimSpace (arg args 0)) +:+ "'").
Definition datediff_call : list string → string := at_least 3 "DATEDIFF" (λ args,
  "DATE_DIFF('" +:+ Trim is_quote (TrimSpace (arg args 0)) +:+ "', " +:+ arg args 1 +:+ ", " +:+ arg args 2 +:+ ")").
Definition cast_call (name ty : string) : list string → string := at_least 1 name (λ args,
  "CAST(" +:+ arg args 0 +:+ " AS " +:+ ty +:+ ")").
Definition to_number_call : list string → string := at_least 1 "TO_NUMBER" (λ args,
  if decide (length args = 3)
  then "CAST(" +:+ arg args 0 +:+ " AS DECIMAL(" +:+ TrimSpace (arg args 1) +:+ ", " +:+ TrimSpace (arg args 2) +:+ "))"
  else "CAST(" +:+ arg args 0 +:+ " AS NUMERIC)").

(** ** Rules *)

Definition Rule : Type := string → option string.
Definition total (f : string → string) : Rule := λ sql, Some (f sql).

(** [strings.TrimRight(s, ";")] *)
Definition is_semicolon (c : ascii) : bool := bool_decide (c = ";"%char).
Definition trimmed (sql : string) : string := trim_right is_semicolon (TrimSpace sql).

(** A marker comment carries a statement to the orchestrator. *)
Definition marker (kind text : string) : string := "/* MINIFLAKE_" +:+ kind +:+ " " +:+ text +:+ " */".

Definition reUse : Regexp := regexp "(?i)^\s*USE\s+(DATABASE|SCHEMA|WAREHOUSE|ROLE)\s+(.+)$".
Definition rewriteUseStatements (sql : string) : string :=
  match FindStringSubmatch reUse sql with
  | Some m => marker ("USE_" +:+ ToUpper (group m 1)) (TrimSpace (trim_right is_semicolon (group m 2)))
  | None => sql
  end.

Definition rePut : Regexp := regexp "(?i)^\s*PUT\b".
Definition reGet : Regexp := regexp "(?i)^\s*GET\b".
Definition rewritePutGet (sql : string) : string :=
  if MatchString rePut sql then marker "PUT" sql
  else if MatchString reGet sql then marker "GET" sql
  else sql.

Definition reCopyInto : Regexp := regexp "(?i)^\s*COPY\s+INTO\b".
Definition rewriteCopyInto (sql : string) : string :=
  if MatchString reCopyInto sql then marker "COPY_INTO" sql else sql.

Definition reShowDatabases : Regexp := regexp "(?i)^\s*SHOW\s+DATABASES\s*$".
Definition reShowSchemas : Regexp := regexp "(?i)^\s*SHOW\s+SCHEMAS(\s+IN\s+(DATABASE\s+)?(\S+))?\s*$".
Definition reShowTables : Regexp := regexp "(?i)^\s*SHOW\s+TABLES(\s+IN\s+(SCHEMA\s+|DATABASE\s+)?(\S+))?\s*$".
Definition reShowColumns : Regexp := regexp "(?i)^\s*SHOW\s+COLUMNS\s+IN\s+(\S+)\s*$".
Definition reShowWarehouses : Regexp := regexp "(?i)^\s*SHOW\s+WAREHOUSES\s*$".

(** A column alias in double quotes. *)
Definition alias (name : string) : string := String dq (name +:+ String dq "").

Definition rewriteShowCommands (sql : string) : string :=
  if MatchString reShowDatabases sql
  then "SELECT DISTINCT catalog_name AS " +:+ alias "name" +:+ " FROM information_schema.schemata"
  else match FindStringSubmatch reShowSchemas sql with
  | Some m =>
      if decide (group m 3 ≠ "")
      then "SELECT schema_name AS " +:+ alias "name" +:+ " FROM information_schema.schemata WHERE catalog_name = '"
             +:+ group m 3 +:+ "'"
      else "SELECT schema_name AS " +:+ alias "name" +:+ " FROM information_schema.schemata"
  | None =>
  match FindStringSubmatch reShowTables sql with
  | Some m =>
      if decide (group m 3 ≠ "")
      then "SELECT table_name AS " +:+ alias "name" +:+ " FROM information_schema.tables WHERE table_schema = '"
             +:+ group m 3 +:+ "'"
      else "SELECT table_name AS " +:+ alias "name" +:+ " FROM information_schema.tables"
  | None =>
  match FindStringSubmatch reShowColumns sql with
  | Some m =>
      "SELECT column_name AS " +:+ alias "name" +:+ ", data_type AS " +:+ alias "type"
        +:+ " FROM information_schema.columns WHERE table_name = '" +:+ group m 1 +:+ "'"
  | None =>
      if MatchString reShowWarehouses sql
      then "SELECT 'MINIFLAKE_WH' AS " +:+ alias "name" +:+ ", 'STARTED' AS " +:+ alias "state"
             +:+ ", 'X-SMALL' AS " +:+ alias "size"
      else sql
  end end end.

Definition reDescribe : Regexp := regexp "(?i)^\s*(DESCRIBE|DESC)\s+TABLE\s+(\S+)\s*$".
Definition rewriteDescribe (sql : string) : string :=
  match FindStringSubmatch reDescribe sql with
  | Some m => "DESCRIBE " +:+ group m 2
  | None => sql
  end.

Definition reIdentifier : Regexp := regexp "(?i)IDENTIFIER\s*\(\s*'([^']+)'\s*\)".
Definition rewriteIdentifierFunc (sql : string) : string := ReplaceAllString reIdentifier sql "$1".

Definition reVariantCastNested : Regexp :=
  regexp "(?i)\b([a-zA-Z_][a-zA-Z0-9_]*):([a-zA-Z_][a-zA-Z0-9_.]*)::([\w]+(?:\([^)]*\))?)".
Definition reVariantAccessNested : Regexp :=
  regexp "\b([a-zA-Z_][a-zA-Z0-9_]*):([a-zA-Z_][a-zA-Z0-9_.]*)".
Definition reVariantArrayAccess : Regexp := regexp "\b([a-zA-Z_][a-zA-Z0-9_]*)\[(\d+)\]".

Definition expandNestedKeys (col keys : string) : string :=
  foldl (λ result p, result +:+ "->>" +:+ "'" +:+ p +:+ "'") col (SplitByte "." keys).

(** A replacement that matches the text of the match again. *)
Definition rematch (r : Regexp) (f : Match → string) (text : string) : string :=
  match FindStringSubmatch r text with Some m => f m | None => "" end.

Definition rewriteVariantAccess (sql : string) : string :=
  let sql := ReplaceAllStringFunc reVariantCastNested sql (rematch reVariantCastNested (λ m,
    "CAST(" +:+ expandNestedKeys (group m 1) (group m 2) +:+ " AS " +:+ group m 3 +:+ ")")) in
  let sql := ReplaceAllStringFunc reVariantAccessNested sql (rematch reVariantAccessNested (λ m,
    expandNestedKeys (group m 1) (group m 2))) in
  ReplaceAllString reVariantArrayAccess sql "${1}->>${2}".

Definition reFlattenTable : Regexp := regexp "(?i)TABLE\s*\(\s*FLATTEN\s*\(\s*(?:input\s*=>\s*)?([^)]+)\)\s*\)".
Definition reLateralFlatten : Regexp :=
  regexp "(?i),?\s*LATERAL\s+FLATTEN\s*\(\s*(?:input\s*=>\s*)?([^)]+)\)\s+(?:AS\s+)?(\w+)".
Definition rewriteFlatten (sql : string) : string :=
  let sql := ReplaceAllString reFlattenTable sql "unnest($1) AS flat(value)" in
  ReplaceAllString reLateralFlatten sql ", LATERAL (SELECT unnest AS value FROM unnest($1)) AS $2".

Definition reRlike : Regexp := regexp "(?i)(\S+)\s+(NOT\s+)?(?:RLIKE|REGEXP)\s+('(?:[^']|'')*'|\S+)".
Definition rewriteRLike (sql : string) : string :=
  ReplaceAllStringFunc reRlike sql (rematch reRlike (λ sub,
    (if decide (group sub 2 ≠ "") then "NOT " else "") +:+
    "regexp_full_match(" +:+ group sub 1 +:+ ", " +:+ group sub 3 +:+ ")")).

(** The rules on function calls; [fuel] bounds the loop of each. *)
Section fuel.
Context (fuel : nat).
Definition on_calls (name : string) (f : list string → string) : Rule :=
  λ sql, replaceFuncCall fuel sql name f.
Definition rewriteIFF : Rule := on_calls "IFF" iff_call.
Definition rewriteNVL2 : Rule := on_calls "NVL2" nvl2_call.
Definition rewriteNVL : Rule := on_calls "NVL" nvl_call.
Definition rewriteDIV0NULL : Rule := on_calls "DIV0NULL" div0null_call.
Definition rewriteDIV0 : Rule := on_calls "DIV0" div0_call.
Definition rewriteSquare : Rule := on_calls "SQUARE" square_call.
Definition rewriteArrayConstruct : Rule := on_calls "ARRAY_CONSTRUCT" array_construct_call.
Definition rewriteArraySize : Rule := on_calls "ARRAY_SIZE" array_size_call.
Definition rewriteObjectConstruct : Rule := on_calls "OBJECT_CONSTRUCT" object_construct_call.
Definition rewriteParseJSON : Rule := on_calls "PARSE_JSON" parse_json_call.
Definition rewriteRegexpLike : Rule := on_calls "REGEXP_LIKE" regexp_like_call.
Definition rewriteListAgg : Rule := on_calls "LISTAGG" listagg_call.
Definition rewriteStrtokToArray : Rule := on_calls "STRTOK_TO_ARRAY" strtok_call.
Definition rewriteDateAdd : Rule := on_calls "DATEADD" dateadd_call.
Definition rewriteDateDiff : Rule := on_calls "DATEDIFF" datediff_call.
Definition rewriteToVarchar : Rule := λ sql,
  on_calls "TO_VARCHAR" (cast_call "TO_VARCHAR" "VARCHAR") sql ≫= on_calls "TO_CHAR" (cast_call "TO_CHAR" "VARCHAR").
Definition rewriteToNumber : Rule := on_calls "TO_NUMBER" to_number_call.
Definition rewriteToDate : Rule := on_calls "TO_DATE" (cast_call "TO_DATE" "DATE").
Definition rewriteToTimestamp : Rule := on_calls "TO_TIMESTAMP" (cast_call "TO_TIMESTAMP" "TIMESTAMP").
End fuel.

(** *** Data types *)

Definition dataTypeReplacements : list (Regexp * string) :=
  [(regexp "(?i)\bNUMBER\s*\(\s*38\s*,\s*0\s*\)", "BIGINT");
   (regexp "(?i)\bNUMBER\s*\(\s*(\d+)\s*,\s*(\d+)\s*\)", "DECIMAL($1, $2)");
   (regexp "(?i)\bVARIANT\b", "JSON");
   (regexp "(?i)\bTIMESTAMP_NTZ\b", "TIMESTAMP");
   (regexp "(?i)\bTIMESTAMP_LTZ\b", "TIMESTAMPTZ");
   (regexp "(?i)\bTIMESTAMP_TZ\b", "TIMESTAMPTZ");
   (regexp "(?i)\bBINARY\b", "BLOB")].
Definition reNumberWithContext : Regexp := regexp "(?i)\bNUMBER\s*(\()?".
Definition rewriteDataTypes (sql : string) : string :=
  let upper := ToUpper (TrimSpace sql) in
  if negb (HasPrefix upper "CREATE") && negb (HasPrefix upper "ALTER") then sql
  else
    let sql := foldl (λ sql '(pat, repl), ReplaceAllString pat sql repl) sql dataTypeReplacements in
    ReplaceAllStringFunc reNumberWithContext sql (λ m, if Contains m "(" then m else "BIGINT").

(** ** Snowflake statements *)

Definition flag (clause : string) : string := if decide (clause ≠ "") then "1" else "0".

Definition reCreateStream : Regexp := regexp "(?is)^\s*CREATE\s+(OR\s+REPLACE\s+)?STREAM\b".
Definition reDropStream : Regexp := regexp "(?is)^\s*DROP\s+STREAM\s+(IF\s+EXISTS\s+)?(\S+)\s*;?\s*$".
Definition reShowStreams : Regexp := regexp "(?is)^\s*SHOW\s+STREAMS(\s+IN\s+SCHEMA\s+(\S+))?\s*;?\s*$".
Definition rewriteStreams (sql : string) : string :=
  if MatchString reCreateStream (trimmed sql) then marker "CREATE_STREAM" (trimmed sql)
  else match FindStringSubmatch reDropStream (trimmed sql) with
  | Some m => marker "DROP_STREAM" (group m 2 +:+ " " +:+ flag (group m 1))
  | None =>
  match FindStringSubmatch reShowStreams (trimmed sql) with
  | Some m => marker "SHOW_STREAMS" (group m 2)
  | None => sql
  end end.

Definition reCreateTask : Regexp := regexp "(?is)^\s*CREATE\s+(OR\s+REPLACE\s+)?TASK\b".
Definition reDropTask : Regexp := regexp "(?is)^\s*DROP\s+TASK\s+(IF\s+EXISTS\s+)?(\S+)\s*;?\s*$".
Definition reAlterTask : Regexp := regexp "(?is)^\s*ALTER\s+TASK\s+(\S+)\s+(RESUME|SUSPEND)\s*;?\s*$".
Definition reShowTasks : Regexp := regexp "(?is)^\s*SHOW\s+TASKS(\s+IN\s+SCHEMA\s+(\S+))?\s*;?\s*$".
Definition reExecTask : Regexp := regexp "(?is)^\s*EXECUTE\s+TASK\s+(\S+)\s*;?\s*$".
Definition rewriteTasks (sql : string) : string :=
  if MatchString reCreateTask (trimmed sql) then marker "CREATE_TASK" (trimmed sql)
  else match FindStringSubmatch reDropTask (trimmed sql) with
  | Some m => marker "DROP_TASK" (group m 2 +:+ " " +:+ flag (group m 1))
  | None =>
  match FindStringSubmatch reAlterTask (trimmed sql) with
  | Some m => marker "ALTER_TASK" (group m 1 +:+ " " +:+ ToUpper (group m 2))
  | None =>
  match FindStringSubmatch reShowTasks (trimmed sql) with
  | Some m => marker "SHOW_TASKS" (group m 2)
  | None =>
  match FindStringSubmatch reExecTask (trimmed sql) with
  | Some m => marker "EXECUTE_TASK" (group m 1)
  | None => sql
  end end end end.

Definition reCreatePipe : Regexp := regexp "(?is)^\s*CREATE\s+(OR\s+REPLACE\s+)?PIPE\b".
Definition reDropPipe : Regexp := regexp "(?is)^\s*DROP\s+PIPE\s+(IF\s+EXISTS\s+)?(\S+)\s*;?\s*$".
Definition reShowPipes : Regexp := regexp "(?is)^\s*SHOW\s+PIPES(\s+IN\s+SCHEMA\s+(\S+))?\s*;?\s*$".
Definition rewritePipes (sql : string) : string :=
  if MatchString reCreatePipe (trimmed sql) then marker "CREATE_PIPE" (trimmed sql)
  else match FindStringSubmatch reDropPipe (trimmed sql) with
  | Some m => marker "DROP_PIPE" (group m 2 +:+ " " +:+ flag (group m 1))
  | None =>
  match FindStringSubmatch reShowPipes (trimmed sql) with
  | Some m => marker "SHOW_PIPES" (group m 2)
  | None => sql
  end end.

Definition reShowParameters : Regexp :=
  regexp ("(?is)^\s*SHOW\s+PARAMETERS" +:+
          "(?:\s+LIKE\s+'([^']*)')?" +:+
          "(?:\s+(?:IN|FOR)\s+(SESSION|ACCOUNT|USER|WAREHOUSE|DATABASE|SCHEMA|TASK|TABLE)(?:\s+(\S+))?)?" +:+
          "\s*;?\s*$").
Definition rewriteShowParameters (sql : string) : string :=
  match FindStringSubmatch reShowParameters (trimmed sql) with
  | None => sql
  | Some m =>
      let scope := if decide (group m 2 = "") then "SESSION" else group m 2 in
      marker "SHOW_PARAMETERS" (ToUpper scope +:+ " | " +:+ group m 1)
  end.

Definition reListCmd : Regexp := regexp "(?is)^\s*(?:LIST|LS)\s+@".
Definition reRemoveCmd : Regexp := regexp "(?is)^\s*(?:REMOVE|RM)\s+@".
Definition rewriteStageCommands (sql : string) : string :=
  if MatchString reListCmd (trimmed sql) then marker "LIST" (trimmed sql)
  else if MatchString reRemoveCmd (trimmed sql) then marker "REMOVE" (trimmed sql)
  else sql.

Definition reUndrop : Regexp := regexp "(?is)^\s*UNDROP\s+TABLE\s+(\S+)\s*;?\s*$".
Definition rewriteUndrop (sql : string) : string :=
  match FindStringSubmatch reUndrop (trimmed sql) with
  | Some m => marker "UNDROP_TABLE" (group m 1)
  | None => sql
  end.

Definition reAtBeforeOffset : Regexp := regexp "(?is)\bFROM\s+(\S+)\s+AT\s*\(\s*OFFSET\s*=>\s*(-?\d+)\s*\)".
Definition reAtBeforeTimestamp : Regexp :=
  regexp "(?is)\bFROM\s+(\S+)\s+(AT|BEFORE)\s*\(\s*TIMESTAMP\s*=>\s*'([^']+)'\s*\)".
Definition rewriteTimeTravel (sql : string) : string :=
  let sql := ReplaceAllStringFunc reAtBeforeOffset sql (rematch reAtBeforeOffset (λ m,
    "FROM " +:+ marker "AT_OFFSET" (group m 1 +:+ " " +:+ group m 2) +:+ " " +:+ group m 1)) in
  ReplaceAllStringFunc reAtBeforeTimestamp sql (rematch reAtBeforeTimestamp (λ m,
    "FROM " +:+ marker "AT_TIMESTAMP" (group m 1 +:+ " " +:+ group m 3) +:+ " " +:+ group m 1)).

Definition reMergeUpsert : Regexp := regexp
  ("(?is)^\s*MERGE\s+INTO\s+(\S+)(?:\s+(?:AS\s+)?(\w+))?\s+USING\s+(\S+)(?:\s+(?:AS\s+)?(\w+))?\s+ON\s+(.+?)" +:+
   "\s+WHEN\s+MATCHED\s+THEN\s+UPDATE\s+SET\s+(.+?)\s+WHEN\s+NOT\s+MATCHED\s+THEN\s+INSERT\s*\(([^)]+)\)" +:+
   "\s+VALUES\s*\(([^)]+)\)\s*;?\s*$").
Definition reMergeKey : Regexp :=
  regexp "(?is)^\s*(?:[A-Za-z_][\w]*\.)?([A-Za-z_]\w*)\s*=\s*(?:[A-Za-z_][\w]*\.)?([A-Za-z_]\w*)\s*$".

(** [regexp.QuoteMeta] *)
Definition meta_byte (c : ascii) : bool := bool_decide (c ∈ bytes "\.+*?()|[]{}^$").
Fixpoint QuoteMeta (s : string) : string :=
  match s with
  | "" => ""
  | String c s => if meta_byte c then String "\" (String c (QuoteMeta s)) else String c (QuoteMeta s)
  end.
Definition rePrefix (alias : string) : Regexp := regexp ("(?i)\b" +:+ QuoteMeta alias +:+ "\.").

Definition rewriteMerge (sql : string) : string :=
  match FindStringSubmatch reMergeUpsert (trimmed sql) with
  | None => sql
  | Some m =>
      let targetTable := group m 1 in
      let targetAlias := if decide (group m 2 = "") then targetTable else group m 2 in
      let sourceTable := group m 3 in
      let sourceAlias := if decide (group m 4 = "") then sourceTable else group m 4 in
      match FindStringSubmatch reMergeKey (group m 5) with
      | None => sql
      | Some keyMatch =>
          let cleanSet := group m 6 in
          let cleanSet := if decide (targetAlias ≠ "") then ReplaceAllString (rePrefix targetAlias) cleanSet ""
                          else cleanSet in
          let cleanSet := if decide (sourceAlias ≠ "")
                          then ReplaceAllString (rePrefix sourceAlias) cleanSet "excluded."
                          else cleanSet in
          let fromClause := if bool_decide (sourceAlias ≠ "") && bool_decide (sourceAlias ≠ sourceTable)
                            then sourceTable +:+ " AS " +:+ sourceAlias else sourceTable in
          "INSERT INTO " +:+ targetTable +:+ " (" +:+ TrimSpace (group m 7) +:+ ") SELECT " +:+
          TrimSpace (group m 8) +:+ " FROM " +:+ fromClause +:+ " ON CONFLICT (" +:+ group keyMatch 1 +:+
          ") DO UPDATE SET " +:+ cleanSet
      end
  end.

(** ** The rewriter *)

Definition rules (fuel : nat) : list Rule :=
  [total rewriteUseStatements; total rewritePutGet; total rewriteCopyInto; total rewriteStageCommands;
   total rewriteStreams; total rewriteTasks; total rewritePipes; total rewriteShowParameters;
   total rewriteUndrop; total rewriteTimeTravel; total rewriteMerge; total rewriteShowCommands;
   total rewriteDescribe; total rewriteIdentifierFunc; total rewriteVariantAccess; total rewriteFlatten;
   rewriteIFF fuel; rewriteNVL2 fuel; rewriteNVL fuel; rewriteDIV0NULL fuel; rewriteDIV0 fuel;
   rewriteSquare fuel; rewriteArrayConstruct fuel; rewriteArraySize fuel; rewriteObjectConstruct fuel;
   rewriteParseJSON fuel; rewriteRegexpLike fuel; total rewriteRLike; rewriteListAgg fuel;
   rewriteStrtokToArray fuel; rewriteDateAdd fuel; rewriteDateDiff fuel; rewriteToVarchar fuel;
   rewriteToNumber fuel; rewriteToDate fuel; rewriteToTimestamp fuel; total rewriteDataTypes].

Fixpoint apply_rules (rs : list Rule) (sql : string) : option string :=
  match rs with
  | [] => Some sql
  | rule :: rs => rule sql ≫= apply_rules rs
  end.

Definition Rewrite (fuel : nat) (sql : string) : option string :=
  let sql := TrimSpace sql in
  if decide (sql = "") then Some ""
  else TrimSpace <$> apply_rules (rules fuel) sql.

(** The statements of a text; the empty ones are left out, before and after. *)
Fixpoint rewrite_each (fuel : nat) (stmts : list string) : option (list string) :=
  match stmts with
  | [] => Some []
  | s :: stmts =>
      if decide (TrimSpace s = "") then rewrite_each fuel stmts
      else r ← Rewrite fuel (TrimSpace s);
           results ← rewrite_each fuel stmts;
           Some (if decide (r = "") then results else r :: results)
  end.
Definition RewriteMulti (fuel : nat) (sql : string) : option (list string) :=
  rewrite_each fuel (splitStatements sql).
