(* ===== verification/RewriterSpec.v ===== *)
(** * What the rewriter's scanners do

    The splitting of statements and of arguments is characterised by grammars,
    the loop over function calls by a step relation; the loop is shown to end,
    or not to. *)

From S2P Require Import Prelude GoStrings Regexp Rewriter.
From Stdlib Require Import Ascii.

(** ** Statements *)

(** A text in which every quote is closed and no semicolon stands outside quotes. *)
Inductive closed : string → Prop :=
  | closed_nil : closed ""
  | closed_char c s : c ≠ sq → c ≠ ";"%char → closed s → closed (String c s)
  | closed_quoted body s : sq ∉ bytes body → closed s → closed (String sq (body +:+ String sq s)).

(** The end of a text whose last quote is not closed. *)
Definition unclosed (s : string) : Prop :=
  ∃ a body, s = a +:+ String sq body ∧ closed a ∧ sq ∉ bytes body.

(** A text up to its first quote. *)
Lemma quote_or_not s : (sq ∉ bytes s) ∨ ∃ body t, s = body +:+ String sq t ∧ sq ∉ bytes body.
Proof.
  induction s as [|c s IH]; [left; apply not_elem_of_nil|].
  destruct (decide (c = sq)) as [->|Hc].
  { right. exists "", s. split; [done|apply not_elem_of_nil]. }
  destruct IH as [Hs|(body & t & -> & Hb)].
  - left. cbn. by apply not_elem_of_cons.
  - right. exists (String c body), t. split; [done|]. cbn. by apply not_elem_of_cons.
Qed.

Lemma split_go_quote cur s : split_go cur true (String sq s) = split_go (cur +:+ "'") false s.
Proof.
  cbn [split_go]. rewrite decide_True by done. destruct s as [|c s]; [done|].
  destruct (decide (c = sq)) as [->|Hc]; [|done].
  cbn [split_go]. rewrite decide_True by done. by rewrite string_app_assoc.
Qed.

Lemma split_go_quoted cur body s : sq ∉ bytes body →
  split_go cur true (body +:+ s) = split_go (cur +:+ body) true s.
Proof.
  revert cur. induction body as [|c body IH]; intros cur Hb; cbn [String.append].
  - by rewrite string_app_nil_r.
  - apply not_elem_of_cons in Hb as [Hc Hb]. cbn [split_go].
    rewrite decide_False by done. rewrite andb_false_r, IH by done. by rewrite string_app_assoc.
Qed.

Lemma split_go_closed cur a s : closed a → split_go cur false (a +:+ s) = split_go (cur +:+ a) false s.
Proof.
  intros Ha. revert cur. induction Ha as [|c a Hc Hsc _ IH|body a Hb _ IH]; intros cur; cbn [String.append].
  - by rewrite string_app_nil_r.
  - cbn [split_go]. rewrite decide_False by done. rewrite bool_decide_eq_false_2 by done. cbn [andb].
    by rewrite IH, string_app_assoc.
  - cbn [split_go]. rewrite decide_True by done.
    rewrite string_app_assoc. rewrite split_go_quoted by done. cbn [String.append].
    rewrite split_go_quote, IH. by rewrite !string_app_assoc.
Qed.

Lemma split_go_last cur s : closed s ∨ unclosed s →
  split_go cur false s = if decide (cur +:+ s = "") then [] else [cur +:+ s].
Proof.
  intros [Hs|(a & body & -> & Ha & Hb)].
  - rewrite <- (string_app_nil_r s) at 1. by rewrite split_go_closed.
  - rewrite split_go_closed by done. cbn [split_go]. rewrite decide_True by done.
    rewrite <- (string_app_nil_r body) at 1. rewrite split_go_quoted by done. cbn [split_go].
    rewrite !string_app_assoc. done.
Qed.

(** Every text is of the grammar. *)
Lemma split_exists s : closed s ∨ unclosed s ∨ ∃ a t, s = a +:+ String ";" t ∧ closed a.
Proof.
  induction s as [s IH] using (induction_ltof1 _ String.length). unfold ltof in IH.
  destruct s as [|c s]; [left; constructor|].
  destruct (decide (c = sq)) as [->|Hc]; [destruct (quote_or_not s) as [Hs|(body & t & -> & Hb)]|].
  - right. left. exists "", s. split_all; [done|constructor|done].
  - destruct (IH t) as [Ht|[(a & b & -> & Ha & Hb')|(a & u & -> & Ha)]].
    + cbn. rewrite string_app_length. cbn. lia.
    + left. by constructor.
    + right. left. exists (String sq (body +:+ String sq a)), b. split_all; [|by constructor|done].
      cbn. by rewrite string_app_assoc.
    + right. right. exists (String sq (body +:+ String sq a)), u. split; [|by constructor].
      cbn. by rewrite string_app_assoc.
  - destruct (decide (c = ";"%char)) as [->|Hs].
    + right. right. exists "", s. split; [done|constructor].
    + destruct (IH s) as [Ht|[(a & b & -> & Ha & Hb')|(a & u & -> & Ha)]]; [cbn; lia| | |].
      * left. by constructor.
      * right. left. exists (String c a), b. split_all; [done|by constructor|done].
      * right. right. exists (String c a), u. split; [done|by constructor].
Qed.

Lemma split_decompose s : ∃ stmts last, s = Join ";" (stmts ++ [last]) ∧ Forall closed stmts ∧
  (closed last ∨ unclosed last).
Proof.
  induction s as [s IH] using (induction_ltof1 _ String.length). unfold ltof in IH.
  destruct (split_exists s) as [Hs|[Hs|(a & t & -> & Ha)]];
    [exists [], s; auto using Forall_nil_2..|].
  destruct (IH t) as (stmts & last & -> & Hst & Hl).
  { rewrite string_app_length. cbn. lia. }
  exists (a :: stmts), last. split_all; [|by constructor|done].
  cbn [Join app]. by destruct (stmts ++ [last]) eqn:E; [destruct stmts|].
Qed.

(** A text is split into statements at the semicolons outside quotes, and
    nowhere else.  Every text is a list of statements in which quotes are closed
    and no semicolon is outside quotes, followed by a last one whose quote may be
    open, joined by semicolons; and any such text is split into exactly these, the
    last one being left out when it is empty. *)
Theorem split_statements_spec :
  (∀ sql, ∃ stmts last, sql = Join ";" (stmts ++ [last]) ∧ Forall closed stmts ∧ (closed last ∨ unclosed last)) ∧
  (∀ stmts last, Forall closed stmts → closed last ∨ unclosed last →
     splitStatements (Join ";" (stmts ++ [last])) = stmts ++ (if decide (last = "") then [] else [last])).
Proof.
  split; [apply split_decompose|]. intros stmts last Hst Hl. unfold splitStatements.
  induction Hst as [|a stmts Ha _ IH]; cbn [Join app]; [by rewrite split_go_last|].
  assert (E : Join ";" (a :: stmts ++ [last]) = a +:+ String ";" (Join ";" (stmts ++ [last])))
    by (cbn [Join]; by destruct stmts). cbn [Join] in E. rewrite E, split_go_closed by done.
  cbn [split_go]. rewrite decide_False by done. rewrite bool_decide_eq_true_2 by done. cbn.
  by rewrite IH.
Qed.

(** ** Arguments

    [text top s]: quotes and parentheses are closed in [s], and, when [top], no
    comma stands outside of both. *)

Definition plain_byte (c : ascii) : Prop := c ∉ [sq; "("; ")"; ","]%char.

Inductive text : bool → string → Prop :=
  | text_nil b : text b ""
  | text_char b c s : plain_byte c → text b s → text b (String c s)
  | text_comma s : text false s → text false (String "," s)
  | text_quoted b body s : sq ∉ bytes body → text b s → text b (String sq (body +:+ String sq s))
  | text_paren b a s : text false a → text b s → text b (String "(" (a +:+ String ")" s)).

(** The arguments that the pieces between the commas stand for: a last blank one
    does not count. *)
Fixpoint arguments (segs : list string) : list string :=
  match segs with
  | [] => []
  | [a] => if decide (TrimSpace a = "") then [] else [TrimSpace a]
  | a :: segs => TrimSpace a :: arguments segs
  end.

Lemma scan_quote d cur args s : scan_args d true cur args (String sq s) = scan_args d false (cur +:+ "'") args s.
Proof.
  cbn [scan_args]. rewrite decide_True by done. destruct s as [|c s]; [done|].
  destruct (decide (c = sq)) as [->|Hc]; [|done].
  cbn [scan_args]. by rewrite decide_True.
Qed.

Lemma scan_in_quote d cur args c s : c ≠ sq →
  scan_args d true cur args (String c s) = scan_args d true (cur +:+ String c "") args s.
Proof. intros Hc. cbn [scan_args]. by rewrite decide_False. Qed.

Lemma scan_quoted d cur args body s : sq ∉ bytes body →
  scan_args d true cur args (body +:+ s) = scan_args d true (cur +:+ body) args s.
Proof.
  revert cur. induction body as [|c body IH]; intros cur Hb; cbn [String.append].
  - by rewrite string_app_nil_r.
  - apply not_elem_of_cons in Hb as [Hc Hb]. rewrite scan_in_quote, IH by done. by rewrite string_app_assoc.
Qed.

(** One step of the scan outside quotes. *)
Lemma scan_open_quote d cur args s : scan_args d false cur args (String sq s) = scan_args d true (cur +:+ "'") args s.
Proof. done. Qed.
Lemma scan_open d cur args s : scan_args d false cur args (String "(" s) = scan_args (S d) false (cur +:+ "(") args s.
Proof. done. Qed.
Lemma scan_plain d cur args c s : plain_byte c →
  scan_args d false cur args (String c s) = scan_args d false (cur +:+ String c "") args s.
Proof.
  unfold plain_byte. rewrite !not_elem_of_cons. intros (? & ? & ? & ? & _). cbn [scan_args].
  rewrite !decide_False by done. done.
Qed.
Lemma scan_close_deep d cur args s : d ≠ 1 →
  scan_args d false cur args (String ")" s) = scan_args (pred d) false (cur +:+ ")") args s.
Proof. intros. cbn. by destruct (decide (d = 1)). Qed.
Lemma scan_comma_deep d cur args s : d ≠ 1 →
  scan_args d false cur args (String "," s) = scan_args d false (cur +:+ ",") args s.
Proof. intros. cbn. by destruct (decide (d = 1)). Qed.

Lemma scan_close_top cur args s : scan_args 1 false cur args (String ")" s) =
  Some (if decide (TrimSpace cur = "") then args else args ++ [TrimSpace cur], s).
Proof. done. Qed.
Lemma scan_comma_top cur args s :
  scan_args 1 false cur args (String "," s) = scan_args 1 false "" (args ++ [TrimSpace cur]) s.
Proof. done. Qed.

Lemma scan_text b a d cur args s : text b a → (b = true ∨ 2 ≤ d) → 1 ≤ d →
  scan_args d false cur args (a +:+ s) = scan_args d false (cur +:+ a) args s.
Proof.
  intros Ha. revert d cur s. induction Ha as [b|b c a Hc _ IH|a _ IH|b body a Hb _ IH|b a1 a2 _ IH1 _ IH2];
    intros d cur s Hd H1; cbn [String.append].
  - by rewrite string_app_nil_r.
  - by rewrite scan_plain, IH, string_app_assoc.
  - rewrite scan_comma_deep by (destruct Hd; [done|lia]). by rewrite IH, string_app_assoc.
  - rewrite scan_open_quote, string_app_assoc. rewrite scan_quoted by done. cbn [String.append].
    rewrite scan_quote, IH by done. by rewrite !string_app_assoc.
  - rewrite scan_open, string_app_assoc. rewrite IH1 by (lia || (right; lia)). cbn [String.append].
    rewrite scan_close_deep by lia. cbn [pred]. rewrite IH2 by done. by rewrite !string_app_assoc.
Qed.

Lemma scan_segs segs args post : segs ≠ [] → Forall (text true) segs →
  scan_args 1 false "" args (Join "," segs +:+ String ")" post) = Some (args ++ arguments segs, post).
Proof.
  intros Hne Hs. revert args. induction Hs as [|a segs Ha Hs IH]; [done|]. intros args.
  destruct segs as [|b segs].
  - cbn [Join]. rewrite (scan_text true) by auto. rewrite scan_close_top. cbn [String.append arguments].
    case_decide; [by rewrite app_nil_r|done].
  - change (Join "," (a :: b :: segs)) with (a +:+ String "," (Join "," (b :: segs))).
    rewrite string_app_assoc, (scan_text true) by auto. cbn [String.append].
    rewrite scan_comma_top, IH by done. cbn [String.append].
    change (arguments (a :: b :: segs)) with (TrimSpace a :: arguments (b :: segs)).
    by rewrite <- app_assoc.
Qed.

(** What the scan has read when it returns. *)
Lemma scan_quote_inv d cur args s r : scan_args d true cur args s = Some r →
  ∃ body t, s = body +:+ String sq t ∧ (sq ∉ bytes body) ∧
    scan_args d false (cur +:+ body +:+ "'") args t = Some r.
Proof.
  destruct (quote_or_not s) as [Hs|(body & t & -> & Hb)].
  - rewrite <- (string_app_nil_r s) at 1. by rewrite scan_quoted.
  - rewrite scan_quoted, scan_quote by done. rewrite string_app_assoc. eauto.
Qed.

Lemma byte_cases c : c = sq ∨ c = "("%char ∨ c = ")"%char ∨ c = ","%char ∨ plain_byte c.
Proof.
  unfold plain_byte. destruct (decide (c ∈ [sq; "("; ")"; ","]%char)) as [H|H]; [|auto].
  rewrite !elem_of_cons, elem_of_nil in H. tauto.
Qed.

Ltac by_length := cbn; rewrite ?string_app_length; cbn; rewrite ?string_app_length; cbn; lia.

Lemma scan_inv_deep d cur args s r : 2 ≤ d → scan_args d false cur args s = Some r →
  ∃ a t, s = a +:+ String ")" t ∧ text false a ∧ scan_args (pred d) false (cur +:+ a +:+ ")") args t = Some r.
Proof.
  revert d cur. induction s as [s IH] using (induction_ltof1 _ String.length). unfold ltof in IH.
  intros d cur Hd H. destruct s as [|c s]; [done|].
  destruct (byte_cases c) as [->|[->|[->|[->|Hc]]]].
  - rewrite scan_open_quote in H. apply scan_quote_inv in H as (body & t & -> & Hb & H).
    apply IH in H as (a & u & -> & Ha & H); [|by_length|done].
    exists (String sq (body +:+ String sq a)), u. rewrite !string_app_assoc in H. split_all.
    + cbn. by rewrite string_app_assoc.
    + by constructor.
    + cbn. rewrite !string_app_assoc. exact H.
  - rewrite scan_open in H. apply IH in H as (a1 & t1 & -> & Ha1 & H); [|by_length|lia].
    cbn [pred] in H. apply IH in H as (a2 & t2 & -> & Ha2 & H); [|by_length|done].
    exists (String "(" (a1 +:+ String ")" a2)), t2. rewrite !string_app_assoc in H. split_all.
    + cbn. by rewrite string_app_assoc.
    + by constructor.
    + cbn. rewrite !string_app_assoc. exact H.
  - rewrite scan_close_deep in H by lia. exists "", s. split_all; [done|constructor|done].
  - rewrite scan_comma_deep in H by lia. apply IH in H as (a & t & -> & Ha & H); [|by_length|done].
    exists (String "," a), t. rewrite !string_app_assoc in H. split_all; [done|by constructor|done].
  - rewrite scan_plain in H by done. apply IH in H as (a & t & -> & Ha & H); [|by_length|done].
    exists (String c a), t. rewrite !string_app_assoc in H. split_all; [done|by constructor|done].
Qed.

Lemma scan_inv_top cur args s r : scan_args 1 false cur args s = Some r →
  ∃ a t, text true a ∧
    ((s = a +:+ String ")" t ∧ scan_args 1 false (cur +:+ a) args (String ")" t) = Some r) ∨
     (s = a +:+ String "," t ∧ scan_args 1 false (cur +:+ a) args (String "," t) = Some r)).
Proof.
  revert cur. induction s as [s IH] using (induction_ltof1 _ String.length). unfold ltof in IH.
  intros cur H. destruct s as [|c s]; [done|].
  destruct (byte_cases c) as [->|[->|[->|[->|Hc]]]].
  - rewrite scan_open_quote in H. apply scan_quote_inv in H as (body & t & -> & Hb & H).
    apply IH in H as (a & u & Ha & H); [|by_length].
    exists (String sq (body +:+ String sq a)), u. rewrite !string_app_assoc in H. split; [by constructor|].
    cbn [String.append]. rewrite !string_app_assoc. destruct H as [[-> H]|[-> H]]; auto.
  - rewrite scan_open in H. apply scan_inv_deep in H as (a1 & t1 & -> & Ha1 & H); [|lia].
    cbn [pred] in H. apply IH in H as (a2 & t2 & Ha2 & H); [|by_length].
    exists (String "(" (a1 +:+ String ")" a2)), t2. rewrite !string_app_assoc in H. split; [by constructor|].
    cbn [String.append]. rewrite !string_app_assoc. destruct H as [[-> H]|[-> H]]; auto.
  - exists "", s. split; [constructor|]. left. by rewrite string_app_nil_r.
  - exists "", s. split; [constructor|]. right. by rewrite string_app_nil_r.
  - rewrite scan_plain in H by done. apply IH in H as (a & t & Ha & H); [|by_length].
    exists (String c a), t. rewrite !string_app_assoc in H. split; [by constructor|].
    destruct H as [[-> H]|[-> H]]; auto.
Qed.

Lemma scan_inv args s r post : scan_args 1 false "" args s = Some (r, post) →
  ∃ segs, segs ≠ [] ∧ Forall (text true) segs ∧ s = Join "," segs +:+ String ")" post ∧ r = args ++ arguments segs.
Proof.
  revert args. induction s as [s IH] using (induction_ltof1 _ String.length). unfold ltof in IH.
  intros args (a & t & Ha & [[-> H]|[-> H]])%scan_inv_top.
  - rewrite scan_close_top in H. exists [a]. split_all; [done|by repeat constructor|..].
    + cbn [Join]. congruence.
    + cbn [String.append arguments] in *. case_decide; [rewrite app_nil_r|]; congruence.
  - rewrite scan_comma_top in H. apply IH in H as (segs & Hne & Hs & -> & ->); [|by_length].
    exists (a :: segs). split_all; [done|by constructor|..].
    + destruct segs; [done|]. cbn [Join]. by rewrite !string_app_assoc.
    + destruct segs; [done|]. cbn [String.append]. by rewrite <- app_assoc.
Qed.

Lemma extract_iff s args post : extractFuncArgs s = Some (args, post) ↔
  ∃ segs, segs ≠ [] ∧ Forall (text true) segs ∧ s = String "(" (Join "," segs +:+ String ")" post) ∧
    args = arguments segs.
Proof.
  unfold extractFuncArgs. split.
  - destruct s as [|c s]; [done|]. destruct (decide (c = "("%char)) as [->|Hc].
    + intros (segs & ? & ? & -> & ->)%scan_inv. eauto.
    + intros H. exfalso. apply Hc. by destruct c as [[] [] [] [] [] [] [] []].
  - intros (segs & Hne & Hs & -> & ->). by rewrite scan_segs.
Qed.

(** ** Call sites *)

(** The expression that [findFuncCall] compiles, for a name made of word bytes. *)
Definition call_re (name : string) : Regexp :=
  Cat (Cat (lits (WordEdge false) name) (Star true (Class re_space))) (lit (mkFlags true false) "(").

(** A function name whose pattern is compiled as expected. *)
Record call_name (name : string) : Prop := {
  name_word : every is_word name = true;
  name_some : name ≠ "";
  name_compiled : regexp ("(?i)\b" +:+ name +:+ "\s*\(") = call_re name;
}.

Definition function_names : list string :=
  ["IFF"; "NVL2"; "NVL"; "DIV0NULL"; "DIV0"; "SQUARE"; "ARRAY_CONSTRUCT"; "ARRAY_SIZE"; "OBJECT_CONSTRUCT";
   "PARSE_JSON"; "REGEXP_LIKE"; "LISTAGG"; "STRTOK_TO_ARRAY"; "DATEADD"; "DATEDIFF"; "TO_VARCHAR"; "TO_CHAR";
   "TO_NUMBER"; "TO_DATE"; "TO_TIMESTAMP"].

Lemma function_names_ok name : name ∈ function_names → call_name name.
Proof.
  revert name. apply Forall_forall. unfold function_names.
  repeat (apply Forall_cons; split; [split; [reflexivity|discriminate|reflexivity]|]).
  apply Forall_nil_2.
Qed.

(** A call of the function begins at the text [s] after the byte [b]. *)
Definition call_site (name : string) (b : option ascii) (s : string) : Prop :=
  word_side b = false ∧ ∃ word ws u, s = word +:+ ws +:+ String "(" u ∧
    EqualFold word name = true ∧ every re_space ws = true.

Lemma is_word_lower c : is_word (lower_byte c) = is_word c.
Proof. by_bytes c. Qed.

Lemma fold_word s t : EqualFold s t = true → every is_word s = every is_word t ∧ String.length s = String.length t.
Proof.
  unfold EqualFold. rewrite bool_decide_eq_true. intros H. split.
  - assert (E : ∀ u, every is_word (ToLower u) = every is_word u).
    { intros u. induction u as [|c u IH]; [done|]. cbn. by rewrite is_word_lower, <- IH. }
    by rewrite <- (E s), <- (E t), H.
  - apply (f_equal String.length) in H. unfold ToLower in H. by rewrite !string_map_length in H.
Qed.

Lemma lits_matches acc name p c p' c' : matches (lits acc name) p c p' c' ↔
  ∃ p1 word, matches acc p c p1 c' ∧ rest p1 = word +:+ rest p' ∧ EqualFold word name = true ∧
    before p' = last_byte (before p1) word.
Proof.
  revert acc. induction name as [|ch name IH]; intros acc; cbn [lits].
  - split; [intros H; exists p', ""; done|].
    intros (p1 & word & H & Hr & Hf & Hb). apply fold_word in Hf as [_ Hl].
    destruct word; [|done]. cbn in *. destruct p1, p'; cbn in *. by subst.
  - rewrite IH. unfold EqualFold. setoid_rewrite bool_decide_eq_true. split.
    + intros (p2 & word & H & Hr & Hf & Hb). inversion H as [| |? ? ? ? p1 c1 ? ? H1 H2| | | | | | | |]; subst.
      inversion H2 as [|? ? d ? ? Hd| | | | | | | | |]; subst. apply bool_decide_eq_true in Hd.
      eexists _, (String d word). split_all; [exact H1|cbn in *; by rewrite Hr|unfold ToLower in *; cbn; congruence|done].
    + intros (p1 & [|d word] & H & Hr & Hf & Hb); [done|]. cbn in Hf. injection Hf as Hd Hf.
      destruct p1 as [b1 s1]. cbn in Hr, Hb. subst s1.
      exists (mkPos (Some d) (word +:+ rest p')), word. split_all; [|done..].
      econstructor; [exact H|]. constructor. by apply bool_decide_eq_true.
Qed.

Lemma paren_lower c : lower_byte c = lower_byte "(" → c = "("%char.
Proof. destruct c as [[] [] [] [] [] [] [] []]; by cbv. Qed.

Lemma call_matches name b s : every is_word name = true → name ≠ "" →
  (∃ p' c', matches (call_re name) (mkPos b s) [] p' c') ↔ call_site name b s.
Proof.
  intros Hw Hne. unfold call_re, call_site. split.
  - intros (p' & c' & H). inversion H as [| |? ? ? ? p2 c2 ? ? H1 H2| | | | | | | |]; subst.
    inversion H1 as [| |? ? ? ? p1 c1 ? ? H3 H4| | | | | | | |]; subst.
    apply lits_matches in H3 as (p0 & word & H0 & Hr0 & Hf & Hb0).
    apply spaces_matches in H4 as (-> & ws & Hr1 & Hs & Hb1).
    inversion H2 as [|? b2 d u ? Hd| | | | | | | | |]; subst.
    inversion H0 as [| | | | | | | | | |? ? ? He]; subst. cbn in *. subst s. apply bool_decide_eq_true, paren_lower in Hd.
    subst d. pose proof (fold_word _ _ Hf) as [Hw' Hl]. rewrite Hw in Hw'.
    destruct word as [|w word]; [by destruct name|]. cbn in He, Hw'. apply andb_true_iff in Hw' as [Hw' _].
    unfold at_edge in He. cbn in He. rewrite Hw' in He. rewrite Hr1. split; [by destruct (word_side b)|].
    by exists (String w word), ws, u.
  - intros (Hb & word & ws & u & -> & Hf & Hs). pose proof (fold_word _ _ Hf) as [Hw' Hl]. rewrite Hw in Hw'.
    exists (mkPos (Some "("%char) u), [].
    apply (matches_cat _ _ _ _ (mkPos (last_byte (last_byte b word) ws) (String "(" u)) []);
      [apply (matches_cat _ _ _ _ (mkPos (last_byte b word) (ws +:+ String "(" u)) [])|].
    + apply lits_matches. exists (mkPos b (word +:+ ws +:+ String "(" u)), word. split_all; [|done..].
      constructor. destruct word as [|w word]; [by destruct name|]. cbn in Hw'.
      apply andb_true_iff in Hw' as [Hw' _]. unfold at_edge. cbn. by rewrite Hw', Hb.
    + apply spaces_matches. split; [done|]. by exists ws.
    + constructor. by apply bool_decide_eq_true.
Qed.

Lemma every_impl (f g : ascii → bool) s : (∀ c, f c = true → g c = true) → every f s = true → every g s = true.
Proof.
  intros Hfg. induction s as [|c s IH]; [done|]. cbn. intros [Hc Hs]%andb_true_iff. by rewrite Hfg, IH.
Qed.

Lemma no_paren_word name word ws : call_name name → EqualFold word name = true → every re_space ws = true →
  every (λ d, negb (bool_decide (d = "("%char))) (word +:+ ws) = true.
Proof.
  intros Hn Hf Hs. rewrite every_app, andb_true_iff.
  assert (Hp : ∀ (f : ascii → bool) c, f "("%char = false → f c = true → negb (bool_decide (c = "("%char)) = true).
  { intros f c H0 H1. rewrite bool_decide_eq_false_2; [done|]. intros ->. congruence. }
  split.
  - apply (every_impl is_word); [intros c; by apply Hp|]. rewrite (proj1 (fold_word _ _ Hf)). apply Hn.
  - apply (every_impl re_space); [intros c; by apply Hp|done].
Qed.

(** The first call of [name] in a text is closed and has these arguments. *)
Definition func_call (name sql pre : string) (args : list string) (post : string) : Prop :=
  ∃ word ws segs, sql = pre +:+ word +:+ ws +:+ String "(" (Join "," segs +:+ String ")" post) ∧
    EqualFold word name = true ∧ every re_space ws = true ∧ word_side (last_byte None pre) = false ∧
    segs ≠ [] ∧ Forall (text true) segs ∧ args = arguments segs ∧
    ∀ a t, sql = a +:+ t → String.length a < String.length pre → ¬ call_site name (last_byte None a) t.

Lemma find_site name sql : call_name name →
  match find (regexp ("(?i)\b" +:+ name +:+ "\s*\(")) sql with
  | Some (pre, m) => sql = pre +:+ rest (m_start m) ∧ call_site name (last_byte None pre) (rest (m_start m)) ∧
      ∀ a t, sql = a +:+ t → String.length a < String.length pre → ¬ call_site name (last_byte None a) t
  | None => ∀ a t, sql = a +:+ t → ¬ call_site name (last_byte None a) t
  end.
Proof.
  intros [Hw Hne ->]. unfold find. pose proof (find_from_spec (call_re name) None sql) as H.
  destruct (find_from _ None sql) as [[pre m]|].
  - destruct H as (Hs & Hb & Hm & Hl). split_all; [done| |].
    + apply call_matches; [done..|]. rewrite <- Hb. exists (m_end m), (m_caps m). by destruct (m_start m).
    + intros a t E Hlen Hc. apply call_matches in Hc as (p' & c' & Hc); [|done..]. by eapply Hl.
  - intros a t E Hc. apply call_matches in Hc as (p' & c' & Hc); [|done..]. by eapply H.
Qed.

Lemma find_call_iff name sql pre args post : call_name name →
  findFuncCall sql name = Some (pre, args, post) ↔ func_call name sql pre args post.
Proof.
  intros Hn. pose proof (find_site name sql Hn) as Hf. unfold findFuncCall, func_call.
  destruct (find _ sql) as [[pre' m]|].
  2:{ split; [done|]. intros (word & ws & segs & E & Hfold & Hs & Hb & _). exfalso. eapply Hf; [exact E|].
      split; [done|]. eexists word, ws, _. by split_all. }
  destruct Hf as (E & [Hb (word & ws & u & Em & Hfold & Hs)] & Hl). rewrite Em in *.
  rewrite <- string_app_assoc, Cut_byte by by eapply no_paren_word. split.
  - destruct (extractFuncArgs _) as [[args' post']|] eqn:Ex; [|done]. intros [= -> -> ->].
    apply extract_iff in Ex as (segs & Hne & Ht & [= ->] & ->). exists word, ws, segs. split_all; done.
  - intros (word' & ws' & segs & E' & Hfold' & Hs' & Hb' & Hne & Ht & -> & Hl').
    assert (Hlen : String.length pre = String.length pre').
    { destruct (lt_eq_lt_dec (String.length pre) (String.length pre')) as [[Hlt|?]|Hlt]; [|done|].
      - exfalso. eapply (Hl pre); [exact E'|done|]. split; [done|]. eexists word', ws', _. by split_all.
      - exfalso. eapply (Hl' pre'); [exact E|done|]. split; [done|]. eexists word, ws, _. by split_all. }
    rewrite E in E'. apply string_app_inj_len in E' as [-> E']; [|done].
    pose proof (Cut_byte "(" (word +:+ ws) u ltac:(by eapply no_paren_word)) as C1.
    pose proof (Cut_byte "(" (word' +:+ ws') (Join "," segs +:+ String ")" post) ltac:(by eapply no_paren_word)) as C2.
    rewrite !string_app_assoc in C1, C2. rewrite E', C2 in C1. injection C1 as _ <-.
    assert (Ex : extractFuncArgs (String "(" (Join "," segs +:+ String ")" post)) = Some (arguments segs, post))
      by (apply extract_iff; eauto). by rewrite Ex.
Qed.

(** C11: the rewriter finds the first call of a function and takes it apart
    correctly.  What it returns is the text before the call, its arguments and the
    text after it, exactly when the text is of this form: a word equal to the name
    up to case, not preceded by a word byte, white space, and between parentheses
    the arguments, in which quotes and parentheses are balanced, separated by
    commas that stand outside both; and no call begins earlier. *)
Theorem find_func_call_spec name sql pre args post : name ∈ function_names →
  findFuncCall sql name = Some (pre, args, post) ↔ func_call name sql pre args post.
Proof. intros Hn. by apply find_call_iff, function_names_ok. Qed.

(** ** Counting the name

    Replacing a call must remove one occurrence of the name and add none. *)

Definition starts_fold (name s : string) : bool :=
  match TrimPrefixFold s name with Some _ => true | None => false end.

(** The occurrences of [name] in [s] that no word byte precedes; [b] is the byte
    before [s]. *)
Fixpoint occ (name : string) (b : option ascii) (s : string) : nat :=
  match s with
  | "" => 0
  | String c s' => (if negb (word_side b) && starts_fold name s then 1 else 0) + occ name (Some c) s'
  end.

Definition head_side (s : string) : bool := match s with "" => false | String c _ => is_word c end.

(** A literal in which the name cannot begin, whatever follows; [bd] tells whether
    a word can begin at its start. *)
Fixpoint mismatch (name s : string) : bool :=
  match name, s with
  | String c name, String d s => if decide (lower_byte c = lower_byte d) then mismatch name s else true
  | _, _ => false
  end.
Fixpoint lit_ok (name : string) (bd : bool) (s : string) : bool :=
  match s with
  | "" => true
  | String c s' => (negb bd || mismatch name s) && lit_ok name (negb (is_word c)) s'
  end.

Section occ.
Context (name : string) (Hw : every is_word name = true) (Hne : name ≠ "").

Lemma starts_fold_head s : head_side s = false → starts_fold name s = false.
Proof.
  unfold starts_fold. destruct name as [|c n]; [done|]. destruct s as [|d s]; [done|]. cbn in *.
  intros Hd. case_decide as Hcd; [|done]. apply andb_true_iff in Hw as [Hc _].
  rewrite <- is_word_lower, Hcd, is_word_lower in Hc. congruence.
Qed.

Lemma occ_nonword b s : word_side b = false → occ name b s = occ name None s.
Proof. destruct s as [|c s]; [done|]. cbn. by intros ->. Qed.

Lemma occ_head b s : head_side s = false → occ name b s = occ name None s.
Proof.
  intros H. destruct s as [|c s]; [done|]. cbn [occ]. by rewrite (starts_fold_head (String c s) H), !andb_false_r.
Qed.

Lemma occ_le b s : occ name b s ≤ occ name None s.
Proof. destruct s as [|c s]; [done|]. cbn. destruct (word_side b); cbn; [lia|done]. Qed.

(** A name that begins in [s] and runs into [t] would need a word byte on both
    sides. *)
Lemma starts_fold_app n c s t : every is_word n = true →
  word_side (last_byte (Some c) s) = false ∨ head_side t = false →
  starts_fold n (String c s +:+ t) = starts_fold n (String c s).
Proof.
  intros Hn Hst. revert c s Hst. unfold starts_fold. induction n as [|d n IH]; intros c s Hst; [done|].
  cbn in Hn. apply andb_true_iff in Hn as [Hd Hn]. cbn. case_decide as Hcd; [|done].
  destruct s as [|c' s]; cbn.
  - destruct n as [|d' n]; [done|]. destruct t as [|e t]; [done|]. cbn in *.
    apply andb_true_iff in Hn as [Hd' _]. case_decide as Hce; [|done]. exfalso.
    rewrite <- is_word_lower in Hd, Hd'. rewrite Hcd, is_word_lower in Hd.
    rewrite Hce, is_word_lower in Hd'. destruct Hst; congruence.
  - apply (IH Hn c' s). done.
Qed.

Lemma occ_app b s t : word_side (last_byte b s) = false ∨ head_side t = false →
  occ name b (s +:+ t) = occ name b s + occ name (last_byte b s) t.
Proof.
  revert b. induction s as [|c s IH]; intros b Hst; [done|]. cbn [String.append occ last_byte] in *.
  change (String c (s +:+ t)) with (String c s +:+ t).
  rewrite starts_fold_app, IH by done. lia.
Qed.

Lemma occ_before s t : word_side (last_byte None s) = false →
  occ name None (s +:+ t) = occ name None s + occ name None t.
Proof. intros H. rewrite occ_app by auto. by rewrite (occ_nonword (last_byte None s)). Qed.
Lemma occ_after b s t : head_side t = false → occ name b (s +:+ t) = occ name b s + occ name None t.
Proof. intros H. rewrite occ_app by auto. by rewrite (occ_head (last_byte b s)). Qed.

(** Nothing is lost by cutting bytes that are no word bytes off the ends. *)
Lemma last_side f b s : (∀ c, f c = true → is_word c = false) → word_side b = false → every f s = true →
  word_side (last_byte b s) = false.
Proof.
  intros Hf. revert b. induction s as [|c s IH]; intros b Hb; [done|]. cbn.
  intros [Hc Hs]%andb_true_iff. apply IH; [cbn; auto|done].
Qed.

Lemma occ_trim f s : (∀ c, f c = true → is_word c = false) →
  occ name None (trim_right f (trim_left f s)) ≤ occ name None s.
Proof.
  intros Hf. destruct (trim_split f s) as (a & b & Hs & Ha & Hb).
  set (m := trim_right f (trim_left f s)) in *. rewrite Hs at 1.
  rewrite occ_before by by eapply last_side. rewrite occ_after; [lia|].
  destruct b as [|c b]; [done|]. cbn in *. apply andb_true_iff in Hb as [Hc _]. auto.
Qed.

Lemma occ_TrimSpace s : occ name None (TrimSpace s) ≤ occ name None s.
Proof. apply occ_trim. intros c. destruct c as [[] [] [] [] [] [] [] []]; by cbv. Qed.
Lemma occ_Trim_quote s : occ name None (Trim is_quote s) ≤ occ name None s.
Proof. apply occ_trim. intros c. destruct c as [[] [] [] [] [] [] [] []]; by cbv. Qed.

Lemma mismatch_starts n s t : mismatch n s = true → starts_fold n (s +:+ t) = false.
Proof.
  revert s. unfold starts_fold. induction n as [|c n IH]; intros [|d s]; cbn; try done.
  case_decide; [apply IH|done].
Qed.

Lemma occ_lit b L t : lit_ok name true L = true → occ name b (L +:+ t) ≤ occ name None t.
Proof.
  assert (G : ∀ bd b, (word_side b = false → bd = true) → lit_ok name bd L = true →
    occ name b (L +:+ t) ≤ occ name None t); [|intros; eapply (G true); auto].
  clear b. induction L as [|c L IH]; intros bd b Hbd; cbn [lit_ok String.append]; [intros _; apply occ_le|].
  intros [Hm HL]%andb_true_iff. cbn [occ].
  assert (E : negb (word_side b) && starts_fold name (String c (L +:+ t)) = false).
  { destruct (word_side b); [done|]. rewrite Hbd in Hm by done. cbn in Hm.
    change (String c (L +:+ t)) with (String c L +:+ t). by rewrite mismatch_starts. }
  rewrite E. apply (IH (negb (is_word c))); [|done]. cbn. by intros ->.
Qed.

Lemma occ_arg b a t : head_side t = false → occ name b (a +:+ t) ≤ occ name None a + occ name None t.
Proof. intros H. rewrite occ_after by done. pose proof (occ_le b a). lia. Qed.

Lemma occ_commas b args t : head_side t = false →
  occ name b (Join ", " args +:+ t) ≤ sum_list_with (occ name None) args + occ name None t.
Proof.
  intros Ht. revert b. induction args as [|a args IH]; intros b; [apply occ_le|].
  destruct args as [|a' args]; [cbn -[occ]; rewrite Nat.add_0_r; by apply occ_arg|].
  change (Join ", " (a :: a' :: args)) with (a +:+ (", " +:+ Join ", " (a' :: args))).
  rewrite string_app_assoc. etransitivity; [by apply occ_arg|]. rewrite string_app_assoc.
  cbn [sum_list_with] in *. specialize (IH (Some " "%char)).
  change (occ name None (", " +:+ (Join ", " (a' :: args) +:+ t))) with
    (occ name None (String "," (String " " (Join ", " (a' :: args) +:+ t)))).
  cbn [occ]. rewrite !starts_fold_head by done. rewrite !andb_false_r. lia.
Qed.
End occ.

(** ** The loop ends *)

Section loop.
Context (name : string) (Hn : call_name name).
Let Hw : every is_word name = true := name_word name Hn.
Let Hne : name ≠ "" := name_some name Hn.

Lemma occ_arguments segs : sum_list_with (occ name None) (arguments segs) ≤ occ name None (Join "," segs).
Proof.
  induction segs as [|a segs IH]; [done|]. destruct segs as [|b segs].
  - cbn [arguments Join]. pose proof (occ_TrimSpace name Hw Hne a). case_decide; cbn -[occ]; lia.
  - change (Join "," (a :: b :: segs)) with (a +:+ String "," (Join "," (b :: segs))).
    rewrite occ_after by done. cbn [sum_list_with occ].
    change (arguments (a :: b :: segs)) with (TrimSpace a :: arguments (b :: segs)). cbn [sum_list_with].
    pose proof (occ_TrimSpace name Hw Hne a).
    rewrite (occ_nonword name (Some ","%char)) by done.
    rewrite (starts_fold_head name Hw Hne (String "," _)) by done. cbn -[occ arguments Join] in *. lia.
Qed.

(** A call is one occurrence more than its arguments. *)
Lemma occ_call sql pre args post : func_call name sql pre args post →
  occ name None pre + 1 + sum_list_with (occ name None) args + occ name None post ≤ occ name None sql.
Proof.
  intros (word & ws & segs & -> & Hf & Hs & Hb & _ & _ & -> & _).
  rewrite (occ_before name) by done.
  assert (Hhead : head_side (ws +:+ String "(" (Join "," segs +:+ String ")" post)) = false).
  { destruct ws as [|c ws]; [done|]. cbn in *. apply andb_true_iff in Hs as [Hs _].
    by destruct c as [[] [] [] [] [] [] [] []]. }
  rewrite occ_after by done.
  assert (1 ≤ occ name None word).
  { assert (Hst : starts_fold name word = true).
    { unfold starts_fold. clear -Hf. apply bool_decide_eq_true in Hf. revert word Hf.
      induction name as [|c n IH]; intros [|d w] Hf; try done. cbn in Hf |- *. injection Hf as Hd Hf.
      rewrite decide_True by done. by apply IH. }
    destruct word as [|c word]; [by destruct name|]. cbn [occ]. rewrite Hst. cbn. lia. }
  assert (Hws : word_side (last_byte None ws) = false).
  { eapply last_side; [|done|exact Hs]. intros c. by destruct c as [[] [] [] [] [] [] [] []]. }
  rewrite (occ_before name) by done.
  assert (E : ∀ c t, is_word c = false → occ name None (String c t) = occ name None t).
  { intros c t Hc. cbn [occ]. rewrite starts_fold_head by done. rewrite andb_false_r. cbn.
    by apply occ_nonword. }
  rewrite E by done. rewrite occ_after by done. rewrite E by done.
  pose proof (occ_arguments segs). lia.
Qed.

Definition call_step (f : list string → string) (s s' : string) : Prop :=
  ∃ pre args post, findFuncCall s name = Some (pre, args, post) ∧ s' = pre +:+ f args +:+ post.

(** The replacement of these arguments adds no occurrence. *)
Definition shrinks (f : list string → string) (args : list string) : Prop :=
  ∀ b post, occ name b (f args +:+ post) ≤ sum_list_with (occ name None) args + occ name None post.

Lemma replace_terminates f (ok : list string → bool) : (∀ args, ok args = true → shrinks f args) → ∀ sql,
  (∀ s pre args post, rtc (call_step f) sql s → findFuncCall s name = Some (pre, args, post) → ok args = true) →
  ∃ r, rtc (call_step f) sql r ∧ findFuncCall r name = None ∧
    ∀ fuel, occ name None sql ≤ fuel → replaceFuncCall fuel sql name f = Some r.
Proof.
  intros Hok sql. induction sql as [sql IH] using (induction_ltof1 _ (occ name None)). unfold ltof in IH.
  intros Hall. destruct (findFuncCall sql name) as [[[pre args] post]|] eqn:E.
  2:{ exists sql. split_all; [apply rtc_refl|done|]. intros [|fuel] _; cbn [replaceFuncCall]; by rewrite E. }
  assert (Hstep : call_step f sql (pre +:+ f args +:+ post)) by (unfold call_step; eauto).
  pose proof E as Hcall. apply find_call_iff in Hcall; [|done]. pose proof (occ_call _ _ _ _ Hcall) as Hle.
  destruct Hcall as (_ & _ & _ & _ & _ & _ & Hb & _).
  assert (Hlt : occ name None (pre +:+ f args +:+ post) < occ name None sql).
  { rewrite (occ_before name) by done.
    pose proof (Hok args (Hall _ _ _ _ (rtc_refl _ _) E) None post). lia. }
  destruct (IH _ Hlt) as (r & Hr & Hend & Hfuel).
  { intros s pre' args' post' Hs. apply (Hall s). by eapply rtc_l. }
  exists r. split_all; [by eapply rtc_l|done|]. intros [|fuel] Hf; [lia|].
  cbn [replaceFuncCall]. rewrite E. apply Hfuel. lia.
Qed.
End loop.

(** ** The replacers *)

(** A replacement as a list of literals and arguments. *)
Inductive piece : Type := L (s : string) | A (s : string).
Definition piece_text (p : piece) : string := match p with L s | A s => s end.
Fixpoint render (ps : list piece) : string :=
  match ps with
  | [] => ""
  | [p] => piece_text p
  | p :: ps => piece_text p +:+ render ps
  end.

(** The name does not begin in a literal, and a literal that begins with no word
    byte follows every argument. *)
Fixpoint pieces_ok (name : string) (ps : list piece) : bool :=
  match ps with
  | [] => true
  | L s :: ps => lit_ok name true s && pieces_ok name ps
  | A _ :: ps => match ps with L (String c _) :: _ => negb (is_word c) | _ => false end && pieces_ok name ps
  end.
Fixpoint piece_args (ps : list piece) : list string :=
  match ps with [] => [] | L _ :: ps => piece_args ps | A s :: ps => s :: piece_args ps end.

Lemma render_app p ps t : render (p :: ps) +:+ t = piece_text p +:+ (render ps +:+ t).
Proof. destruct ps as [|q ps]; [done|]. apply string_app_assoc. Qed.

Lemma occ_render name b ps t : every is_word name = true → name ≠ "" → pieces_ok name ps = true →
  occ name b (render ps +:+ t) ≤ sum_list_with (occ name None) (piece_args ps) + occ name None t.
Proof.
  intros Hw Hne. revert b. induction ps as [|[s|s] ps IH]; intros b; [intros _; apply occ_le| |];
    rewrite render_app; cbn [pieces_ok piece_text piece_args]; intros [H Hps]%andb_true_iff.
  - etransitivity; [by apply occ_lit|]. by apply IH.
  - destruct ps as [|[[|c u]|] ps]; [done..| |done]. apply negb_true_iff in H.
    etransitivity; [apply occ_arg; [done|done|]|].
    + rewrite render_app. cbn. exact H.
    + cbn [sum_list_with]. specialize (IH None Hps). lia.
Qed.

Definition ok_arity (n : nat) (args : list string) : bool := (n <=? length args)%nat.

(** The rules whose replacement uses every argument at most once, and the calls
    that they replace. *)
Definition call_rules : list (string * (list string → string) * (list string → bool)) :=
  [("IFF", iff_call, ok_arity 3); ("NVL2", nvl2_call, ok_arity 3); ("NVL", nvl_call, ok_arity 0);
   ("SQUARE", square_call, ok_arity 1); ("ARRAY_CONSTRUCT", array_construct_call, ok_arity 0);
   ("ARRAY_SIZE", array_size_call, ok_arity 0);
   ("OBJECT_CONSTRUCT", object_construct_call, λ args, bool_decide (Nat.modulo (length args) 2 = 0));
   ("PARSE_JSON", parse_json_call, ok_arity 1); ("REGEXP_LIKE", regexp_like_call, ok_arity 0);
   ("LISTAGG", listagg_call, ok_arity 0); ("STRTOK_TO_ARRAY", strtok_call, ok_arity 0);
   ("DATEADD", dateadd_call, ok_arity 3); ("DATEDIFF", datediff_call, ok_arity 3);
   ("TO_VARCHAR", cast_call "TO_VARCHAR" "VARCHAR", ok_arity 1);
   ("TO_CHAR", cast_call "TO_CHAR" "VARCHAR", ok_arity 1); ("TO_NUMBER", to_number_call, ok_arity 1);
   ("TO_DATE", cast_call "TO_DATE" "DATE", ok_arity 1);
   ("TO_TIMESTAMP", cast_call "TO_TIMESTAMP" "TIMESTAMP", ok_arity 1)].

Lemma shrinks_render name f args ps : every is_word name = true → name ≠ "" →
  f args = render ps → pieces_ok name ps = true →
  sum_list_with (occ name None) (piece_args ps) ≤ sum_list_with (occ name None) args → shrinks name f args.
Proof. intros Hw Hne Hf Hok Hs b post. rewrite Hf. pose proof (occ_render name b ps post Hw Hne Hok). lia. Qed.

Lemma shrinks_commas name f args open close : every is_word name = true → name ≠ "" →
  f args = open +:+ Join ", " args +:+ String close "" → lit_ok name true open = true → is_word close = false →
  shrinks name f args.
Proof.
  intros Hw Hne Hf Hok Hc b post. rewrite Hf, !string_app_assoc.
  etransitivity; [by apply occ_lit|]. etransitivity; [by apply occ_commas|].
  cbn [String.append occ]. rewrite starts_fold_head by done. rewrite andb_false_r, occ_nonword by done. lia.
Qed.

Tactic Notation "pieces" uconstr(ps) :=
  eapply (shrinks_render _ _ _ ps); [reflexivity|discriminate|reflexivity|reflexivity|cbn -[occ]; lia].

Lemma shrinks_iff args : ok_arity 3 args = true → shrinks "IFF" iff_call args.
Proof.
  destruct args as [|a [|b [|c args]]]; try done. intros _.
  pieces [L "CASE WHEN "; A a; L " THEN "; A b; L " ELSE "; A c; L " END"].
Qed.
Lemma shrinks_nvl2 args : ok_arity 3 args = true → shrinks "NVL2" nvl2_call args.
Proof.
  destruct args as [|a [|b [|c args]]]; try done. intros _.
  pieces [L "CASE WHEN "; A a; L " IS NOT NULL THEN "; A b; L " ELSE "; A c; L " END"].
Qed.
Lemma shrinks_square args : ok_arity 1 args = true → shrinks "SQUARE" square_call args.
Proof. destruct args as [|a args]; [done|]. intros _. pieces [L "POWER("; A a; L ", 2)"]. Qed.
Lemma shrinks_array_size args : shrinks "ARRAY_SIZE" array_size_call args.
Proof. destruct args as [|a args]; [pieces [L "len()"]|]. pieces [L "len("; A a; L ")"]. Qed.
Lemma shrinks_parse_json args : ok_arity 1 args = true → shrinks "PARSE_JSON" parse_json_call args.
Proof. destruct args as [|a args]; [done|]. intros _. pieces [A a; L "::JSON"]. Qed.

Lemma shrinks_cast name ty args : name ∈ ["TO_VARCHAR"; "TO_CHAR"; "TO_DATE"; "TO_TIMESTAMP"]%string →
  lit_ok name true (ty +:+ ")") = true → ok_arity 1 args = true → shrinks name (cast_call name ty) args.
Proof.
  intros Hn Hty. destruct args as [|a args]; [done|]. intros _.
  assert (Hlit : lit_ok name true "CAST(" && (lit_ok name true " AS " && (lit_ok name true (ty +:+ ")") && true)) = true).
  { rewrite Hty, andb_true_r. clear Hty. revert name Hn. apply Forall_forall. by repeat constructor. }
  assert (Hname : every is_word name = true ∧ name ≠ "").
  { clear Hty Hlit. revert name Hn. apply Forall_forall. by repeat constructor. }
  destruct Hname. eapply (shrinks_render _ _ _ [L "CAST("; A a; L " AS "; L (ty +:+ ")")]); [done|done|reflexivity|exact Hlit|].
  cbn -[occ]. lia.
Qed.

Lemma shrinks_to_number args : ok_arity 1 args = true → shrinks "TO_NUMBER" to_number_call args.
Proof.
  assert (Hw : every is_word "TO_NUMBER" = true) by reflexivity.
  assert (Hne : "TO_NUMBER" ≠ "") by discriminate.
  destruct args as [|a [|b [|c [|d args]]]]; [done|..]; intros _.
  - pieces [L "CAST("; A a; L " AS NUMERIC)"].
  - pieces [L "CAST("; A a; L " AS NUMERIC)"].
  - eapply (shrinks_render _ _ _ [L "CAST("; A a; L " AS DECIMAL("; A (TrimSpace b); L ", "; A (TrimSpace c); L "))"]);
      [done|done|reflexivity|reflexivity|].
    pose proof (occ_TrimSpace _ Hw Hne b). pose proof (occ_TrimSpace _ Hw Hne c). cbn -[occ TrimSpace]. lia.
  - pieces [L "CAST("; A a; L " AS NUMERIC)"].
Qed.

Lemma shrinks_dateadd args : ok_arity 3 args = true → shrinks "DATEADD" dateadd_call args.
Proof.
  assert (Hw : every is_word "DATEADD" = true) by reflexivity.
  assert (Hne : "DATEADD" ≠ "") by discriminate.
  destruct args as [|a [|b [|c args]]]; try done. intros _.
  eapply (shrinks_render _ _ _ [A (TrimSpace c); L " + INTERVAL '"; A (TrimSpace b); L " ";
    A (Trim is_quote (TrimSpace a)); L "'"]); [done|done|reflexivity|reflexivity|].
  pose proof (occ_TrimSpace _ Hw Hne a). pose proof (occ_TrimSpace _ Hw Hne b).
  pose proof (occ_TrimSpace _ Hw Hne c). pose proof (occ_Trim_quote _ Hw Hne (TrimSpace a)).
  cbn -[occ TrimSpace Trim]. lia.
Qed.

Lemma shrinks_datediff args : ok_arity 3 args = true → shrinks "DATEDIFF" datediff_call args.
Proof.
  assert (Hw : every is_word "DATEDIFF" = true) by reflexivity.
  assert (Hne : "DATEDIFF" ≠ "") by discriminate.
  destruct args as [|a [|b [|c args]]]; try done. intros _.
  eapply (shrinks_render _ _ _ [L "DATE_DIFF('"; A (Trim is_quote (TrimSpace a)); L "', "; A b; L ", "; A c; L ")"]);
    [done|done|reflexivity|reflexivity|].
  pose proof (occ_TrimSpace _ Hw Hne a). pose proof (occ_Trim_quote _ Hw Hne (TrimSpace a)).
  cbn -[occ TrimSpace Trim]. lia.
Qed.

Lemma occ_pairs name args : every is_word name = true → name ≠ "" →
  sum_list_with (occ name None) (pairs args) ≤ sum_list_with (occ name None) args.
Proof.
  intros Hw Hne. induction args as [args IH] using (induction_ltof1 _ length). unfold ltof in IH.
  destruct args as [|k [|v args]]; cbn [pairs sum_list_with]; [lia|lia|].
  specialize (IH args ltac:(cbn; lia)).
  pose proof (occ_arg name Hw Hne None k (": " +:+ v) eq_refl).
  assert (Hlit : lit_ok name true ": " = true).
  { destruct name as [|c n]; [done|]. cbn in Hw. apply andb_true_iff in Hw as [Hw _].
    by destruct c as [[] [] [] [] [] [] [] []]. }
  pose proof (occ_lit name None ": " v Hlit).
  lia.
Qed.

Lemma shrinks_object args : bool_decide (Nat.modulo (length args) 2 = 0) = true →
  shrinks "OBJECT_CONSTRUCT" object_construct_call args.
Proof.
  intros H%bool_decide_eq_true b post. unfold object_construct_call. rewrite decide_True by done.
  pose proof (occ_pairs "OBJECT_CONSTRUCT" args eq_refl ltac:(discriminate)).
  pose proof (shrinks_commas "OBJECT_CONSTRUCT" (λ ps, "{" +:+ Join ", " ps +:+ "}") (pairs args) "{" "}"%char
    eq_refl ltac:(discriminate) eq_refl eq_refl eq_refl b post). cbn beta in *. lia.
Qed.

Ltac commas_rule open close := apply (shrinks_commas _ _ _ open close); [reflexivity|discriminate|reflexivity..].

Lemma rules_shrink name f ok args : (name, f, ok) ∈ call_rules → ok args = true → shrinks name f args.
Proof.
  unfold call_rules. intros Hin Hok.
  repeat (apply elem_of_cons in Hin as [[= -> -> ->]|Hin]); [..|by apply not_elem_of_nil in Hin].
  all: cbv beta in Hok.
  - by apply shrinks_iff.
  - by apply shrinks_nvl2.
  - commas_rule "COALESCE(" ")"%char.
  - by apply shrinks_square.
  - commas_rule "[" "]"%char.
  - apply shrinks_array_size.
  - by apply shrinks_object.
  - by apply shrinks_parse_json.
  - commas_rule "regexp_full_match(" ")"%char.
  - commas_rule "STRING_AGG(" ")"%char.
  - commas_rule "STRING_SPLIT(" ")"%char.
  - by apply shrinks_dateadd.
  - by apply shrinks_datediff.
  - by apply shrinks_cast; [set_solver|..].
  - by apply shrinks_cast; [set_solver|..].
  - by apply shrinks_to_number.
  - by apply shrinks_cast; [set_solver|..].
  - by apply shrinks_cast; [set_solver|..].
Qed.

(** ** The loop that does not end

    A rule leaves a call with too few arguments as it is, and finds it again. *)

Lemma app_split a b x c s : a +:+ b = x +:+ String c s →
  (∃ a', a = x +:+ String c a' ∧ s = a' +:+ b) ∨ (∃ w, b = w +:+ String c s ∧ x = a +:+ w).
Proof.
  revert a. induction x as [|d x IH]; intros a H; cbn in H.
  - destruct a as [|e a]; [right; by exists ""|]. cbn in H. injection H as -> <-. left. by exists a.
  - destruct a as [|e a]; [right; by exists (String d x)|]. cbn in H. injection H as -> H.
    destruct (IH a H) as [(a' & -> & ->)|(w & -> & ->)]; [left; by exists a'|right; by exists w].
Qed.

Lemma every_has f w c s : every f (w +:+ String c s) = true → f c = true.
Proof. rewrite every_app. cbn. rewrite !andb_true_iff. tauto. Qed.

Lemma text_cut b s : text b s → ∀ a ws, s = a +:+ ws → every is_space ws = true → text b a.
Proof.
  induction 1 as [b|b c s Hc _ IH|s _ IH|b body s Hb _ IH|b a1 a2 H1 IH1 _ IH2]; intros a ws E Hs.
  - destruct a; [constructor|done].
  - destruct a as [|d a]; [constructor|]. injection E as <- E. constructor; [done|]. by eapply IH.
  - destruct a as [|d a]; [constructor|]. injection E as <- E. apply text_comma. by eapply IH.
  - destruct a as [|d a]; [cbn in E; subst ws; done|]. injection E as <- E.
    destruct (app_split a ws body sq s) as [(a' & -> & ->)|(w & -> & _)]; [done| |].
    + constructor; [done|]. by eapply IH.
    + by apply every_has in Hs.
  - destruct a as [|d a]; [cbn in E; subst ws; done|]. injection E as <- E.
    destruct (app_split a ws a1 ")" a2) as [(a' & -> & ->)|(w & -> & _)]; [done| |].
    + constructor; [done|]. by eapply IH2.
    + by apply every_has in Hs.
Qed.

Lemma text_TrimSpace b s : text b s → text b (TrimSpace s).
Proof.
  intros H. assert (Hl : text b (trim_left is_space s)).
  { induction H as [b|b c s Hc H IH|s H IH|b body s Hb H IH|b a1 a2 H1 IH1 H2 IH2]; try by constructor.
    cbn. destruct (is_space c); [done|by constructor]. }
  destruct (trim_right_split is_space (trim_left is_space s)) as (ws & Hs & He).
  unfold TrimSpace. by eapply text_cut.
Qed.

Lemma arguments_text segs : Forall (text true) segs → Forall (text true) (arguments segs).
Proof.
  induction 1 as [|a segs Ha Hs IH]; [constructor|]. destruct segs as [|b segs].
  - cbn. case_decide; constructor; [by apply text_TrimSpace|constructor].
  - constructor; [by apply text_TrimSpace|done].
Qed.

Lemma arguments_length segs : length (arguments segs) ≤ length segs.
Proof.
  induction segs as [|a [|b segs] IH]; [done|cbn; case_decide; cbn; lia|].
  change (arguments (a :: b :: segs)) with (TrimSpace a :: arguments (b :: segs)). cbn [length] in *. lia.
Qed.

(** The pieces of the text [commas args]. *)
Definition comma_segs (args : list string) : list string :=
  match args with [] => [""] | a :: args => a :: ((λ a, " " +:+ a) <$> args) end.

Lemma comma_segs_spec args : Forall (text true) args →
  Join "," (comma_segs args) = commas args ∧ Forall (text true) (comma_segs args) ∧ comma_segs args ≠ [] ∧
  length (arguments (comma_segs args)) ≤ length args.
Proof.
  intros Ht. split_all.
  - destruct args as [|a args]; [done|]. unfold commas. clear Ht. revert a. induction args as [|b args IH]; intros a; [done|].
    change (Join ", " (a :: b :: args)) with (a +:+ ", " +:+ Join ", " (b :: args)). rewrite <- IH.
    by destruct args.
  - destruct Ht as [|a args Ha Ht]; [repeat constructor|]. constructor; [done|].
    apply Forall_fmap. eapply Forall_impl; [exact Ht|]. intros s Hs. cbn. constructor; [|done].
    unfold plain_byte. by apply (bool_decide_unpack _).
  - by destruct args.
  - destruct args as [|a args]; [done|]. etransitivity; [apply arguments_length|]. cbn. by rewrite length_fmap.
Qed.

(** A word and white space do not go on with a word byte after one that is none. *)
Lemma word_spaces word ws x c w : every is_word word = true → every re_space ws = true → is_word c = true →
  x ≠ "" → word_side (last_byte None x) = false → word +:+ ws = x +:+ String c w → False.
Proof.
  intros Hw Hs Hc. revert word Hw. induction x as [|d x IH]; intros word Hw Hx Hl E; [done|].
  destruct word as [|e word]; cbn in E.
  - subst ws. change (String d (x +:+ String c w)) with (String d x +:+ String c w) in Hs.
    apply every_has in Hs. by destruct c as [[] [] [] [] [] [] [] []].
  - injection E as -> E. cbn in Hw. apply andb_true_iff in Hw as [Hd Hw]. destruct x as [|d' x].
    + cbn in Hl. congruence.
    + by eapply (IH word).
Qed.

(** No call begins before the rewritten one. *)
Lemma site_before name y x u : call_name name → word_side (last_byte None x) = false → x ≠ "" →
  call_site name (last_byte None y) (x +:+ name +:+ String "(" u) →
  ∀ v, call_site name (last_byte None y) (x +:+ v).
Proof.
  intros Hn Hl Hx [Hb (word & ws & t & E & Hf & Hs)] v. split; [done|].
  rewrite <- (string_app_assoc word ws) in E. apply app_split in E as [(a' & Ex & _)|(w & Ew & E)].
  - rewrite Ex. exists word, ws, (a' +:+ v). split_all; [|done..]. by rewrite !string_app_assoc.
  - exfalso. pose proof (name_word _ Hn) as Hw. destruct (fold_word _ _ Hf) as [Hw' _].
    destruct name as [|c name]; [by destruct (name_some _ Hn)|]. destruct w as [|d w]; [by injection Ew as ->|].
    injection Ew as <- _. eapply (word_spaces word ws x c w); [congruence|done| |done|done|done].
    cbn in Hw. by apply andb_true_iff in Hw as [Hw _].
Qed.

Lemma append_split_short a t p q : a +:+ t = p +:+ q → String.length a < String.length p →
  ∃ x, x ≠ "" ∧ p = a +:+ x ∧ t = x +:+ q.
Proof.
  revert p. induction a as [|c a IH]; intros p E Hl; cbn in *.
  - exists p. split_all; [|done|done]. destruct p; [cbn in Hl; lia|done].
  - destruct p as [|d p]; cbn in *; [lia|]. injection E as <- E.
    destruct (IH p E) as (x & Hx & -> & ->); [lia|]. by exists x.
Qed.

Lemma last_byte_nonempty_any b b' s : s ≠ "" → last_byte b s = last_byte b' s.
Proof. by destruct s. Qed.

(** A call left as it is is found again, with no more arguments than before. *)
Lemma same_call_found name sql pre args post : call_name name → func_call name sql pre args post →
  ∃ args', length args' ≤ length args ∧ func_call name (pre +:+ same_call name args +:+ post) pre args' post.
Proof.
  intros Hn (word & ws & segs & E & Hf & Hs & Hb & Hne & Ht & -> & Hl).
  destruct (comma_segs_spec (arguments segs)) as (Hj & Ht' & Hne' & Hlen); [by apply arguments_text|].
  exists (arguments (comma_segs (arguments segs))). split; [done|].
  exists name, "", (comma_segs (arguments segs)). split_all; try done.
  - unfold same_call. rewrite Hj, !string_app_assoc. reflexivity.
  - by apply bool_decide_eq_true.
  - intros a t E' Ha Hc. symmetry in E'.
    destruct (append_split_short a t pre _ E' Ha) as (x & Hx & -> & ->).
    unfold same_call in Hc. rewrite !string_app_assoc in Hc.
    assert (Hside : word_side (last_byte None x) = false).
    { rewrite last_byte_app in Hb. by rewrite (last_byte_nonempty_any _ (last_byte None a)). }
    eapply (Hl a); [rewrite E; by rewrite string_app_assoc|done|].
    by eapply (site_before name a x _ Hn Hside Hx Hc).
Qed.

(** The rules that leave a call with fewer than [n] arguments as it is. *)
Definition short_rules : list (string * (list string → string) * nat) :=
  [("IFF", iff_call, 3); ("NVL2", nvl2_call, 3); ("DIV0NULL", div0null_call, 2); ("DIV0", div0_call, 2);
   ("SQUARE", square_call, 1); ("PARSE_JSON", parse_json_call, 1); ("DATEADD", dateadd_call, 3);
   ("DATEDIFF", datediff_call, 3); ("TO_VARCHAR", cast_call "TO_VARCHAR" "VARCHAR", 1);
   ("TO_CHAR", cast_call "TO_CHAR" "VARCHAR", 1); ("TO_NUMBER", to_number_call, 1);
   ("TO_DATE", cast_call "TO_DATE" "DATE", 1); ("TO_TIMESTAMP", cast_call "TO_TIMESTAMP" "TIMESTAMP", 1)].

Lemma short_rules_spec name f n : (name, f, n) ∈ short_rules →
  name ∈ function_names ∧ ∀ args, length args < n → f args = same_call name args.
Proof.
  unfold short_rules. intros Hin.
  repeat (apply elem_of_cons in Hin as [[= -> -> ->]|Hin];
    [split; [by apply (bool_decide_unpack _)|]; intros args Hargs; by apply decide_True|]).
  by apply not_elem_of_nil in Hin.
Qed.

(** ** Properties of the loop *)

(** C3: replacing the calls of a function ends.  For each of the eighteen rules that
    use every argument at most once ([call_rules]: all but DIV0 and DIV0NULL, which put
    one twice), a text in which no call is reached that the rule leaves
    as it is is rewritten, with no more turns of the loop than the name occurs in
    it, to a text in which the first call, if any, is not closed; each turn
    replaces the first call. *)
Theorem call_rules_terminate name f ok sql : (name, f, ok) ∈ call_rules →
  (∀ s pre args post, rtc (call_step name f) sql s → findFuncCall s name = Some (pre, args, post) → ok args = true) →
  ∃ r, rtc (call_step name f) sql r ∧ findFuncCall r name = None ∧
    ∀ fuel, occ name None sql ≤ fuel → replaceFuncCall fuel sql name f = Some r.
Proof.
  intros Hin Hall. apply (replace_terminates name) with (ok := ok); [|intros; by eapply rules_shrink|done].
  apply function_names_ok. unfold call_rules in Hin.
  repeat (apply elem_of_cons in Hin as [[= -> -> ->]|Hin]; [by apply (bool_decide_unpack _)|]).
  by apply not_elem_of_nil in Hin.
Qed.

(** C8: a call with too few arguments is never done with.  When the first call of
    one of these functions has fewer arguments than the rule needs, the loop puts
    the same call back and finds it again: no number of turns is enough. *)
Theorem short_call_never_ends name f n sql pre args post : (name, f, n) ∈ short_rules →
  findFuncCall sql name = Some (pre, args, post) → length args < n →
  ∀ fuel, replaceFuncCall fuel sql name f = None.
Proof.
  intros [Hn Hf]%short_rules_spec H Hlen fuel. apply function_names_ok in Hn.
  revert sql args H Hlen. induction fuel as [|fuel IH]; intros sql args H Hlen; cbn [replaceFuncCall]; rewrite H; [done|].
  rewrite Hf by done. apply find_call_iff in H; [|done].
  destruct (same_call_found name sql pre args post Hn H) as (args' & Hle & H').
  apply (IH _ args'); [by apply find_call_iff|lia].
Qed.

(** ** Witnesses *)

Lemma split_statements_spec_witness :
  splitStatements "SELECT 'a;b'; SELECT 'it''s'; SELECT 'x" = ["SELECT 'a;b'"; " SELECT 'it''s'"; " SELECT 'x"]%string.
Proof.
  apply (proj2 split_statements_spec ["SELECT 'a;b'"; " SELECT 'it''s'"]%string " SELECT 'x"%string).
  - assert (Hq : ∀ body, bool_decide (sq ∉ bytes body) = true → sq ∉ bytes body) by (intros body; apply bool_decide_eq_true).
    repeat apply Forall_cons_2; [..|apply Forall_nil_2].
    + do 7 (apply closed_char; [discriminate..|]). exact (closed_quoted "a;b" "" (Hq "a;b" eq_refl) closed_nil).
    + do 8 (apply closed_char; [discriminate..|]).
      exact (closed_quoted "it" "'s'" (Hq "it" eq_refl) (closed_quoted "s" "" (Hq "s" eq_refl) closed_nil)).
  - right. exists " SELECT ", "x". split_all; [done|repeat constructor; discriminate|by apply (bool_decide_unpack _)].
Defined.

Lemma find_func_call_spec_witness :
  func_call "NVL" "SELECT nvl (a, f(b, 'x,)')) FROM t" "SELECT " ["a"; "f(b, 'x,)')"]%string " FROM t".
Proof. apply find_func_call_spec; [by apply (bool_decide_unpack _)|vm_compute; reflexivity]. Defined.

Lemma call_rules_terminate_witness :
  replaceFuncCall 2 "SELECT IFF(a, IFF(b, 1, 2), 3)" "IFF" iff_call =
    Some "SELECT CASE WHEN a THEN CASE WHEN b THEN 1 ELSE 2 END ELSE 3 END"%string.
Proof.
  destruct (call_rules_terminate "IFF" iff_call (ok_arity 3) "SELECT IFF(a, IFF(b, 1, 2), 3)")
    as (r & _ & _ & H).
  - left.
  - intros s pre args post Hr Hf.
    apply rtc_inv in Hr as [<-|(y & (p & a & q & Hy & ->) & Hr)]; vm_compute in Hy || vm_compute in Hf.
    { injection Hf as <- <- <-. reflexivity. }
    injection Hy as <- <- <-.
    apply rtc_inv in Hr as [<-|(y & (p & a & q & Hy & ->) & Hr)]; vm_compute in Hy || vm_compute in Hf.
    { injection Hf as <- <- <-. reflexivity. }
    injection Hy as <- <- <-.
    apply rtc_inv in Hr as [<-|(y & (p & a & q & Hy & ->) & Hr)]; vm_compute in Hy || vm_compute in Hf; discriminate.
  - rewrite H by (vm_compute; lia). specialize (H 2 ltac:(vm_compute; lia)). vm_compute in H. symmetry. exact H.
Defined.

(** The statement [SELECT IFF(a, b)] keeps the rewriter busy for ever. *)
Lemma apply_rules_app rs rs' sql : apply_rules (rs ++ rs') sql = apply_rules rs sql ≫= apply_rules rs'.
Proof.
  revert sql. induction rs as [|rule rs IH]; intros sql; [done|]. cbn. destruct (rule sql); [apply IH|done].
Qed.

Lemma short_call_never_ends_witness : ¬ ∃ fuel r, Rewrite fuel "SELECT IFF(a, b)" = Some r.
Proof.
  intros (fuel & r & H). revert H. unfold Rewrite. rewrite decide_False by discriminate.
  change (rules fuel) with (take 16 (rules 0) ++ (rewriteIFF fuel :: drop 17 (rules fuel))).
  rewrite apply_rules_app.
  assert (E : apply_rules (take 16 (rules 0)) (TrimSpace "SELECT IFF(a, b)") = Some "SELECT IFF(a, b)"%string)
    by (vm_compute; reflexivity).
  rewrite E. cbn [mbind option_bind apply_rules]. unfold rewriteIFF, on_calls.
  rewrite (short_call_never_ends "IFF" iff_call 3 "SELECT IFF(a, b)" "SELECT " ["a"; "b"]%string "");
    [discriminate|left|vm_compute; reflexivity|cbn; lia].
Defined.

(** ** Examples

    The cases of [rewriter_test.go] whose texts have no double quote. *)

Definition rewriter_tests : list (string * string) :=
  [("SELECT col:key FROM t",
    "SELECT col->>'key' FROM t");
   ("SELECT col:key1.key2 FROM t",
    "SELECT col->>'key1'->>'key2' FROM t");
   ("SELECT col:key::VARCHAR FROM t",
    "SELECT CAST(col->>'key' AS VARCHAR) FROM t");
   ("SELECT col[0] FROM t",
    "SELECT col->>0 FROM t");
   ("SELECT * FROM TABLE(FLATTEN(input => col))",
    "SELECT * FROM unnest(col) AS flat(value)");
   ("SELECT * FROM TABLE(FLATTEN(col))",
    "SELECT * FROM unnest(col) AS flat(value)");
   ("SELECT f.value FROM t, LATERAL FLATTEN(input => t.arr) AS f",
    "SELECT f.value FROM t, LATERAL (SELECT unnest AS value FROM unnest(t.arr)) AS f");
   ("SELECT * FROM t QUALIFY ROW_NUMBER() OVER (PARTITION BY a ORDER BY b) = 1",
    "SELECT * FROM t QUALIFY ROW_NUMBER() OVER (PARTITION BY a ORDER BY b) = 1");
   ("SELECT TRY_CAST('123' AS INTEGER)",
    "SELECT TRY_CAST('123' AS INTEGER)");
   ("SELECT IFF(x > 0, 'pos', 'neg') FROM t",
    "SELECT CASE WHEN x > 0 THEN 'pos' ELSE 'neg' END FROM t");
   ("SELECT NVL(a, b) FROM t",
    "SELECT COALESCE(a, b) FROM t");
   ("SELECT NVL2(a, b, c) FROM t",
    "SELECT CASE WHEN a IS NOT NULL THEN b ELSE c END FROM t");
   ("SELECT SQUARE(x) FROM t",
    "SELECT POWER(x, 2) FROM t");
   ("SELECT DIV0(a, b) FROM t",
    "SELECT CASE WHEN b = 0 THEN 0 ELSE a / b END FROM t");
   ("SELECT DIV0NULL(a, b) FROM t",
    "SELECT CASE WHEN COALESCE(b, 0) = 0 THEN 0 ELSE a / b END FROM t");
   ("SELECT ARRAY_CONSTRUCT(1, 2, 3)",
    "SELECT [1, 2, 3]");
   ("SELECT ARRAY_SIZE(arr) FROM t",
    "SELECT len(arr) FROM t");
   ("SELECT OBJECT_CONSTRUCT('k1', v1, 'k2', v2)",
    "SELECT {'k1': v1, 'k2': v2}");
   ("SELECT TO_VARCHAR(x) FROM t",
    "SELECT CAST(x AS VARCHAR) FROM t");
   ("SELECT TO_CHAR(x) FROM t",
    "SELECT CAST(x AS VARCHAR) FROM t");
   ("SELECT TO_NUMBER('123') FROM t",
    "SELECT CAST('123' AS NUMERIC) FROM t");
   ("SELECT TO_NUMBER('123.45', 10, 2) FROM t",
    "SELECT CAST('123.45' AS DECIMAL(10, 2)) FROM t");
   ("SELECT TO_DATE('2024-01-01') FROM t",
    "SELECT CAST('2024-01-01' AS DATE) FROM t");
   ("SELECT TO_TIMESTAMP('2024-01-01 00:00:00') FROM t",
    "SELECT CAST('2024-01-01 00:00:00' AS TIMESTAMP) FROM t");
   ("SELECT DATEADD(day, 5, col) FROM t",
    "SELECT col + INTERVAL '5 day' FROM t");
   ("SELECT DATEDIFF(day, a, b) FROM t",
    "SELECT DATE_DIFF('day', a, b) FROM t");
   ("DESCRIBE TABLE my_table",
    "DESCRIBE my_table");
   ("DESC TABLE my_table",
    "DESCRIBE my_table");
   ("CREATE OR REPLACE TABLE t (id INT)",
    "CREATE OR REPLACE TABLE t (id INT)");
   ("COPY INTO my_table FROM @my_stage/path",
    "/* MINIFLAKE_COPY_INTO COPY INTO my_table FROM @my_stage/path */");
   ("PUT file:///tmp/data.csv @my_stage",
    "/* MINIFLAKE_PUT PUT file:///tmp/data.csv @my_stage */");
   ("GET @my_stage/data.csv file:///tmp/",
    "/* MINIFLAKE_GET GET @my_stage/data.csv file:///tmp/ */");
   ("USE DATABASE mydb",
    "/* MINIFLAKE_USE_DATABASE mydb */");
   ("USE SCHEMA public",
    "/* MINIFLAKE_USE_SCHEMA public */");
   ("USE WAREHOUSE compute_wh",
    "/* MINIFLAKE_USE_WAREHOUSE compute_wh */");
   ("USE ROLE sysadmin",
    "/* MINIFLAKE_USE_ROLE sysadmin */");
   ("SELECT IDENTIFIER('col_name') FROM t",
    "SELECT col_name FROM t");
   ("SELECT REGEXP_LIKE(col, '^abc') FROM t",
    "SELECT regexp_full_match(col, '^abc') FROM t");
   ("SELECT REGEXP_LIKE(col, 'abc', 'i') FROM t",
    "SELECT regexp_full_match(col, 'abc', 'i') FROM t");
   ("SELECT * FROM t WHERE col RLIKE '^abc'",
    "SELECT * FROM t WHERE regexp_full_match(col, '^abc')");
   ("SELECT * FROM t WHERE col NOT RLIKE 'a b.*'",
    "SELECT * FROM t WHERE NOT regexp_full_match(col, 'a b.*')");
   ("SELECT * FROM t WHERE col REGEXP 'x+'",
    "SELECT * FROM t WHERE regexp_full_match(col, 'x+')");
   ("SELECT LISTAGG(col, ',') FROM t",
    "SELECT STRING_AGG(col, ',') FROM t");
   ("SELECT STRTOK_TO_ARRAY(str, ',') FROM t",
    "SELECT STRING_SPLIT(str, ',') FROM t");
   ("CREATE TABLE t (id NUMBER(38,0))",
    "CREATE TABLE t (id BIGINT)");
   ("CREATE TABLE t (val NUMBER(10,2))",
    "CREATE TABLE t (val DECIMAL(10, 2))");
   ("CREATE TABLE t (data VARIANT)",
    "CREATE TABLE t (data JSON)");
   ("CREATE TABLE t (ts TIMESTAMP_NTZ)",
    "CREATE TABLE t (ts TIMESTAMP)");
   ("CREATE TABLE t (ts TIMESTAMP_LTZ)",
    "CREATE TABLE t (ts TIMESTAMPTZ)");
   ("CREATE TABLE t (ts TIMESTAMP_TZ)",
    "CREATE TABLE t (ts TIMESTAMPTZ)");
   ("CREATE TABLE t (data BINARY)",
    "CREATE TABLE t (data BLOB)");
   ("CREATE TABLE t (id NUMBER)",
    "CREATE TABLE t (id BIGINT)");
   ("SELECT DATE_TRUNC('month', col) FROM t",
    "SELECT DATE_TRUNC('month', col) FROM t");
   ("SELECT ARRAY_AGG(col) FROM t",
    "SELECT ARRAY_AGG(col) FROM t");
   ("",
    "");
   ("SELECT 1",
    "SELECT 1");
   ("select nvl(a, b) from t",
    "select COALESCE(a, b) from t");
   ("SELECT iff(x > 0, 'a', 'b') FROM t",
    "SELECT CASE WHEN x > 0 THEN 'a' ELSE 'b' END FROM t");
   ("select square(x)",
    "select POWER(x, 2)")]%string.

Example rewriter_tests_pass : forallb (λ p, bool_decide (Rewrite 4 p.1 = Some p.2)) rewriter_tests = true.
Proof. vm_compute. reflexivity. Qed.

(** The rules do not look at quotes, so that data is rewritten too; and they paste
    arguments without parentheses around them. *)
Example rewriting_data :
  Rewrite 4 "INSERT INTO t VALUES ('key:value')" = Some "INSERT INTO t VALUES ('key->>'value'')"%string ∧
  Rewrite 4 "PUT file:///tmp/data[0].csv @s" = Some "/* MINIFLAKE_PUT PUT file:///tmp/data->>0.csv @s */"%string.
Proof. vm_compute. split; reflexivity. Qed.

Example rewriting_precedence :
  Rewrite 4 "SELECT DIV0(a + b, c)" = Some "SELECT CASE WHEN c = 0 THEN 0 ELSE a + b / c END"%string.
Proof. vm_compute. reflexivity. Qed.
