(* ===== verification/Calls.v ===== *)
(** * Calls inside calls

    What the loop of [replaceFuncCall] makes of a text whose calls are well formed and
    nested to any depth: for each rule that puts the arguments of a call, as they are,
    between fixed texts, the loop is the translation by recursion on the structure of
    the text, and its turns are counted exactly, also when a rule repeats an argument. *)

From S2P Require Import Prelude GoStrings Regexp Rewriter RewriterSpec.
From Stdlib Require Import Ascii.
#[local] Set Warnings "-register-all".

(** ** Replacements as templates *)

Inductive Part : Type := TL (s : string) | TA (n : nat).

Definition part_text (xs : list string) (t : Part) : string := match t with TL s => s | TA n => nth n xs "" end.
Definition fill (ts : list Part) (xs : list string) : string := foldr (λ t s, part_text xs t +:+ s) "" ts.

(** A template and what comes before it and after it do not make up the name: literals
    do not have it, no argument follows a word byte, and no word byte follows one;
    [w] tells whether a word byte may come before. *)
Fixpoint seams (name : string) (w : bool) (ts : list Part) : bool :=
  match ts with
  | [] => true
  | TL s :: ts =>
      negb (bool_decide (s = "")) && negb (w && head_side s) && (occ name None s =? 0) && seams name (word_side (last_byte None s)) ts
  | TA _ :: ts => negb w && seams name true ts
  end.

(** Arguments from the [k]-th on, with commas before them. *)
Fixpoint comma_parts (k m : nat) : list Part :=
  match m with O => [] | S m => TL ", " :: TA k :: comma_parts (S k) m end.
(** All arguments between two brackets. *)
Definition bracketed (opening closing : string) (n : nat) : list Part :=
  TL opening :: match n with O => [] | S n => TA 0 :: comma_parts 1 n end ++ [TL closing].

Definition case2 (cond : string) : list Part :=
  [TL "CASE WHEN "; TA 0; TL cond; TA 1; TL " ELSE "; TA 2; TL " END"].
Definition cast_parts (ty : string) : list Part := [TL "CAST("; TA 0; TL (" AS " +:+ ty +:+ ")")].

Record Rewriting := mkRewriting {
  rw_name : string;
  rw_call : list string → string;
  rw_least : nat;                     (* the arguments that it needs *)
  rw_parts : nat → list Part;         (* by the number of arguments *)
}.

(** The rules that put arguments between texts. *)
Definition rewritings : list Rewriting :=
  [mkRewriting "IFF" iff_call 3 (λ _, case2 " THEN ");
   mkRewriting "NVL2" nvl2_call 3 (λ _, case2 " IS NOT NULL THEN ");
   mkRewriting "NVL" nvl_call 1 (bracketed "COALESCE(" ")");
   mkRewriting "DIV0NULL" div0null_call 2
     (λ _, [TL "CASE WHEN COALESCE("; TA 1; TL ", 0) = 0 THEN 0 ELSE "; TA 0; TL " / "; TA 1; TL " END"]);
   mkRewriting "DIV0" div0_call 2 (λ _, [TL "CASE WHEN "; TA 1; TL " = 0 THEN 0 ELSE "; TA 0; TL " / "; TA 1; TL " END"]);
   mkRewriting "SQUARE" square_call 1 (λ _, [TL "POWER("; TA 0; TL ", 2)"]);
   mkRewriting "ARRAY_CONSTRUCT" array_construct_call 1 (bracketed "[" "]");
   mkRewriting "ARRAY_SIZE" array_size_call 1 (λ _, [TL "len("; TA 0; TL ")"]);
   mkRewriting "PARSE_JSON" parse_json_call 1 (λ _, [TA 0; TL "::JSON"]);
   mkRewriting "REGEXP_LIKE" regexp_like_call 1 (bracketed "regexp_full_match(" ")");
   mkRewriting "LISTAGG" listagg_call 1 (bracketed "STRING_AGG(" ")");
   mkRewriting "STRTOK_TO_ARRAY" strtok_call 1 (bracketed "STRING_SPLIT(" ")");
   mkRewriting "TO_VARCHAR" (cast_call "TO_VARCHAR" "VARCHAR") 1 (λ _, cast_parts "VARCHAR");
   mkRewriting "TO_CHAR" (cast_call "TO_CHAR" "VARCHAR") 1 (λ _, cast_parts "VARCHAR");
   mkRewriting "TO_DATE" (cast_call "TO_DATE" "DATE") 1 (λ _, cast_parts "DATE");
   mkRewriting "TO_TIMESTAMP" (cast_call "TO_TIMESTAMP" "TIMESTAMP") 1 (λ _, cast_parts "TIMESTAMP")].

(** ** Texts with calls *)

(** A call has the word as it is written, white space, and its arguments, each with the
    white space before it. *)
Inductive Item : Type :=
  | Txt (s : string)
  | Call (word ws : string) (args : list (string * list Item)).

Definition texts (f : Item → string) (l : list Item) : string := foldr (λ i s, f i +:+ s) "" l.

Fixpoint source (i : Item) : string :=
  match i with
  | Txt s => s
  | Call word ws args =>
      word +:+ ws +:+ String "(" (Join "," (map (λ a, a.1 +:+ foldr (λ i s, source i +:+ s) "" a.2) args) +:+ ")")
  end.

Section rewriting.
Context (r : Rewriting).

(** The translation: the parts of the call with the translations of the arguments. *)
Fixpoint result (i : Item) : string :=
  match i with
  | Txt s => s
  | Call _ _ args => fill (rw_parts r (length args)) (map (λ a, foldr (λ i s, result i +:+ s) "" a.2) args)
  end.

(** The turns of the loop: one for the call, and those of an argument as often as the
    rule puts it. *)
Definition part_turns (xs : list nat) (t : Part) : nat := match t with TL _ => 0 | TA n => nth n xs 0 end.
Fixpoint turns (i : Item) : nat :=
  match i with
  | Txt _ => 0
  | Call _ _ args =>
      S (sum_list_with (part_turns (map (λ a, sum_list_with turns a.2) args)) (rw_parts r (length args)))
  end.

(** Items that can stand side by side; [w]: a word byte may come before them. *)
Fixpoint joined (w : bool) (l : list Item) : bool :=
  match l with
  | [] => true
  | Txt s :: l => negb (w && head_side s) && joined (word_side (last_byte None s)) l
  | Call _ _ _ :: l => negb w && joined true l
  end.

(** Other text without the name, and calls of the name, in either case, with enough
    arguments, whose quotes and parentheses are balanced. *)
Inductive well_formed : Item → Prop :=
  | wf_txt s : s ≠ "" → occ (rw_name r) None s = 0 → well_formed (Txt s)
  | wf_call word ws args : EqualFold word (rw_name r) = true → every re_space ws = true →
      rw_least r ≤ length args → args ≠ [] →
      Forall (λ a, every is_space a.1 = true ∧ joined false a.2 = true ∧ texts source a.2 ≠ "" ∧
        TrimSpace (texts source a.2) = texts source a.2 ∧ text true (a.1 +:+ texts source a.2) ∧
        Forall well_formed a.2) args →
      well_formed (Call word ws args).
End rewriting.

(** ** The templates *)

Lemma fill_app ts ts' xs : fill (ts ++ ts') xs = fill ts xs +:+ fill ts' xs.
Proof. induction ts as [|t ts IH]; [done|]. cbn [app fill foldr]. unfold fill in IH. by rewrite IH, string_app_assoc. Qed.

Lemma fill_commas xs ys : fill (comma_parts (length xs) (length ys)) (xs ++ ys) = foldr (λ y s, ", " +:+ y +:+ s) "" ys.
Proof.
  revert xs. induction ys as [|y ys IH]; intros xs; [done|]. specialize (IH (xs ++ [y])).
  rewrite length_app, <- app_assoc in IH. cbn [length app] in IH. rewrite Nat.add_1_r in IH.
  cbn [length comma_parts fill foldr part_text]. unfold fill in IH. rewrite IH. by rewrite app_nth2, Nat.sub_diag by lia.
Qed.
Lemma Join_commas x xs : Join ", " (x :: xs) = x +:+ foldr (λ y s, ", " +:+ y +:+ s) "" xs.
Proof.
  revert x. induction xs as [|y xs IH]; intros x; [by rewrite string_app_nil_r|].
  change (Join ", " (x :: y :: xs)) with (x +:+ ", " +:+ Join ", " (y :: xs)). by rewrite IH.
Qed.
Lemma fill_bracketed opening closing xs : xs ≠ [] → fill (bracketed opening closing (length xs)) xs = opening +:+ commas xs +:+ closing.
Proof.
  destruct xs as [|x xs]; [done|]. intros _. cbn [length bracketed]. unfold bracketed. cbn [app fill foldr part_text].
  pose proof (fill_app (comma_parts 1 (length xs)) [TL closing] (x :: xs)) as E. unfold fill in E at 1. cbn [foldr] in E |- *.
  rewrite E. pose proof (fill_commas [x] xs) as E2. cbn [length app] in E2. rewrite E2. unfold commas. rewrite Join_commas.
  cbn [fill foldr part_text nth]. by rewrite string_app_nil_r, !string_app_assoc.
Qed.

Lemma seams_commas name opening closing n : seams name false [TL opening; TA 0; TL ", "; TA 1; TL closing] = true →
  seams name false (bracketed opening closing (S n)) = true.
Proof.
  cbn [bracketed]. unfold bracketed. cbn [app seams]. rewrite !andb_true_iff.
  intros (H1 & Hw & H2 & _ & H3). split; [done|]. split; [done|]. generalize 1. clear H1 Hw.
  induction n as [|n IH]; intros k; cbn [comma_parts app seams]; rewrite ?andb_true_iff; [done|]. split; [done|]. split; [done|apply IH].
Qed.

(** What the loop needs of a rule. *)
Record template_ok (r : Rewriting) : Prop := {
  t_name : call_name (rw_name r);
  t_least : 1 ≤ rw_least r;
  t_fill : ∀ xs, rw_least r ≤ length xs → rw_call r xs = fill (rw_parts r (length xs)) xs;
  t_seams : ∀ n, rw_least r ≤ n → seams (rw_name r) false (rw_parts r n) = true;
}.

Ltac known_name := apply function_names_ok; by apply (bool_decide_unpack _).
Ltac by_arity := intros xs Hx; cbn [rw_least rw_call rw_parts] in *;
  first [ etransitivity; [apply decide_False; by apply Nat.le_ngt|reflexivity]
        | rewrite fill_bracketed by (by destruct xs; [cbn in Hx; lia|]); reflexivity ].
Ltac by_seams := intros n Hn; cbn [rw_least rw_name rw_parts] in *;
  first [ vm_compute; reflexivity | destruct n as [|n]; [lia|]; apply seams_commas; vm_compute; reflexivity ].

Lemma rewritings_ok r : r ∈ rewritings → template_ok r.
Proof.
  revert r. apply Forall_forall. unfold rewritings.
  repeat (apply Forall_cons; split; [split; [known_name|cbn; lia|by_arity|by_seams]|]). apply Forall_nil_2.
Qed.

(** ** No call where the name is not *)

Lemma site_starts name b s : call_site name b s → word_side b = false ∧ starts_fold name s = true.
Proof.
  intros [Hb (word & ws & u & -> & Hf & _)]. split; [done|]. unfold starts_fold. generalize (ws +:+ String "(" u). clear Hb.
  apply bool_decide_eq_true in Hf. revert word Hf. induction name as [|c n IH]; intros [|d w] Hf t; try done.
  cbn in Hf. injection Hf as Hd Hf. change (String d w +:+ t) with (String d (w +:+ t)). cbn [TrimPrefixFold].
  rewrite decide_True by done. by apply IH.
Qed.

Section quiet.
Context (name : string) (Hw : every is_word name = true) (Hne : name ≠ "").

Lemma occ_here b a x : word_side (last_byte b a) = false → x ≠ "" → starts_fold name x = true → 1 ≤ occ name b (a +:+ x).
Proof.
  revert b. induction a as [|c a IH]; intros b Hb Hx Hs.
  - destruct x as [|d x]; [done|]. cbn in Hb. change ("" +:+ String d x) with (String d x). cbn [occ]. rewrite Hb, Hs. cbn. lia.
  - change (String c a +:+ x) with (String c (a +:+ x)). cbn [occ last_byte] in *. specialize (IH (Some c) Hb Hx Hs). lia.
Qed.

(** Where the name does not occur, no call begins. *)
Lemma quiet_before pre v a t : occ name None pre = 0 → word_side (last_byte None pre) = false → pre +:+ v = a +:+ t →
  String.length a < String.length pre → ¬ call_site name (last_byte None a) t.
Proof.
  intros Hq Hl E Hlen Hc. symmetry in E. destruct (append_split_short a t pre v E Hlen) as (x & Hx & -> & ->).
  apply site_starts in Hc as [Hb Hs]. destruct x as [|c x]; [done|].
  rewrite starts_fold_app in Hs; [|done|]. 2: { left. by rewrite last_byte_app in Hl. }
  pose proof (occ_here None a (String c x) Hb Hx Hs). lia.
Qed.
Lemma quiet_everywhere pre a t : occ name None pre = 0 → pre = a +:+ t → ¬ call_site name (last_byte None a) t.
Proof.
  intros Hq -> Hc. apply site_starts in Hc as [Hb Hs]. assert (Ht : t ≠ "") by (intros ->; by destruct name).
  pose proof (occ_here None a t Hb Ht Hs). lia.
Qed.
End quiet.

Lemma quiet_done name pre : call_name name → occ name None pre = 0 → findFuncCall pre name = None.
Proof.
  intros Hn Hq. destruct (findFuncCall pre name) as [[[a args] post]|] eqn:E; [|done]. exfalso.
  apply find_call_iff in E as (word & ws & segs & Es & Hf & Hs & Hb & _); [|done].
  apply (quiet_everywhere name (name_word _ Hn) (name_some _ Hn) pre a _ Hq Es). split; [done|]. by eexists word, ws, _.
Qed.

(** ** Side by side *)

Lemma texts_app f l l' : texts f (l ++ l') = texts f l +:+ texts f l'.
Proof. induction l as [|i l IH]; [done|]. cbn [app texts foldr]. unfold texts in IH. by rewrite IH, string_app_assoc. Qed.

Lemma joined_mono l : joined true l = true → joined false l = true.
Proof. destruct l as [|[s|word ws args] l]; [done| |done]. cbn. by intros [_ ->]%andb_true_iff. Qed.
Lemma joined_any w l : joined true l = true → joined w l = true.
Proof. destruct w; [done|apply joined_mono]. Qed.
Lemma joined_app w l l' : joined w l = true → joined true l' = true → joined w (l ++ l') = true.
Proof.
  revert w. induction l as [|[s|word ws args] l IH]; intros w; cbn [joined app]; [intros _; apply joined_any| |];
    intros [-> H]%andb_true_iff H'; by apply IH.
Qed.

(** The items of a template, with those of the arguments in their places. *)
Definition part_items (xs : list (list Item)) (t : Part) : list Item := match t with TL s => [Txt s] | TA n => nth n xs [] end.
Definition inline (ts : list Part) (xs : list (list Item)) : list Item := foldr (λ t l, part_items xs t ++ l) [] ts.

Lemma inline_texts f g ts xs : (∀ s, f (Txt s) = s) → g = texts f → texts f (inline ts xs) = fill ts (map g xs).
Proof.
  intros Hf ->. induction ts as [|t ts IH]; [done|]. cbn [inline fill foldr]. rewrite texts_app. unfold inline, fill in IH. rewrite IH. f_equal.
  destruct t as [s|n]; cbn [part_items part_text]; [by cbn; rewrite Hf, string_app_nil_r|]. symmetry. exact (map_nth (texts f) xs [] n).
Qed.
Lemma inline_turns r ts xs : sum_list_with (turns r) (inline ts xs) = sum_list_with (part_turns (map (sum_list_with (turns r)) xs)) ts.
Proof.
  induction ts as [|t ts IH]; [done|]. cbn [inline foldr]. rewrite sum_list_with_app. unfold inline in IH. rewrite IH. cbn [sum_list_with]. f_equal.
  destruct t as [s|n]; cbn [part_items part_turns]; [done|]. symmetry. exact (map_nth (sum_list_with (turns r)) xs [] n).
Qed.
Lemma inline_joined name w ts xs : seams name w ts = true → Forall (λ l, joined false l = true) xs → joined w (inline ts xs) = true.
Proof.
  revert w. induction ts as [|t ts IH]; intros w Hs Hxs; [done|]. destruct t as [s|n]; cbn [seams inline foldr part_items app] in *.
  - cbn [joined]. apply andb_true_iff in Hs as [[[_ Hw]%andb_true_iff _]%andb_true_iff Hs]. rewrite Hw. by apply IH.
  - apply andb_true_iff in Hs as [Hw Hs]. apply joined_app; [|by apply IH]. destruct w; [done|].
    destruct (nth_in_or_default n xs []) as [Hin| ->]; [|done].
    apply (proj1 (Forall_forall _ _) Hxs). by apply list_elem_of_In.
Qed.
Lemma inline_fine r ts xs name w : seams name w ts = true → name = rw_name r → Forall (Forall (well_formed r)) xs →
  Forall (well_formed r) (inline ts xs).
Proof.
  intros Hs -> Hxs. revert w Hs. induction ts as [|t ts IH]; intros w Hs; [constructor|].
  destruct t as [s|n]; cbn [seams inline foldr part_items app] in *.
  - apply andb_true_iff in Hs as [[[Hne _]%andb_true_iff Ho]%andb_true_iff Hs].
    constructor; [|by eapply IH]. constructor; [by apply negb_true_iff, bool_decide_eq_false in Hne|by apply Nat.eqb_eq].
  - apply andb_true_iff in Hs as [_ Hs]. apply Forall_app. split; [|by eapply IH].
    destruct (nth_in_or_default n xs []) as [Hin| ->]; [|constructor].
    apply (proj1 (Forall_forall _ _) Hxs). by apply list_elem_of_In.
Qed.

(** ** The loop *)

Section loop.
Context (r : Rewriting) (Hr : template_ok r).
Let Hn : call_name (rw_name r) := t_name r Hr.
Let Hword : every is_word (rw_name r) = true := name_word _ Hn.
Let Hsome : rw_name r ≠ "" := name_some _ Hn.

Lemma spaced_arguments segs : Forall (λ a, TrimSpace a ≠ "") segs → arguments segs = map TrimSpace segs.
Proof.
  induction 1 as [|a segs Ha Hs IH]; [done|]. destruct segs as [|b segs]; [cbn; by rewrite decide_False|].
  change (arguments (a :: b :: segs)) with (TrimSpace a :: arguments (b :: segs)). by rewrite IH.
Qed.

(** The first call that is found is the first item that is one. *)
Lemma call_found pre word ws args l : occ (rw_name r) None pre = 0 → word_side (last_byte None pre) = false → well_formed r (Call word ws args) →
  findFuncCall (pre +:+ texts source (Call word ws args :: l)) (rw_name r) = Some (pre, map (λ a, texts source a.2) args, texts source l).
Proof.
  intros Hq Hl Hwf. inversion Hwf as [|? ? ? Hf Hs Hlen Hne Hargs]; subst. apply find_call_iff; [exact Hn|].
  exists word, ws, (map (λ a : string * list Item, a.1 +:+ texts source a.2) args).
  split; [cbn [texts foldr source]; by rewrite !string_app_assoc; cbn [String.append]; rewrite string_app_assoc|].
  split; [done|]. split; [done|]. split; [done|]. split; [by destruct args|]. split_all.
  - apply Forall_map. eapply Forall_impl; [exact Hargs|]. intros a Ha. apply Ha.
  - rewrite spaced_arguments, map_map.
    + apply map_ext_Forall. eapply Forall_impl; [exact Hargs|]. intros a (Hsp & _ & _ & Ht & _).
      rewrite <- Ht at 2. by rewrite TrimSpace_again.
    + apply Forall_map. eapply Forall_impl; [exact Hargs|]. intros a (Hsp & _ & Hnz & Ht & _). cbn.
      rewrite <- Ht. by rewrite TrimSpace_again, Ht.
  - intros a t E Hlt. exact (quiet_before (rw_name r) Hword pre _ a t Hq Hl E Hlt).
Qed.

Lemma loop_translates n l : sum_list_with (turns r) l = n → ∀ pre, occ (rw_name r) None pre = 0 →
  joined (word_side (last_byte None pre)) l = true → Forall (well_formed r) l → ∀ fuel,
  replaceFuncCall fuel (pre +:+ texts source l) (rw_name r) (rw_call r) =
    if (fuel <? n)%nat then None else Some (pre +:+ texts (result r) l).
Proof.
  revert l. induction n as [n IHn] using lt_wf_ind. intros l. induction l as [|i l IHl]; intros Hsum pre Hq Hj Hwf fuel.
  - subst n. change (texts source []) with ""%string. change (texts (result r) []) with ""%string. rewrite string_app_nil_r.
    destruct fuel; cbn [replaceFuncCall]; by rewrite quiet_done by done.
  - apply Forall_cons in Hwf as [Hi Hwf]. destruct i as [s|word ws args]; cbn [joined] in Hj; apply andb_true_iff in Hj as [Hs Hj].
    + inversion Hi as [? Hsne Hso|]; subst.
      assert (Hq' : occ (rw_name r) None (pre +:+ s) = 0).
      { rewrite occ_app; [|done..|].
        - pose proof (occ_le (rw_name r) (last_byte None pre) s). lia.
        - apply negb_true_iff, andb_false_iff in Hs as [Hs|Hs]; [by left|by right]. }
      change (texts source (Txt s :: l)) with (s +:+ texts source l).
      change (texts (result r) (Txt s :: l)) with (s +:+ texts (result r) l). rewrite <- !string_app_assoc.
      apply IHl; [done|done| |done]. rewrite last_byte_app. by rewrite (last_byte_nonempty_any _ None).
    + apply negb_true_iff in Hs. pose proof (call_found pre word ws args l Hq Hs Hi) as Hcall.
      inversion Hi as [|? ? ? Hf Hsp Hlen Hne Hargs]; subst.
      set (new := inline (rw_parts r (length args)) (map snd args)).
      assert (Ht : turns r (Call word ws args) = S (sum_list_with (turns r) new)).
      { unfold new. rewrite inline_turns, map_map. reflexivity. }
      assert (Hfuel : ∀ fuel, replaceFuncCall fuel (pre +:+ texts source (new ++ l)) (rw_name r) (rw_call r) =
        if (fuel <? sum_list_with (turns r) (new ++ l))%nat then None else Some (pre +:+ texts (result r) (new ++ l))).
      { apply (IHn (sum_list_with (turns r) (new ++ l))); [|done|done| |].
        - rewrite sum_list_with_app. cbn [sum_list_with]. rewrite Ht. lia.
        - rewrite Hs. apply joined_app; [|done]. eapply inline_joined; [by apply (t_seams r Hr)|].
          apply Forall_map. eapply Forall_impl; [exact Hargs|]. intros a Ha. apply Ha.
        - apply Forall_app. split; [|done]. eapply inline_fine; [by apply (t_seams r Hr)|done|].
          apply Forall_map. eapply Forall_impl; [exact Hargs|]. intros a Ha. apply Ha. }
      assert (Hsrc : rw_call r (map (λ a, texts source a.2) args) = texts source new).
      { unfold new. rewrite (inline_texts source (texts source)), map_map by done. rewrite (t_fill r Hr), length_map by (by rewrite length_map). done. }
      assert (Hres : texts (result r) new = result r (Call word ws args)).
      { unfold new. rewrite (inline_texts (result r) (texts (result r))), map_map by done. done. }
      rewrite !texts_app, sum_list_with_app in Hfuel.
      destruct fuel as [|fuel]; cbn [replaceFuncCall]; rewrite Hcall; cbn [sum_list_with]; rewrite Ht; [done|].
      rewrite Hsrc, Hfuel. change (texts (result r) (Call word ws args :: l)) with (result r (Call word ws args) +:+ texts (result r) l).
      by rewrite Hres.
Qed.
End loop.

(** C4: The rewriter's loop over the calls of a function is the translation by recursion
    on the structure: for each of these rules, DIV0 and DIV0NULL included, which put an
    argument twice, a text with calls in calls to any depth, in any case and with white
    space between, becomes the text in which every call is replaced by its template
    with its arguments translated; and the loop takes exactly as many turns as the
    structure says, one for a call and those of each argument as often as the template
    has it. *)
Theorem calls_translated r l fuel : r ∈ rewritings → joined false l = true → Forall (well_formed r) l →
  replaceFuncCall fuel (texts source l) (rw_name r) (rw_call r) =
    if (fuel <? sum_list_with (turns r) l)%nat then None else Some (texts (result r) l).
Proof. intros Hr%rewritings_ok Hj Hwf. exact (loop_translates r Hr _ l eq_refl "" eq_refl Hj Hwf fuel). Qed.

(** ** A call in a call *)

Definition div0_rule : Rewriting :=
  mkRewriting "DIV0" div0_call 2 (λ _, [TL "CASE WHEN "; TA 1; TL " = 0 THEN 0 ELSE "; TA 0; TL " / "; TA 1; TL " END"]).
Definition nested_div0 : list Item :=
  [Txt "SELECT "; Call "DIV0" "" [("", [Txt "a"]); (" ", [Call "div0" " " [("", [Txt "b"]); (" ", [Txt "c"])]])]; Txt " FROM t"]%string.

Example nested_div0_text : texts source nested_div0 = "SELECT DIV0(a, div0 (b, c)) FROM t"%string ∧
  sum_list_with (turns div0_rule) nested_div0 = 3.
Proof. vm_compute. split; reflexivity. Qed.

Ltac plain_text := repeat first
  [ apply text_nil
  | match goal with |- text _ (String "(" _) => fail 2 | _ => apply text_char; [by apply (bool_decide_unpack _)|] end ].

Lemma calls_translated_witness : replaceFuncCall 3 "SELECT DIV0(a, div0 (b, c)) FROM t" "DIV0" div0_call =
  Some "SELECT CASE WHEN CASE WHEN c = 0 THEN 0 ELSE b / c END = 0 THEN 0 ELSE a / CASE WHEN c = 0 THEN 0 ELSE b / c END END FROM t"%string ∧
  replaceFuncCall 2 "SELECT DIV0(a, div0 (b, c)) FROM t" "DIV0" div0_call = None.
Proof.
  assert (Hin : div0_rule ∈ rewritings) by (do 4 apply list_elem_of_further; apply list_elem_of_here).
  assert (Htxt : ∀ s, s ≠ "" → occ "DIV0" None s = 0 → well_formed div0_rule (Txt s)) by (intros s H1 H2; by apply wf_txt).
  assert (Hinner : well_formed div0_rule (Call "div0" " " [("", [Txt "b"]); (" ", [Txt "c"])]%string)).
  { apply wf_call; [reflexivity|reflexivity|cbn; lia|done|]. repeat apply Forall_cons_2; [| |apply Forall_nil_2];
      (split; [reflexivity|split; [reflexivity|split; [discriminate|split; [reflexivity|split; [vm_compute; plain_text|]]]]]);
      repeat constructor; discriminate. }
  assert (Hwf : Forall (well_formed div0_rule) nested_div0).
  { repeat apply Forall_cons_2; [by apply Htxt| |by apply Htxt|apply Forall_nil_2].
    apply wf_call; [reflexivity|reflexivity|cbn; lia|done|]. repeat apply Forall_cons_2; [| |apply Forall_nil_2];
      (split; [reflexivity|split; [reflexivity|split; [discriminate|split; [reflexivity|split]]]]).
    - vm_compute. plain_text.
    - repeat constructor. discriminate.
    - vm_compute. do 6 (apply text_char; [by apply (bool_decide_unpack _)|]). apply (text_paren true "b, c" ""); [|apply text_nil].
      apply text_char; [by apply (bool_decide_unpack _)|]. apply text_comma. plain_text.
    - apply Forall_cons_2; [exact Hinner|apply Forall_nil_2]. }
  split; [exact (calls_translated div0_rule nested_div0 3 Hin eq_refl Hwf)|exact (calls_translated div0_rule nested_div0 2 Hin eq_refl Hwf)].
Defined.
