(* ===== verification/Udf.v ===== *)
(** * User-defined functions ([internal/udf/udf.go])

    Functions are registered under a key that holds their argument types, so that
    a name can have several overloads.  [Register] stores the caller's pointer; it
    is a value here, since no caller keeps it.  The running of Python, the JSON
    encoding and the text of other values ([%v]) are parameters. *)

From S2P Require Import Prelude GoStrings GoTime.
From Stdlib Require Import Ascii.

Definition UDFLanguage : Type := string.
Definition LangSQL : UDFLanguage := "SQL".
Definition LangJavaScript : UDFLanguage := "JAVASCRIPT".
Definition LangPython : UDFLanguage := "PYTHON".

Record UDFArg := mkArg { a_Name : string; a_Type : string }.

Record UDF := mkUDF {
  Name : string;
  Database : string;
  Schema : string;
  Language : UDFLanguage;
  Args : list UDFArg;
  ReturnType : string;
  Body : string;
  IsProc : bool;
  CreatedAt : Z;
}.

Record Registry := mkRegistry { udfs : gmap string UDF }.

Definition NewRegistry : Registry := mkRegistry ∅.
Definition Reset : GoM Registry unit := put NewRegistry.

(** The part of a key before the argument types. *)
Definition key_prefix (db schema name : string) : string :=
  dotted (ToUpper db) (ToUpper schema) (ToUpper name +:+ "(").
Definition makeKey (db schema name : string) (argTypes : list string) : string :=
  key_prefix db schema name +:+ ToUpper (Join "," argTypes) +:+ ")".
Definition makeKeyFromUDF (u : UDF) : string :=
  makeKey (Database u) (Schema u) (Name u) (a_Type <$> Args u).

Definition set_CreatedAt (t : Z) (u : UDF) : UDF :=
  mkUDF (Name u) (Database u) (Schema u) (Language u) (Args u) (ReturnType u) (Body u) (IsProc u) t.

Definition Register (now : Z) (u : UDF) : GoM Registry unit :=
  if decide (Name u = "") then fail "udf: name is required"
  else
    let u := if IsZero (CreatedAt u) then set_CreatedAt now u else u in
    let key := makeKeyFromUDF u in
    let! r := get in
    match udfs r !! key with
    | Some _ => fail ("udf: '" +:+ key +:+ "' already exists")
    | None => put (mkRegistry (<[key := u]> (udfs r)))
    end.

Definition Get (r : Registry) (db schema name : string) (argTypes : list string) : result UDF :=
  let key := makeKey db schema name argTypes in
  match udfs r !! key with
  | None => Err ("udf: '" +:+ key +:+ "' not found")
  | Some u => Ok u
  end.

Definition not_found (db schema name : string) : string :=
  "udf: '" +:+ dotted db schema name +:+ "' not found".

(** The first key of the range over the map that has the prefix is dropped. *)
Definition Drop `{MapRange} (db schema name : string) : GoM Registry unit :=
  let! r := get in
  match list_find (λ kv, HasPrefix kv.1 (key_prefix db schema name) = true) (map_range 0 (udfs r)) with
  | Some (_, (key, _)) => put (mkRegistry (delete key (udfs r)))
  | None => fail (not_found db schema name)
  end.

Definition List_ `{MapRange} (r : Registry) (db schema : string) : list UDF :=
  let prefix := ToUpper db +:+ "." +:+ ToUpper schema +:+ "." in
  '(key, u) ← map_range 0 (udfs r);
  if HasPrefix key prefix then [u] else [].

(** ** Running *)

(** An argument value: a string, nil, or another value with its text and JSON. *)
Inductive Value : Type := VString (s : string) | VNil | VOther (text : string).

Definition replacement (v : Value) : string :=
  match v with
  | VString s => "'" +:+ ReplaceAll s "'" "''" +:+ "'"
  | VNil => "NULL"
  | VOther text => text
  end.

(** Argument names are not empty. *)
Definition ExecuteSQL (u : UDF) (args : gmap string Value) : result string :=
  if decide (Language u ≠ LangSQL) then Err ("udf: expected SQL language, got " +:+ Language u)
  else Ok (foldl (λ body a, ReplaceAll body (a_Name a) (replacement (default VNil (args !! a_Name a))))
             (Body u) (Args u)).

Definition ExecuteJavaScript (u : UDF) (args : gmap string Value) : result Value :=
  if decide (Language u ≠ LangJavaScript) then Err ("udf: expected JAVASCRIPT language, got " +:+ Language u)
  else Err "udf: JavaScript execution not available (goja not linked)".

Section python.
Context {W : Type}.
(** [json.Marshal], the run of a script (its output, and an error), [json.Unmarshal]. *)
Context (marshal : Value → result string).
Context (python : string → W → (string * option string) * W).
Context (unmarshal : string → option Value).

Definition newline : string := String (ascii_of_nat 10) "".

Fixpoint python_setup (args : list UDFArg) (vals : gmap string Value) : result string :=
  match args with
  | [] => Ok ""
  | a :: args =>
      match marshal (default VNil (vals !! a_Name a)) with
      | Err e => Err ("udf python: marshal arg " +:+ a_Name a +:+ ": " +:+ e)
      | Ok json =>
          result_map (λ setup, a_Name a +:+ " = json.loads('" +:+ json +:+ "')" +:+ newline +:+ setup)
            (python_setup args vals)
      end
  end.

Definition python_script (setup body : string) : string :=
  "import json, sys" +:+ newline +:+ setup +:+ newline +:+ "_result = " +:+ body +:+ newline +:+
  "print(json.dumps(_result))" +:+ newline.

Definition ExecutePython (u : UDF) (args : gmap string Value) : W → result Value * W := λ w,
  if decide (Language u ≠ LangPython) then (Err ("udf: expected PYTHON language, got " +:+ Language u), w)
  else match python_setup (Args u) args with
  | Err e => (Err e, w)
  | Ok setup =>
      let '((out, err), w) := python (python_script setup (Body u)) w in
      match err with
      | Some e => (Err ("udf python: execution failed: " +:+ TrimSpace out +:+ ": " +:+ e), w)
      | None => (Ok (default (VString (TrimSpace out)) (unmarshal (TrimSpace out))), w)
      end
  end.
End python.

(** ** Overloads *)

(** Names that can be told apart in a key. *)
Definition plain_name (s : string) : Prop := no_dot s ∧ "("%char ∉ bytes s.
#[export] Instance plain_name_dec s : Decision (plain_name s).
Proof. unfold plain_name. apply _. Defined.

Definition plain_udf (u : UDF) : Prop := plain_name (Database u) ∧ plain_name (Schema u) ∧ plain_name (Name u).

(** The function is named [db.schema.name], up to case. *)
Definition names (db schema name : string) (u : UDF) : Prop :=
  ToUpper (Database u) = ToUpper db ∧ ToUpper (Schema u) = ToUpper schema ∧ ToUpper (Name u) = ToUpper name.
#[export] Instance names_dec db schema name u : Decision (names db schema name u).
Proof. unfold names. apply _. Defined.

Definition wf (r : Registry) : Prop :=
  ∀ key u, udfs r !! key = Some u → key = makeKeyFromUDF u ∧ plain_udf u.

Inductive Op : Type :=
  | ORegister (now : Z) (u : UDF)
  | ODrop (db schema name : string)
  | OReset.

Definition run_op `{MapRange} (op : Op) : GoM Registry unit :=
  match op with
  | ORegister now u => Register now u
  | ODrop db sc n => Drop db sc n
  | OReset => Reset
  end.

Definition valid_op (op : Op) : Prop :=
  match op with ORegister _ u => plain_udf u | _ => True end.

Definition udf_reachable `{MapRange} : Registry → Prop :=
  reachable (λ r, r = NewRegistry) (λ r op r', valid_op op ∧ r' = (run_op op r).2).

Lemma udf_wf `{MapRange} r : udf_reachable r → wf r.
Proof.
  apply (reachable_inv _ _ wf).
  - intros r0 -> key u Hk. cbn in Hk. by rewrite lookup_empty in Hk.
  - intros r0 op r' Hwf [Hv ->]. destruct op as [now u|db sc n|]; cbn [run_op valid_op] in *.
    + unfold Register. case_decide; [done|]. go_unfold. set (u' := if IsZero _ then _ else u).
      assert (Hu : plain_udf u') by (unfold u'; by destruct (IsZero _)).
      destruct (udfs r0 !! makeKeyFromUDF u'); [done|]. intros key x. cbn.
      intros [[<- <-]|[_ ?]]%lookup_insert_Some; [done|eauto].
    + unfold Drop. go_unfold. destruct (list_find _ _) as [[i [key u]]|]; [|done].
      intros k x. cbn. intros [_ ?]%lookup_delete_Some. eauto.
    + intros key u Hk. cbn in Hk. by rewrite lookup_empty in Hk.
Qed.

Lemma paren_ToUpper s : "("%char ∉ bytes s → "("%char ∉ bytes (ToUpper s).
Proof.
  induction s as [|c s IH]; [done|]. cbn. rewrite !not_elem_of_cons. intros [Hc Hs]. split; [|by apply IH].
  intros E. apply Hc. by destruct c as [[] [] [] [] [] [] [] []].
Qed.

(** A key has the prefix of a name exactly when it is an overload of that name. *)
Lemma prefix_names u db sc n : plain_udf u → plain_name db → plain_name sc → plain_name n →
  HasPrefix (makeKeyFromUDF u) (key_prefix db sc n) = true ↔ names db sc n u.
Proof.
  intros ([Hd _] & [Hs _] & [_ Hn]) [Hd' _] [Hs' _] [_ Hn'].
  rewrite HasPrefix_spec. unfold makeKeyFromUDF, makeKey, key_prefix, dotted, names. split.
  - intros (t & E). rewrite !string_app_assoc in E.
    apply dot_split_inj in E as [-> E]; [|auto using no_dot_ToUpper..].
    apply dot_split_inj in E as [-> E]; [|auto using no_dot_ToUpper..].
    apply byte_split_inj in E as [-> _]; [done|by apply paren_ToUpper..].
  - intros (-> & -> & ->). by eexists.
Qed.

(** Dropping a function removes one overload of the name, whichever the range
    over the map meets first, and nothing else; it fails, and changes nothing, when
    there is none. *)
Theorem udf_drop_one `{MapRange} r db sc n : udf_reachable r →
  plain_name db → plain_name sc → plain_name n →
  match Drop db sc n r with
  | (Ok _, r') => ∃ key u, udfs r !! key = Some u ∧ names db sc n u ∧ udfs r' = delete key (udfs r)
  | (Err _, r') => r' = r ∧ ∀ key u, udfs r !! key = Some u → ¬ names db sc n u
  end.
Proof.
  intros Hwf%udf_wf Hd Hs Hn. unfold Drop. go_unfold.
  destruct (list_find _ _) as [[i [key u]]|] eqn:E.
  - apply list_find_Some in E as (Hi & Hp & _). apply list_elem_of_lookup_2, elem_of_map_range in Hi.
    destruct (Hwf key u Hi) as [-> Hu]. exists (makeKeyFromUDF u), u. split_all; [done|by apply prefix_names|done].
  - split; [done|]. intros key u Hk Hnm. apply list_find_None in E. rewrite Forall_forall in E.
    destruct (Hwf key u Hk) as [-> Hu]. apply (E (makeKeyFromUDF u, u)); [by apply elem_of_map_range|].
    cbn. by apply prefix_names.
Qed.

(** A function that was registered is found under any spelling of its names and
    types, and cannot be registered twice. *)
Lemma register_get now u r r' db sc n ts :
  Register now u r = (Ok tt, r') → names db sc n u → ToUpper (Join "," (a_Type <$> Args u)) = ToUpper (Join "," ts) →
  ∃ u', Get r' db sc n ts = Ok u' ∧ Body u' = Body u ∧ is_ok (Register now u r').1 = false.
Proof.
  unfold Register. case_decide; [done|]. go_unfold. set (u' := if IsZero _ then _ else u).
  assert (Hu : Database u' = Database u ∧ Schema u' = Schema u ∧ Name u' = Name u ∧ Args u' = Args u ∧ Body u' = Body u)
    by (unfold u'; by destruct (IsZero _)).
  destruct Hu as (H1 & H2 & H3 & H4 & H5).
  destruct (udfs r !! makeKeyFromUDF u') eqn:E; [done|]. intros [= <-] (Hd & Hs & Hn) Ht.
  exists u'. unfold Get. cbn.
  assert (Ek : makeKey db sc n ts = makeKeyFromUDF u').
  { unfold makeKeyFromUDF, makeKey, key_prefix. by rewrite H1, H2, H3, H4, Ht, Hd, Hs, Hn. }
  rewrite Ek, lookup_insert_eq. done.
Qed.

(** ** Witnesses *)

Definition add_int : UDF :=
  mkUDF "add" "db" "s" LangSQL [mkArg "x" "INT"; mkArg "y" "INT"] "INT" "x + y" false 1.
Definition add_text : UDF := mkUDF "Add" "db" "s" LangSQL [mkArg "x" "TEXT"] "TEXT" "x" false 1.

Definition sample : Registry := (Register 5 add_text (Register 5 add_int NewRegistry).2).2.

Lemma udf_sample_reachable : udf_reachable (H:=key_order) sample.
Proof.
  exists NewRegistry, [ORegister 5 add_int; ORegister 5 add_text]. split; [done|].
  repeat (econstructor; [split; [apply (bool_decide_unpack _); vm_compute; exact I|reflexivity]|]). constructor.
Qed.

Lemma udf_drop_one_witness :
  size (udfs sample) = 2 ∧ ∃ key u, udfs sample !! key = Some u ∧ names "DB" "S" "ADD" u ∧
    udfs (Drop (H:=key_order) "DB" "S" "ADD" sample).2 = delete key (udfs sample).
Proof.
  split; [vm_compute; reflexivity|].
  pose proof (udf_drop_one (H:=key_order) sample "DB" "S" "ADD" udf_sample_reachable
    ltac:(apply (bool_decide_unpack _); vm_compute; exact I) ltac:(apply (bool_decide_unpack _); vm_compute; exact I)
    ltac:(apply (bool_decide_unpack _); vm_compute; exact I)) as H.
  destruct (Drop "DB" "S" "ADD" sample) as [[[]|e] r'] eqn:E; [exact H|vm_compute in E; discriminate].
Defined.

(** Arguments are substituted one after the other as plain text: inside other
    words, and inside the values put in before. *)
Example substitution_overlaps :
  ExecuteSQL (mkUDF "f" "db" "s" LangSQL [mkArg "x" "INT"] "INT" "max(x)" false 1) {["x" := VOther "1"]}
    = Ok "ma1(1)"%string ∧
  ExecuteSQL (mkUDF "f" "db" "s" LangSQL [mkArg "a" "TEXT"; mkArg "b" "TEXT"] "TEXT" "a || b" false 1)
    {["a" := VString "b"; "b" := VString " || x || "]} = Ok "'' || x || '' || ' || x || '"%string.
Proof. vm_compute. split; reflexivity. Qed.
