(* ===== verification/ExtFunc.v ===== *)
(** * External functions ([internal/extfunc/extfunc.go])

    API integrations, the functions that use them, and the call, which sends the
    rows to the integration's address.  JSON and HTTP are library code: their
    functions are parameters, the HTTP client acting on a state [W]. *)

From S2P Require Import Prelude GoStrings.
From Stdlib Require Import Ascii.

Record FuncArg := mkArg { a_Name : string; a_Type : string }.

Record ExternalFunction := mkFunction {
  f_Name : string;
  Database : string;
  Schema : string;
  Args : list FuncArg;
  ReturnType : string;
  f_Integration : string;
  URL : string;
  Headers : gmap string string;
  MaxBatchRows : Z;
  Compression : string;
  f_CreatedAt : Z;
}.

Record APIIntegration := mkIntegration {
  i_Name : string;
  APIProvider : string;
  APIURL : string;
  APIKey : string;
  Enabled : bool;
  i_CreatedAt : Z;
}.

Record FunctionInfo := mkFunctionInfo {
  fi_Name : string;
  fi_Database : string;
  fi_Schema : string;
  fi_ReturnType : string;
  fi_Integration : string;
  fi_CreatedAt : Z;
}.

Record IntegrationInfo := mkIntegrationInfo {
  ii_Name : string;
  ii_Provider : string;
  ii_URL : string;
  ii_Enabled : bool;
  ii_CreatedAt : Z;
}.

Record Manager := mkManager {
  functions : gmap string ExternalFunction;
  integrations : gmap string APIIntegration;
}.

Definition NewManager : Manager := mkManager ∅ ∅.

Definition funcKey (db schema name : string) : string := ToUpper (dotted db schema name).

Definition no_integration (name : string) : string := "integration '" +:+ name +:+ "' does not exist".
Definition no_function (key : string) : string := "function '" +:+ key +:+ "' does not exist".

(** ** Integrations and functions *)

Definition CreateIntegration (now : Z) (name provider url key : string) : GoM Manager unit :=
  if decide (name = "") then fail "integration name cannot be empty"
  else
    let! m := get in
    match integrations m !! name with
    | Some _ => fail ("integration '" +:+ name +:+ "' already exists")
    | None => put (mkManager (functions m)
                     (<[name := mkIntegration name provider url key true now]> (integrations m)))
    end.

Definition DropIntegration (name : string) : GoM Manager unit :=
  let! m := get in
  match integrations m !! name with
  | None => fail (no_integration name)
  | Some _ => put (mkManager (functions m) (delete name (integrations m)))
  end.

Definition CreateFunction (now : Z) (db schema name : string) (args : list FuncArg)
    (returnType integration url : string) : GoM Manager unit :=
  let key := funcKey db schema name in
  let! m := get in
  match functions m !! key with
  | Some _ => fail ("function '" +:+ key +:+ "' already exists")
  | None =>
      match integrations m !! integration with
      | None => fail (no_integration integration)
      | Some _ =>
          put (mkManager
                 (<[key := mkFunction name db schema args returnType integration url ∅ 100 "NONE" now]>
                    (functions m))
                 (integrations m))
      end
  end.

Definition DropFunction (db schema name : string) : GoM Manager unit :=
  let key := funcKey db schema name in
  let! m := get in
  match functions m !! key with
  | None => fail (no_function key)
  | Some _ => put (mkManager (delete key (functions m)) (integrations m))
  end.

Definition ShowFunctions `{MapRange} (m : Manager) (db schema : string) : list FunctionInfo :=
  let prefix := ToUpper (db +:+ "." +:+ schema +:+ ".") in
  '(key, fn) ← map_range 0 (functions m);
  if HasPrefix key prefix
  then [mkFunctionInfo (f_Name fn) (Database fn) (Schema fn) (ReturnType fn) (f_Integration fn) (f_CreatedAt fn)]
  else [].

Definition ShowIntegrations `{MapRange} (m : Manager) : list IntegrationInfo :=
  (λ '(_, i), mkIntegrationInfo (i_Name i) (APIProvider i) (APIURL i) (Enabled i) (i_CreatedAt i))
    <$> map_range 0 (integrations m).

(** ** Calls *)

Record Request := mkRequest { r_URL : string; r_Headers : gmap string string; r_Body : string }.
Record Response := mkResponse { StatusCode : Z; read_body : result string }.

Section call.
Context {W V : Type}.
(** The JSON values: a number, and null. *)
Context (number : nat → V) (null : V).
(** [json.Marshal] of a request, [json.Unmarshal] of a response. *)
Context (marshal : list (list V) → result string) (unmarshal : string → result (list (list V))).
(** [http.NewRequestWithContext]: the error for an address that is not a URL. *)
Context (bad_url : string → option string).
(** The canonical form of a header's name. *)
Context (canonical : string → string).
Context (httpDo : Request → W → result Response * W).

(** Every row behind its number. *)
Definition number_rows (args : list (list V)) : list (list V) := imap (λ i row, number i :: row) args.

Definition set_header (k v : string) (h : gmap string string) : gmap string string := <[canonical k := v]> h.

Definition request_headers (apiKey : string) (headers : gmap string string) : gmap string string :=
  let h := set_header "Content-Type" "application/json" ∅ in
  let h := if decide (apiKey ≠ "") then set_header "sf-custom-api-key" apiKey h else h in
  map_fold set_header h headers.

(** The result of each row, null for a row that is too short. *)
Definition row_values (rows : list (list V)) : list V :=
  (λ row, match row with _ :: v :: _ => v | _ => null end) <$> rows.

Definition Call (db schema name : string) (args : list (list V)) (m : Manager) : W → result (list V) * W := λ w,
  let key := funcKey db schema name in
  match functions m !! key with
  | None => (Err (no_function key), w)
  | Some fn =>
  match integrations m !! f_Integration fn with
  | None => (Err (no_integration (f_Integration fn)), w)
  | Some integration =>
      let fullURL := if decide (URL fn = "") then APIURL integration else URL fn in
      match marshal (number_rows args) with
      | Err e => (Err ("failed to marshal request: " +:+ e), w)
      | Ok body =>
      match bad_url fullURL with
      | Some e => (Err ("failed to create request: " +:+ e), w)
      | None =>
          let req := mkRequest fullURL (request_headers (APIKey integration) (Headers fn)) body in
          let '(r, w) := httpDo req w in
          (match r with
           | Err e => Err ("external function call failed: " +:+ e)
           | Ok resp =>
           match read_body resp with
           | Err e => Err ("failed to read response: " +:+ e)
           | Ok respBody =>
               if decide (StatusCode resp ≠ 200%Z)
               then Err ("external function returned status " +:+ Itoa (StatusCode resp) +:+ ": " +:+ respBody)
               else match unmarshal respBody with
                    | Err e => Err ("failed to unmarshal response: " +:+ e)
                    | Ok rows => Ok (row_values rows)
                    end
           end end, w)
      end end
  end end.

(** What a service that computes [f] answers: for every row its number and the
    result. *)
Definition answers (f : list V → V) (rows : list (list V)) : list (list V) :=
  (λ row, match row with n :: args => [n; f args] | [] => [] end) <$> rows.

Lemma row_values_answers f args : row_values (answers f (number_rows args)) = f <$> args.
Proof.
  unfold row_values, answers, number_rows. rewrite <- !list_fmap_compose, fmap_imap.
  assert (E : ∀ (g : nat → list V → V) (h : list V → V) (l : list (list V)), (∀ i x, g i x = h x) → imap g l = h <$> l).
  { intros g h l. revert g. induction l as [|x l IH]; intros g Hg; [done|]. cbn. rewrite Hg. f_equal.
    apply IH. intros i y. apply Hg. }
  apply E. done.
Qed.

(** Calling an external function gives one result for each row, in order, when
    the service answers the rows that it is sent in order; it sends nothing when the
    function is unknown or its integration has been dropped, and an answer with
    another status is an error. *)
Theorem call_spec m db sc n args w :
  (functions m !! funcKey db sc n = None → Call db sc n args m w = (Err (no_function (funcKey db sc n)), w)) ∧
  (∀ fn m' name, functions m !! funcKey db sc n = Some fn → f_Integration fn = name →
     DropIntegration name m = (Ok tt, m') → Call db sc n args m' w = (Err (no_integration name), w)) ∧
  (∀ fn i body resp w' text f,
     functions m !! funcKey db sc n = Some fn → integrations m !! f_Integration fn = Some i →
     let url := if decide (URL fn = "") then APIURL i else URL fn in
     bad_url url = None → marshal (number_rows args) = Ok body →
     httpDo (mkRequest url (request_headers (APIKey i) (Headers fn)) body) w = (Ok resp, w') →
     read_body resp = Ok text →
     (StatusCode resp = 200%Z → unmarshal text = Ok (answers f (number_rows args)) →
        Call db sc n args m w = (Ok (f <$> args), w')) ∧
     (StatusCode resp ≠ 200%Z → is_ok (Call db sc n args m w).1 = false)).
Proof.
  unfold Call. split_all.
  - by intros ->.
  - intros fn m' name Hfn Hi Hd. unfold DropIntegration in Hd. go_unfold.
    destruct (integrations m !! name); [|done]. injection Hd as <-. cbn. by rewrite Hfn, Hi, lookup_delete_eq.
  - intros fn i body resp w' text f Hfn Hi. cbv zeta. intros Hu Hb Hdo Ht.
    rewrite Hfn, Hi, Hb, Hu, Hdo, Ht. split.
    + intros Hs Hans. rewrite decide_False by (rewrite Hs; auto). by rewrite Hans, row_values_answers.
    + intros Hs. by rewrite decide_True.
Qed.
End call.

(** ** Witness: an echo service that doubles numbers *)

Definition enc (rows : list (list Z)) : result string :=
  Ok (Join ";" ((λ row, Join "," (Itoa <$> row)) <$> rows)).
Definition dec (s : string) : result (list (list Z)) :=
  Ok ((λ row, default 0%Z ∘ Atoi <$> SplitByte ","%char row) <$> SplitByte ";"%char s).
Definition double (row : list Z) : Z := match row with [x] => 2 * x | _ => 0 end%Z.
Definition service (r : Request) (log : list string) : result Response * list string :=
  (Ok (mkResponse 200 (match dec (r_Body r) with Ok rows => enc (answers double rows) | Err e => Err e end)),
   log ++ [r_URL r]).

Definition sample : Manager :=
  (CreateFunction 2 "db" "s" "dbl" [] "INT" "api" ""
     (CreateIntegration 1 "api" "aws_api_gateway" "http://h/dbl" "" NewManager).2).2.

Definition sample_call (rows : list (list Z)) : result (list Z) * list string :=
  Call Z.of_nat 0%Z enc dec (λ _, None) (λ s, s) service "DB" "S" "DBL" rows sample [].

Lemma call_spec_witness : sample_call [[5]; [7]]%Z = (Ok [10; 14]%Z, ["http://h/dbl"]%string).
Proof.
  destruct (call_spec Z.of_nat 0%Z enc dec (λ _, None) (λ s, s) service sample "DB" "S" "DBL" [[5]; [7]]%Z [])
    as (_ & _ & H).
  edestruct (λ fn i body resp w1 text, H fn i body resp w1 text double) as [Hok _]; [vm_compute; reflexivity|vm_compute; reflexivity|reflexivity|reflexivity|reflexivity
    |vm_compute; reflexivity|].
  unfold sample_call. etransitivity; [apply Hok; vm_compute; reflexivity|vm_compute; reflexivity].
Defined.

(** The number in front of a result is not looked at: answers in another order are
    taken for those of other rows. *)
Example results_by_position : row_values 0%Z [[1; 14]; [0; 10]]%Z = [14; 10]%Z.
Proof. reflexivity. Qed.
