(* ===== verification/CopyInto.v ===== *)
(** * COPY INTO ([internal/copyinto/copyinto.go] and [fileformat.go])

    Parsing the statement, file formats, and the two executors, which run one
    statement of the database per staged file.  The database, [os.Stat] and the
    file system are parameters on a state [W]. *)

From S2P Require Import Prelude GoStrings Regexp GoPath Stage.
From Stdlib Require Import Ascii.

Definition Direction : Type := string.
Definition LoadIntoTable : Direction := "LOAD".
Definition UnloadToStage : Direction := "UNLOAD".

Record FileFormat := mkFormat {
  Type_ : string;
  Compression : string;
  FieldDelimiter : string;
  RecordDelimiter : string;
  SkipHeader : Z;
  DateFormat : string;
  TimestampFormat : string;
  NullIf : list string;
  TrimSpace_ : bool;
  ErrorOnColumnCountMismatch : bool;
  StripOuterArray : bool;
}.

Record CopyOptions := mkCopyOptions {
  OnError : string;
  SizeLimit : Z;
  Purge : bool;
  ReturnFailedOnly : bool;
  ForceLoad : bool;
  MaxFileSize : Z;
  SingleFile : bool;
  Overwrite : bool;
}.

Record CopyResult := mkResult {
  File : string;
  Status : string;
  RowsParsed : Z;
  RowsLoaded : Z;
  ErrorsSeen : Z;
  FirstError : string;
  FirstErrorLine : Z;
  FirstErrorCol : string;
}.

(** ** File formats *)

Definition newline : string := String (ascii_of_nat 10) "".

Definition DefaultCSV : FileFormat :=
  mkFormat "CSV" "AUTO" "," newline 0 "AUTO" "AUTO" ["\N"] false true false.
Definition DefaultJSON : FileFormat :=
  mkFormat "JSON" "AUTO" "" newline 0 "AUTO" "AUTO" [] false false false.
Definition DefaultParquet : FileFormat :=
  mkFormat "PARQUET" "AUTO" "" "" 0 "" "" [] false false false.

Definition set_Type (t : string) (f : FileFormat) : FileFormat :=
  mkFormat t (Compression f) (FieldDelimiter f) (RecordDelimiter f) (SkipHeader f) (DateFormat f) (TimestampFormat f)
    (NullIf f) (TrimSpace_ f) (ErrorOnColumnCountMismatch f) (StripOuterArray f).

Definition is_quote (c : ascii) : bool := bool_decide (c = sq) || bool_decide (c = dq).
Definition unquote (v : string) : string := Trim is_quote (TrimSpace v).

(** The format that the [TYPE] option starts from. *)
Definition seed_format (v : string) : FileFormat :=
  let val := ToUpper (unquote v) in
  if decide (val = "CSV") then DefaultCSV
  else if decide (val = "JSON") then DefaultJSON
  else if decide (val = "PARQUET") then DefaultParquet
  else set_Type val DefaultCSV.

Definition parseNullIf (val : string) : list string :=
  let val := TrimSuffix (TrimPrefix (TrimSpace val) "(") ")" in
  unquote <$> SplitByte "," val.

(** One option other than [TYPE] on top of a format. *)
Definition apply_option (f : FileFormat) (k v : string) : FileFormat :=
  let key := ToUpper (TrimSpace k) in
  let val := unquote v in
  let 'mkFormat ty co fd rd sh df tf ni ts ec so := f in
  if decide (key = "TYPE") then f
  else if decide (key = "COMPRESSION") then mkFormat ty (ToUpper val) fd rd sh df tf ni ts ec so
  else if decide (key = "FIELD_DELIMITER") then mkFormat ty co val rd sh df tf ni ts ec so
  else if decide (key = "RECORD_DELIMITER") then mkFormat ty co fd val sh df tf ni ts ec so
  else if decide (key = "SKIP_HEADER") then
    match Atoi val with Some n => mkFormat ty co fd rd n df tf ni ts ec so | None => f end
  else if decide (key = "DATE_FORMAT") then mkFormat ty co fd rd sh val tf ni ts ec so
  else if decide (key = "TIMESTAMP_FORMAT") then mkFormat ty co fd rd sh df val ni ts ec so
  else if decide (key = "NULL_IF") then mkFormat ty co fd rd sh df tf (parseNullIf val) ts ec so
  else if decide (key = "TRIM_SPACE") then mkFormat ty co fd rd sh df tf ni (EqualFold val "TRUE") ec so
  else if decide (key = "ERROR_ON_COLUMN_COUNT_MISMATCH")
  then mkFormat ty co fd rd sh df tf ni ts (EqualFold val "TRUE") so
  else if decide (key = "STRIP_OUTER_ARRAY") then mkFormat ty co fd rd sh df tf ni ts ec (EqualFold val "TRUE")
  else f.

(** The two passes range over the map separately, in any order each. *)
Definition ParseFileFormatOptions `{MapRange} (options : gmap string string) : FileFormat :=
  let ff := match list_find (λ kv, EqualFold (TrimSpace kv.1) "TYPE" = true) (map_range 0 options) with
            | Some (_, (_, v)) => seed_format v
            | None => DefaultCSV
            end in
  foldl (λ f '(k, v), apply_option f k v) ff (map_range 1 options).

(** ** Parsing the statement *)

Definition reCopyLoad : Regexp := regexp "(?i)^\s*COPY\s+INTO\s+(\S+)\s+FROM\s+@(\S+)".
Definition reCopyUnload : Regexp := regexp "(?i)^\s*COPY\s+INTO\s+@(\S+)\s+FROM\s+(\S+)".
Definition reFileFormat : Regexp := regexp "(?i)FILE_FORMAT\s*=\s*\(([^)]+)\)".
Definition rePurge : Regexp := regexp "(?i)\bPURGE\s*=\s*(TRUE|FALSE)\b".
Definition reOnError : Regexp := regexp "(?i)\bON_ERROR\s*=\s*(\S+)".
Definition reOverwrite : Regexp := regexp "(?i)\bOVERWRITE\s*=\s*(TRUE|FALSE)\b".
Definition reSingleFile : Regexp := regexp "(?i)\bSINGLE\s*=\s*(TRUE|FALSE)\b".
Definition reOption : Regexp := regexp "(?i)(\w+)\s*=\s*(?:'([^']*)'|(\S+))".

(** The last value of a key that comes twice counts. *)
Definition parseInlineOptions (raw : string) : gmap string string :=
  foldl (λ result m,
    <[ToUpper (group m 1) := if decide (group m 2 = "") then group m 3 else group m 2]> result)
    ∅ (FindAllStringSubmatch reOption raw).

(** A [KEY = TRUE|FALSE] option. *)
Definition flag_option (r : Regexp) (sql : string) : bool :=
  match FindStringSubmatch r sql with Some m => EqualFold (group m 1) "TRUE" | None => false end.

Definition is_semicolon (c : ascii) : bool := bool_decide (c = ";"%char).

Definition ParseCopyStatement `{MapRange} (sql : string)
    : result (Direction * string * string * FileFormat * CopyOptions) :=
  let sql := trim_right is_semicolon (TrimSpace sql) in
  let target :=
    match FindStringSubmatch reCopyLoad sql with
    | Some m => Some (LoadIntoTable, group m 1, group m 2)
    | None => match FindStringSubmatch reCopyUnload sql with
              | Some m => Some (UnloadToStage, group m 2, group m 1)
              | None => None
              end
    end in
  match target with
  | None => Err ("copyinto: unable to parse COPY INTO statement: " +:+ sql)
  | Some (direction, tableName, stagePath) =>
      let format := match FindStringSubmatch reFileFormat sql with
                    | Some m => ParseFileFormatOptions (parseInlineOptions (group m 1))
                    | None => DefaultCSV
                    end in
      let onError := match FindStringSubmatch reOnError sql with
                     | Some m => ToUpper (group m 1)
                     | None => "ABORT_STATEMENT"
                     end in
      Ok (direction, tableName, stagePath, format,
          mkCopyOptions onError 0 (flag_option rePurge sql) false false 0
            (flag_option reSingleFile sql) (flag_option reOverwrite sql))
  end.

(** ** Statements for the database *)

Definition escapePath (p : string) : string := ReplaceAll p "'" "''".

Definition buildCSVReadOptions (f : FileFormat) : string :=
  let parts := (if decide (FieldDelimiter f ≠ "") then ["delim = '" +:+ FieldDelimiter f +:+ "'"] else [])
               ++ [if decide (SkipHeader f > 0)%Z then "header = true" else "header = false"] in
  ", " +:+ Join ", " parts.

Definition buildLoadSQL (tableName filePath : string) (format : FileFormat) : result string :=
  let ty := ToUpper (Type_ format) in
  if decide (ty = "PARQUET")
  then Ok ("INSERT INTO " +:+ tableName +:+ " SELECT * FROM read_parquet('" +:+ escapePath filePath +:+ "')")
  else if decide (ty = "CSV")
  then Ok ("INSERT INTO " +:+ tableName +:+ " SELECT * FROM read_csv('" +:+ escapePath filePath +:+ "'"
             +:+ buildCSVReadOptions format +:+ ")")
  else if decide (ty = "JSON")
  then Ok ("INSERT INTO " +:+ tableName +:+ " SELECT * FROM read_json_auto('" +:+ escapePath filePath +:+ "')")
  else Err ("unsupported file format: " +:+ Type_ format).

Definition formatExtension (fmtType : string) : string :=
  let ty := ToUpper fmtType in
  if decide (ty = "PARQUET") then ".parquet"
  else if decide (ty = "CSV") then ".csv"
  else if decide (ty = "JSON") then ".json"
  else ".dat".

Definition buildUnloadSQL (tableName filePath : string) (format : FileFormat) : string :=
  let fmtStr := ToUpper (Type_ format) in
  "COPY (SELECT * FROM " +:+ tableName +:+ ") TO '" +:+ escapePath filePath +:+ "' (FORMAT " +:+
  (if decide (fmtStr = "CSV") then "CSV, DELIMITER '" +:+ FieldDelimiter format +:+ "', HEADER" else fmtStr) +:+ ")".

(** ** The executors *)

Definition load_failed (file err : string) : CopyResult := mkResult file "LOAD_FAILED" 0 0 1 err 0 "".
Definition loaded (file : string) (rows : Z) : CopyResult := mkResult file "LOADED" rows rows 0 "" 0 "".

Section executor.
Context {W : Type}.
Context (engineExec : string → W → result Z * W).
Context (osMkdirAll osRemove : string → W → result unit * W).
(** The size that [os.Stat] gives, if any. *)
Context (osStat : string → W → option Z).
Context (walkDir : string → W → list WalkEntry).
Context (fileMD5 : string → W → string).
Context (glob : string → string → result bool).
Context (compile : string → result (string → bool)).

(** One file of a load: its statement is built and run. *)
Definition load_file (tableName : string) (meta : StageMeta) (format : FileFormat) (name : string) (w : W)
    : result Z * W :=
  match buildLoadSQL tableName (PathJoin [LocalPath meta; name]) format with
  | Err e => (Err e, w)
  | Ok loadSQL => engineExec loadSQL w
  end.

(** The files one after the other; an error ends the loop when [ON_ERROR] is
    [ABORT_STATEMENT]. *)
Fixpoint load_files (tableName : string) (meta : StageMeta) (format : FileFormat) (options : CopyOptions)
    (files : list FileInfo) (s : Manager * W) : (list CopyResult * option string) * (Manager * W) :=
  match files with
  | [] => (([], None), s)
  | f :: files =>
      let '(r, w) := load_file tableName meta format (f_Name f) s.2 in
      match r with
      | Err e =>
          if decide (OnError options = "ABORT_STATEMENT")
          then (([load_failed (f_Name f) e], Some e), (s.1, w))
          else
            let '((results, err), s) := load_files tableName meta format options files (s.1, w) in
            ((load_failed (f_Name f) e :: results, err), s)
      | Ok rows =>
          let s := if Purge options then (RemoveMetaFile osRemove meta (f_Name f) (s.1, w)).2 else (s.1, w) in
          let '((results, err), s) := load_files tableName meta format options files s in
          ((loaded (f_Name f) rows :: results, err), s)
      end
  end.

Definition ExecuteLoad (tableName : string) (meta : StageMeta) (subPath : string) (format : FileFormat)
    (options : CopyOptions) (s : Manager * W) : (list CopyResult * option string) * (Manager * W) :=
  match ListMetaFiles walkDir fileMD5 glob compile meta (mkOptions subPath "" "" false) s.2 with
  | Err e => (([], Some ("copyinto: list stage files: " +:+ e)), s)
  | Ok files => load_files tableName meta format options files s
  end.

(** The directory that an unload writes to. *)
Definition unload_dir (meta : StageMeta) (subPath : string) (w : W) : result string * W :=
  if decide (subPath = "") then (Ok (LocalPath meta), w)
  else match ResolveInStage meta subPath with
  | Err e => (Err ("copyinto: " +:+ e), w)
  | Ok resolved =>
      let '(r, w) := osMkdirAll resolved w in
      (match r with Err e => Err ("copyinto: create dest dir: " +:+ e) | Ok _ => Ok resolved end, w)
  end.

Definition unload_file (destDir : string) (format : FileFormat) : string :=
  PathJoin [destDir; "data_0_0_0" +:+ formatExtension (Type_ format)]%string.

Definition ExecuteUnload (tableName : string) (meta : StageMeta) (subPath : string) (format : FileFormat)
    (options : CopyOptions) (w : W) : (list CopyResult * option string) * W :=
  let '(dir, w) := unload_dir meta subPath w in
  match dir with
  | Err e => (([], Some e), w)
  | Ok destDir =>
      let destFile := unload_file destDir format in
      let w := if Overwrite options then (osRemove destFile w).2 else w in
      let '(r, w) := engineExec (buildUnloadSQL tableName destFile format) w in
      match r with
      | Err e => (([load_failed (Base destFile) e], Some e), w)
      | Ok _ =>
          let rowCount := default 0%Z (osStat destFile w) in
          (([loaded (Base destFile) rowCount], None), w)
      end
  end.
End executor.

(** ** Options in any order *)

Definition option_key (k : string) : string := ToUpper (TrimSpace k).

(** No two keys of the map are the same option. *)
Definition distinct_options (options : gmap string string) : Prop :=
  ∀ k k', is_Some (options !! k) → is_Some (options !! k') → option_key k = option_key k' → k = k'.

(** Every field is set by one option. *)
Definition set_by {A} (field : FileFormat → A) (K : string) (g : string → A → A) : Prop :=
  ∀ f k v, field (apply_option f k v) = if decide (option_key k = K) then g (unquote v) (field f) else field f.

Lemma set_by_comm {A} (field : FileFormat → A) K g f k v k' v' : set_by field K g → option_key k ≠ option_key k' →
  field (apply_option (apply_option f k v) k' v') = field (apply_option (apply_option f k' v') k v).
Proof. intros H Hk. rewrite !H. repeat case_decide; congruence. Qed.

Ltac by_option := unfold set_by, apply_option, option_key; intros [] k v;
  generalize (ToUpper (TrimSpace k)); intros x; repeat case_decide; simplify_eq; try reflexivity;
  repeat case_match; simplify_eq; reflexivity.

Lemma Type__by : set_by Type_ "" (λ _ t, t).
Proof. by_option. Qed.
Lemma Compression_by : set_by Compression "COMPRESSION" (λ x _, ToUpper x).
Proof. by_option. Qed.
Lemma FieldDelimiter_by : set_by FieldDelimiter "FIELD_DELIMITER" (λ x _, x).
Proof. by_option. Qed.
Lemma RecordDelimiter_by : set_by RecordDelimiter "RECORD_DELIMITER" (λ x _, x).
Proof. by_option. Qed.
Lemma SkipHeader_by : set_by SkipHeader "SKIP_HEADER" (λ x n, default n (Atoi x)).
Proof. by_option. Qed.
Lemma DateFormat_by : set_by DateFormat "DATE_FORMAT" (λ x _, x).
Proof. by_option. Qed.
Lemma TimestampFormat_by : set_by TimestampFormat "TIMESTAMP_FORMAT" (λ x _, x).
Proof. by_option. Qed.
Lemma NullIf_by : set_by NullIf "NULL_IF" (λ x _, parseNullIf x).
Proof. by_option. Qed.
Lemma TrimSpace__by : set_by TrimSpace_ "TRIM_SPACE" (λ x _, EqualFold x "TRUE").
Proof. by_option. Qed.
Lemma ErrorOnColumnCountMismatch_by : set_by ErrorOnColumnCountMismatch "ERROR_ON_COLUMN_COUNT_MISMATCH" (λ x _, EqualFold x "TRUE").
Proof. by_option. Qed.
Lemma StripOuterArray_by : set_by StripOuterArray "STRIP_OUTER_ARRAY" (λ x _, EqualFold x "TRUE").
Proof. by_option. Qed.

Lemma apply_option_comm f k v k' v' : option_key k ≠ option_key k' →
  apply_option (apply_option f k v) k' v' = apply_option (apply_option f k' v') k v.
Proof.
  intros Hk. generalize (λ A field K g H, @set_by_comm A field K g f k v k' v' H Hk). intros H.
  pose proof (H _ _ _ _ Type__by); pose proof (H _ _ _ _ Compression_by);
  pose proof (H _ _ _ _ FieldDelimiter_by); pose proof (H _ _ _ _ RecordDelimiter_by);
  pose proof (H _ _ _ _ SkipHeader_by); pose proof (H _ _ _ _ DateFormat_by);
  pose proof (H _ _ _ _ TimestampFormat_by); pose proof (H _ _ _ _ NullIf_by);
  pose proof (H _ _ _ _ TrimSpace__by); pose proof (H _ _ _ _ ErrorOnColumnCountMismatch_by);
  pose proof (H _ _ _ _ StripOuterArray_by).
  destruct (apply_option (apply_option f k v) k' v'), (apply_option (apply_option f k' v') k v); cbn in *; congruence.
Qed.

(** The options applied in the order of the list. *)
Definition apply_all (f : FileFormat) (l : list (string * string)) : FileFormat :=
  foldl (λ f '(k, v), apply_option f k v) f l.

Lemma apply_all_permutation f l l' : l ≡ₚ l' → NoDup (option_key ∘ fst <$> l) → apply_all f l = apply_all f l'.
Proof.
  intros Hp. revert f. induction Hp as [|[k v] l l' Hp IH|[k v] [k' v'] l|l1 l2 l3 H1 IH1 H2 IH2]; intros f Hnd; cbn in *.
  - done.
  - apply IH. by apply NoDup_cons in Hnd as [_ ?].
  - rewrite apply_option_comm; [done|]. apply NoDup_cons in Hnd as [Hn _]. intros E. apply Hn, elem_of_cons. left. exact E.
  - rewrite IH1 by done. apply IH2. by rewrite <- H1.
Qed.

Lemma options_NoDup `{MapRange} t options : distinct_options options →
  NoDup (option_key ∘ fst <$> map_range t options).
Proof.
  intros Hd. rewrite list_fmap_compose. apply NoDup_fmap_2_strong; [|apply map_range_NoDup_fst].
  intros k k' Hk Hk' E. apply Hd; [..|done].
  - apply list_elem_of_fmap in Hk as ([? v] & -> & Hk). apply elem_of_map_range in Hk. by eexists.
  - apply list_elem_of_fmap in Hk' as ([? v] & -> & Hk'). apply elem_of_map_range in Hk'. by eexists.
Qed.

Lemma option_key_TYPE k : EqualFold (TrimSpace k) "TYPE" = true ↔ option_key k = "TYPE"%string.
Proof. by rewrite EqualFold_spec. Qed.

(** What the options mean, without an order: the format that the [TYPE] option
    seeds, and every other option on top of it. *)
Definition seed_of (options : gmap string string) (f : FileFormat) : Prop :=
  (∃ k v, options !! k = Some v ∧ option_key k = "TYPE"%string ∧ f = seed_format v) ∨
  ((∀ k v, options !! k = Some v → option_key k ≠ "TYPE"%string) ∧ f = DefaultCSV).

Lemma parse_options_spec `{MapRange} options : distinct_options options →
  ∃ f, seed_of options f ∧ ParseFileFormatOptions options = apply_all f (map_to_list options).
Proof.
  intros Hd. unfold ParseFileFormatOptions.
  assert (Hall : ∀ f, foldl (λ f '(k, v), apply_option f k v) f (map_range 1 options) = apply_all f (map_to_list options)).
  { intros f. apply apply_all_permutation; [apply map_range_perm|by apply options_NoDup]. }
  destruct (list_find _ _) as [[i [k v]]|] eqn:E; eexists; (split; [|apply Hall]).
  - apply list_find_Some in E as (Hi & Ht & _). left. exists k, v. split_all; [|by apply option_key_TYPE|done].
    apply (elem_of_map_range 0). by eapply list_elem_of_lookup_2.
  - right. split; [|done]. intros k v Hk Ht. apply list_find_None in E. rewrite Forall_forall in E.
    apply (E (k, v)); [by apply elem_of_map_range|]. by apply option_key_TYPE.
Qed.

(** The options of a file format mean the same in whatever order Go ranges over
    their map, as long as no option is given under two spellings: the [TYPE] option
    seeds the defaults and every other option is set on top of them, so that none is
    lost. *)
Theorem format_order_independent (MR MR' : MapRange) options : distinct_options options →
  ParseFileFormatOptions (H:=MR) options = ParseFileFormatOptions (H:=MR') options ∧
  ∀ k v, options !! k = Some v →
    (option_key k = "FIELD_DELIMITER"%string → FieldDelimiter (ParseFileFormatOptions (H:=MR) options) = unquote v) ∧
    (option_key k = "NULL_IF"%string → NullIf (ParseFileFormatOptions (H:=MR) options) = parseNullIf (unquote v)) ∧
    (option_key k = "COMPRESSION"%string → Compression (ParseFileFormatOptions (H:=MR) options) = ToUpper (unquote v)) ∧
    (option_key k = "TYPE"%string → Type_ (ParseFileFormatOptions (H:=MR) options) = ToUpper (unquote v)).
Proof.
  intros Hd. destruct (parse_options_spec (H:=MR) options Hd) as (f & Hf & E).
  destruct (parse_options_spec (H:=MR') options Hd) as (f' & Hf' & E'). split.
  { rewrite E, E'. f_equal. destruct Hf as [(k & v & Hk & Ht & ->)|[Hn ->]], Hf' as [(k' & v' & Hk' & Ht' & ->)|[Hn' ->]].
    - assert (k = k') as <- by (apply Hd; [by eexists|by eexists|congruence]). congruence.
    - by destruct (Hn' k v).
    - by destruct (Hn k' v').
    - done. }
  rewrite E. clear E E' f' Hf'.
  assert (Hset : ∀ A (field : FileFormat → A) K g k v, set_by field K g → options !! k = Some v → option_key k = K →
    ∃ a, field (apply_all f (map_to_list options)) = g (unquote v) a).
  { intros A field K g k v Hby Hk HK.
    assert (Hin : (k, v) ∈ map_to_list options) by by apply elem_of_map_to_list.
    apply list_elem_of_split in Hin as (l1 & l2 & El).
    rewrite (apply_all_permutation f (map_to_list options) (l1 ++ l2 ++ [(k, v)])).
    - unfold apply_all. rewrite !foldl_app. cbn. rewrite Hby, decide_True by done. by eexists.
    - rewrite El. apply Permutation_app_head. by rewrite Permutation_cons_append.
    - apply (options_NoDup (H:=key_order) 0 _ Hd). }
  intros k v Hk. split_all; intros HK.
  - by destruct (Hset _ _ _ _ k v FieldDelimiter_by Hk HK).
  - by destruct (Hset _ _ _ _ k v NullIf_by Hk HK).
  - by destruct (Hset _ _ _ _ k v Compression_by Hk HK).
  - assert (Hty : ∀ l, Type_ (apply_all f l) = Type_ f).
    { intros l. clear. revert f. induction l as [|[k v] l IH]; intros f; [done|]. cbn.
      rewrite IH, Type__by. by case_decide. }
    rewrite Hty. destruct Hf as [(k' & v' & Hk' & Ht & ->)|[Hn _]]; [|by destruct (Hn k v)].
    assert (k = k') as <- by (apply Hd; [by eexists|by eexists|congruence]). assert (v = v') as <- by congruence.
    unfold seed_format. repeat (case_decide; [by subst|]). done.
Qed.

(** ** Loading *)

Section load.
Context {W : Type}.
Context (engineExec : string → W → result Z * W).
Context (osRemove : string → W → result unit * W).

Definition is_loaded (r : CopyResult) : bool := bool_decide (Status r = "LOADED").

(** The files whose statements ran, in order, with what became of each. *)
Inductive load_run (tableName : string) (meta : StageMeta) (format : FileFormat) (options : CopyOptions)
    : list FileInfo → Manager * W → list CopyResult → option string → Manager * W → Prop :=
  | load_done s : load_run tableName meta format options [] s [] None s
  | load_abort f files s e w :
      load_file engineExec tableName meta format (f_Name f) s.2 = (Err e, w) →
      OnError options = "ABORT_STATEMENT"%string →
      load_run tableName meta format options (f :: files) s [load_failed (f_Name f) e] (Some e) (s.1, w)
  | load_skip f files s e w rs err s' :
      load_file engineExec tableName meta format (f_Name f) s.2 = (Err e, w) →
      OnError options ≠ "ABORT_STATEMENT"%string →
      load_run tableName meta format options files (s.1, w) rs err s' →
      load_run tableName meta format options (f :: files) s (load_failed (f_Name f) e :: rs) err s'
  | load_ok f files s rows w rs err s' :
      load_file engineExec tableName meta format (f_Name f) s.2 = (Ok rows, w) →
      load_run tableName meta format options files
        (if Purge options then (RemoveMetaFile osRemove meta (f_Name f) (s.1, w)).2 else (s.1, w)) rs err s' →
      load_run tableName meta format options (f :: files) s (loaded (f_Name f) rows :: rs) err s'.

Lemma load_files_run t meta format options files s rs err s' :
  load_files engineExec osRemove t meta format options files s = ((rs, err), s') →
  load_run t meta format options files s rs err s'.
Proof.
  revert s rs err s'. induction files as [|f files IH]; intros s rs err s'; cbn [load_files].
  - intros [= <- <- <-]. constructor.
  - destruct (load_file engineExec t meta format (f_Name f) s.2) as [[rows|e] w] eqn:E.
    + set (s1 := if Purge options then _ else _).
      destruct (load_files engineExec osRemove t meta format options files s1) as [[rs1 err1] s2] eqn:El.
      intros [= <- <- <-]. eapply load_ok; [exact E|]. by apply IH.
    + case_decide as Ho; [intros [= <- <- <-]; by apply load_abort|].
      destruct (load_files engineExec osRemove t meta format options files (s.1, w)) as [[rs1 err1] s2] eqn:El.
      intros [= <- <- <-]. eapply load_skip; [exact E|done|]. by apply IH.
Qed.

(** A run reports the files it got to, one result each, in order; it stops early
    only at a failure under [ABORT_STATEMENT], which it returns. *)
Lemma load_run_report t meta format options files s rs err s' :
  load_run t meta format options files s rs err s' →
  File <$> rs = take (length rs) (f_Name <$> files) ∧
  match err with
  | None => length rs = length files ∧ (OnError options = "ABORT_STATEMENT"%string → Forall (λ r, is_loaded r = true) rs)
  | Some e => OnError options = "ABORT_STATEMENT"%string ∧
      ∃ rs0 name, rs = rs0 ++ [load_failed name e] ∧ Forall (λ r, is_loaded r = true) rs0
  end.
Proof.
  induction 1 as [s|f files s e w E Ho|f files s e w rs err s' E Ho _ [IH1 IH2]|f files s rows w rs err s' E _ [IH1 IH2]].
  - by split_all.
  - split; [done|]. split; [done|]. by exists [], (f_Name f).
  - split; [cbn; by rewrite IH1|]. destruct err as [e'|]; [by destruct IH2|]. destruct IH2 as [Hl _].
    split; [cbn; by rewrite Hl|done].
  - split; [cbn; by rewrite IH1|]. destruct err as [e'|].
    + destruct IH2 as (Ho & rs0 & name & -> & Hall). split; [done|]. exists (loaded (f_Name f) rows :: rs0), name.
      split; [done|]. by constructor.
    + destruct IH2 as [Hl Ha]. split; [cbn; by rewrite Hl|]. intros Ho. constructor; auto.
Qed.
End load.

Section contained.
Context {W : Type} `{FileSystem W}.
Context (engineExec : string → W → result Z * W).

(** Reading a staged file into the table leaves the files alone. *)
Definition load_reads (tableName : string) (format : FileFormat) : Prop :=
  ∀ path sql w q, buildLoadSQL tableName path format = Ok sql → files (engineExec sql w).2 q = files w q.

(** *** A [COPY] statement as the database reads it

    The shape is that of the reference of the database's SQL: a query of one table,
    the literal that names the file, and the options, which are words and literals.
    The reading is of any text, whoever wrote it. *)

Definition name_byte (c : ascii) : bool := is_word c || bool_decide (c = "."%char) || bool_decide (c = "$"%char).

(** A name at the front of a text, and what follows it. *)
Fixpoint read_name (s : string) : string * string :=
  match s with
  | String c t => if name_byte c then let '(n, r) := read_name t in (String c n, r) else ("", s)
  | "" => ("", "")
  end.

(** Options up to the parenthesis that ends the statement. *)
Fixpoint options_end (inQuote : bool) (s : string) : bool :=
  match s with
  | "" => false
  | String c t =>
      if decide (c = sq) then options_end (negb inQuote) t
      else if inQuote then options_end true t
      else if decide (c = ")"%char) then bool_decide (t = "")
      else (is_word c || bool_decide (c ∈ [" "; ","]%char)) && options_end false t
  end.

(** The file that a statement copies a table to. *)
Definition copy_target (sql : string) : option string :=
  s1 ← TrimPrefixOpt sql "COPY (SELECT * FROM ";
  let '(name, s2) := read_name s1 in
  s3 ← TrimPrefixOpt s2 ") TO '";
  '(path, s4) ← read_quoted sq s3;
  s5 ← TrimPrefixOpt s4 " (FORMAT ";
  if negb (bool_decide (name = "")) && options_end false s5 then Some path else None.

(** What the database documents of [COPY ... TO]: it writes the file that the
    literal names, and no other. *)
Definition copies_to_target : Prop :=
  ∀ sql path w q, copy_target sql = Some path → q ≠ path → files (engineExec sql w).2 q = files w q.

(** What the unescaped parts of the statement must be: a name for the table, a
    delimiter that does not end its literal and a word for the type. *)
Definition plain_unload (tableName : string) (format : FileFormat) : Prop :=
  tableName ≠ "" ∧ every name_byte tableName = true ∧ (sq ∉ bytes (FieldDelimiter format)) ∧
  every is_word (ToUpper (Type_ format)) = true.

Lemma read_name_app n c t : every name_byte n = true → name_byte c = false →
  read_name (n +:+ String c t) = (n, String c t).
Proof.
  intros Hn Hc. induction n as [|d n IH]; cbn; [by rewrite Hc|].
  cbn in Hn. apply andb_true_iff in Hn as [-> Hn]. by rewrite (IH Hn).
Qed.

Lemma options_word ty t : every is_word ty = true → options_end false (ty +:+ t) = options_end false t.
Proof.
  induction ty as [|c ty IH]; [done|]. cbn. intros [Hc Hty]%andb_true_iff.
  rewrite Hc. destruct (decide (c = sq)) as [->|]; [done|]. destruct (decide (c = ")"%char)) as [->|]; [done|].
  by apply IH.
Qed.
Lemma options_quoted d t : sq ∉ bytes d → options_end true (d +:+ String sq t) = options_end false t.
Proof.
  induction d as [|c d IH]; cbn [bytes].
  - intros _. cbn. by rewrite decide_True.
  - intros [Hc Hd]%not_elem_of_cons. cbn. rewrite decide_False by done. by apply IH.
Qed.

(** The statement of an unload copies to the path that it was built for. *)
Lemma unload_target t path format : plain_unload t format → copy_target (buildUnloadSQL t path format) = Some path.
Proof.
  intros (Hne & Ht & Hd & Hty). unfold copy_target, buildUnloadSQL, escapePath. cbv zeta.
  rewrite TrimPrefixOpt_app. cbn [mbind option_bind].
  change (t +:+ (") TO '" +:+ ?x)) with (t +:+ String ")" (" TO '" +:+ x)). rewrite read_name_app by done.
  change (String ")" (" TO '" +:+ ?x)) with (") TO '" +:+ x). rewrite TrimPrefixOpt_app. cbn [mbind option_bind].
  rewrite (ReplaceAll_double sq). change ("' (FORMAT " +:+ ?x) with (String sq (" (FORMAT " +:+ x)).
  rewrite read_quoted_double by done. cbn [mbind option_bind]. rewrite TrimPrefixOpt_app. cbn [mbind option_bind].
  rewrite bool_decide_eq_false_2 by done. cbn [negb andb].
  assert (E : options_end false ((if decide (ToUpper (Type_ format) = "CSV") then "CSV, DELIMITER '" +:+ FieldDelimiter format +:+ "', HEADER"
    else ToUpper (Type_ format)) +:+ ")") = true); [|by rewrite E].
  case_decide as Hc.
  - rewrite !string_app_assoc. change (options_end true (FieldDelimiter format +:+ String sq ", HEADER)") = true).
    by rewrite options_quoted.
  - by rewrite options_word.
Qed.

Lemma load_file_files t meta format name w q : load_reads t format →
  files (load_file engineExec t meta format name w).2 q = files w q.
Proof. intros Hr. unfold load_file. destruct (buildLoadSQL _ _ _) as [sql|e] eqn:E; [by eapply Hr|done]. Qed.

(** A file that a load removes is one that it loaded. *)
Lemma load_run_removed t meta format options fs s rs err s' q : load_reads t format →
  load_run engineExec remove t meta format options fs s rs err s' → files s'.2 q ≠ files s.2 q →
  Purge options = true ∧ ∃ r, r ∈ rs ∧ is_loaded r = true ∧ ResolveInStage meta (File r) = Ok q.
Proof.
  intros Hr Hrun. induction Hrun as [s|f fs s e w E Ho|f fs s e w rs err s' E Ho _ IH|f fs s rows w rs err s' E _ IH].
  - done.
  - pose proof (load_file_files t meta format (f_Name f) s.2 q Hr) as Hf. rewrite E in Hf. cbn in *. by rewrite Hf.
  - pose proof (load_file_files t meta format (f_Name f) s.2 q Hr) as Hf. rewrite E in Hf. cbn in Hf, IH.
    rewrite Hf in IH. intros (Hp & r & Hin & Hrest)%IH. split; [done|]. exists r. split; [by right|done].
  - pose proof (load_file_files t meta format (f_Name f) s.2 q Hr) as Hf. rewrite E in Hf. cbn in Hf.
    intros Hne. set (s1 := if Purge options then _ else _) in *.
    destruct (decide (files s1.2 q = files s.2 q)) as [Heq|Hd].
    + rewrite <- Heq in Hne. destruct (IH Hne) as (Hp & r & Hin & Hrest). split; [done|]. exists r. split; [by right|done].
    + unfold s1 in Hd. destruct (Purge options); [|by destruct Hd]. split; [done|].
      exists (loaded (f_Name f) rows). split_all; [left|done|]. apply (RemoveMetaFile_files meta (f_Name f) (s.1, w)).
      cbn. by rewrite Hf.
Qed.

(** C37: a load reports each listed file once and in order, up to the first
    failure when the statement aborts on errors, which is then returned; otherwise
    it goes on to the last file.  No file changes, except that with [PURGE] the
    files that were loaded are removed from the stage. *)
Theorem load_spec walkDir fileMD5 glob compile t meta subPath format options s fs rs err s' :
  load_reads t format →
  ListMetaFiles walkDir fileMD5 glob compile meta (mkOptions subPath "" "" false) s.2 = Ok fs →
  ExecuteLoad engineExec remove walkDir fileMD5 glob compile t meta subPath format options s = ((rs, err), s') →
  File <$> rs = take (length rs) (f_Name <$> fs) ∧
  match err with
  | None => length rs = length fs ∧ (OnError options = "ABORT_STATEMENT"%string → Forall (λ r, is_loaded r = true) rs)
  | Some e => OnError options = "ABORT_STATEMENT"%string ∧
      ∃ rs0 name, rs = rs0 ++ [load_failed name e] ∧ Forall (λ r, is_loaded r = true) rs0
  end ∧
  ∀ q, files s'.2 q ≠ files s.2 q →
    Purge options = true ∧ ∃ r, r ∈ rs ∧ is_loaded r = true ∧ ResolveInStage meta (File r) = Ok q.
Proof.
  intros Hr Hl. unfold ExecuteLoad. rewrite Hl. intros Hrun%load_files_run.
  destruct (load_run_report _ _ _ _ _ _ _ _ _ _ _ Hrun) as [H1 H2]. split_all; [done|done|].
  intros q. by eapply load_run_removed.
Qed.

Lemma within_below d p e : p ≠ "" → within d p → plain e → within d (PathJoin [p; e]).
Proof.
  intros Hp (Hr & rest & E & Hall) He. destruct (PathJoin_plain p [e] Hp) as (_ & Hr' & Hp'); [done|by constructor|].
  split; [congruence|]. exists (rest ++ [e]). split; [by rewrite Hp', E, app_assoc|]. apply Forall_app. auto.
Qed.

Lemma unload_name_plain ty : plain ("data_0_0_0" +:+ formatExtension ty).
Proof.
  unfold formatExtension. repeat case_decide; apply (bool_decide_unpack _); vm_compute; exact I.
Qed.

(** C26: an unload writes inside its stage.  For a plain table name, a delimiter
    without single quotes and a type that is a word, which the statement holds
    unescaped, and whatever the path in the stage, no file changes outside the
    stage's directory, and so none of another stage; a path that leads out of the
    stage is refused before anything is done.  Of the database it is only used that
    a [COPY] statement, as it is read from its text, writes the file of its literal
    and no other. *)
Theorem unload_contained osStat base s key meta t subPath format options :
  stage_reachable base s → base ≠ "" → stages s.1 !! key = Some meta → copies_to_target → plain_unload t format →
  let res := ExecuteUnload engineExec mkdirAll remove osStat t meta subPath format options s.2 in
  (∀ q, files res.2 q ≠ files s.2 q → within (LocalPath meta) q) ∧
  (∀ key' meta' q, stages s.1 !! key' = Some meta' → key ≠ key' → within (LocalPath meta') q →
     files res.2 q = files s.2 q) ∧
  (subPath ≠ "" → ¬ within (LocalPath meta) (PathJoin [LocalPath meta; subPath]) →
     is_Some res.1.2 ∧ res.2 = s.2).
Proof.
  intros Hreach Hb Hk Hw Hplain. pose proof (stage_reachable_placed base s Hreach) as [_ Hm].
  destruct (place_parts base key _ Hb (Hm _ _ Hk)) as (Hc & _ & _).
  assert (Hne : LocalPath meta ≠ "") by (intros E; rewrite E in Hc; discriminate).
  set (res := ExecuteUnload _ _ _ _ _ _ _ _ _ _). cbv zeta.
  assert (Hin : ∀ q, files res.2 q ≠ files s.2 q → within (LocalPath meta) q).
  { intros q. unfold res, ExecuteUnload. destruct (unload_dir mkdirAll meta subPath s.2) as [[d|e] w] eqn:Ed.
    2:{ unfold unload_dir in Ed. repeat case_match; simplify_eq; [|done..].
        intros Hq. destruct Hq. match goal with E : mkdirAll ?p _ = _ |- _ =>
          pose proof (mkdirAll_files p s.2 q) as Hmk; rewrite E in Hmk; exact Hmk end. }
    assert (Hd : within (LocalPath meta) d ∧ d ≠ "" ∧ ∀ q, files w q = files s.2 q).
    { unfold unload_dir in Ed. case_decide; [injection Ed as <- <-; split_all; [apply within_refl|done|done]|].
      pose proof (resolve_spec meta subPath Hc) as Hs. destruct (ResolveInStage meta subPath) as [r|e]; [|done].
      destruct Hs as [Hr Hwi]. pose proof (mkdirAll_files r s.2) as Hmk. destruct (mkdirAll r s.2) as [[[]|e] w1]; [|done].
      injection Ed as <- <-. split_all; [done| |done]. rewrite Hr.
      destruct (PathJoin_spec (LocalPath meta) subPath Hne) as (Hcl & _). intros E. rewrite E in Hcl. discriminate. }
    destruct Hd as (Hd & Hdne & Hfw). set (dest := unload_file d format).
    assert (Hdest : within (LocalPath meta) dest) by (apply within_below; auto using unload_name_plain).
    set (w2 := if Overwrite options then _ else w).
    intros Hq. destruct (decide (q = dest)) as [->|Hqd]; [done|]. destruct Hq.
    assert (H2 : files w2 q = files w q) by (unfold w2; destruct (Overwrite options); [by apply remove_files|done]).
    pose proof (Hw _ dest w2 q (unload_target t dest format Hplain) Hqd) as Hx. destruct (engineExec _ w2) as [[rows|e] w3]; cbn in *; congruence. }
  split_all; [exact Hin| |].
  - intros key' meta' q Hk' Hkk Hq. destruct (decide (files res.2 q = files s.2 q)) as [|Hd]; [done|].
    exfalso. apply (places_disjoint base key key' (LocalPath meta) (LocalPath meta') q Hb (Hm _ _ Hk) (Hm _ _ Hk') Hkk); auto.
  - intros Hs Hout. unfold res, ExecuteUnload, unload_dir. rewrite decide_False by done.
    pose proof (resolve_spec meta subPath Hc) as Hspec. destruct (ResolveInStage meta subPath) as [r|e].
    + destruct Hspec as [-> ?]. done.
    + cbn. split; [by eexists|done].
Qed.
End contained.

(** ** Witnesses *)

(** Another order of a range. *)
Definition reverse_order : MapRange.
Proof. refine {| map_range := λ V _ m, reverse (map_to_list m) |}. intros. by rewrite reverse_Permutation. Defined.

Definition sample_options : gmap string string :=
  {["SKIP_HEADER" := "1"; "type" := "'csv'"; "FIELD_DELIMITER" := "'|'"]}.

Lemma format_order_independent_witness :
  FieldDelimiter (ParseFileFormatOptions (H:=key_order) sample_options) = "|"%string ∧
  ParseFileFormatOptions (H:=key_order) sample_options = ParseFileFormatOptions (H:=reverse_order) sample_options.
Proof.
  assert (Hd : distinct_options sample_options).
  { intros k k' [v Hk] [v' Hk'] E. apply elem_of_map_to_list in Hk, Hk'. vm_compute in Hk, Hk'.
    repeat (apply elem_of_cons in Hk as [[= -> ->]|Hk]); [..|by apply not_elem_of_nil in Hk];
      repeat (apply elem_of_cons in Hk' as [[= -> ->]|Hk']); try (by apply not_elem_of_nil in Hk');
      first [done | vm_compute in E; discriminate]. }
  destruct (format_order_independent key_order reverse_order sample_options Hd) as [E Hf].
  split; [|exact E]. destruct (Hf "FIELD_DELIMITER"%string "'|'"%string) as (H & _); [vm_compute; reflexivity|].
  etransitivity; [apply H; vm_compute; reflexivity|vm_compute; reflexivity].
Defined.

(** A database that loads every file but one, and writes what it unloads. *)
Definition sample_exec (sql : string) (w : gmap string string) : result Z * gmap string string :=
  (if Contains sql "bad" then Err "parse error" else Ok 3%Z, w).
Definition sample_walk (dir : string) (w : gmap string string) : list WalkEntry :=
  (λ n, mkEntry (PathJoin [dir; n]) None false (inl (9, 0)%Z)) <$> ["a.csv"; "bad.csv"; "c.csv"]%string.
Definition sample_run (onError : string) : (list CopyResult * option string) * (Manager * gmap string string) :=
  ExecuteLoad sample_exec (remove (FileSystem:=toy_fs)) sample_walk (λ _ _, "") (λ _ _, Ok true) (λ _, Err "")
    "t" sample_one "" DefaultCSV (mkCopyOptions onError 0 true false false 0 false false) Stage.sample.

Lemma load_spec_witness :
  File <$> (sample_run "ABORT_STATEMENT").1.1 = ["a.csv"; "bad.csv"]%string ∧
  File <$> (sample_run "CONTINUE").1.1 = ["a.csv"; "bad.csv"; "c.csv"]%string ∧
  OnError (mkCopyOptions "ABORT_STATEMENT" 0 true false false 0 false false) = "ABORT_STATEMENT"%string.
Proof.
  split; [vm_compute; reflexivity|]. split; [vm_compute; reflexivity|].
  destruct (sample_run "ABORT_STATEMENT") as [[rs err] s'] eqn:E.
  destruct (load_spec (H:=toy_fs) sample_exec sample_walk (λ _ _, "") (λ _ _, Ok true) (λ _, Err "")
    "t" sample_one "" DefaultCSV (mkCopyOptions "ABORT_STATEMENT" 0 true false false 0 false false) Stage.sample
    [mkFile "a.csv" 9 0 ""; mkFile "bad.csv" 9 0 ""; mkFile "c.csv" 9 0 ""] rs err s') as (_ & He & _).
  - intros path sql w q _. reflexivity.
  - vm_compute. reflexivity.
  - exact E.
  - assert (Herr : err = Some "parse error"%string).
    { transitivity (sample_run "ABORT_STATEMENT").1.2; [by rewrite E|vm_compute; reflexivity]. }
    rewrite Herr in He. exact (proj1 He).
Defined.

(** A database that writes to the target of a statement. *)
Definition unload_exec (sql : string) (w : gmap string string) : result Z * gmap string string :=
  match copy_target sql with
  | Some path => (Ok 1%Z, <[path := "1,2"]> w)
  | None => (Err "syntax error", w)
  end.

Lemma unload_exec_writes : copies_to_target (H:=toy_fs) unload_exec.
Proof. intros sql path w q E Hq. unfold unload_exec. rewrite E. cbn. by apply lookup_insert_ne. Qed.

(** A delimiter or a table name that is not plain takes the statement apart. *)
Example delimiter_unescaped : copy_target (buildUnloadSQL "t" "s/data_0_0_0.csv"
  (apply_option DefaultCSV "FIELD_DELIMITER" "x', HEADER); COPY t TO '/etc/passwd' (DELIMITER 'y")) = None.
Proof. reflexivity. Qed.

Lemma unload_contained_witness :
  (ExecuteUnload unload_exec (mkdirAll (FileSystem:=toy_fs)) (remove (FileSystem:=toy_fs)) (λ _ _, Some 3%Z)
     "t" sample_one "out" DefaultCSV (mkCopyOptions "" 0 false false false 0 false true) Stage.sample.2).2
     !! "stages/stages/DB/S/ONE/out/data_0_0_0.csv" = Some "1,2"%string ∧
  within (LocalPath sample_one) "stages/stages/DB/S/ONE/out/data_0_0_0.csv".
Proof.
  split; [vm_compute; reflexivity|].
  destruct (unload_contained (H:=toy_fs) unload_exec (λ _ _, Some 3%Z) "./stages" Stage.sample "DB.S.ONE" sample_one
    "t" "out" DefaultCSV (mkCopyOptions "" 0 false false false 0 false true) stage_sample_reachable
    ltac:(discriminate) ltac:(vm_compute; reflexivity) unload_exec_writes
    ltac:(split_all; try by apply (bool_decide_unpack _); vm_compute; reflexivity)) as (Hin & _).
  apply Hin. vm_compute. discriminate.
Defined.

(** What a format loses: only the presence of a header row reaches the database,
    and a parenthesis inside the options ends them. *)
Example skip_header_lost : buildCSVReadOptions (apply_option DefaultCSV "SKIP_HEADER" "3") = ", delim = ',', header = true".
Proof. reflexivity. Qed.
Example null_if_cuts_options :
  match ParseCopyStatement (H:=key_order)
    "COPY INTO t FROM @s FILE_FORMAT = (TYPE = CSV NULL_IF = ('NULL', '') SKIP_HEADER = 1)" with
  | Ok (_, _, _, f, _) => (SkipHeader f, NullIf f)
  | Err _ => (7%Z, [])
  end = (0%Z, ["NULL"; ""]).
Proof. reflexivity. Qed.
Example unload_of_query :
  match ParseCopyStatement (H:=key_order) "COPY INTO @s/out FROM (SELECT a FROM t)" with
  | Ok (d, t, p, _, _) => (d, t, p)
  | Err e => (e, "", "")
  end = ("UNLOAD", "(SELECT", "s/out").
Proof. reflexivity. Qed.
