(* ===== verification/Engine.v ===== *)
(** * The engine ([internal/engine/engine.go])

    A wrapper of the database driver: reading all the rows of a query, wiping the
    user's objects, attaching databases, and the current database and schema.
    The driver is a parameter on a state [W]; the class [DuckDb] states what its
    listings and DROP statements promise. *)

From S2P Require Import Prelude GoStrings Clone.

Record Engine := mkEngine {
  dataDir : string;
  currentDB : string;
  currentSchema : string;
}.

(** What a query gives to the loop over [rows.Next()]: the columns, the rows that
    can be read, and [rows.Err()] at the end. *)
Record Rows := mkRows {
  r_columns : result (list string);
  r_rows : list (list cell);
  r_err : option string;
}.

(** What the driver says of a statement: [RowsAffected] may fail where the
    statement did not. *)
Record ExecResult := mkExec { affected : result Z }.

Definition escapeIdent (s : string) : string := ReplaceAll s (String dq "") (String dq (String dq "")).

(** An identifier between double quotes. *)
Definition quote_ident (s : string) : string := String dq (escapeIdent s +:+ String dq "").

Definition tables_query : string := "SELECT database_name, schema_name, table_name FROM duckdb_tables() WHERE NOT internal".
Definition views_query : string := "SELECT database_name, schema_name, view_name FROM duckdb_views() WHERE NOT internal".
Definition schemas_query : string := "SELECT database_name, schema_name FROM duckdb_schemas() WHERE NOT internal".
Definition databases_query : string := "SELECT database_name FROM duckdb_databases() WHERE NOT internal".

Definition drop_relation_sql (kind d s n : string) : string :=
  "DROP " +:+ kind +:+ " IF EXISTS " +:+ quote_ident d +:+ "." +:+ quote_ident s +:+ "." +:+ quote_ident n +:+ " CASCADE".
Definition drop_schema_sql (d s : string) : string :=
  "DROP SCHEMA IF EXISTS " +:+ quote_ident d +:+ "." +:+ quote_ident s +:+ " CASCADE".
Definition detach_sql (d : string) : string := "DETACH " +:+ quote_ident d.
Definition attach_sql (path name : string) : string :=
  "ATTACH IF NOT EXISTS '" +:+ path +:+ "' AS " +:+ String dq (name +:+ String dq "").

Section engine.
Context {W : Type}.
(** [db.Query] and [db.Exec], and [rows.Scan] into strings. *)
Context (queryDB : string → list cell → W → result Rows * W).
Context (execDB : string → list cell → W → result ExecResult * W).
Context (scanStrings : list cell → result (list string)).

(** [defer rows.Close()] and the locks leave no trace. *)
Definition Execute (query : string) (args : list cell) : GoM (Engine * W) (list string * list (list cell)) :=
  let! rows := wrapped "engine: query" (lift (queryDB query args)) in
  match r_columns rows with
  | Err e => fail ("engine: columns: " +:+ e)
  | Ok columns =>
      match r_err rows with
      | Some e => fail ("engine: rows iteration: " +:+ e)
      | None => ret (columns, r_rows rows)
      end
  end.

Definition ExecNoResult (query : string) (args : list cell) : GoM (Engine * W) Z :=
  let! res := wrapped "engine: exec" (lift (execDB query args)) in
  match affected res with Err _ => ret 0%Z | Ok n => ret n end.

Fixpoint scan_all (rows : list (list cell)) : result (list (list string)) :=
  match rows with
  | [] => Ok []
  | r :: rows =>
      match scanStrings r with
      | Err e => Err e
      | Ok o => match scan_all rows with Err e => Err e | Ok os => Ok (o :: os) end
      end
  end.

(** The listings of [Reset]. *)
Definition list_names (query what : string) : GoM (Engine * W) (list (list string)) :=
  let! rows := wrapped ("engine: reset list " +:+ what) (lift (queryDB query [])) in
  match scan_all (r_rows rows) with
  | Err e => fail ("engine: reset scan " +:+ what +:+ ": " +:+ e)
  | Ok objs => match r_err rows with Some e => fail e | None => ret objs end
  end.

Definition run_stmt (failure sql : string) : GoM (Engine * W) unit :=
  let! _ := wrapped failure (lift (execDB sql [])) in ret tt.

Definition col (o : list string) (i : nat) : string := nth i o "".

Definition dropAll (query kind : string) : GoM (Engine * W) unit :=
  let! objs := list_names query kind in
  for_each (λ o,
    run_stmt ("engine: reset drop " +:+ kind +:+ " " +:+ dotted (col o 0) (col o 1) (col o 2))
      (drop_relation_sql kind (col o 0) (col o 1) (col o 2))) objs.

Definition drop_schemas : GoM (Engine * W) unit :=
  let! schemas := list_names schemas_query "schemas" in
  for_each (λ o,
    run_stmt ("engine: reset drop schema " +:+ col o 0 +:+ "." +:+ col o 1) (drop_schema_sql (col o 0) (col o 1)))
    schemas.

Definition detach_all : GoM (Engine * W) unit :=
  let! dbs := list_names databases_query "databases" in
  for_each (λ o,
    if EqualFold (col o 0) "miniflake" then ret tt
    else run_stmt ("engine: reset detach " +:+ col o 0) (detach_sql (col o 0))) dbs.

Definition Reset : GoM (Engine * W) unit :=
  dropAll tables_query "TABLE" ;;;
  dropAll views_query "VIEW" ;;;
  drop_schemas ;;;
  detach_all ;;;
  modify (λ s, (mkEngine (dataDir s.1) "miniflake" "main", s.2)).

Definition AttachDatabase (name : string) : GoM (Engine * W) unit :=
  let! s := get in
  run_stmt ("engine: attach database " +:+ Quote name)
    (attach_sql (dataDir s.1 +:+ "/" +:+ name +:+ ".duckdb") name).

Definition SetCurrentDatabase (name : string) : GoM (Engine * W) unit :=
  modify (λ s, (mkEngine (dataDir s.1) name (currentSchema s.1), s.2)).
Definition SetCurrentSchema (name : string) : GoM (Engine * W) unit :=
  modify (λ s, (mkEngine (dataDir s.1) (currentDB s.1) name, s.2)).
Definition CurrentDatabase (e : Engine) : string := currentDB e.
Definition CurrentSchema (e : Engine) : string := currentSchema e.

(** The cells of the first column that are strings. *)
Definition first_column (query : string) (args : list cell) : GoM (Engine * W) (list string) :=
  let! cr := Execute query args in
  match first_strings cr.2 with Err e => fail e | Ok names => ret names end.

Definition GetDatabases : GoM (Engine * W) (list string) :=
  first_column "SELECT database_name FROM duckdb_databases() ORDER BY database_name" [].
Definition GetSchemas (dbName : string) : GoM (Engine * W) (list string) :=
  first_column "SELECT schema_name FROM duckdb_schemas() WHERE database_name = ? ORDER BY schema_name" [CStr dbName].
Definition GetTables (dbName schemaName : string) : GoM (Engine * W) (list string) :=
  first_column "SELECT table_name FROM duckdb_tables() WHERE database_name = ? AND schema_name = ? ORDER BY table_name"
    [CStr dbName; CStr schemaName].
End engine.

(** [New]: the directory is made, the database opened and pinged. *)
Definition New {W} (mkdirAll openDB pingDB : string → W → result unit * W) (closeDB : W → W) (dataDir : string) (w : W)
    : result Engine * W :=
  let '(r, w) := mkdirAll dataDir w in
  match r with
  | Err e => (Err ("engine: create data dir: " +:+ e), w)
  | Ok _ =>
      let dbPath := (dataDir +:+ "/miniflake.duckdb?TimeZone=America%2FLos_Angeles&ieee_floating_point_ops=false")%string in
      let '(r, w) := openDB dbPath w in
      match r with
      | Err e => (Err ("engine: open duckdb: " +:+ e), w)
      | Ok _ =>
          let '(r, w) := pingDB dbPath w in
          match r with
          | Err e => (Err ("engine: ping duckdb: " +:+ e), closeDB w)
          | Ok _ => (Ok (mkEngine dataDir "miniflake" "main"), w)
          end
      end
  end.

(** ** What the database promises

    The objects that are not the database's own; a listing that is read to its end,
    with no error from [rows.Err()], shows them all, a [DROP] that succeeds removes its object and none of these statements adds
    one.  [CASCADE] may remove more. *)

Definition relation_id : Type := (string * string * string).

Record Objects := mkObjects {
  o_tables : gset relation_id;
  o_views : gset relation_id;
  o_schemas : gset (string * string);
  o_databases : gset string;
}.

Definition shrinks (o o' : Objects) : Prop :=
  o_tables o' ⊆ o_tables o ∧ o_views o' ⊆ o_views o ∧ o_schemas o' ⊆ o_schemas o ∧ o_databases o' ⊆ o_databases o.

#[export] Instance shrinks_preorder : PreOrder shrinks.
Proof. split; unfold shrinks; [intros o|intros o1 o2 o3]; set_solver. Qed.

Definition relation_row (x : relation_id) : list string := [x.1.1; x.1.2; x.2].
Definition schema_row (x : string * string) : list string := [x.1; x.2].

(** The statements by which [Reset] removes an object. *)
Inductive drop_stmt : string → Prop :=
  | drop_table d s n : drop_stmt (drop_relation_sql "TABLE" d s n)
  | drop_view d s n : drop_stmt (drop_relation_sql "VIEW" d s n)
  | drop_schema d s : drop_stmt (drop_schema_sql d s)
  | drop_database d : drop_stmt (detach_sql d).

Class DuckDb (W : Type) := {
  queryDB : string → list cell → W → result Rows * W;
  execDB : string → list cell → W → result ExecResult * W;
  scanStrings : list cell → result (list string);
  objects : W → Objects;
  query_objects : ∀ q args w, objects (queryDB q args w).2 = objects w;
  lists_tables : ∀ w w' rows objs x, queryDB tables_query [] w = (Ok rows, w') →
    r_err rows = None → scan_all scanStrings (r_rows rows) = Ok objs → x ∈ o_tables (objects w) → relation_row x ∈ objs;
  lists_views : ∀ w w' rows objs x, queryDB views_query [] w = (Ok rows, w') →
    r_err rows = None → scan_all scanStrings (r_rows rows) = Ok objs → x ∈ o_views (objects w) → relation_row x ∈ objs;
  lists_schemas : ∀ w w' rows objs x, queryDB schemas_query [] w = (Ok rows, w') →
    r_err rows = None → scan_all scanStrings (r_rows rows) = Ok objs → x ∈ o_schemas (objects w) → schema_row x ∈ objs;
  lists_databases : ∀ w w' rows objs x, queryDB databases_query [] w = (Ok rows, w') →
    r_err rows = None → scan_all scanStrings (r_rows rows) = Ok objs → x ∈ o_databases (objects w) → [x] ∈ objs;
  exec_shrinks : ∀ sql w, drop_stmt sql → shrinks (objects w) (objects (execDB sql [] w).2);
  drops_table : ∀ d s n w r w', execDB (drop_relation_sql "TABLE" d s n) [] w = (Ok r, w') → (d, s, n) ∉ o_tables (objects w');
  drops_view : ∀ d s n w r w', execDB (drop_relation_sql "VIEW" d s n) [] w = (Ok r, w') → (d, s, n) ∉ o_views (objects w');
  drops_schema : ∀ d s w r w', execDB (drop_schema_sql d s) [] w = (Ok r, w') → (d, s) ∉ o_schemas (objects w');
  detaches : ∀ d w r w', execDB (detach_sql d) [] w = (Ok r, w') → d ∉ o_databases (objects w');
}.

Section reset.
Context {W : Type} `{DuckDb W}.

Definition view (s : Engine * W) : Objects := objects s.2.

(** A step of [Reset]: it leaves the engine's fields alone and adds no object. *)
Definition step_ok (s s' : Engine * W) : Prop := s'.1 = s.1 ∧ shrinks (view s) (view s').

#[local] Instance step_ok_preorder : PreOrder step_ok.
Proof.
  split; unfold step_ok; [done|]. intros s1 s2 s3 [E1 H1] [E2 H2]. split; [congruence|by etrans].
Qed.

Lemma list_names_spec query what s r s' : list_names queryDB scanStrings query what s = (r, s') →
  s'.1 = s.1 ∧ view s' = view s ∧
  ∀ objs, r = Ok objs → ∃ rows, queryDB query [] s.2 = (Ok rows, s'.2) ∧ r_err rows = None ∧
    scan_all scanStrings (r_rows rows) = Ok objs.
Proof.
  unfold list_names, wrapped, lift, bind, view. pose proof (query_objects query [] s.2) as Hq.
  destruct (queryDB query [] s.2) as [[rows|e] w] eqn:E; cbn in *.
  - destruct (scan_all scanStrings (r_rows rows)) as [objs|e] eqn:Es; [destruct (r_err rows) as [e|] eqn:Er|];
      intros [= <- <-]; split_all; try done; cbn; intros ? [= <-]; by exists rows.
  - intros [= <- <-]. by split_all.
Qed.

Lemma run_stmt_spec failure sql s r s' : drop_stmt sql → run_stmt execDB failure sql s = (r, s') →
  step_ok s s' ∧ (∀ u, r = Ok u → ∃ x, execDB sql [] s.2 = (Ok x, s'.2)).
Proof.
  intros Ho. unfold run_stmt, wrapped, lift, bind, step_ok, view. pose proof (exec_shrinks sql s.2 Ho) as Hs.
  destruct (execDB sql [] s.2) as [[x|e] w]; cbn in *; intros [= <- <-]; split_all; cbn; [done|done|eauto|done|done|done].
Qed.

(** A loop over steps: when it succeeds, what each step achieves and no later step
    undoes holds at its end. *)
Lemma for_each_steps {A} (f : A → GoM (Engine * W) unit) (P : A → Objects → Prop) l :
  (∀ a o o', shrinks o o' → P a o → P a o') →
  (∀ a s r s', f a s = (r, s') → step_ok s s' ∧ (r = Ok tt → P a (view s'))) →
  ∀ s r s', for_each f l s = (r, s') → step_ok s s' ∧ (r = Ok tt → ∀ a, a ∈ l → P a (view s')).
Proof.
  intros Hmono Hf. induction l as [|a l IH]; cbn [for_each]; intros s r s'.
  - intros [= <- <-]. split; [done|]. intros _ a Ha. by apply not_elem_of_nil in Ha.
  - unfold bind. destruct (f a s) as [[[]|e] s1] eqn:E; apply Hf in E as [H1 HP].
    + intros [H2 HP2]%IH. split; [by etrans|]. intros -> b [->|Hb]%elem_of_cons; [|by apply HP2].
      eapply Hmono; [apply H2|by apply HP].
    + by intros [= <- <-].
Qed.

(** Listing and then dropping what was listed. *)
Lemma list_then_drop {A} query what (row : A → list string) (mem : A → Objects → Prop) (f : list string → GoM (Engine * W) unit) :
  (∀ a o o', shrinks o o' → mem a o' → mem a o) →
  (∀ w w' rows objs a, queryDB query [] w = (Ok rows, w') → r_err rows = None → scan_all scanStrings (r_rows rows) = Ok objs →
     mem a (objects w) → row a ∈ objs) →
  (∀ l s r s', f l s = (r, s') → step_ok s s' ∧ (r = Ok tt → ∀ a, l = row a → ¬ mem a (view s'))) →
  ∀ s r s', (let! objs := list_names queryDB scanStrings query what in for_each f objs) s = (r, s') →
  step_ok s s' ∧ (r = Ok tt → ∀ a, ¬ mem a (view s')).
Proof.
  intros Hmono Hlist Hf s r s'. unfold bind at 1.
  destruct (list_names queryDB scanStrings query what s) as [[objs|e] s1] eqn:E;
    apply list_names_spec in E as (E1 & Ev & Hobjs).
  - intros Hr. destruct (for_each_steps f (λ l o, ∀ a, l = row a → ¬ mem a o) objs) with s1 r s' as [Hs HP].
    + intros l o o' Ho Hl a -> Hin. eapply Hl; [done|]. by eapply Hmono.
    + exact Hf.
    + done.
    + split; [destruct Hs as [? Hs]; split; [congruence|by rewrite <- Ev]|]. intros Hok a Hin.
      destruct (Hobjs objs eq_refl) as (rows & Hq & Hend & Hscan). eapply (HP Hok (row a)); [|done|exact Hin].
      eapply Hlist; [exact Hq|exact Hend|exact Hscan|]. eapply Hmono; [|exact Hin]. destruct Hs as [_ Hs]. by rewrite Ev in Hs.
  - intros [= <- <-]. split; [|done]. split; [done|by rewrite Ev].
Qed.
Lemma run_drop failure sql s r s' : drop_stmt sql → run_stmt execDB failure sql s = (r, s') →
  step_ok s s' ∧ (r = Ok tt → ∃ x, execDB sql [] s.2 = (Ok x, s'.2)).
Proof. intros Hd Hr. destruct (run_stmt_spec _ _ _ _ _ Hd Hr) as [H1 H2]. eauto. Qed.

Lemma drop_tables_spec s r s' : dropAll queryDB execDB scanStrings tables_query "TABLE" s = (r, s') →
  step_ok s s' ∧ (r = Ok tt → ∀ x, x ∉ o_tables (view s')).
Proof.
  apply (list_then_drop _ _ relation_row (λ x o, x ∈ o_tables o)).
  - intros a o o' (Hs & _). set_solver.
  - intros w w' rows objs a Hq He Hs Ha. by eapply lists_tables.
  - intros l s1 r1 s1' E. destruct (run_drop _ _ _ _ _ (drop_table _ _ _) E) as [H1 H2]. split; [done|].
    intros Hr [[d sc] n] ->. destruct (H2 Hr) as [x Hx]. by eapply drops_table.
Qed.

Lemma drop_views_spec s r s' : dropAll queryDB execDB scanStrings views_query "VIEW" s = (r, s') →
  step_ok s s' ∧ (r = Ok tt → ∀ x, x ∉ o_views (view s')).
Proof.
  apply (list_then_drop _ _ relation_row (λ x o, x ∈ o_views o)).
  - intros a o o' (_ & Hs & _). set_solver.
  - intros w w' rows objs a Hq He Hs Ha. by eapply lists_views.
  - intros l s1 r1 s1' E. destruct (run_drop _ _ _ _ _ (drop_view _ _ _) E) as [H1 H2]. split; [done|].
    intros Hr [[d sc] n] ->. destruct (H2 Hr) as [x Hx]. by eapply drops_view.
Qed.

Lemma drop_schemas_spec s r s' : drop_schemas queryDB execDB scanStrings s = (r, s') →
  step_ok s s' ∧ (r = Ok tt → ∀ x, x ∉ o_schemas (view s')).
Proof.
  apply (list_then_drop _ _ schema_row (λ x o, x ∈ o_schemas o)).
  - intros a o o' (_ & _ & Hs & _). set_solver.
  - intros w w' rows objs a Hq He Hs Ha. by eapply lists_schemas.
  - intros l s1 r1 s1' E. destruct (run_drop _ _ _ _ _ (drop_schema _ _) E) as [H1 H2]. split; [done|].
    intros Hr [d sc] ->. destruct (H2 Hr) as [x Hx]. by eapply drops_schema.
Qed.

Lemma detach_all_spec s r s' : detach_all queryDB execDB scanStrings s = (r, s') →
  step_ok s s' ∧ (r = Ok tt → ∀ d, ¬ (d ∈ o_databases (view s') ∧ EqualFold d "miniflake" = false)).
Proof.
  apply (list_then_drop _ _ (λ d, [d]) (λ d o, d ∈ o_databases o ∧ EqualFold d "miniflake" = false)).
  - intros a o o' (_ & _ & _ & Hs). set_solver.
  - intros w w' rows objs a Hq He Hs [Ha _]. by eapply lists_databases.
  - intros l s1 r1 s1' E. destruct (EqualFold (col l 0) "miniflake") eqn:Em.
    + injection E as <- <-. split; [done|]. intros _ d -> [_ Hd]. cbn in *. congruence.
    + destruct (run_drop _ _ _ _ _ (drop_database _) E) as [H1 H2]. split; [done|].
      intros Hr d -> [Hd _]. destruct (H2 Hr) as [x Hx]. by eapply detaches in Hd.
Qed.

(** C36: a reset that succeeds leaves no table, view or schema of the user and no
    attached database but the main one, and restores the default context; one that
    fails part-way, a listing that breaks off included, has added none of these and
    kept the context. *)
Theorem engine_reset_clears s r s' : Reset queryDB execDB scanStrings s = (r, s') →
  shrinks (view s) (view s') ∧
  match r with
  | Ok _ => o_tables (view s') = ∅ ∧ o_views (view s') = ∅ ∧ o_schemas (view s') = ∅ ∧
      (∀ d, d ∈ o_databases (view s') → EqualFold d "miniflake" = true) ∧
      s'.1 = mkEngine (dataDir s.1) "miniflake" "main"
  | Err _ => s'.1 = s.1
  end.
Proof.
  unfold Reset, bind.
  destruct (dropAll _ _ _ tables_query "TABLE" s) as [[[]|e] s1] eqn:E1; apply drop_tables_spec in E1 as [[F1 S1] T1];
    [|intros [= <- <-]; by split].
  destruct (dropAll _ _ _ views_query "VIEW" s1) as [[[]|e] s2] eqn:E2; apply drop_views_spec in E2 as [[F2 S2] T2];
    [|intros [= <- <-]; split; [by etrans|congruence]].
  destruct (drop_schemas _ _ _ s2) as [[[]|e] s3] eqn:E3; apply drop_schemas_spec in E3 as [[F3 S3] T3];
    [|intros [= <- <-]; split; [by repeat (etrans; [eassumption|])|congruence]].
  destruct (detach_all _ _ _ s3) as [[[]|e] s4] eqn:E4; apply detach_all_spec in E4 as [[F4 S4] T4];
    [|intros [= <- <-]; split; [by repeat (etrans; [eassumption|])|congruence]].
  cbn. intros [= <- <-]. specialize (T1 eq_refl); specialize (T2 eq_refl); specialize (T3 eq_refl); specialize (T4 eq_refl).
  change (view (_, s4.2)) with (view s4).
  destruct S2 as (S2t & S2v & S2s & S2d), S3 as (S3t & S3v & S3s & S3d), S4 as (S4t & S4v & S4s & S4d).
  split; [unfold shrinks in *; set_solver|]. split_all; [set_solver..| |cbn; congruence].
  intros d Hd. destruct (EqualFold d "miniflake") eqn:Em; [done|]. by destruct (T4 d).
Qed.
End reset.

(** A concrete database: it keeps the names and understands the statements of
    [Reset]. *)
Definition toy_rows (rows : list (list string)) : Rows := mkRows (Ok []) (map CStr <$> rows) None.
Fixpoint toy_scan (r : list cell) : result (list string) :=
  match r with
  | [] => Ok []
  | CStr s :: r => result_map (cons s) (toy_scan r)
  | _ :: _ => Err "sql: Scan error"
  end.
Definition toy_query (q : string) (_ : list cell) (o : Objects) : result Rows * Objects :=
  (if decide (q = tables_query) then Ok (toy_rows (relation_row <$> elements (o_tables o)))
   else if decide (q = views_query) then Ok (toy_rows (relation_row <$> elements (o_views o)))
   else if decide (q = schemas_query) then Ok (toy_rows (schema_row <$> elements (o_schemas o)))
   else if decide (q = databases_query) then Ok (toy_rows ((λ d, [d]) <$> elements (o_databases o)))
   else Err "syntax error", o).
Definition toy_drop (sql : string) (_ : list cell) (o : Objects) : result ExecResult * Objects :=
  (Ok (mkExec (Err "no rows")),
   mkObjects (filter (λ x, drop_relation_sql "TABLE" x.1.1 x.1.2 x.2 ≠ sql) (o_tables o))
     (filter (λ x, drop_relation_sql "VIEW" x.1.1 x.1.2 x.2 ≠ sql) (o_views o))
     (filter (λ x, drop_schema_sql x.1 x.2 ≠ sql) (o_schemas o))
     (filter (λ d, detach_sql d ≠ sql) (o_databases o))).

Lemma toy_scan_strs r : toy_scan (map CStr r) = Ok r.
Proof. induction r as [|s r IH]; [done|]. cbn. by rewrite IH. Qed.
Lemma toy_scan_rows rows : scan_all toy_scan (r_rows (toy_rows rows)) = Ok rows.
Proof.
  cbn. induction rows as [|r rows IH]; [done|].
  change (scan_all toy_scan ((map CStr r) :: (map CStr <$> rows)) = Ok (r :: rows)). cbn [scan_all].
  by rewrite toy_scan_strs, IH.
Qed.

(** A listing whose rows are [rows] shows each of them. *)
Lemma toy_listing q w rows l (w' : Objects) objs x : toy_query q [] w = (Ok (toy_rows l), w) → toy_query q [] w = (Ok rows, w') →
  scan_all toy_scan (r_rows rows) = Ok objs → x ∈ l → x ∈ objs.
Proof. intros -> [= <- _]. rewrite toy_scan_rows. by intros [= <-]. Qed.

Lemma toy_drop_objects sql w r w' : toy_drop sql [] w = (Ok r, w') → w' = (toy_drop sql [] w).2.
Proof. by intros ->. Qed.

#[refine, export] Instance toy_duckdb : DuckDb Objects := {|
  queryDB := toy_query; execDB := toy_drop; scanStrings := toy_scan; objects o := o;
|}.
Proof.
  - done.
  - intros w w' rows objs x Hq _ Hs Hx. refine (toy_listing _ _ _ _ _ _ _ _ Hq Hs _); [reflexivity|].
    apply list_elem_of_fmap_2. by apply elem_of_elements.
  - intros w w' rows objs x Hq _ Hs Hx. refine (toy_listing _ _ _ _ _ _ _ _ Hq Hs _); [reflexivity|].
    apply list_elem_of_fmap_2. by apply elem_of_elements.
  - intros w w' rows objs x Hq _ Hs Hx. refine (toy_listing _ _ _ _ _ _ _ _ Hq Hs _); [reflexivity|].
    apply list_elem_of_fmap_2. by apply elem_of_elements.
  - intros w w' rows objs x Hq _ Hs Hx. refine (toy_listing _ _ _ _ _ _ _ _ Hq Hs _); [reflexivity|].
    apply (list_elem_of_fmap_2 (λ d, [d])). by apply elem_of_elements.
  - intros sql w _. repeat split; cbn; intros x [_ Hx]%elem_of_filter; exact Hx.
  - intros d s n w r w' ->%toy_drop_objects. intros [Hne _]%elem_of_filter. by apply Hne.
  - intros d s n w r w' ->%toy_drop_objects. intros [Hne _]%elem_of_filter. by apply Hne.
  - intros d s w r w' ->%toy_drop_objects. intros [Hne _]%elem_of_filter. by apply Hne.
  - intros d w r w' ->%toy_drop_objects. intros [Hne _]%elem_of_filter. by apply Hne.
Defined.

Definition sample_objects : Objects :=
  mkObjects {[("miniflake", "main", "t"); ("x", "s", String dq "q")]} {[("miniflake", "main", "v")]} {[("x", "s")]}
    ({[ "miniflake" ]} ∪ {[ "x" ]}).

Lemma engine_reset_clears_witness :
  Reset queryDB execDB scanStrings (mkEngine "data" "X" "S", sample_objects) =
    (Ok tt, (mkEngine "data" "miniflake" "main", mkObjects ∅ ∅ ∅ {[ "miniflake" ]})) ∧
  o_tables (view (Reset queryDB execDB scanStrings (mkEngine "data" "X" "S", sample_objects)).2) = ∅.
Proof.
  split; [vm_compute; reflexivity|].
  destruct (Reset queryDB execDB scanStrings (mkEngine "data" "X" "S", sample_objects)) as [r s'] eqn:E.
  pose proof (engine_reset_clears _ _ _ E) as [_ H]. 
  assert (Hok : is_ok r = true).
  { change r with (r, s').1. rewrite <- E. vm_compute. reflexivity. }
  destruct r as [[]|e]; [|discriminate]. exact (proj1 H).
Defined.

(** ** Quoted names *)

Definition read_ident (s : string) : option (string * string) :=
  match s with String c t => if decide (c = dq) then read_quoted dq t else None | "" => None end.

(** The names in a statement that begins with [before] and whose names are
    separated by dots. *)
Definition read_names3 (before sql : string) : option (string * string * string * string) :=
  sql1 ← TrimPrefixOpt sql before;
  '(d, sql2) ← read_ident sql1; sql3 ← TrimPrefixOpt sql2 ".";
  '(s, sql4) ← read_ident sql3; sql5 ← TrimPrefixOpt sql4 ".";
  '(n, rest) ← read_ident sql5; Some (d, s, n, rest).
Definition read_names2 (before sql : string) : option (string * string * string) :=
  sql1 ← TrimPrefixOpt sql before;
  '(d, sql2) ← read_ident sql1; sql3 ← TrimPrefixOpt sql2 ".";
  '(s, rest) ← read_ident sql3; Some (d, s, rest).

Lemma read_ident_quote s rest : (∀ t, rest ≠ String dq t) → read_ident (quote_ident s +:+ rest) = Some (s, rest).
Proof.
  intros Hr. unfold quote_ident, escapeIdent.
  rewrite (ReplaceAll_double dq).
  change (String dq (double_quotes dq s +:+ String dq "") +:+ rest)
    with (String dq ((double_quotes dq s +:+ String dq "") +:+ rest)).
  cbn [read_ident]. rewrite decide_True by done. rewrite (string_app_assoc _ (String dq "") rest).
  by apply read_quoted_double.
Qed.

(** The statements of a reset name exactly the object they were built for,
    whatever characters its names hold: read by the rules of SQL they give the
    names back. *)
Theorem drop_names_read_back kind d s n :
  read_names3 ("DROP " +:+ kind +:+ " IF EXISTS ") (drop_relation_sql kind d s n) = Some (d, s, n, " CASCADE"%string) ∧
  read_names2 "DROP SCHEMA IF EXISTS " (drop_schema_sql d s) = Some (d, s, " CASCADE"%string) ∧
  (x ← TrimPrefixOpt (detach_sql d) "DETACH "; read_ident x) = Some (d, ""%string).
Proof.
  unfold read_names3, read_names2, drop_relation_sql, drop_schema_sql, detach_sql. split_all.
  - rewrite <- (string_app_assoc kind), <- (string_app_assoc "DROP "). rewrite TrimPrefixOpt_app. cbn [mbind option_bind].
    rewrite read_ident_quote by discriminate. cbn [mbind option_bind]. rewrite (TrimPrefixOpt_app "."). cbn [mbind option_bind].
    rewrite read_ident_quote by discriminate. cbn [mbind option_bind]. rewrite (TrimPrefixOpt_app "."). cbn [mbind option_bind].
    by rewrite read_ident_quote by discriminate.
  - rewrite TrimPrefixOpt_app. cbn [mbind option_bind].
    rewrite read_ident_quote by discriminate. cbn [mbind option_bind]. rewrite (TrimPrefixOpt_app "."). cbn [mbind option_bind].
    by rewrite read_ident_quote by discriminate.
  - rewrite TrimPrefixOpt_app. cbn [mbind option_bind].
    rewrite <- (string_app_nil_r (quote_ident d)) at 1. by rewrite read_ident_quote by discriminate.
Qed.

(** The name of an attached database is pasted as it is. *)
Example attach_unescaped :
  attach_sql "data/x" ("a" +:+ String dq "; DROP TABLE t; --") =
  "ATTACH IF NOT EXISTS 'data/x' AS " +:+ String dq ("a" +:+ String dq ("; DROP TABLE t; --" +:+ String dq "")).
Proof. reflexivity. Qed.
