(* ===== verification/StageRef.v ===== *)
(** * Stage references and stage files ([internal/orchestrator/stageref.go],
    [putget.go], and the LIST and REMOVE handlers of [snowflake_handlers.go])

    One resolver for every statement that names a stage, and the four statements
    about its files.  A handler answers with the result of the statement; that it
    handled the statement is left to the dispatch in Orchestrator.v. *)

From S2P Require Import Prelude GoStrings GoTime GoPath Regexp Session Stage.
From Stdlib Require Import Ascii.

Record QueryResult := mkQueryResult {
  Columns : list string;
  Rows : list (list cell);
  RowsAffected : Z;
  StatementType : string;
}.

(** ** Identifiers ([orchestrator.go], [cleanIdent]) *)

Definition is_quote (c : ascii) : bool := bool_decide (c = sq) || bool_decide (c = dq).
Definition is_ident_quote (c : ascii) : bool := is_quote c || bool_decide (c = "`"%char).
Definition is_semicolon (c : ascii) : bool := bool_decide (c = ";"%char).

Definition cleanIdent (s : string) : string := trim_right is_semicolon (Trim is_ident_quote (TrimSpace s)).

(** ** References *)

Definition splitStageRef (raw : string) : result (string * string) :=
  let raw := TrimSpace raw in
  if decide (raw = "") then Err "empty stage reference"
  else match Cut raw "/" with
  | Some (ref, rest) => Ok (ref, TrimPrefix rest "/")
  | None => Ok (raw, "")
  end.

Definition qualifyIdent (ref : string) (sess : Session) : string * string * string :=
  match SplitByte dot ref with
  | [a; b; c] => (a, b, c)
  | [a; b] => (Database sess, a, b)
  | a :: _ => (Database sess, Schema sess, a)
  | [] => (Database sess, Schema sess, "")
  end.

(** [t.UTC().Format("Mon, 02 Jan 2006 15:04:05 GMT")] *)
Definition day_name (d : Z) : string := nth (Z.to_nat d) ["Sun"; "Mon"; "Tue"; "Wed"; "Thu"; "Fri"; "Sat"] "".
Definition month_name (m : Z) : string :=
  nth (Z.to_nat (m - 1)) ["Jan"; "Feb"; "Mar"; "Apr"; "May"; "Jun"; "Jul"; "Aug"; "Sep"; "Oct"; "Nov"; "Dec"] "".
Definition format_list_time (t : Z) : string :=
  day_name (Weekday t) +:+ ", " +:+ pad 2 (Day t) +:+ " " +:+ month_name (Month t) +:+ " " +:+ pad 4 (Year t) +:+ " "
    +:+ pad 2 (HourOf t) +:+ ":" +:+ pad 2 (MinuteOf t) +:+ ":" +:+ pad 2 (SecondOf t) +:+ " GMT".

(** ** File URLs

    The path of [url.Parse] for a text that begins with [file://]: the fragment and
    the query are cut off, the authority goes up to the next slash, and the path is
    decoded.  What the library says of a bad authority is a parameter. *)

Definition hex_val (c : ascii) : option N :=
  let n := N_of_ascii c in
  if byte_in 48 57 c then Some (n - 48)%N
  else if byte_in 97 102 c then Some (n - 87)%N
  else if byte_in 65 70 c then Some (n - 55)%N else None.

Fixpoint unescape_path (s : string) : option string :=
  match s with
  | "" => Some ""
  | String c t =>
      if decide (c = "%"%char) then
        match t with
        | String a (String b t') =>
            match hex_val a, hex_val b with
            | Some x, Some y => String (ascii_of_N (16 * x + y)) <$> unescape_path t'
            | _, _ => None
            end
        | _ => None
        end
      else String c <$> unescape_path t
  end.

Definition is_ctl (c : ascii) : bool := byte_in 0 31 c || bool_decide (N_of_ascii c = 127%N).
Definition before_cut (s sep : string) : string := match Cut s sep with Some (a, _) => a | None => s end.

Definition url_path (bad_authority bad_fragment : string → bool) (u : string) : result string :=
  let failed (what : string) := Err ("parse " +:+ Quote u +:+ ": " +:+ what) in
  let body := before_cut u "#" in
  let frag := match Cut u "#" with Some (_, f) => f | None => "" end in
  if negb (every (λ c, negb (is_ctl c)) body) then failed "net/url: invalid control character in URL"
  else
    let rest := before_cut (TrimPrefix body "file://") "?" in
    let authority := before_cut rest "/" in
    let path := match Cut rest "/" with Some (_, p) => "/" +:+ p | None => "" end in
    if bad_authority authority then failed "invalid authority"
    else match unescape_path path with
    | None => failed "invalid URL escape"
    | Some p => if bad_fragment frag then failed "invalid fragment" else Ok p
    end.

(** ** The handlers *)

Definition rePutStmt : Regexp := regexp "(?is)^\s*PUT\s+(\S+)\s+@(\S+)".
Definition reGetStmt : Regexp := regexp "(?is)^\s*GET\s+@(\S+)\s+(\S+)".
Definition reListStage : Regexp := regexp "(?i)^(?:LIST|LS)\s+@(\S+)".
Definition reRemoveStage : Regexp := regexp "(?i)^(?:REMOVE|RM)\s+@(\S+)".
Definition reListPattern : Regexp := regexp "(?i)\bPATTERN\s*=\s*'([^']*)'".

Definition put_columns : list string :=
  ["source"; "target"; "source_size"; "target_size"; "source_compression"; "target_compression"; "status"; "encryption"; "message"].

Section handlers.
Context {W : Type}.
Context (osMkdirAll osRemove : string → W → result unit * W).
Context (osFiles : OsFiles W).
(** [os.Stat]: the size of the file. *)
Context (osStat : string → W → result Z).
Context (walkDir : string → W → list WalkEntry).
Context (fileMD5 : string → W → string).
Context (glob : string → string → result bool).
Context (compile : string → result (string → bool)).
Context (bad_authority bad_fragment : string → bool).
(** The clock. *)
Context (now : Z).

Definition resolveStageRef (sess : Session) (ref : string) : GoM (Manager * W) (StageMeta * string) :=
  if decide (ref = "~") then
    let user := if decide (User sess = "") then "DEFAULT" else User sess in
    let! meta := GetUserStage osMkdirAll now user in
    ret (meta, "~")
  else if HasPrefix ref "%" then
    let '(db, schema, table) := qualifyIdent (TrimPrefix ref "%") sess in
    if decide (table = "") then fail "empty table stage reference"
    else
      let! meta := GetTableStage osMkdirAll now db schema table in
      ret (meta, "%" +:+ ToLower table)
  else
    let '(db, schema, name) := qualifyIdent ref sess in
    if decide (name = "") then fail "empty stage reference"
    else
      let! s := get in
      match GetStage s.1 db schema name with
      | Err e => fail e
      | Ok meta => ret (meta, ToLower name)
      end.

Definition resolveStage (sess : Session) (raw : string) : GoM (Manager * W) (StageMeta * string * string) :=
  match splitStageRef (cleanIdent raw) with
  | Err e => fail e
  | Ok (ref, subpath) =>
      let! mp := resolveStageRef sess ref in
      ret (mp.1, subpath, mp.2)
  end.

Definition fileURLToPath (u : string) : result string :=
  if negb (HasPrefix u "file://") then
    if HasPrefix u "/" then Ok u else Err ("file URL or absolute path required, got " +:+ Quote u)
  else url_path bad_authority bad_fragment u.

Definition handlePut (sess : Session) (putSQL : string) : GoM (Manager * W) QueryResult :=
  match FindStringSubmatch rePutStmt putSQL with
  | None => fail ("PUT: unable to parse " +:+ Quote putSQL)
  | Some m =>
      match fileURLToPath (Trim is_quote (group m 1)) with
      | Err e => fail ("PUT: " +:+ e)
      | Ok localPath =>
          let! (meta, destSubPath, _) := wrapped "PUT" (resolveStage sess (Trim is_quote (group m 2))) in
          let destName := if decide (destSubPath = "") then Base localPath
                          else destSubPath +:+ "/" +:+ Base localPath in
          let! s := get in
          match osStat localPath s.2 with
          | Err e => fail ("PUT: stat " +:+ localPath +:+ ": " +:+ e)
          | Ok sourceSize =>
              let! r := catch (PutMetaFile osMkdirAll osFiles meta localPath destName) in
              let '(targetSize, status, message) :=
                match r with Err e => (0%Z, "ERROR", e) | Ok _ => (sourceSize, "UPLOADED", "") end in
              ret (mkQueryResult put_columns
                [[CStr (Base localPath); CStr destName; CInt sourceSize; CInt targetSize; CStr "NONE"; CStr "NONE";
                  CStr status; CStr "AUTO"; CStr message]] 0 "PUT")
          end
      end
  end.

Definition get_one (meta : StageMeta) (localDir : string) (f : FileInfo) : GoM (Manager * W) (list cell) :=
  let localPath := PathJoin [localDir; Base (f_Name f)]%string in
  let! r := catch (GetMetaFile osMkdirAll osFiles meta (f_Name f) localPath) in
  ret (match r with
       | Err e => [CStr (f_Name f); CInt 0; CStr "NONE"; CStr "ERROR"; CStr e]
       | Ok _ => [CStr localPath; CInt (Size f); CStr "NONE"; CStr "DOWNLOADED"; CStr ""]
       end).

Definition handleGet (sess : Session) (getSQL : string) : GoM (Manager * W) QueryResult :=
  match FindStringSubmatch reGetStmt getSQL with
  | None => fail ("GET: unable to parse " +:+ Quote getSQL)
  | Some m =>
      match fileURLToPath (Trim is_quote (group m 2)) with
      | Err e => fail ("GET: " +:+ e)
      | Ok localDir =>
          let! (meta, srcSubPath, _) := wrapped "GET" (resolveStage sess (Trim is_quote (group m 1))) in
          let! s := get in
          match ListMetaFiles walkDir fileMD5 glob compile meta (mkOptions srcSubPath "" "" false) s.2 with
          | Err e => fail ("GET: " +:+ e)
          | Ok files =>
              wrapped ("GET: create local dir " +:+ localDir) (lift (osMkdirAll localDir)) ;;;
              let! rows := map_each (get_one meta localDir) files in
              ret (mkQueryResult ["file"; "size"; "status_code"; "status"; "message"] rows 0 "GET")
          end
      end
  end.

(** The value of [PATTERN = '...'], if there is one. *)
Definition pattern_of (sql : string) : string :=
  match FindStringSubmatch reListPattern sql with Some pm => group pm 1 | None => "" end.

Definition handleListStage (sess : Session) (originalSQL : string) : GoM (Manager * W) QueryResult :=
  match FindStringSubmatch reListStage originalSQL with
  | None => fail ("LIST: unable to parse " +:+ Quote originalSQL)
  | Some m =>
      let! (meta, subpath, namePrefix) := wrapped "LIST" (resolveStage sess (group m 1)) in
      let! s := get in
      match ListMetaFiles walkDir fileMD5 glob compile meta (mkOptions subpath "" (pattern_of originalSQL) true) s.2 with
      | Err e => fail e
      | Ok files =>
          ret (mkQueryResult ["name"; "size"; "md5"; "last_modified"]
            ((λ f, [CStr (namePrefix +:+ "/" +:+ f_Name f); CInt (Size f); CStr (MD5 f); CStr (format_list_time (ModTime f))])
               <$> files) 0 "LIST")
      end
  end.

Definition remove_one (meta : StageMeta) (namePrefix : string) (f : FileInfo) : GoM (Manager * W) (list cell) :=
  let! r := catch (RemoveMetaFile osRemove meta (f_Name f)) in
  ret [CStr (namePrefix +:+ "/" +:+ f_Name f);
       CStr (match r with Err e => "failed: " +:+ e | Ok _ => "removed" end)].

Definition handleRemoveStage (sess : Session) (originalSQL : string) : GoM (Manager * W) QueryResult :=
  match FindStringSubmatch reRemoveStage originalSQL with
  | None => fail ("REMOVE: unable to parse " +:+ Quote originalSQL)
  | Some m =>
      let! (meta, subpath, namePrefix) := wrapped "REMOVE" (resolveStage sess (group m 1)) in
      let! s := get in
      match ListMetaFiles walkDir fileMD5 glob compile meta (mkOptions subpath "" (pattern_of originalSQL) false) s.2 with
      | Err e => fail ("REMOVE: " +:+ e)
      | Ok files =>
          let! rows := map_each (remove_one meta namePrefix) files in
          ret (mkQueryResult ["name"; "result"] rows 0 "REMOVE")
      end
  end.
End handlers.

(** ** Statements stay inside the stage they name *)

(** Every stage's directory is a cleaned path: what [filepath.Join] gives. *)
Definition clean_stages (m : Manager) : Prop :=
  baseDir m ≠ ""%string ∧ ∀ key meta, stages m !! key = Some meta → Clean (LocalPath meta) = LocalPath meta.

Lemma PathJoin_clean base es : base ≠ "" → Clean (PathJoin (base :: es)) = PathJoin (base :: es).
Proof. intros Hb. cbn [PathJoin]. rewrite decide_False by done. apply Clean_idem. Qed.

Section contained.
Context {W : Type} `{FileSystem W}.
Context (osStat : string → W → result Z).
Context (walkDir : string → W → list WalkEntry).
Context (fileMD5 : string → W → string).
Context (glob : string → string → result bool).
Context (compile : string → result (string → bool)).
Context (bad_authority bad_fragment : string → bool).
Context (now : Z).

(** What resolving a reference does to the stages and the files. *)
Record resolved (s s' : Manager * W) : Prop := mkResolved {
  res_files : ∀ q, files s'.2 q = files s.2 q;
  res_stages : stages s.1 ⊆ stages s'.1;
  res_base : baseDir s'.1 = baseDir s.1;
  res_clean : clean_stages s.1 → clean_stages s'.1;
}.

Lemma resolved_refl s : resolved s s.
Proof. by split. Qed.

Lemma get_or_create_spec key dir meta s r s' : (∀ l, LocalPath (meta l) = l) →
  (baseDir s.1 ≠ "" → Clean (dir (baseDir s.1)) = dir (baseDir s.1)) →
  get_or_create mkdirAll key dir meta s = (r, s') →
  resolved s s' ∧ ∃ x, r = Ok x ∧ stages s'.1 !! key = Some x.
Proof.
  intros Hmeta Hdir. unfold get_or_create. unfold bind at 1, get. destruct (stages s.1 !! key) as [x|] eqn:E.
  - intros [= <- <-]. split; [apply resolved_refl|eauto].
  - rewrite bind_ignore. unfold bind, modify, ret, lift. pose proof (mkdirAll_files (dir (baseDir s.1)) s.2) as Hm.
    destruct (mkdirAll (dir (baseDir s.1)) s.2) as [r0 w]. cbn in *. intros [= <- <-]. split.
    + split; cbn; [done|by apply insert_subseteq|done|]. intros [Hb Hc]. split; [done|]. cbn.
      intros k y [[<- <-]|[_ Hy]]%lookup_insert_Some; [by rewrite Hmeta, Hdir|by eapply Hc].
    + eexists. split; [done|]. cbn. by rewrite lookup_insert_eq.
Qed.

Lemma resolveStage_spec sess raw s r s' : resolveStage mkdirAll now sess raw s = (r, s') →
  resolved s s' ∧ ∀ meta sub pre, r = Ok (meta, sub, pre) → ∃ key, stages s'.1 !! key = Some meta.
Proof.
  unfold resolveStage. destruct (splitStageRef (cleanIdent raw)) as [[ref subpath]|e]; [|intros [= <- <-]; split; [apply resolved_refl|done]].
  assert (Href : ∀ r s', resolveStageRef mkdirAll now sess ref s = (r, s') →
    resolved s s' ∧ ∀ x, r = Ok x → ∃ key, stages s'.1 !! key = Some x.1).
  { clear r s'. intros r s'. unfold resolveStageRef. case_decide.
    - unfold bind at 1. destruct (GetUserStage mkdirAll now _ s) as [r0 s0] eqn:E.
      apply get_or_create_spec in E as [Hr (x & -> & Hx)]; [|done|intros; by apply PathJoin_clean].
      intros [= <- <-]. split; [done|]. intros y [= <-]. eauto.
    - destruct (HasPrefix ref "%"); destruct (qualifyIdent _ sess) as [[db schema] name];
        case_decide; try (intros [= <- <-]; split; [apply resolved_refl|done]).
      + unfold bind at 1. destruct (GetTableStage mkdirAll now _ _ _ s) as [r0 s0] eqn:E.
        apply get_or_create_spec in E as [Hr (x & -> & Hx)]; [|done|intros; by apply PathJoin_clean].
        intros [= <- <-]. split; [done|]. intros y [= <-]. eauto.
      + unfold bind, get. unfold GetStage. destruct (stages s.1 !! _) as [x|] eqn:E; intros [= <- <-];
          (split; [apply resolved_refl|]); [|done]. intros y [= <-]. eauto. }
  unfold bind. destruct (resolveStageRef mkdirAll now sess ref s) as [[x|e] s0]; destruct (Href _ _ eq_refl) as [Hr Hx].
  - intros [= <- <-]. split; [done|]. intros meta sub pre [= <- _ _]. by apply Hx.
  - intros [= <- <-]. by split.
Qed.

Lemma wrapped_resolve prefix sess raw s r s' : wrapped prefix (resolveStage mkdirAll now sess raw) s = (r, s') →
  resolved s s' ∧ ∀ meta sub pre, r = Ok (meta, sub, pre) →
    resolveStage mkdirAll now sess raw s = (Ok (meta, sub, pre), s') ∧ ∃ key, stages s'.1 !! key = Some meta.
Proof.
  unfold wrapped. destruct (resolveStage mkdirAll now sess raw s) as [r0 s0] eqn:E. intros [= <- <-].
  destruct (resolveStage_spec _ _ _ _ _ E) as [Hr Hk]. split; [done|].
  intros meta sub pre. destruct r0 as [x|]; cbn; [|done]. intros [= ->]. eauto.
Qed.

Lemma within_resolved meta s key path q : clean_stages s → stages s !! key = Some meta →
  ResolveInStage meta path = Ok q → within (LocalPath meta) q.
Proof.
  intros [_ Hc] Hk Hq. pose proof (resolve_spec meta path (Hc _ _ Hk)) as Hs. rewrite Hq in Hs. apply Hs.
Qed.

(** The file [q] may be changed by the statement whose reference is [raw]. *)
Definition named_by (sess : Session) (raw : string) (s : Manager * W) (q : string) : Prop :=
  ∃ meta sub pre s1, resolveStage mkdirAll now sess raw s = (Ok (meta, sub, pre), s1) ∧ within (LocalPath meta) q.

Lemma put_contained sess sql s q : clean_stages s.1 →
  files (handlePut mkdirAll os_files osStat bad_authority bad_fragment now sess sql s).2.2 q ≠ files s.2 q →
  ∃ m, FindStringSubmatch rePutStmt sql = Some m ∧ named_by sess (Trim is_quote (group m 2)) s q.
Proof.
  intros Hc. unfold handlePut. destruct (FindStringSubmatch rePutStmt sql) as [m|]; [|done].
  destruct (fileURLToPath _ _ _) as [localPath|e]; [|done]. unfold bind at 1.
  destruct (wrapped "PUT" _ s) as [[[[meta sub] pre]|e] s1] eqn:E; apply wrapped_resolve in E as [[Hf _ _ Hcl] Hm];
    [|cbn; by rewrite Hf].
  destruct (Hm _ _ _ eq_refl) as [Hres [key Hk]]. unfold bind at 1, get.
  destruct (osStat localPath s1.2) as [size|e]; [|cbn; by rewrite Hf]. unfold bind, catch.
  pose proof (put_files meta localPath (if decide (sub = "") then Base localPath else sub +:+ "/" +:+ Base localPath) s1 q) as Hp.
  destruct (PutMetaFile mkdirAll os_files meta localPath _ s1) as [r s2]. cbn [fst snd] in *.
  intros Hne. exists m. split; [done|]. exists meta, sub, pre, s1. split; [done|].
  eapply within_resolved; [by apply Hcl|done|]. apply Hp; [by eapply Hcl|]. rewrite Hf. by destruct r.
Qed.

(** A loop that changes files one call at a time. *)
Lemma map_each_files {B} (P : string → Prop) (f : FileInfo → GoM (Manager * W) B) l s q :
  (∀ x s, files (f x s).2.2 q ≠ files s.2 q → P q) → files (map_each f l s).2.2 q ≠ files s.2 q → P q.
Proof.
  intros Hf Hne. destruct (decide (files (map_each f l s).2.2 q = files s.2 q)) as [|_]; [done|].
  revert s Hne. induction l as [|x l IH]; intros s; cbn [map_each]; [done|]. unfold bind.
  specialize (Hf x s). destruct (f x s) as [[b|e] s1]; cbn in *; [|done].
  specialize (IH s1). destruct (map_each f l s1) as [[bs|e] s2]; cbn in *; intros Hne;
    (destruct (decide (files s2.2 q = files s1.2 q)) as [E|E]; [apply Hf; by rewrite <- E|by apply IH]).
Qed.

Lemma remove_contained sess sql s q : clean_stages s.1 →
  files (handleRemoveStage mkdirAll remove walkDir fileMD5 glob compile now sess sql s).2.2 q ≠ files s.2 q →
  ∃ m, FindStringSubmatch reRemoveStage sql = Some m ∧ named_by sess (group m 1) s q.
Proof.
  intros Hc. unfold handleRemoveStage. destruct (FindStringSubmatch reRemoveStage sql) as [m|]; [|done]. unfold bind at 1.
  destruct (wrapped "REMOVE" _ s) as [[[[meta sub] pre]|e] s1] eqn:E; apply wrapped_resolve in E as [[Hf _ _ Hcl] Hm];
    [|cbn; by rewrite Hf].
  destruct (Hm _ _ _ eq_refl) as [Hres [key Hk]]. unfold bind at 1, get.
  destruct (ListMetaFiles _ _ _ _ _ _ _) as [fs|e]; [|cbn; by rewrite Hf]. unfold bind.
  pose proof (map_each_files (within (LocalPath meta)) (remove_one remove meta pre) fs s1 q) as Hp.
  destruct (map_each _ fs s1) as [r s2]. cbn [fst snd] in *. intros Hne. exists m. split; [done|].
  exists meta, sub, pre, s1. split; [done|]. apply Hp.
  - intros x s0. unfold remove_one, bind, catch. pose proof (RemoveMetaFile_files meta (f_Name x) s0 q) as Hr.
    destruct (RemoveMetaFile remove meta (f_Name x) s0) as [r0 s0']. cbn. intros Hq. eapply within_resolved; [by apply Hcl|done|].
    by apply Hr.
  - rewrite Hf. by destruct r.
Qed.

Lemma list_changes_nothing sess sql s q :
  files (handleListStage mkdirAll walkDir fileMD5 glob compile now sess sql s).2.2 q = files s.2 q.
Proof.
  unfold handleListStage. destruct (FindStringSubmatch reListStage sql) as [m|]; [|done]. unfold bind at 1.
  destruct (wrapped "LIST" _ s) as [[[[meta sub] pre]|e] s1] eqn:E; apply wrapped_resolve in E as [[Hf _ _ _] _]; [|done].
  unfold bind at 1, get. by destruct (ListMetaFiles _ _ _ _ _ _ _).
Qed.

Lemma PathJoin_base dir p : Clean (PathJoin [dir; Base p]) = PathJoin [dir; Base p].
Proof.
  cbn [PathJoin]. pose proof (Base_nonempty p). repeat case_decide; by rewrite ?Clean_idem.
Qed.

Lemma get_writes_locally sess sql s q :
  files (handleGet mkdirAll os_files walkDir fileMD5 glob compile bad_authority bad_fragment now sess sql s).2.2 q ≠ files s.2 q →
  ∃ m dir name, FindStringSubmatch reGetStmt sql = Some m ∧
    fileURLToPath bad_authority bad_fragment (Trim is_quote (group m 2)) = Ok dir ∧ q = PathJoin [dir; Base name].
Proof.
  unfold handleGet. destruct (FindStringSubmatch reGetStmt sql) as [m|]; [|done].
  destruct (fileURLToPath _ _ _) as [dir|e] eqn:Ed; [|done]. unfold bind at 1.
  destruct (wrapped "GET" _ s) as [[[[meta sub] pre]|e] s1] eqn:E; apply wrapped_resolve in E as [[Hf _ _ _] _];
    [|cbn; by rewrite Hf].
  unfold bind at 1, get. destruct (ListMetaFiles _ _ _ _ _ _ _) as [fs|e]; [|cbn; by rewrite Hf].
  unfold bind, wrapped, lift. pose proof (mkdirAll_files dir s1.2 q) as Hmk.
  destruct (mkdirAll dir s1.2) as [[[]|e] w]; cbn [fst snd wrap_err] in *; [|by rewrite Hmk, Hf].
  pose proof (map_each_files (λ q, ∃ name, q = PathJoin [dir; Base name]) (get_one mkdirAll os_files meta dir) fs (s1.1, w) q) as Hp.
  destruct (map_each _ fs (s1.1, w)) as [r s2]. cbn [fst snd] in *. intros Hne.
  destruct Hp as [name Hn].
  - intros x s0. unfold get_one, bind, catch. pose proof (get_files meta (f_Name x) (PathJoin [dir; Base (f_Name x)]) s0 q) as Hg. rewrite PathJoin_base in Hg.
    destruct (GetMetaFile mkdirAll os_files meta (f_Name x) _ s0) as [r0 s0']. cbn. intros Hq. exists (f_Name x). by apply Hg.
  - rewrite Hmk, Hf. by destruct r.
  - by exists m, dir, name.
Qed.

(** C25: the statements about staged files stay where they belong, whatever text they
    are given.  PUT and REMOVE change files only inside the directory of the stage
    that their reference names, in the session that runs them; LIST changes none;
    GET changes only files directly in the local directory it names; and a stage
    whose names are single path elements shares no file with any other. *)
Theorem stage_statements_contained sess sql s q : clean_stages s.1 →
  (files (handlePut mkdirAll os_files osStat bad_authority bad_fragment now sess sql s).2.2 q ≠ files s.2 q →
     ∃ m, FindStringSubmatch rePutStmt sql = Some m ∧ named_by sess (Trim is_quote (group m 2)) s q) ∧
  (files (handleRemoveStage mkdirAll remove walkDir fileMD5 glob compile now sess sql s).2.2 q ≠ files s.2 q →
     ∃ m, FindStringSubmatch reRemoveStage sql = Some m ∧ named_by sess (group m 1) s q) ∧
  files (handleListStage mkdirAll walkDir fileMD5 glob compile now sess sql s).2.2 q = files s.2 q ∧
  (files (handleGet mkdirAll os_files walkDir fileMD5 glob compile bad_authority bad_fragment now sess sql s).2.2 q ≠ files s.2 q →
     ∃ m dir name, FindStringSubmatch reGetStmt sql = Some m ∧
       fileURLToPath bad_authority bad_fragment (Trim is_quote (group m 2)) = Ok dir ∧ q = PathJoin [dir; Base name]) ∧
  (∀ key meta key' meta', placed (baseDir s.1) s.1 → stages s.1 !! key = Some meta → stages s.1 !! key' = Some meta' →
     key ≠ key' → within (LocalPath meta) q → ¬ within (LocalPath meta') q).
Proof.
  intros Hc. split_all; [by apply put_contained|by apply remove_contained|apply list_changes_nothing|apply get_writes_locally|].
  intros key meta key' meta' [_ Hp] Hk Hk' Hne Hw. exact (places_disjoint _ key key' _ _ q (proj1 Hc) (Hp _ _ Hk) (Hp _ _ Hk') Hne Hw).
Qed.
End contained.

(** ** The same stage under each of its references *)

Lemma qualify1 sess n : no_dot n → qualifyIdent n sess = (Database sess, Schema sess, n).
Proof. intros Hn. unfold qualifyIdent. by rewrite SplitByte_single. Qed.
Lemma qualify2 sess sc n : no_dot sc → no_dot n → qualifyIdent (sc +:+ "." +:+ n) sess = (Database sess, sc, n).
Proof. intros Hs Hn. unfold qualifyIdent. change ("." +:+ n) with (String dot n). by rewrite SplitByte_app, !SplitByte_single. Qed.
Lemma qualify3 sess db sc n : no_dot db → no_dot sc → no_dot n → qualifyIdent (dotted db sc n) sess = (db, sc, n).
Proof.
  intros Hd Hs Hn. unfold qualifyIdent, dotted.
  change (db +:+ "." +:+ sc +:+ "." +:+ n) with (db +:+ String dot (sc +:+ String dot n)).
  by rewrite !SplitByte_app, !SplitByte_single.
Qed.

(** A name that a reference can begin with. *)
Definition ref_name (n : string) : Prop := no_dot n ∧ HasPrefix n "%" = false.

Lemma percent_app n t : HasPrefix n "%" = false → n ≠ "" → HasPrefix (n +:+ t) "%" = false.
Proof.
  destruct n as [|d n]; [done|]. unfold HasPrefix. cbn [TrimPrefixOpt]. change (String d n +:+ t) with (String d (n +:+ t)).
  cbn [TrimPrefixOpt]. destruct (decide _); [by destruct n|done].
Qed.

Lemma HasPrefix_percent n : HasPrefix ("%" +:+ n) "%" = true.
Proof. apply HasPrefix_app. Qed.
Lemma TrimPrefix_percent n : TrimPrefix ("%" +:+ n) "%" = n.
Proof. unfold TrimPrefix. by rewrite TrimPrefixOpt_app. Qed.

Lemma tilde_dotted a b : a +:+ "." +:+ b ≠ "~".
Proof. destruct a as [|c [|d a]]; intros [=]. Qed.

(** A stage is the same under each of its references: the bare name, the name
    with its schema and the name with its database and schema resolve alike in a
    session of that database and schema, in upper or lower case, for named and for
    table stages; and resolving a reference again gives the same stage without any
    further change. *)
Theorem references_agree {W} (mkdirAll : string → W → result unit * W) now sess s n n' :
  no_dot (Database sess) → no_dot (Schema sess) → Database sess ≠ "" → Schema sess ≠ "" →
  HasPrefix (Database sess) "%" = false → HasPrefix (Schema sess) "%" = false →
  ref_name n → ref_name n' → ToUpper n = ToUpper n' → n ≠ "~" → n' ≠ "~" →
  let resolve := λ ref, resolveStageRef mkdirAll now sess ref s in
  resolve (Schema sess +:+ "." +:+ n) = resolve n ∧
  resolve (dotted (Database sess) (Schema sess) n) = resolve n ∧
  resolve ("%" +:+ Schema sess +:+ "." +:+ n) = resolve ("%" +:+ n) ∧
  resolve ("%" +:+ dotted (Database sess) (Schema sess) n) = resolve ("%" +:+ n) ∧
  resolve n' = resolve n ∧ resolve ("%" +:+ n') = resolve ("%" +:+ n) ∧
  ∀ ref x s1 later, resolve ref = (Ok x, s1) → resolveStageRef mkdirAll later sess ref s1 = (Ok x, s1).
Proof.
  intros Hdb Hsc Hdbne Hscne Hdbp Hscp [Hn Hnp] [Hn' Hnp'] Hup Ht Ht' resolve.
  assert (Hfold : ToLower n = ToLower n') by (by apply ToUpper_ToLower_iff).
  assert (Hempty : n = "" ↔ n' = "").
  { split; intros ->; [destruct n' as [|c t]|destruct n as [|c t]]; done. }
  unfold resolve, resolveStageRef. rewrite !(decide_False (P:=_ = "~"%string)) by (done || apply tilde_dotted).
  rewrite !HasPrefix_percent, !TrimPrefix_percent, Hnp, Hnp'.
  rewrite (percent_app (Schema sess)) by done. unfold dotted at 1. rewrite (percent_app (Database sess)) by done.
  rewrite qualify2, qualify3, !qualify1 by done. split_all; [done..| | |].
  - assert (GetStage s.1 (Database sess) (Schema sess) n' = GetStage s.1 (Database sess) (Schema sess) n) as Hg.
    { unfold GetStage. by rewrite (stageKey_upper _ _ n' (Database sess) (Schema sess) n). }
    destruct (decide (n' = "")), (decide (n = "")); [done|tauto|tauto|].
    unfold bind, get. by rewrite Hg, Hfold.
  - unfold GetTableStage, table_stage_dir. rewrite Hup, Hfold.
    destruct (decide (n' = "")), (decide (n = "")); [done|tauto|tauto|done].
  - intros ref x s1 later.
    assert (Hgc : ∀ key dir m m' r s1, get_or_create mkdirAll key dir m s = (r, s1) →
      get_or_create mkdirAll key dir m' s1 = (r, s1)).
    { intros key dir m m' r s0. unfold get_or_create. unfold bind at 1, get. destruct (stages s.1 !! key) as [y|] eqn:E.
      - intros [= <- <-]. unfold bind, get. by rewrite E.
      - rewrite bind_ignore. unfold bind, modify, ret, lift. destruct (mkdirAll _ _) as [r0 w]. cbn. intros [= <- <-].
        cbn. by rewrite lookup_insert_eq. }
    case_decide.
    + unfold bind. destruct (GetUserStage mkdirAll now _ s) as [[y|e] s0] eqn:E; [|done]. intros [= <- <-].
      unfold GetUserStage in *. by rewrite (Hgc _ _ _ _ _ _ E).
    + destruct (HasPrefix ref "%"); destruct (qualifyIdent _ sess) as [[db schema] name]; case_decide; try done.
      * unfold bind. destruct (GetTableStage mkdirAll now _ _ _ s) as [[y|e] s0] eqn:E; [|done]. intros [= <- <-].
        unfold GetTableStage in *. by rewrite (Hgc _ _ _ _ _ _ E).
      * unfold bind, get. destruct (GetStage s.1 db schema name) as [y|e] eqn:E; [|done]. intros [= <- <-]. by rewrite E.
Qed.

Lemma placed_clean base m : base ≠ "" → placed base m → clean_stages m.
Proof.
  intros Hb [<- Hm]. split; [done|]. intros key meta Hk. by destruct (place_parts _ _ _ Hb (Hm _ _ Hk)) as (? & _).
Qed.

(** ** Witnesses *)

Definition sample_session : Session := mkSession "id" "token" "db" "s" "WH" "SYSADMIN" "bob" 0 0.
Definition sample_stat (p : string) (w : gmap string string) : result Z :=
  match w !! p with Some c => Ok (Z.of_nat (String.length c)) | None => Err ("stat " +:+ p +:+ ": no such file or directory") end.
Definition sample_put (sql : string) : result QueryResult * (Manager * gmap string string) :=
  handlePut (mkdirAll (FileSystem:=toy_fs)) (os_files (FileSystem:=toy_fs)) sample_stat (λ _, false) (λ _, false) 0
    sample_session sql Stage.sample.

Example put_answers : (sample_put "PUT 'file:///tmp/f' @ONE/in").1 = Ok (mkQueryResult put_columns
  [[CStr "f"; CStr "in/f"; CInt 7; CInt 7; CStr "NONE"; CStr "NONE"; CStr "UPLOADED"; CStr "AUTO"; CStr ""]] 0 "PUT").
Proof. vm_compute. reflexivity. Qed.
Example put_escape_refused : (sample_put "PUT file:///tmp/f @one/../two").1 = Ok (mkQueryResult put_columns
  [[CStr "f"; CStr "../two/f"; CInt 7; CInt 0; CStr "NONE"; CStr "NONE"; CStr "ERROR"; CStr "AUTO";
    CStr ("stage path " +:+ Quote "../two/f" +:+ " escapes the stage")]] 0 "PUT").
Proof. vm_compute. reflexivity. Qed.
Example url_paths :
  fileURLToPath (λ _, false) (λ _, false) "file:///a%20b/c?x#y" = Ok "/a b/c" ∧
  fileURLToPath (λ _, false) (λ _, false) "file://host/a" = Ok "/a" ∧
  is_ok (fileURLToPath (λ _, false) (λ _, false) "file:///100%") = false ∧
  is_ok (fileURLToPath (λ _, false) (λ _, false) "data.csv") = false.
Proof. vm_compute. repeat split. Qed.
Example list_time : format_list_time (1709164799 * Second) = "Wed, 28 Feb 2024 23:59:59 GMT".
Proof. reflexivity. Qed.

Lemma stage_statements_contained_witness :
  (sample_put "PUT file:///tmp/f @one/in").2.2 !! "stages/stages/DB/S/ONE/in/f" = Some "content"%string ∧
  named_by (H:=toy_fs) 0 sample_session "one/in" Stage.sample "stages/stages/DB/S/ONE/in/f".
Proof.
  split; [vm_compute; reflexivity|].
  destruct (stage_statements_contained (H:=toy_fs) sample_stat (λ _ _, []) (λ _ _, "") (λ _ _, Ok true) (λ _, Err "")
    (λ _, false) (λ _, false) 0 sample_session "PUT file:///tmp/f @one/in" Stage.sample "stages/stages/DB/S/ONE/in/f"
    (placed_clean "./stages" _ ltac:(discriminate) (stage_reachable_placed _ _ stage_sample_reachable))) as [Hput _].
  destruct Hput as (m & Hm & Hn).
  - vm_compute. discriminate.
  - assert (E : (λ m, Trim is_quote (group m 2)) <$> FindStringSubmatch rePutStmt "PUT file:///tmp/f @one/in" = Some "one/in"%string).
    { vm_compute. reflexivity. }
    rewrite Hm in E. cbn in E. injection E as E. rewrite <- E. exact Hn.
Defined.

Lemma references_agree_witness :
  is_ok (resolveStageRef (mkdirAll (FileSystem:=toy_fs)) 0 sample_session "one" Stage.sample).1 = true ∧
  resolveStageRef (mkdirAll (FileSystem:=toy_fs)) 0 sample_session "db.s.one" Stage.sample =
  resolveStageRef (mkdirAll (FileSystem:=toy_fs)) 0 sample_session "one" Stage.sample.
Proof.
  split; [vm_compute; reflexivity|].
  apply (references_agree (mkdirAll (FileSystem:=toy_fs)) 0 sample_session Stage.sample "one" "ONE");
    first [discriminate | reflexivity | split; [|reflexivity] | idtac]; apply (bool_decide_unpack _); vm_compute; exact I.
Defined.

(** Two slips of references: the table form is only known by its first character,
    and empty parts are taken, so that a table stage may be the directory that
    holds all the table stages of a database. *)
Definition sample_resolve (raw : string) : result string :=
  result_map (λ x, LocalPath x.1.1)
    (resolveStage (mkdirAll (FileSystem:=toy_fs)) 0 sample_session raw (NewManager "stages", (∅ : gmap string string))).1.
Example qualified_table_stage :
  sample_resolve "%s.t" = Ok "stages/table_stages/DB/S/T" ∧
  sample_resolve "s.%t" = Err "stage 'DB.S.%T' does not exist".
Proof. vm_compute. split; reflexivity. Qed.
Example empty_parts_taken :
  sample_resolve "%..db" = Ok "stages/table_stages/DB" ∧
  sample_resolve "%db.s.t" = Ok "stages/table_stages/DB/S/T".
Proof. vm_compute. split; reflexivity. Qed.
(** The user of a session is not checked to be a path element either. *)
Example user_stage_outside :
  result_map (λ x, LocalPath x.1) (resolveStageRef (mkdirAll (FileSystem:=toy_fs)) 0
    (mkSession "id" "token" "db" "s" "WH" "SYSADMIN" "../../../etc" 0 0) "~" (NewManager "stages", (∅ : gmap string string))).1
  = Ok "../ETC".
Proof. vm_compute. reflexivity. Qed.
