(* ===== verification/Parameters.v ===== *)
(** * Parameters and LIKE patterns ([internal/orchestrator/snowflake_handlers.go])

    The table that SHOW PARAMETERS lists, and the LIKE patterns that select from
    it, which the source compiles to regular expressions. *)

From S2P Require Import Prelude GoStrings Regexp StageRef.
From Stdlib Require Import Ascii.

Record snowflakeParameter := mkParameter {
  Key : string;
  Value : string;
  Default : string;
  Level : string;
  Description : string;
  Type_ : string;
}.

Definition defaultSessionParameters : list snowflakeParameter :=
  [mkParameter "ABORT_DETACHED_QUERY" "false" "false" "" "abort queries when the client disconnects" "BOOLEAN";
   mkParameter "AUTOCOMMIT" "true" "true" "" "autocommit mode" "BOOLEAN";
   mkParameter "BINARY_OUTPUT_FORMAT" "HEX" "HEX" "" "display format for binary" "STRING";
   mkParameter "CLIENT_RESULT_CHUNK_SIZE" "160" "160" "" "result chunk size in MB" "NUMBER";
   mkParameter "CLIENT_SESSION_KEEP_ALIVE" "false" "false" "" "keep session alive between requests" "BOOLEAN";
   mkParameter "CLIENT_SESSION_KEEP_ALIVE_HEARTBEAT_FREQUENCY" "3600" "3600" "" "heartbeat frequency in seconds" "NUMBER";
   mkParameter "DATE_OUTPUT_FORMAT" "YYYY-MM-DD" "YYYY-MM-DD" "" "display format for date" "STRING";
   mkParameter "ERROR_ON_NONDETERMINISTIC_MERGE" "true" "true" "" "error on nondeterministic MERGE" "BOOLEAN";
   mkParameter "ERROR_ON_NONDETERMINISTIC_UPDATE" "false" "false" "" "error on nondeterministic UPDATE" "BOOLEAN";
   mkParameter "GEOGRAPHY_OUTPUT_FORMAT" "GeoJSON" "GeoJSON" "" "display format for GEOGRAPHY" "STRING";
   mkParameter "JSON_INDENT" "2" "2" "" "indent for JSON output" "NUMBER";
   mkParameter "LOCK_TIMEOUT" "43200" "43200" "" "lock timeout in seconds" "NUMBER";
   mkParameter "QUERY_TAG" "" "" "" "query tag" "STRING";
   mkParameter "QUOTED_IDENTIFIERS_IGNORE_CASE" "false" "false" "" "case-insensitive quoted identifiers" "BOOLEAN";
   mkParameter "ROWS_PER_RESULTSET" "0" "0" "" "max rows per result set (0 = unlimited)" "NUMBER";
   mkParameter "SIMULATED_DATA_SHARING_CONSUMER" "" "" "" "simulated data sharing consumer" "STRING";
   mkParameter "STATEMENT_TIMEOUT_IN_SECONDS" "172800" "172800" "" "statement timeout in seconds" "NUMBER";
   mkParameter "TIMESTAMP_LTZ_OUTPUT_FORMAT" "" "" "" "display format for TIMESTAMP_LTZ" "STRING";
   mkParameter "TIMESTAMP_NTZ_OUTPUT_FORMAT" "YYYY-MM-DD HH24:MI:SS.FF3" "YYYY-MM-DD HH24:MI:SS.FF3" "" "display format for TIMESTAMP_NTZ" "STRING";
   mkParameter "TIMESTAMP_OUTPUT_FORMAT" "YYYY-MM-DD HH24:MI:SS.FF3 TZHTZM" "YYYY-MM-DD HH24:MI:SS.FF3 TZHTZM" "" "display format for timestamps" "STRING";
   mkParameter "TIMESTAMP_TZ_OUTPUT_FORMAT" "" "" "" "display format for TIMESTAMP_TZ" "STRING";
   mkParameter "TIMEZONE" "America/Los_Angeles" "America/Los_Angeles" "" "time zone" "STRING";
   mkParameter "TIME_INPUT_FORMAT" "AUTO" "AUTO" "" "input format for time" "STRING";
   mkParameter "TIME_OUTPUT_FORMAT" "HH24:MI:SS" "HH24:MI:SS" "" "display format for time" "STRING";
   mkParameter "TRANSACTION_ABORT_ON_ERROR" "false" "false" "" "abort transaction on statement error" "BOOLEAN";
   mkParameter "TWO_DIGIT_CENTURY_START" "1970" "1970" "" "century start for two-digit years" "NUMBER";
   mkParameter "UNSUPPORTED_DDL_ACTION" "ignore" "ignore" "" "action on unsupported DDL" "STRING";
   mkParameter "USE_CACHED_RESULT" "true" "true" "" "reuse cached query results" "BOOLEAN"].

(** [SessionParameter]: a name and its typed value. *)
Definition parameter_value (p : snowflakeParameter) : cell :=
  if decide (Type_ p = "BOOLEAN") then CBool (EqualFold (Value p) "true")
  else if decide (Type_ p = "NUMBER") then match Atoi (Value p) with Some n => CInt n | None => CStr (Value p) end
  else CStr (Value p).
Definition DefaultSessionParameters : list (string * cell) :=
  (λ p, (Key p, parameter_value p)) <$> defaultSessionParameters.

Definition defaultAccountParameters : list snowflakeParameter :=
  [mkParameter "MAX_CONCURRENCY_LEVEL" "8" "8" "" "max concurrency level" "NUMBER";
   mkParameter "PERIODIC_DATA_REKEYING" "true" "true" "" "periodic data rekeying" "BOOLEAN"].

(** ** LIKE *)

Definition like_special (c : ascii) : bool := bool_decide (c ∈ bytes ".+*?()[]{}^$|\").

(** What a byte of the pattern becomes. *)
Definition like_piece (c : ascii) : string :=
  if decide (c = "%"%char) then ".*"
  else if decide (c = "_"%char) then "."
  else if like_special c then String "\" (String c "")
  else String c "".
Fixpoint like_pieces (p : string) : string :=
  match p with "" => "" | String c p => like_piece c +:+ like_pieces p end.

Definition matchLike (pattern value : string) : bool :=
  match Compile ("(?s)^" +:+ like_pieces (ToUpper pattern) +:+ "$") with
  | None => false
  | Some re => MatchString re (ToUpper value)
  end.

Definition listParameters (likePattern scope : string) : list snowflakeParameter :=
  let params := defaultSessionParameters ++ (if EqualFold scope "ACCOUNT" then defaultAccountParameters else []) in
  if decide (likePattern = "") then params
  else filter (λ p, matchLike likePattern (Key p) = true) params.

Definition object_scopes : list string := ["USER"; "WAREHOUSE"; "DATABASE"; "SCHEMA"; "TASK"; "TABLE"].

Definition handleShowParameters (likePattern scope : string) : result QueryResult :=
  let scope := ToUpper (TrimSpace scope) in
  let scope := if decide (scope = "") then "SESSION" else scope in
  if decide (scope ∈ ["SESSION"; "ACCOUNT"] ++ object_scopes) then
    Ok (mkQueryResult ["key"; "value"; "default"; "level"; "description"; "type"]
      ((λ p, CStr <$> [Key p; Value p; Default p; Level p; Description p; Type_ p]) <$> listParameters likePattern scope)
      0 "SHOW")
  else Err ("SHOW PARAMETERS: unsupported scope " +:+ Quote scope).

(** ** What a LIKE pattern means *)

Fixpoint suffixes (s : string) : list string :=
  s :: match s with "" => [] | String _ t => suffixes t end.

Fixpoint like (p v : string) : bool :=
  match p with
  | "" => bool_decide (v = "")
  | String c p =>
      if decide (c = "%"%char) then existsb (like p) (suffixes v)
      else match v with
      | "" => false
      | String d v => (bool_decide (c = "_"%char) || bool_decide (c = d)) && like p v
      end
  end.

(** *** The pattern's text parses to its pieces *)

Definition any : Regexp := Class (λ c, true || negb (N_of_ascii c =? 10)%N).
Definition dot_all : Flags := mkFlags false true.
Definition piece_re (c : ascii) : Regexp :=
  if decide (c = "%"%char) then Star true any
  else if decide (c = "_"%char) then any
  else lit dot_all c.
Fixpoint pieces_re (acc : Regexp) (p : string) : Regexp :=
  match p with "" => acc | String c p => pieces_re (Cat acc (piece_re c)) p end.

(** A text that repeats nothing before it. *)
Definition no_rep (s : string) : Prop :=
  match s with "" => True | String c _ => c ≠ "*"%char ∧ c ≠ "+"%char ∧ c ≠ "?"%char end.

Lemma parse_rep_none r s : no_rep s → parse_rep r s = (r, s).
Proof.
  destruct s as [|[b0 b1 b2 b3 b4 b5 b6 b7] s]; [done|]. cbn [no_rep]. intros (H1 & H2 & H3).
  destruct b0, b1, b2, b3, b4, b5, b6, b7; try reflexivity; first [by destruct H1|by destruct H2|by destruct H3].
Qed.

Lemma parse_rep_star r s : no_rep s → parse_rep r (String "*" s) = (Star true r, s).
Proof.
  destruct s as [|[b0 b1 b2 b3 b4 b5 b6 b7] s]; [done|]. cbn [no_rep]. intros (H1 & H2 & H3).
  destruct b0, b1, b2, b3, b4, b5, b6, b7; try reflexivity; by destruct H3.
Qed.

Lemma like_piece_no_rep c s : no_rep (like_piece c +:+ s).
Proof.
  unfold like_piece. destruct (decide (c = "%"%char)); [by apply (bool_decide_unpack _)|].
  destruct (decide (c = "_"%char)); [by apply (bool_decide_unpack _)|].
  destruct (like_special c) eqn:E; [by apply (bool_decide_unpack _)|]. cbn.
  apply bool_decide_eq_false in E. split_all; intros ->; apply E; by apply (bool_decide_unpack _).
Qed.

Lemma like_pieces_no_rep p : no_rep (like_pieces p +:+ "$").
Proof.
  destruct p as [|c p]; [by apply (bool_decide_unpack _)|]. cbn [like_pieces]. rewrite string_app_assoc.
  apply like_piece_no_rep.
Qed.

(** A byte that a pattern may hold as it is. *)
Lemma parse_plain fuel n acc c s : like_special c = false → no_rep s →
  parse_cat (S fuel) dot_all n (Some acc) (String c s) =
  parse_cat fuel dot_all n (Some (Cat acc (lit dot_all c))) s.
Proof.
  intros Hc Hs. pose proof (parse_rep_none (lit dot_all c) s Hs) as Hr.
  transitivity (let '(r, s) := parse_rep (lit dot_all c) s in parse_cat fuel dot_all n (Some (Cat acc r)) s);
    [|by rewrite Hr].
  destruct c as [b0 b1 b2 b3 b4 b5 b6 b7].
  destruct b0, b1, b2, b3, b4, b5, b6, b7; first [reflexivity|discriminate Hc].
Qed.

Lemma parse_escaped fuel n acc c s : like_special c = true → no_rep s →
  parse_cat (S fuel) dot_all n (Some acc) (String "\" (String c s)) =
  parse_cat fuel dot_all n (Some (Cat acc (lit dot_all c))) s.
Proof.
  intros Hc Hs. pose proof (parse_rep_none (lit dot_all c) s Hs) as Hr.
  transitivity (let '(r, s) := parse_rep (lit dot_all c) s in parse_cat fuel dot_all n (Some (Cat acc r)) s);
    [|by rewrite Hr].
  destruct c as [b0 b1 b2 b3 b4 b5 b6 b7].
  destruct b0, b1, b2, b3, b4, b5, b6, b7; first [discriminate Hc|reflexivity].
Qed.

Lemma parse_any fuel n acc s : no_rep s →
  parse_cat (S fuel) dot_all n (Some acc) (String "." s) = parse_cat fuel dot_all n (Some (Cat acc any)) s.
Proof.
  intros Hs. transitivity (let '(r, s) := parse_rep any s in parse_cat fuel dot_all n (Some (Cat acc r)) s); [reflexivity|].
  by rewrite parse_rep_none.
Qed.

Lemma parse_many fuel n acc s : no_rep s →
  parse_cat (S fuel) dot_all n (Some acc) (String "." (String "*" s)) =
  parse_cat fuel dot_all n (Some (Cat acc (Star true any))) s.
Proof.
  intros Hs. transitivity (let '(r, s) := parse_rep any (String "*" s) in parse_cat fuel dot_all n (Some (Cat acc r)) s);
    [reflexivity|]. by rewrite parse_rep_star.
Qed.

Lemma parse_piece fuel n acc c s : no_rep s →
  parse_cat (S fuel) dot_all n (Some acc) (like_piece c +:+ s) = parse_cat fuel dot_all n (Some (Cat acc (piece_re c))) s.
Proof.
  intros Hs. unfold like_piece, piece_re.
  destruct (decide (c = "%"%char)); [by apply parse_many|].
  destruct (decide (c = "_"%char)); [by apply parse_any|].
  destruct (like_special c) eqn:E; [by apply parse_escaped|by apply parse_plain].
Qed.

Lemma parse_pieces p : ∀ fuel n acc, (String.length p + 2 ≤ fuel)%nat →
  parse_cat fuel dot_all n (Some acc) (like_pieces p +:+ "$") = Some (Cat (pieces_re acc p) TextEnd, dot_all, n, "").
Proof.
  induction p as [|c p IH]; intros fuel n acc Hf.
  - do 2 (destruct fuel as [|fuel]; [cbn in Hf; lia|]). reflexivity.
  - destruct fuel as [|fuel]; [cbn in Hf; lia|]. cbn [like_pieces]. rewrite string_app_assoc.
    rewrite parse_piece by apply like_pieces_no_rep. rewrite IH by (cbn in Hf; lia). done.
Qed.

Lemma like_pieces_length p : (String.length p ≤ String.length (like_pieces p))%nat.
Proof.
  induction p as [|c p IH]; cbn [like_pieces String.length]; [lia|]. rewrite string_app_length.
  assert (1 ≤ String.length (like_piece c))%nat; [|lia]. unfold like_piece. repeat case_match; cbn; lia.
Qed.

Lemma parse_alt_eq fuel fl n s : parse_alt (S fuel) fl n s =
  match parse_cat fuel fl n None s with
  | Some (r, fl, n, String "|" s) =>
      match parse_alt fuel fl n s with Some (r', n, s) => Some (Alt r r', n, s) | None => None end
  | Some (r, _, n, s) => Some (r, n, s)
  | None => None
  end.
Proof. reflexivity. Qed.
Lemma parse_flag_s fuel n acc s :
  parse_cat (S fuel) (mkFlags false false) n acc (String "(" (String "?" (String "s" (String ")" s)))) =
  parse_cat fuel dot_all n acc s.
Proof. reflexivity. Qed.
Lemma parse_caret fuel fl n s :
  parse_cat (S fuel) fl n None (String "^" s) =
  let '(r, s) := parse_rep TextStart s in parse_cat fuel fl n (Some r) s.
Proof. reflexivity. Qed.

(** The parser on a pattern that begins with the flag and the anchor. *)
Lemma parse_head l t r : no_rep t → parse_cat (S l) dot_all 1 (Some TextStart) t = Some (r, dot_all, 1%nat, ""%string) →
  parse_alt (S (S (S (S l)))) (mkFlags false false) 1 (String "(" (String "?" (String "s" (String ")" (String "^" t))))) =
  Some (r, 1%nat, ""%string).
Proof.
  intros Hn Hr. rewrite parse_alt_eq, parse_flag_s.
  rewrite parse_caret, parse_rep_none by done. by rewrite Hr.
Qed.

Lemma compile_like p : Compile ("(?s)^" +:+ like_pieces p +:+ "$") = Some (Cat (pieces_re TextStart p) TextEnd).
Proof.
  unfold Compile. set (t := like_pieces p +:+ "$"). pose proof (like_pieces_length p) as Hlen.
  assert (∃ l, 2 * String.length ("(?s)^" +:+ t) + 2 = S (S (S (S l))) ∧ String.length p + 2 ≤ S l)%nat as (l & -> & Hl).
  { exists (2 * String.length ("(?s)^" +:+ t) - 2)%nat. unfold t. rewrite !string_app_length. cbn [String.length]. lia. }
  change ("(?s)^" +:+ t) with (String "(" (String "?" (String "s" (String ")" (String "^" t))))).
  rewrite (parse_head l t (Cat (pieces_re TextStart p) TextEnd)); [done|apply like_pieces_no_rep|].
  by apply parse_pieces.
Qed.

(** *** The pieces match as the pattern means *)

(** The positions that the text of a pattern leads to. *)
Inductive like_to : string → Pos → Pos → Prop :=
  | like_end p : like_to "" p p
  | like_piece_to c s p p1 p' c0 c1 : matches (piece_re c) p c0 p1 c1 → like_to s p1 p' → like_to (String c s) p p'.

Lemma any_matches p c p' c' : matches any p c p' c' ↔ ∃ ch, rest p = String ch (rest p') ∧ before p' = Some ch ∧ c' = c.
Proof.
  split.
  - intros Hm. inversion Hm; subst. cbn. eauto.
  - destruct p as [b s], p' as [b' s']. cbn. intros (ch & -> & -> & ->). by constructor.
Qed.

Lemma no_caps c p c0 p' c1 : matches (piece_re c) p c0 p' c1 → c1 = c0.
Proof.
  unfold piece_re. repeat case_decide; intros Hm.
  - remember (Star true any) as r. induction Hm; simplify_eq; [done|]. rewrite IHHm2 by done.
    apply any_matches in Hm1 as (? & _ & _ & ?). congruence.
  - apply any_matches in Hm as (? & _ & _ & ?). done.
  - by inversion Hm.
Qed.

Lemma pieces_to s : ∀ acc p c p' c', matches (pieces_re acc s) p c p' c' ↔
  ∃ p1, matches acc p c p1 c' ∧ like_to s p1 p'.
Proof.
  induction s as [|ch s IH]; intros acc p c p' c'; cbn [pieces_re].
  - split; [intros Hm; exists p'; split; [done|constructor]|]. intros (p1 & Hm & Hl). by inversion Hl; subst.
  - rewrite IH. split.
    + intros (p1 & Hm & Hl). inversion Hm; subst. match goal with H : matches (piece_re _) _ _ _ _ |- _ => pose proof (no_caps _ _ _ _ _ H) as -> end.
      eexists. split; [done|]. by econstructor.
    + intros (p1 & Hm & Hl). inversion Hl; subst.
      match goal with H : matches (piece_re _) _ _ _ _ |- _ => rename H into Hp end.
      eexists. split; [|done]. econstructor; [done|].
      assert (Hany : ∀ r q c0 q' c1 c2, (∃ ch, r = piece_re ch) → matches r q c0 q' c1 → matches r q c2 q' c2).
      { clear. intros r q c0 q' c1 c2 [ch ->]. unfold piece_re. repeat case_decide; intros Hm.
        - remember (Star true any) as r. induction Hm; simplify_eq; [by constructor|]. econstructor; [|done|by apply IHHm2].
          apply any_matches in Hm1 as (? & ? & ? & _). apply any_matches. eauto.
        - apply any_matches in Hm as (? & ? & ? & _). apply any_matches. eauto.
        - inversion Hm; subst. by constructor. }
      eapply Hany; [by eexists|done].
Qed.

Lemma star_any p c p' c' : matches (Star true any) p c p' c' → rest p' ∈ suffixes (rest p).
Proof.
  intros Hm. remember (Star true any) as r. induction Hm; simplify_eq.
  - destruct p as [b [|? s]]; left.
  - apply any_matches in Hm1 as (ch & -> & _). cbn. right. by apply IHHm2.
Qed.

Lemma any_star p s c : s ∈ suffixes (rest p) → ∃ p', rest p' = s ∧ matches (Star true any) p c p' c.
Proof.
  destruct p as [b t]. cbn. revert b. induction t as [|d t IH]; intros b; cbn.
  - intros ->%list_elem_of_singleton. eexists. split; [|constructor]. done.
  - intros [->|Hs]%elem_of_cons; [eexists; split; [|constructor]; done|].
    destruct (IH (Some d) Hs) as (p' & Hr & Hm). exists p'. split; [done|].
    apply (matches_star_cons _ _ _ c (mkPos (Some d) t) c); [by constructor| |done].
    unfold shorter. apply Nat.ltb_lt. cbn. lia.
Qed.

Lemma like_to_spec s p : (∃ p', like_to s p p' ∧ rest p' = "") ↔ like s (rest p) = true.
Proof.
  revert p. induction s as [|c s IH]; intros p; cbn [like].
  - rewrite bool_decide_eq_true. split; [intros (p' & Hl & Hr); by inversion Hl; subst|eauto using like_to].
  - case_decide as Hc.
    + rewrite existsb_exists. split.
      * intros (p' & Hl & Hr). inversion Hl; subst. match goal with H : matches _ _ _ _ _ |- _ => rename H into Hm end.
        unfold piece_re in Hm. rewrite decide_True in Hm by done. apply star_any in Hm.
        exists (rest p1). split; [by apply list_elem_of_In|]. apply IH. eauto.
      * intros (t & Ht & Hl). apply list_elem_of_In, (any_star p t []) in Ht as (p1 & <- & Hm).
        apply IH in Hl as (p' & Hl & Hr). exists p'. split; [|done]. econstructor; [|done].
        unfold piece_re. rewrite decide_True by done. exact Hm.
    + split.
      * intros (p' & Hl & Hr). inversion Hl; subst. match goal with H : matches _ _ _ _ _ |- _ => rename H into Hm end.
        unfold piece_re in Hm. rewrite decide_False in Hm by done. case_decide as Hu.
        -- apply any_matches in Hm as (ch & -> & _). rewrite bool_decide_true by done. cbn. apply IH. eauto.
        -- inversion Hm; subst. cbn in *. match goal with H : bool_decide _ = true |- _ => apply bool_decide_eq_true in H end.
           subst ch. rewrite (bool_decide_true (c = c)) by done. rewrite orb_true_r. cbn.
           match goal with H : like_to s ?q p' |- _ => change s0 with (rest q); apply IH end. eauto.
      * destruct p as [b [|d t]]; cbn; [done|]. intros [Hd Ht]%andb_true_iff.
        apply (IH (mkPos (Some d) t)) in Ht as (p' & Hl & Hr). exists p'. split; [|done].
        apply (like_piece_to _ _ _ (mkPos (Some d) t) _ [] []); [|done]. unfold piece_re. rewrite decide_False by done.
        case_decide as Hu; [by apply matches_class|]. apply orb_true_iff in Hd as [Hd|Hd]; apply bool_decide_eq_true in Hd; [done|].
        apply matches_class. by apply bool_decide_eq_true.
Qed.

Lemma start_matches p c p' c' : matches TextStart p c p' c' → before p = None ∧ p' = p.
Proof. intros Hm. by inversion Hm. Qed.
Lemma last_byte_of_String b x s : None ≠ last_byte b (String x s).
Proof. revert b x. induction s as [|y s IH]; intros b x; [done|]. apply (IH (Some x) y). Qed.

(** C34: LIKE patterns mean what SQL says: the regular expression that [matchLike]
    builds compiles for every pattern, and matches exactly when the value is made
    of the pattern's bytes, with any text for each percent sign and one byte for
    each underscore, in upper or lower case. *)
Theorem match_like_spec pattern value : matchLike pattern value = like (ToUpper pattern) (ToUpper value).
Proof.
  unfold matchLike. rewrite compile_like. apply eq_iff_eq_true. rewrite <- (like_to_spec _ (mkPos None (ToUpper value))).
  unfold MatchString, find.
  pose proof (find_from_spec (Cat (pieces_re TextStart (ToUpper pattern)) TextEnd) None (ToUpper value)) as Hf.
  destruct (find_from _ None (ToUpper value)) as [[pre m]|]; split; intros H; try done.
  - destruct Hf as (E & Hb & Hm & _). inversion Hm; subst.
    match goal with H : matches (pieces_re _ _) _ _ _ _ |- _ => apply pieces_to in H as (p1 & Hs & Hl) end.
    apply start_matches in Hs as [Hnone ->]. rewrite Hnone in Hb.
    destruct pre as [|x pre]; [|by apply last_byte_of_String in Hb]. cbn in E.
    assert (m_start m = mkPos None (ToUpper value)) as <- by (destruct (m_start m); cbn in *; congruence).
    eexists. split; [exact Hl|].
    match goal with H : matches TextEnd _ _ _ _ |- _ => by inversion H end.
  - exfalso. destruct H as (p' & Hl & Hr). apply (Hf "" (ToUpper value) eq_refl p' []).
    econstructor; [apply pieces_to; eexists; split; [constructor|exact Hl]|]. destruct p' as [b s]. cbn in Hr. subst s. constructor.
Qed.

Example like_samples :
  matchLike "%time%" "TIMEZONE" = true ∧ matchLike "T_ME%" "timezone" = true ∧ matchLike "JSON.INDENT" "JSON_INDENT" = false ∧
  matchLike "JSON_INDENT" "JSON_INDENT" = true ∧ matchLike "" "X" = false.
Proof. vm_compute. repeat split. Qed.
Example show_parameters_scope :
  result_map (λ r, length (Rows r)) (handleShowParameters "%TIMESTAMP%" " account ") = Ok 4%nat ∧
  is_ok (handleShowParameters "" "ROLE") = false.
Proof. vm_compute. split; reflexivity. Qed.
