(* ===== verification/Orchestrator.v ===== *)
(** * The orchestrator ([internal/orchestrator/orchestrator.go] and
    [snowflake_handlers.go])

    Routing a statement: it is rewritten, then handled by the first of the marker,
    DDL, DML, transaction and query handlers that recognises it.  The state holds
    every subsystem, each modelled in its own file, and the outside world [W]: the
    database and the file system.  All subsystems are present, as [main.go] wires
    them, so that the nil checks of the source are always passed. *)

From S2P Require Import Prelude GoStrings GoTime GoPath Regexp Rewriter Rbac Stream Snowpipe Catalog Session TimeTravel Clone Cron Task Udf CopyInto Engine Stage StageRef Parameters.
From Stdlib Require Import Ascii.

Record Orchestrator (W : Type) := mkOrchestrator {
  engine : Engine.Engine;
  catalog : Catalog.Catalog;
  stageMgr : Stage.Manager;
  streamEng : Stream.Engine;
  (** the scheduler asks the stream engine whether a stream has data *)
  taskSched : Task.Scheduler (Stream.Engine * W);
  timeTravelEng : TimeTravel.Engine;
  cloneEng : Clone.Engine;
  udfReg : Udf.Registry;
  rbacEng : Rbac.Engine;
  snowpipeEng : Snowpipe.Engine;
  world : W;
}.
Arguments mkOrchestrator {W}.
Arguments engine {W}.
Arguments catalog {W}.
Arguments stageMgr {W}.
Arguments streamEng {W}.
Arguments taskSched {W}.
Arguments timeTravelEng {W}.
Arguments cloneEng {W}.
Arguments udfReg {W}.
Arguments rbacEng {W}.
Arguments snowpipeEng {W}.
Arguments world {W}.

(** ** Calls on one subsystem *)

Section lenses.
Context {W A : Type}.
Implicit Types o : Orchestrator W.

Definition on_engine (m : GoM (Engine.Engine * W) A) : GoM (Orchestrator W) A := λ o,
  let '(r, (e, w)) := m (engine o, world o) in
  (r, mkOrchestrator e (catalog o) (stageMgr o) (streamEng o) (taskSched o) (timeTravelEng o) (cloneEng o) (udfReg o)
        (rbacEng o) (snowpipeEng o) w).
Definition on_catalog (m : GoM Catalog.Catalog A) : GoM (Orchestrator W) A := λ o,
  let '(r, c) := m (catalog o) in
  (r, mkOrchestrator (engine o) c (stageMgr o) (streamEng o) (taskSched o) (timeTravelEng o) (cloneEng o) (udfReg o)
        (rbacEng o) (snowpipeEng o) (world o)).
Definition on_stage (m : GoM (Stage.Manager * W) A) : GoM (Orchestrator W) A := λ o,
  let '(r, (s, w)) := m (stageMgr o, world o) in
  (r, mkOrchestrator (engine o) (catalog o) s (streamEng o) (taskSched o) (timeTravelEng o) (cloneEng o) (udfReg o)
        (rbacEng o) (snowpipeEng o) w).
Definition on_stream (m : GoM Stream.Engine A) : GoM (Orchestrator W) A := λ o,
  let '(r, s) := m (streamEng o) in
  (r, mkOrchestrator (engine o) (catalog o) (stageMgr o) s (taskSched o) (timeTravelEng o) (cloneEng o) (udfReg o)
        (rbacEng o) (snowpipeEng o) (world o)).
Definition on_task (m : GoM (Task.Scheduler (Stream.Engine * W)) A) : GoM (Orchestrator W) A := λ o,
  let '(r, s) := m (taskSched o) in
  (r, mkOrchestrator (engine o) (catalog o) (stageMgr o) (streamEng o) s (timeTravelEng o) (cloneEng o) (udfReg o)
        (rbacEng o) (snowpipeEng o) (world o)).
Definition on_timetravel (m : GoM (TimeTravel.Engine * W) A) : GoM (Orchestrator W) A := λ o,
  let '(r, (e, w)) := m (timeTravelEng o, world o) in
  (r, mkOrchestrator (engine o) (catalog o) (stageMgr o) (streamEng o) (taskSched o) e (cloneEng o) (udfReg o)
        (rbacEng o) (snowpipeEng o) w).
Definition on_clone (m : GoM (Clone.Engine * W) A) : GoM (Orchestrator W) A := λ o,
  let '(r, (e, w)) := m (cloneEng o, world o) in
  (r, mkOrchestrator (engine o) (catalog o) (stageMgr o) (streamEng o) (taskSched o) (timeTravelEng o) e (udfReg o)
        (rbacEng o) (snowpipeEng o) w).
Definition on_udf (m : GoM Udf.Registry A) : GoM (Orchestrator W) A := λ o,
  let '(r, u) := m (udfReg o) in
  (r, mkOrchestrator (engine o) (catalog o) (stageMgr o) (streamEng o) (taskSched o) (timeTravelEng o) (cloneEng o) u
        (rbacEng o) (snowpipeEng o) (world o)).
Definition on_rbac (m : GoM Rbac.Engine A) : GoM (Orchestrator W) A := λ o,
  let '(r, e) := m (rbacEng o) in
  (r, mkOrchestrator (engine o) (catalog o) (stageMgr o) (streamEng o) (taskSched o) (timeTravelEng o) (cloneEng o) (udfReg o)
        e (snowpipeEng o) (world o)).
Definition on_snowpipe (m : GoM (Snowpipe.Engine * W) A) : GoM (Orchestrator W) A := λ o,
  let '(r, (e, w)) := m (snowpipeEng o, world o) in
  (r, mkOrchestrator (engine o) (catalog o) (stageMgr o) (streamEng o) (taskSched o) (timeTravelEng o) (cloneEng o) (udfReg o)
        (rbacEng o) e w).
(** A call on the pipes that leaves the world alone. *)
Definition on_pipes (m : GoM Snowpipe.Engine A) : GoM (Orchestrator W) A :=
  on_snowpipe (λ s, let '(r, e) := m s.1 in (r, (e, s.2))).
End lenses.

(** ** Results and names *)

Definition statusResult (status : string) : QueryResult := mkQueryResult ["status"] [[CStr status]] 0 "DDL".
Definition executed (kind : string) : QueryResult :=
  mkQueryResult ["status"] [[CStr "Statement executed successfully."]] 0 kind.
Definition ddlResult : QueryResult := executed "DDL".

Definition escapeStringLiteral (s : string) : string := ReplaceAll s "'" "''".

(** [strings.SplitN(s, ".", 2)] when it gives two parts. *)
Definition split_dot (s : string) : option (string * string) := Cut s ".".

Definition scopeOrSession (scope : string) (sess : Session) : string * string :=
  let scope := TrimSpace scope in
  if decide (scope = "") then (Session.Database sess, Session.Schema sess)
  else match split_dot scope with
  | Some (a, b) => (a, b)
  | None => (Session.Database sess, scope)
  end.

Definition splitQualifiedName (name : string) : list string := SplitByte dot name.

(** A table name with the database and schema it is in. *)
Definition qualify_table (sess : Session) (tableName : string) : string * string * string :=
  match splitQualifiedName tableName with
  | [a; b; c] => (a, b, c)
  | [a; b] => (Session.Database sess, a, b)
  | _ => (Session.Database sess, Session.Schema sess, tableName)
  end.

Definition with_Database (n : string) (s : Session) : Session :=
  mkSession (Session.ID s) (Session.Token s) n (Session.Schema s) (Session.Warehouse s) (Session.Role s) (Session.User s) (Session.CreatedAt s) (Session.LastActiveAt s).
Definition with_Schema (n : string) (s : Session) : Session :=
  mkSession (Session.ID s) (Session.Token s) (Session.Database s) n (Session.Warehouse s) (Session.Role s) (Session.User s) (Session.CreatedAt s) (Session.LastActiveAt s).
Definition with_Warehouse (n : string) (s : Session) : Session :=
  mkSession (Session.ID s) (Session.Token s) (Session.Database s) (Session.Schema s) n (Session.Role s) (Session.User s) (Session.CreatedAt s) (Session.LastActiveAt s).
Definition with_Role (n : string) (s : Session) : Session :=
  mkSession (Session.ID s) (Session.Token s) (Session.Database s) (Session.Schema s) (Session.Warehouse s) n (Session.User s) (Session.CreatedAt s) (Session.LastActiveAt s).

(** ** Regular expressions *)

Definition reParseCreateStream : Regexp :=
  regexp "(?is)CREATE\s+(OR\s+REPLACE\s+)?STREAM\s+(\S+)\s+ON\s+TABLE\s+(\S+)(?:\s+APPEND_ONLY\s*=\s*TRUE)?".
Definition reParseCreateTask : Regexp := regexp "(?is)CREATE\s+(OR\s+REPLACE\s+)?TASK\s+(\S+)".
Definition reTaskWarehouse : Regexp := regexp "(?is)WAREHOUSE\s*=\s*(\S+)".
Definition reTaskSchedule : Regexp := regexp "(?is)SCHEDULE\s*=\s*'([^']+)'".
Definition reTaskAfter : Regexp := regexp "(?is)\bAFTER\s+(\S+?)(?:\s|$)".
Definition reTaskWhen : Regexp := regexp "(?is)\bWHEN\s+(.+?)\s+AS\s+".
Definition reTaskAs : Regexp := regexp "(?is)\bAS\s+(.+)$".
Definition reParseCreatePipe : Regexp := regexp "(?is)CREATE\s+(OR\s+REPLACE\s+)?PIPE\s+(\S+)".
Definition rePipeAutoIngest : Regexp := regexp "(?is)AUTO_INGEST\s*=\s*TRUE".
Definition rePipeAs : Regexp := regexp "(?is)\bAS\s+(.+)$".
Definition reMarkerAtOffset : Regexp := regexp "(?s)/\*\s*MINIFLAKE_AT_OFFSET\s+(\S+)\s+(-?\d+)\s*\*/".
Definition reMarkerAtTimestamp : Regexp := regexp "(?s)/\*\s*MINIFLAKE_AT_TIMESTAMP\s+(\S+)\s+(\S+)\s*\*/".

Definition reMarkerUse : Regexp := regexp "(?s)/\*\s*MINIFLAKE_USE_(DATABASE|SCHEMA|WAREHOUSE|ROLE)\s+(\S+)\s*\*/".
Definition reMarkerCopyInto : Regexp := regexp "(?s)/\*\s*MINIFLAKE_COPY_INTO\s+(.*?)\s*\*/".
Definition reMarkerPut : Regexp := regexp "(?s)/\*\s*MINIFLAKE_PUT\s+(.*?)\s*\*/".
Definition reMarkerGet : Regexp := regexp "(?s)/\*\s*MINIFLAKE_GET\s+(.*?)\s*\*/".
Definition reMarkerList : Regexp := regexp "(?s)/\*\s*MINIFLAKE_LIST\s+(.*?)\s*\*/".
Definition reMarkerRemove : Regexp := regexp "(?s)/\*\s*MINIFLAKE_REMOVE\s+(.*?)\s*\*/".
Definition reMarkerCreateStream : Regexp := regexp "(?s)/\*\s*MINIFLAKE_CREATE_STREAM\s+(.*?)\s*\*/".
Definition reMarkerDropStream : Regexp := regexp "(?s)/\*\s*MINIFLAKE_DROP_STREAM\s+(\S+)\s+([01])\s*\*/".
Definition reMarkerShowStreams : Regexp := regexp "(?s)/\*\s*MINIFLAKE_SHOW_STREAMS\s*(\S*)\s*\*/".
Definition reMarkerCreateTask : Regexp := regexp "(?s)/\*\s*MINIFLAKE_CREATE_TASK\s+(.*?)\s*\*/".
Definition reMarkerDropTask : Regexp := regexp "(?s)/\*\s*MINIFLAKE_DROP_TASK\s+(\S+)\s+([01])\s*\*/".
Definition reMarkerAlterTask : Regexp := regexp "(?s)/\*\s*MINIFLAKE_ALTER_TASK\s+(\S+)\s+(RESUME|SUSPEND)\s*\*/".
Definition reMarkerShowTasks : Regexp := regexp "(?s)/\*\s*MINIFLAKE_SHOW_TASKS\s*(\S*)\s*\*/".
Definition reMarkerExecuteTask : Regexp := regexp "(?s)/\*\s*MINIFLAKE_EXECUTE_TASK\s+(\S+)\s*\*/".
Definition reMarkerCreatePipe : Regexp := regexp "(?s)/\*\s*MINIFLAKE_CREATE_PIPE\s+(.*?)\s*\*/".
Definition reMarkerDropPipe : Regexp := regexp "(?s)/\*\s*MINIFLAKE_DROP_PIPE\s+(\S+)\s+([01])\s*\*/".
Definition reMarkerShowPipes : Regexp := regexp "(?s)/\*\s*MINIFLAKE_SHOW_PIPES\s*(\S*)\s*\*/".
Definition reMarkerShowParameters : Regexp := regexp "(?s)/\*\s*MINIFLAKE_SHOW_PARAMETERS\s+(\S+)\s+\|\s*(.*?)\s*\*/".
Definition reMarkerUndropTable : Regexp := regexp "(?s)/\*\s*MINIFLAKE_UNDROP_TABLE\s+(\S+)\s*\*/".

Definition reCreateDatabase : Regexp := regexp "(?i)^CREATE\s+(OR\s+REPLACE\s+)?DATABASE\s+(IF\s+NOT\s+EXISTS\s+)?(\S+)".
Definition reDropDatabase : Regexp := regexp "(?i)^DROP\s+DATABASE\s+(IF\s+EXISTS\s+)?(\S+)".
Definition reCreateSchema : Regexp := regexp "(?i)^CREATE\s+(OR\s+REPLACE\s+)?SCHEMA\s+(IF\s+NOT\s+EXISTS\s+)?(\S+)".
Definition reDropSchema : Regexp := regexp "(?i)^DROP\s+SCHEMA\s+(IF\s+EXISTS\s+)?(\S+)".
Definition reCreateTable : Regexp :=
  regexp "(?i)^CREATE\s+(OR\s+REPLACE\s+)?(TEMPORARY\s+|TRANSIENT\s+)?TABLE\s+(IF\s+NOT\s+EXISTS\s+)?(\S+)".
Definition reDropTable : Regexp := regexp "(?i)^DROP\s+TABLE\s+(IF\s+EXISTS\s+)?(\S+)".
Definition reCreateView : Regexp := regexp "(?i)^CREATE\s+(OR\s+REPLACE\s+)?VIEW\s+".
Definition reCreateStream : Regexp :=
  regexp "(?i)^CREATE\s+(OR\s+REPLACE\s+)?STREAM\s+(IF\s+NOT\s+EXISTS\s+)?(\S+)\s+ON\s+TABLE\s+(\S+)".
Definition reDropStream : Regexp := regexp "(?i)^DROP\s+STREAM\s+(IF\s+EXISTS\s+)?(\S+)".
Definition reCreateTask : Regexp := regexp "(?i)^CREATE\s+(OR\s+REPLACE\s+)?TASK\s+(IF\s+NOT\s+EXISTS\s+)?(\S+)".
Definition reDropTask : Regexp := regexp "(?i)^DROP\s+TASK\s+(IF\s+EXISTS\s+)?(\S+)".
Definition reAlterTaskResume : Regexp := regexp "(?i)^ALTER\s+TASK\s+(\S+)\s+RESUME".
Definition reAlterTaskSusp : Regexp := regexp "(?i)^ALTER\s+TASK\s+(\S+)\s+SUSPEND".
Definition reCreatePipe : Regexp := regexp "(?i)^CREATE\s+(OR\s+REPLACE\s+)?PIPE\s+(IF\s+NOT\s+EXISTS\s+)?(\S+)".
Definition reDropPipe : Regexp := regexp "(?i)^DROP\s+PIPE\s+(IF\s+EXISTS\s+)?(\S+)".
Definition reCreateStage : Regexp := regexp "(?i)^CREATE\s+(OR\s+REPLACE\s+)?STAGE\s+(IF\s+NOT\s+EXISTS\s+)?(\S+)".
Definition reDropStage : Regexp := regexp "(?i)^DROP\s+STAGE\s+(IF\s+EXISTS\s+)?(\S+)".
Definition reCreateFunc : Regexp := regexp "(?i)^CREATE\s+(OR\s+REPLACE\s+)?(FUNCTION|PROCEDURE)\s+(\S+)".
Definition reGrant : Regexp := regexp "(?i)^GRANT\s+(\S+)\s+ON\s+(\S+)\s+(\S+)\s+TO\s+ROLE\s+(\S+)".
Definition reRevoke : Regexp := regexp "(?i)^REVOKE\s+(\S+)\s+ON\s+(\S+)\s+(\S+)\s+FROM\s+ROLE\s+(\S+)".
Definition reCreateRole : Regexp := regexp "(?i)^CREATE\s+ROLE\s+(IF\s+NOT\s+EXISTS\s+)?(\S+)".
Definition reCloneTable : Regexp := regexp "(?i)^CREATE\s+(OR\s+REPLACE\s+)?TABLE\s+(\S+)\s+CLONE\s+(\S+)".

Definition reInsertInto : Regexp := regexp "(?i)^INSERT\s+INTO\s+(\S+)".
Definition reUpdateTbl : Regexp := regexp "(?i)^UPDATE\s+(\S+)".
Definition reDeleteFrom : Regexp := regexp "(?i)^DELETE\s+FROM\s+(\S+)".
Definition reMergeInto : Regexp := regexp "(?i)^MERGE\s+INTO\s+(\S+)".

(** The last part of the name that follows the verb; empty when no verb matches. *)
Fixpoint first_match (res : list Regexp) (s : string) : option Match :=
  match res with
  | [] => None
  | r :: res => match FindStringSubmatch r s with Some m => Some m | None => first_match res s end
  end.
Definition extractTableFromDML (upper : string) : string :=
  match first_match [reInsertInto; reUpdateTbl; reDeleteFrom; reMergeInto] upper with
  | Some m => List.last (SplitByte dot (group m 1)) ""
  | None => ""
  end.

(** The group [n] of a match of an optional clause, [""] without a match. *)
Definition clause (r : Regexp) (sql : string) (n : nat) : string :=
  match FindStringSubmatch r sql with Some m => group m n | None => "" end.
Definition unquoted (s : string) : string := Trim StageRef.is_quote s.

(** ** Handlers *)

Section handlers.
Context {W : Type} `{MapRange}.
(** The database, the file system, and the library calls of the subsystems. *)
Context (queryDB : string → list cell → W → result Engine.Rows * W).
Context (execDB : string → list cell → W → result ExecResult * W).
Context (osMkdirAll osRemoveAll osRemove : string → W → result unit * W).
Context (osFiles : OsFiles W).
Context (osStat : string → W → result Z).
Context (walkDir : string → W → list WalkEntry).
Context (fileMD5 : string → W → string).
Context (glob : string → string → result bool).
Context (compile : string → result (string → bool)).
Context (bad_authority bad_fragment : string → bool).
Context (LoadLocation : string → result Location).
(** [time.Parse(time.RFC3339, s)], and the text of [%v] for an instant. *)
Context (parseTime : string → result Z) (time_string : Z → string).
(** The readings of the clock during one statement. *)
Context (now : nat → Z).

(** [ExecNoResult] of the engine, as the subsystems that were given it call it. *)
Definition exec_world (e : Engine.Engine) (sql : string) (w : W) : result Z * W :=
  let '(r, s) := Engine.ExecNoResult execDB sql [] (e, w) in (r, s.2).
Definition exec_unit (e : Engine.Engine) (sql : string) (w : W) : result unit * W :=
  let '(r, w) := exec_world e sql w in (result_map (λ _, tt) r, w).
(** [Execute] of the engine, for its rows. *)
Definition query_world (e : Engine.Engine) (sql : string) (w : W) : result (list (list cell)) * W :=
  let '(r, s) := Engine.Execute queryDB sql [] (e, w) in (result_map snd r, s.2).
Definition run_query (e : Engine.Engine) (sql : string) (w : W) : result unit * W :=
  let '(r, w) := query_world e sql w in (result_map (λ _, tt) r, w).

Definition exec_sql (sql : string) : GoM (Orchestrator W) Z := on_engine (Engine.ExecNoResult execDB sql []).

Definition capture (db schema table : string) : GoM (Orchestrator W) unit := λ o,
  on_timetravel (TimeTravel.CaptureSnapshot osMkdirAll (run_query (engine o)) (now 0) db schema table) o.

(** *** Streams, tasks and pipes *)

Definition handleCreateStream (sess : Session) (originalSQL : string) : GoM (Orchestrator W) QueryResult :=
  match FindStringSubmatch reParseCreateStream originalSQL with
  | None => fail ("CREATE STREAM: unable to parse " +:+ Quote originalSQL)
  | Some m =>
      let streamName := unquoted (group m 2) in
      let tableName := unquoted (group m 3) in
      let streamType := if Contains (ToUpper originalSQL) "APPEND_ONLY" then "APPEND_ONLY" else "STANDARD" in
      on_stream (Stream.CreateStream (now 0) (Session.Database sess) (Session.Schema sess) streamName tableName streamType) ;;;
      ret (statusResult ("Stream " +:+ streamName +:+ " successfully created."))
  end.

(** A drop whose failure [IF EXISTS] turns into a message. *)
Definition drop_object (kind name : string) (ifExists : bool) (drop : GoM (Orchestrator W) unit) : GoM (Orchestrator W) QueryResult :=
  let! r := catch drop in
  match r with
  | Err e => if ifExists then ret (statusResult (kind +:+ " " +:+ name +:+ " does not exist (IF EXISTS).")) else fail e
  | Ok _ => ret (statusResult (kind +:+ " " +:+ name +:+ " successfully dropped."))
  end.

Definition handleDropStream (sess : Session) (name : string) (ifExists : bool) : GoM (Orchestrator W) QueryResult :=
  drop_object "Stream" name ifExists (on_stream (Stream.DropStream (Session.Database sess) (Session.Schema sess) name)).

Definition handleShowStreams (sess : Session) (scope : string) : GoM (Orchestrator W) QueryResult :=
  let '(db, schema) := scopeOrSession scope sess in
  let! o := get in
  ret (mkQueryResult ["created_on"; "name"; "database_name"; "schema_name"; "table_name"; "type"; "stale"]
    ((λ s, [CTime (Stream.i_CreatedAt s); CStr (Stream.i_Name s); CStr (Stream.i_DatabaseName s);
            CStr (Stream.i_SchemaName s); CStr (Stream.i_TableName s); CStr (Stream.i_Type s); CBool (Stream.i_Stale s)])
       <$> Stream.ShowStreams (streamEng o) db schema) 0 "SHOW").

Definition handleCreateTask (sess : Session) (originalSQL : string) : GoM (Orchestrator W) QueryResult :=
  match FindStringSubmatch reParseCreateTask originalSQL with
  | None => fail ("CREATE TASK: unable to parse name from " +:+ Quote originalSQL)
  | Some m =>
      let name := unquoted (group m 2) in
      let warehouse := unquoted (clause reTaskWarehouse originalSQL 1) in
      let schedule := clause reTaskSchedule originalSQL 1 in
      let predecessor := unquoted (clause reTaskAfter originalSQL 1) in
      let whenCond := TrimSpace (clause reTaskWhen originalSQL 1) in
      let body := TrimSpace (clause reTaskAs originalSQL 1) in
      if decide (body = "") then fail ("CREATE TASK " +:+ name +:+ ": missing AS <body>")
      else
        on_task (Task.CreateTask LoadLocation (now 0) (Session.Database sess) (Session.Schema sess) name body schedule
                   warehouse predecessor whenCond) ;;;
        ret (statusResult ("Task " +:+ name +:+ " successfully created."))
  end.

Definition handleDropTask (sess : Session) (name : string) (ifExists : bool) : GoM (Orchestrator W) QueryResult :=
  drop_object "Task" name ifExists (on_task (Task.DropTask (Session.Database sess) (Session.Schema sess) name)).

Definition handleAlterTask (sess : Session) (name action : string) : GoM (Orchestrator W) QueryResult :=
  let state := if decide (ToUpper action = "RESUME") then Some TaskStarted
               else if decide (ToUpper action = "SUSPEND") then Some TaskSuspended else None in
  match state with
  | None => fail ("ALTER TASK " +:+ name +:+ ": unknown action " +:+ Quote action)
  | Some state =>
      on_task (Task.AlterTask (Session.Database sess) (Session.Schema sess) name state) ;;;
      ret (statusResult ("Task " +:+ name +:+ " successfully " +:+ ToLower action +:+ "ed."))
  end.

Definition time_cell (t : option Z) : cell := match t with Some t => CTime t | None => CNull end.

Definition handleShowTasks (sess : Session) (scope : string) : GoM (Orchestrator W) QueryResult :=
  let '(db, schema) := scopeOrSession scope sess in
  let! o := get in
  ret (mkQueryResult ["created_on"; "name"; "database_name"; "schema_name"; "warehouse"; "schedule"; "state";
                      "predecessor"; "last_run_at"; "next_run_at"]
    ((λ t, [CTime (Task.i_CreatedAt t); CStr (Task.i_Name t); CStr (Task.i_DatabaseName t); CStr (Task.i_SchemaName t);
            CStr (Task.i_Warehouse t); CStr (Task.i_Schedule t); CStr (Task.i_State t); CStr (Task.i_Predecessor t);
            time_cell (Task.i_LastRunAt t); time_cell (Task.i_NextRunAt t)])
       <$> Task.ShowTasks (taskSched o) db schema) 0 "SHOW").

Definition handleExecuteTask (sess : Session) (name : string) : GoM (Orchestrator W) QueryResult :=
  let! o := get in
  match Task.GetTask (taskSched o) (Session.Database sess) (Session.Schema sess) name with
  | Err e => fail e
  | Ok p =>
      match Task.heap (taskSched o) !! p with
      | None => fail "nil pointer dereference"
      | Some t =>
          wrapped ("EXECUTE TASK " +:+ name) (exec_sql (Task.SQLText t)) ;;;
          ret (statusResult ("Task " +:+ name +:+ " executed."))
      end
  end.

Definition handleCreatePipe (sess : Session) (originalSQL : string) : GoM (Orchestrator W) QueryResult :=
  match FindStringSubmatch reParseCreatePipe originalSQL with
  | None => fail ("CREATE PIPE: unable to parse name from " +:+ Quote originalSQL)
  | Some m =>
      let name := unquoted (group m 2) in
      let autoIngest := MatchString rePipeAutoIngest originalSQL in
      let copyStmt := TrimSpace (clause rePipeAs originalSQL 1) in
      if decide (copyStmt = "") then fail ("CREATE PIPE " +:+ name +:+ ": missing AS <copy_statement>")
      else
        on_pipes (Snowpipe.CreatePipe (now 0) (Session.Database sess) (Session.Schema sess) name copyStmt autoIngest) ;;;
        ret (statusResult ("Pipe " +:+ name +:+ " successfully created."))
  end.

Definition handleDropPipe (sess : Session) (name : string) (ifExists : bool) : GoM (Orchestrator W) QueryResult :=
  drop_object "Pipe" name ifExists (on_pipes (Snowpipe.DropPipe (Session.Database sess) (Session.Schema sess) name)).

Definition handleShowPipes (sess : Session) (scope : string) : GoM (Orchestrator W) QueryResult :=
  let '(db, schema) := scopeOrSession scope sess in
  let! o := get in
  ret (mkQueryResult ["created_on"; "name"; "database_name"; "schema_name"; "definition"; "state"]
    ((λ p, [CTime (Snowpipe.i_CreatedAt p); CStr (Snowpipe.i_Name p); CStr (Snowpipe.i_Database p);
            CStr (Snowpipe.i_Schema p); CStr (Snowpipe.i_Definition p); CStr (Snowpipe.i_State p)])
       <$> Snowpipe.ShowPipes (snowpipeEng o) db schema) 0 "SHOW").

Definition InsertPipeFiles (db schema pipeName : string) (files : list string) : GoM (Orchestrator W) unit := λ o,
  on_snowpipe (Snowpipe.InsertFiles (exec_unit (engine o)) now db schema pipeName files) o.

(** *** Time travel *)

Definition handleUndropTable (sess : Session) (tableName : string) : GoM (Orchestrator W) QueryResult :=
  let tableName := unquoted tableName in
  let! o := get in
  match TimeTravel.Undrop (timeTravelEng o) (Session.Database sess) (Session.Schema sess) tableName with
  | Err e => fail ("UNDROP TABLE " +:+ tableName +:+ ": " +:+ e)
  | Ok snapshotKey =>
      wrapped ("UNDROP TABLE " +:+ tableName +:+ ": restore failed")
        (exec_sql ("CREATE TABLE " +:+ tableName +:+ " AS SELECT * FROM read_parquet('"
                     +:+ escapeStringLiteral snapshotKey +:+ "')")) ;;;
      ret (statusResult ("Table " +:+ tableName +:+ " successfully restored."))
  end.

(** The file that the text of a marker stands for. *)
Definition offset_file (tt : TimeTravel.Engine) (sess : Session) (text : string) : result string :=
  match FindStringSubmatch reMarkerAtOffset text with
  | None => Err "index out of range"
  | Some m =>
      let tableName := unquoted (group m 1) in
      let seconds := default 0%Z (Atoi (group m 2)) in
      let seconds := if decide (seconds < 0)%Z then wrap64 (- seconds) else seconds in
      wrap_err ("AT(OFFSET => -" +:+ Itoa seconds +:+ ")")
        (TimeTravel.QueryAtOffset time_string (now 0) tt (Session.Database sess) (Session.Schema sess) tableName seconds)
  end.
Definition timestamp_file (tt : TimeTravel.Engine) (sess : Session) (text : string) : result string :=
  match FindStringSubmatch reMarkerAtTimestamp text with
  | None => Err "index out of range"
  | Some m =>
      let tableName := unquoted (group m 1) in
      wrap_err ("AT(TIMESTAMP => '" +:+ group m 2 +:+ "')")
        match parseTime (group m 2) with
        | Err e => Err e
        | Ok ts => TimeTravel.QueryAtTimestamp time_string tt (Session.Database sess) (Session.Schema sess) tableName ts
        end
  end.

(** [ReplaceAllStringFunc] with a closure that remembers the first error and leaves
    the matches from it on; the text of a failed expansion is not used. *)
Definition first_failure (r : Regexp) (file : string → result string) (sql : string) : option string :=
  match list_find (λ m, is_ok (file (group m 0)) = false) (FindAllStringSubmatch r sql) with
  | Some (_, m) => match file (group m 0) with Err e => Some e | Ok _ => None end
  | None => None
  end.
Definition expand_marker (r : Regexp) (file : string → result string) (sql : string) : result string :=
  match first_failure r file sql with
  | Some e => Err e
  | None => Ok (ReplaceAllStringFunc r sql (λ text,
      match file text with
      | Ok f => "read_parquet('" +:+ escapeStringLiteral f +:+ "')"
      | Err _ => text
      end))
  end.
Definition expandTimeTravelMarkers (tt : TimeTravel.Engine) (sess : Session) (sql : string) : result string :=
  match expand_marker reMarkerAtOffset (offset_file tt sess) sql with
  | Err e => Err e
  | Ok sql => expand_marker reMarkerAtTimestamp (timestamp_file tt sess) sql
  end.

(** *** COPY INTO *)

Definition copy_row (r : CopyResult) : list cell :=
  [CStr (CopyInto.File r); CStr (CopyInto.Status r); CInt (RowsLoaded r); CInt (RowsParsed r); CInt (ErrorsSeen r); CStr (FirstError r)].

Definition handleCopyInto (sess : Session) (text : string) : GoM (Orchestrator W) QueryResult :=
  let originalSQL := TrimSpace text in
  match ParseCopyStatement originalSQL with
  | Err e => fail ("COPY INTO: " +:+ e)
  | Ok (direction, tableName, stagePath, format, options) =>
      let! (meta, subPath, _) := wrapped "COPY INTO" (on_stage (resolveStage osMkdirAll (now 0) sess stagePath)) in
      let! o := get in
      let finish (out : list CopyResult * option string) : GoM (Orchestrator W) QueryResult :=
        match out.2 with
        | Some e => fail e
        | None => ret (mkQueryResult ["file"; "status"; "rows_loaded"; "rows_parsed"; "errors_seen"; "first_error"]
                         (copy_row <$> out.1) 0 "COPY")
        end in
      if decide (direction = LoadIntoTable) then
        let! out := on_stage (λ s,
          let '(out, s) := ExecuteLoad (exec_world (engine o)) osRemove walkDir fileMD5 glob compile tableName meta subPath
                             format options s in (Ok out, s)) in
        finish out
      else if decide (direction = UnloadToStage) then
        let! out := on_stage (λ s,
          let '(out, w) := ExecuteUnload (exec_world (engine o)) osMkdirAll osRemove
                             (λ p w, match osStat p w with Ok n => Some n | Err _ => None end)
                             tableName meta subPath format options s.2 in (Ok out, (s.1, w))) in
        finish out
      else fail "COPY INTO: unknown direction"
  end.

(** *** Dispatch

    A handler gives [None] for a statement that it leaves to the next one. *)

(** A subsystem's answer, for a handler that does not change the session. *)
Definition on_orch {A} (m : GoM (Orchestrator W) A) : GoM (Session * Orchestrator W) A := λ st,
  let '(r, o) := m st.2 in (r, (st.1, o)).
Definition handled (m : GoM (Orchestrator W) QueryResult) : GoM (Session * Orchestrator W) (option QueryResult) :=
  let! r := on_orch m in ret (Some r).

Definition handleUse (kind name : string) : GoM (Session * Orchestrator W) (option QueryResult) :=
  let! st := get in
  let answer := ret (Some (executed "USE")) in
  if decide (kind = "DATABASE") then
    put (with_Database name st.1, st.2) ;;; on_orch (on_engine (SetCurrentDatabase name)) ;;; answer
  else if decide (kind = "SCHEMA") then
    put (with_Schema name st.1, st.2) ;;; on_orch (on_engine (SetCurrentSchema name)) ;;; answer
  else if decide (kind = "WAREHOUSE") then put (with_Warehouse name st.1, st.2) ;;; answer
  else if decide (kind = "ROLE") then put (with_Role name st.1, st.2) ;;; answer
  else ret None.

(** [if m := r.FindStringSubmatch(sql); m != nil { return k(m) }] before the rest. *)
Definition on_match (r : Regexp) (sql : string) (k : Match → GoM (Session * Orchestrator W) (option QueryResult))
    (next : GoM (Session * Orchestrator W) (option QueryResult)) : GoM (Session * Orchestrator W) (option QueryResult) :=
  match FindStringSubmatch r sql with Some m => k m | None => next end.

Definition is_marker_quote (c : ascii) : bool := is_ident_quote c || bool_decide (c = " "%char).

Definition handleSpecialMarkers (sql : string) : GoM (Session * Orchestrator W) (option QueryResult) :=
  let! st := get in
  let sess := st.1 in
  let is_one (s : string) := bool_decide (s = "1") in
  on_match reMarkerUse sql (λ m, handleUse (ToUpper (group m 1)) (Trim is_marker_quote (group m 2))) $
  on_match reMarkerCopyInto sql (λ m, handled (handleCopyInto sess (group m 1))) $
  on_match reMarkerPut sql (λ m, handled (on_stage
    (handlePut osMkdirAll osFiles osStat bad_authority bad_fragment (now 0) sess (group m 1)))) $
  on_match reMarkerGet sql (λ m, handled (on_stage
    (handleGet osMkdirAll osFiles walkDir fileMD5 glob compile bad_authority bad_fragment (now 0) sess (group m 1)))) $
  on_match reMarkerList sql (λ m, handled (on_stage
    (handleListStage osMkdirAll walkDir fileMD5 glob compile (now 0) sess (group m 1)))) $
  on_match reMarkerRemove sql (λ m, handled (on_stage
    (handleRemoveStage osMkdirAll osRemove walkDir fileMD5 glob compile (now 0) sess (group m 1)))) $
  on_match reMarkerCreateStream sql (λ m, handled (handleCreateStream sess (group m 1))) $
  on_match reMarkerDropStream sql (λ m, handled (handleDropStream sess (group m 1) (is_one (group m 2)))) $
  on_match reMarkerShowStreams sql (λ m, handled (handleShowStreams sess (group m 1))) $
  on_match reMarkerCreateTask sql (λ m, handled (handleCreateTask sess (group m 1))) $
  on_match reMarkerDropTask sql (λ m, handled (handleDropTask sess (group m 1) (is_one (group m 2)))) $
  on_match reMarkerAlterTask sql (λ m, handled (handleAlterTask sess (group m 1) (group m 2))) $
  on_match reMarkerShowTasks sql (λ m, handled (handleShowTasks sess (group m 1))) $
  on_match reMarkerExecuteTask sql (λ m, handled (handleExecuteTask sess (group m 1))) $
  on_match reMarkerCreatePipe sql (λ m, handled (handleCreatePipe sess (group m 1))) $
  on_match reMarkerDropPipe sql (λ m, handled (handleDropPipe sess (group m 1) (is_one (group m 2)))) $
  on_match reMarkerShowPipes sql (λ m, handled (handleShowPipes sess (group m 1))) $
  on_match reMarkerShowParameters sql (λ m, handled (λ o, (handleShowParameters (group m 2) (group m 1), o))) $
  on_match reMarkerUndropTable sql (λ m, handled (handleUndropTable sess (group m 1))) $
  ret None.

(** *** DDL *)

(** A call whose success is the usual answer. *)
Definition done {A} (m : GoM (Orchestrator W) A) : GoM (Session * Orchestrator W) (option QueryResult) :=
  handled (m ;;; ret ddlResult).

Definition create_database (sess : Session) (m : Match) : GoM (Orchestrator W) unit :=
  let name := cleanIdent (group m 3) in
  let! r := catch (on_catalog (Catalog.CreateDatabase now name (Role sess))) in
  match r with
  | Err e =>
      if bool_decide (group m 2 = "") && negb (Contains e "already exists") then fail e
      else ignore (on_engine (AttachDatabase execDB name))
  | Ok _ => ignore (on_engine (AttachDatabase execDB name))
  end.

(** The database and the rest of a schema's name. *)
Definition schema_of (sess : Session) (name : string) : string * string :=
  match split_dot name with Some (db, n) => (db, n) | None => (Session.Database sess, name) end.

Definition create_schema (sess : Session) (sql : string) (m : Match) : GoM (Orchestrator W) unit :=
  let '(db, name) := schema_of sess (cleanIdent (group m 3)) in
  let! r := catch (exec_sql sql) in
  match r with
  | Err e => if decide (group m 2 = "") then fail e else ignore (on_catalog (Catalog.CreateSchema (now 0) db name (Role sess)))
  | Ok _ => ignore (on_catalog (Catalog.CreateSchema (now 0) db name (Role sess)))
  end.

Definition drop_schema (sess : Session) (sql : string) (m : Match) : GoM (Orchestrator W) unit :=
  let '(db, name) := schema_of sess (cleanIdent (group m 2)) in
  ignore (exec_sql sql) ;;;
  ignore (on_catalog (Catalog.DropSchema db name)).

(** The metadata of a table made from its name alone. *)
Definition table_named (name : string) : TableMeta := mkTable name [] [] "" false false zero_time "".

Definition create_table (sess : Session) (sql : string) (m : Match) : GoM (Orchestrator W) unit :=
  let! _ := exec_sql sql in
  let '(db, schema, tableName) := qualify_table sess (cleanIdent (group m 4)) in
  ignore (on_catalog (Catalog.RegisterTable (now 0) db schema (table_named tableName))).

Definition drop_table (sess : Session) (sql : string) (m : Match) : GoM (Orchestrator W) unit :=
  let '(db, schema, tableName) := qualify_table sess (cleanIdent (group m 2)) in
  ignore (capture db schema tableName) ;;;
  let! r := catch (exec_sql sql) in
  match r with
  | Err e => if decide (group m 1 = "") then fail e else ignore (on_catalog (Catalog.DropTable db schema tableName))
  | Ok _ => ignore (on_catalog (Catalog.DropTable db schema tableName))
  end.

Definition create_stage (sess : Session) (m : Match) : GoM (Orchestrator W) unit :=
  let name := cleanIdent (group m 3) in
  let db := Session.Database sess in
  let schema := Session.Schema sess in
  (if decide (group m 1 = "") then ret tt else ignore (on_stage (Stage.DropStage osRemoveAll db schema name))) ;;;
  let! r := catch (on_stage (Stage.CreateStage osMkdirAll (now 0) db schema name StageInternal "")) in
  match r with
  | Err e => if bool_decide (group m 2 ≠ "") && bool_decide (e = stage_exists (stageKey db schema name)) then ret tt else fail e
  | Ok _ => ret tt
  end.

Definition drop_stage (sess : Session) (m : Match) : GoM (Orchestrator W) unit :=
  let! r := catch (on_stage (Stage.DropStage osRemoveAll (Session.Database sess) (Session.Schema sess) (cleanIdent (group m 2)))) in
  match r with
  | Err e => if decide (group m 1 = "") then fail e else ret tt
  | Ok _ => ret tt
  end.

Definition ident (m : Match) (n : nat) : string := cleanIdent (group m n).

(** The statements on streams, tasks, pipes, stages, functions, and roles and grants, each group before the [next]. *)
Definition stream_ddl (sess : Session) (sql : string) (next : GoM (Session * Orchestrator W) (option QueryResult)) :=
  let db := Session.Database sess in
  let schema := Session.Schema sess in
  on_match reCreateStream sql (λ m, done (on_stream (Stream.CreateStream (now 0) db schema (ident m 3) (ident m 4) "STANDARD"))) $
  on_match reDropStream sql (λ m, done (on_stream (Stream.DropStream db schema (ident m 2)))) next.

Definition task_ddl (sess : Session) (sql : string) (next : GoM (Session * Orchestrator W) (option QueryResult)) :=
  let db := Session.Database sess in
  let schema := Session.Schema sess in
  on_match reCreateTask sql (λ m, done (on_task (Task.CreateTask LoadLocation (now 0) db schema (ident m 3) "" "" "" "" ""))) $
  on_match reDropTask sql (λ m, done (on_task (Task.DropTask db schema (ident m 2)))) $
  on_match reAlterTaskResume sql (λ m, done (on_task (Task.AlterTask db schema (ident m 1) TaskStarted))) $
  on_match reAlterTaskSusp sql (λ m, done (on_task (Task.AlterTask db schema (ident m 1) TaskSuspended))) next.

Definition pipe_ddl (sess : Session) (sql : string) (next : GoM (Session * Orchestrator W) (option QueryResult)) :=
  let db := Session.Database sess in
  let schema := Session.Schema sess in
  on_match reCreatePipe sql (λ m, done (on_pipes (Snowpipe.CreatePipe (now 0) db schema (ident m 3) "" false))) $
  on_match reDropPipe sql (λ m, done (on_pipes (Snowpipe.DropPipe db schema (ident m 2)))) next.

Definition stage_ddl (sess : Session) (sql : string) (next : GoM (Session * Orchestrator W) (option QueryResult)) :=
  on_match reCreateStage sql (λ m, done (create_stage sess m)) $
  on_match reDropStage sql (λ m, done (drop_stage sess m)) next.

Definition function_ddl (sess : Session) (sql : string) (next : GoM (Session * Orchestrator W) (option QueryResult)) :=
  on_match reCreateFunc sql (λ m, done (on_udf
    (Udf.Register (now 0) (mkUDF (ident m 3) (Session.Database sess) (Session.Schema sess) LangSQL [] "" sql false zero_time)))) next.

Definition role_ddl (sql : string) (next : GoM (Session * Orchestrator W) (option QueryResult)) :=
  on_match reGrant sql (λ m, done (on_rbac
    (Rbac.GrantPrivilege (now 0) (ToUpper (group m 1)) (ToUpper (group m 2)) (ident m 3) (ident m 4) false))) $
  on_match reRevoke sql (λ m, done (on_rbac
    (Rbac.RevokePrivilege (ToUpper (group m 1)) (ToUpper (group m 2)) (ident m 3) (ident m 4)))) $
  on_match reCreateRole sql (λ m, done (on_rbac (Rbac.CreateRole (now 0) (ident m 2)))) next.

Definition handleDDL (sql : string) : GoM (Session * Orchestrator W) (option QueryResult) :=
  let! st := get in
  let sess := st.1 in
  let db := Session.Database sess in
  let schema := Session.Schema sess in
  on_match reCloneTable sql (λ m, done (λ o,
    on_clone (CloneTable (exec_unit (engine o)) (now 0) db schema (ident m 3) db schema (ident m 2)) o)) $
  on_match reCreateDatabase sql (λ m, done (create_database sess m)) $
  on_match reDropDatabase sql (λ m, done (ignore (on_catalog (Catalog.DropDatabase (ident m 2))))) $
  on_match reCreateSchema sql (λ m, done (create_schema sess sql m)) $
  on_match reDropSchema sql (λ m, done (drop_schema sess sql m)) $
  on_match reCreateTable sql (λ m, done (create_table sess sql m)) $
  on_match reDropTable sql (λ m, done (drop_table sess sql m)) $
  on_match reCreateView sql (λ m, done (exec_sql sql)) $
  stream_ddl sess sql $ task_ddl sess sql $ pipe_ddl sess sql $ stage_ddl sess sql $ function_ddl sess sql $ role_ddl sql $
  ret None.

(** *** DML, transactions and queries *)

Definition has_any_prefix (prefixes : list string) (s : string) : bool := existsb (HasPrefix s) prefixes.

Definition dml_action (upper : string) : ChangeType :=
  if HasPrefix upper "UPDATE" then "UPDATE" else if HasPrefix upper "DELETE" then "DELETE" else ChangeInsert.

Definition handleDML (sess : Session) (sql upper : string) : GoM (Orchestrator W) (option QueryResult) :=
  if negb (has_any_prefix ["INSERT"; "UPDATE"; "DELETE"; "MERGE"] upper) then ret None
  else
    let db := Session.Database sess in
    let schema := Session.Schema sess in
    let tableName := extractTableFromDML upper in
    (if decide (tableName = "") then ret tt else ignore (capture db schema tableName)) ;;;
    let! affected := exec_sql sql in
    (if decide (tableName = "") then ret tt
     else on_stream (Stream.RecordChange (now 0) db schema tableName (mkChange (dml_action upper) false "" ∅ zero_time))) ;;;
    ret (Some (mkQueryResult ["number of rows inserted"; "number of rows updated"; "number of rows deleted"]
                 [[CInt affected; CInt 0; CInt 0]] affected "DML")).

Definition handleTransaction (sql upper : string) : GoM (Orchestrator W) (option QueryResult) :=
  if negb (has_any_prefix ["BEGIN"; "COMMIT"; "ROLLBACK"] upper) then ret None
  else let! _ := exec_sql sql in ret (Some (executed "TRANSACTION")).

Definition query_prefixes : list string := ["SELECT"; "SHOW"; "DESCRIBE"; "DESC "; "EXPLAIN"; "LIST"; "WITH"].

Definition handleQuery (sql upper : string) : GoM (Orchestrator W) (option QueryResult) :=
  if negb (has_any_prefix query_prefixes upper) then ret None
  else let! (cols, rows) := on_engine (Engine.Execute queryDB sql []) in ret (Some (mkQueryResult cols rows 0 "SELECT")).

Definition fallback (sql : string) : GoM (Orchestrator W) QueryResult :=
  let! affected := wrapped "orchestrator: exec" (exec_sql sql) in
  ret (mkQueryResult [] [] affected "UNKNOWN").

(** *** Statements *)

(** [if result, handled, err := h(); handled { return result, err }] before the rest. *)
Definition or_else (h : GoM (Session * Orchestrator W) (option QueryResult)) (next : GoM (Session * Orchestrator W) QueryResult)
    : GoM (Session * Orchestrator W) QueryResult :=
  let! r := h in match r with Some q => ret q | None => next end.

(** What follows the rewriting of a statement. *)
Definition execute_rewritten (rewritten : string) : GoM (Session * Orchestrator W) QueryResult :=
  or_else (handleSpecialMarkers rewritten) $
  let! st := get in
  match expandTimeTravelMarkers (timeTravelEng st.2) st.1 rewritten with
  | Err e => fail e
  | Ok sql =>
      let upper := ToUpper (TrimSpace sql) in
      or_else (handleDDL sql) $
      or_else (on_orch (handleDML st.1 sql upper)) $
      or_else (on_orch (handleTransaction sql upper)) $
      or_else (on_orch (handleQuery sql upper)) $
      on_orch (fallback sql)
  end.

Definition empty_result : QueryResult := mkQueryResult [] [] 0 "EMPTY".

(** [None] when the rewriting has not come to an end within the fuel. *)
Definition ExecuteSQL (fuel : nat) (sql : string) (st : Session * Orchestrator W)
    : option (result QueryResult * (Session * Orchestrator W)) :=
  let sql := TrimSpace sql in
  if decide (sql = "") then Some (Ok empty_result, st)
  else match Rewrite fuel sql with
  | None => None
  | Some rewritten => Some (execute_rewritten rewritten st)
  end.

(** [Reset] of every subsystem in turn; the first error ends it. *)
Definition reset_all (scanStrings : list cell → result (list string)) (role_time : string → Z) : GoM (Orchestrator W) unit :=
  on_engine (Engine.Reset queryDB execDB scanStrings) ;;;
  on_catalog (Catalog.Reset now) ;;;
  on_stage (Stage.Reset osMkdirAll osRemoveAll) ;;;
  on_stream Stream.Reset ;;;
  on_task Task.Reset ;;;
  on_timetravel (TimeTravel.Reset osMkdirAll osRemoveAll) ;;;
  on_clone Clone.Reset ;;;
  on_udf Udf.Reset ;;;
  on_rbac (Rbac.Reset role_time) ;;;
  on_pipes Snowpipe.Reset.
End handlers.

(** ** The program at start ([main.go])

    The engine opened by [Engine.New], every other subsystem empty or with its
    defaults, the scheduler asking the streams. *)

Definition week : Z := 7 * 24 * Hour.
Definition boot {W} `{MapRange} (eng : Engine.Engine) (stageDir : string) (now : nat → Z) (role_time : string → Z) (w : W)
    : Orchestrator W :=
  mkOrchestrator eng (Catalog.Init now Catalog.New).2 (Stage.NewManager stageDir) Stream.NewEngine
    (SetStreamHasDataFn (Some (λ db schema name s, HasData s.1 db schema name)) NewScheduler).2
    (TimeTravel.NewEngine (PathJoin [Engine.dataDir eng; "snapshots"]) week) [] Udf.NewRegistry
    (Rbac.Init role_time Rbac.NewEngine).2 Snowpipe.NewEngine w.
