(* ===== verification/Demo.v ===== *)
(** * A small outside world for the orchestrator

    A database that keeps the contents of its tables and of the files exported from
    them, runs the few statements that the round trips need, and logs every text it
    is given; a file system that accepts every call.  It shows that the contracts of
    the orchestrator's theorems can be met, and runs statements from end to end. *)

From S2P Require Import Prelude GoStrings GoTime GoPath Regexp Rewriter Rbac Stream Snowpipe Catalog Session TimeTravel Clone Cron Task Udf CopyInto Engine Stage StageRef Parameters Orchestrator TableStore.
From Stdlib Require Import Ascii.

Record Demo := mkDemo {
  d_tables : gmap string string;
  d_files : gmap string string;
  d_log : list string;
}.
Definition empty_demo : Demo := mkDemo ∅ ∅ [].
Definition logged (sql : string) (w : Demo) : Demo := mkDemo (d_tables w) (d_files w) (d_log w ++ [sql]).

(** The text before the first [sep] and the text after it. *)
Definition around (s sep : string) : string * string := default (s, "") (Cut s sep).

(** [DROP TABLE t], [CREATE TABLE t AS SELECT * FROM read_parquet('f')] and
    [CREATE TABLE t (...)]; any other statement does nothing. *)
Definition demo_effect (sql : string) (w : Demo) : result unit * Demo :=
  match TrimPrefixOpt sql "DROP TABLE " with
  | Some t =>
      if decide (is_Some (d_tables w !! t)) then (Ok tt, mkDemo (delete t (d_tables w)) (d_files w) (d_log w))
      else (Err ("no table " +:+ t), w)
  | None =>
  match TrimPrefixOpt sql "CREATE TABLE " with
  | Some body =>
      let '(t, def) := around body " " in
      if decide (is_Some (d_tables w !! t)) then (Err ("table exists " +:+ t), w)
      else match TrimPrefixOpt def "AS SELECT * FROM read_parquet('" with
      | Some lit =>
          match d_files w !! (around lit "'").1 with
          | Some rows => (Ok tt, mkDemo (<[t := rows]> (d_tables w)) (d_files w) (d_log w))
          | None => (Err "no file", w)
          end
      | None => (Ok tt, mkDemo (<[t := def]> (d_tables w)) (d_files w) (d_log w))
      end
  | None => (Ok tt, w)
  end end.
Definition demo_exec (sql : string) (_ : list cell) (w : Demo) : result ExecResult * Demo :=
  let '(r, w) := demo_effect sql (logged sql w) in
  (match r with Ok _ => Ok (mkExec (Ok 1%Z)) | Err e => Err e end, w).

(** [COPY "t" TO 'f' (FORMAT PARQUET)]; any other query gives no row. *)
Definition demo_query (sql : string) (_ : list cell) (w : Demo) : result Engine.Rows * Demo :=
  let w := logged sql w in
  let ok := mkRows (Ok []) [] None in
  match TrimPrefixOpt sql ("COPY " +:+ String dq "") with
  | Some body =>
      let '(t, rest) := around body (String dq " TO '") in
      match d_tables w !! t with
      | Some rows => (Ok ok, mkDemo (d_tables w) (<[(around rest "'").1 := rows]> (d_files w)) (d_log w))
      | None => (Err ("no table " +:+ t), w)
      end
  | None => (Ok ok, w)
  end.

Definition demo_dir (_ : string) (w : Demo) : result unit * Demo := (Ok tt, w).
Definition demo_copy : OsFiles Demo := {|
  Handle := unit;
  os_Open _ w := (Ok tt, w); os_Create _ w := (Ok tt, w); io_Copy _ _ w := (Ok 0%Z, w); file_Close _ w := (Ok tt, w);
|}.
Definition demo_zone (_ : string) : result Location := Err "unknown zone".

(** One statement, at the instant [now]. *)
Definition demo_statement `{MapRange} (now : Z) (sql : string) (st : Session * Orchestrator Demo) :=
  ExecuteSQL demo_query demo_exec demo_dir demo_dir demo_dir demo_copy (λ _ _, Err "no file") (λ _ _, []) (λ _ _, "")
    (λ _ _, Ok true) (λ _, Err "bad pattern") (λ _, false) (λ _, false) demo_zone (λ _, Err "bad time") Itoa (λ _, now)
    20 sql st.

Definition demo_session : Session := mkSession "1" "t" "DB" "PUBLIC" "WH" "SYSADMIN" "ANN" 0 0.
Definition demo_boot `{MapRange} : Orchestrator Demo :=
  boot (Engine.mkEngine "/d" "miniflake" "main") "/s" (λ _, 0%Z) (λ _, 0%Z) empty_demo.

(** The statements in turn, a second apart; the answers, and the state after them. *)
Fixpoint demo_run `{MapRange} (now : Z) (sqls : list string) (st : Session * Orchestrator Demo)
    : list (result QueryResult) * (Session * Orchestrator Demo) :=
  match sqls with
  | [] => ([], st)
  | sql :: sqls =>
      match demo_statement now sql st with
      | None => ([Err "out of fuel"], st)
      | Some (r, st) => let '(rs, st) := demo_run (now + Second)%Z sqls st in (r :: rs, st)
      end
  end.
Definition demo `{MapRange} (sqls : list string) : list (result QueryResult) * (Session * Orchestrator Demo) :=
  demo_run 0 sqls (demo_session, demo_boot).
