(* ===== verification/Markers.v ===== *)
(** * From the rewriter's markers to the orchestrator's handlers

    The rewriter leaves a statement that the database cannot run inside a comment,
    and the orchestrator finds it there with one regular expression per kind of
    statement: which texts arrive unchanged, and where; and which texts no handler
    of markers or definitions looks at. *)

From S2P Require Import Prelude GoStrings GoTime GoPath Regexp Rewriter RewriterSpec Rbac Stream Snowpipe Catalog Session TimeTravel Clone Cron Task Udf CopyInto Engine Stage StageRef Parameters Orchestrator Demo.
From Stdlib Require Import Ascii.

(** ** Texts *)

(** Two given bytes side by side. *)
Fixpoint has_pair (c d : ascii) (s : string) : bool :=
  match s with
  | String x t =>
      match t with
      | String y _ => (bool_decide (x = c) && bool_decide (y = d)) || has_pair c d t
      | "" => false
      end
  | "" => false
  end.
Definition opens_comment : string → bool := has_pair "/" "*".
Definition closes_comment : string → bool := has_pair "*" "/".

Lemma has_pair_app c d a b : has_pair c d (a +:+ String c (String d b)) = true.
Proof.
  induction a as [|x a IH]; [cbn [has_pair String.append]; by rewrite (bool_decide_true (c = c)), (bool_decide_true (d = d))|].
  change (String x a +:+ String c (String d b)) with (String x (a +:+ String c (String d b))). cbn [has_pair].
  destruct (a +:+ String c (String d b)) as [|y t] eqn:E; [by destruct a|]. by rewrite IH, orb_true_r.
Qed.
(** A space separates. *)
Lemma has_pair_space c d s t : c ≠ " "%char → d ≠ " "%char →
  has_pair c d (s +:+ String " " t) = has_pair c d s || has_pair c d t.
Proof.
  intros Hc Hd. induction s as [|x s IH].
  - change ("" +:+ String " " t) with (String " " t). cbn [has_pair orb]. destruct t; [done|]. rewrite (bool_decide_false (" "%char = c)) by congruence. done.
  - change (String x s +:+ String " " t) with (String x (s +:+ String " " t)). destruct s as [|y s].
    + change ("" +:+ String " " t) with (String " " t) in *. cbn [has_pair orb] in IH |- *. rewrite IH.
      by rewrite (bool_decide_false (" "%char = d)), andb_false_r by congruence.
    + cbn [has_pair]. change (String y s +:+ String " " t) with (String y (s +:+ String " " t)) in *.
      cbn [has_pair] in IH. cbn [has_pair]. rewrite IH. by rewrite orb_assoc.
Qed.

(** The text of a statement that a marker carries whole. *)
Definition carriable (text : string) : Prop :=
  text ≠ "" ∧ TrimSpace text = text ∧ opens_comment text = false ∧ closes_comment text = false.
#[export] Instance carriable_dec text : Decision (carriable text).
Proof. unfold carriable. apply _. Defined.

Lemma re_space_is c : re_space c = true → is_space c = true.
Proof. unfold re_space. by intros [? _]%andb_true_iff. Qed.

Lemma trimmed_first text c t : TrimSpace text = text → text = String c t → is_space c = false.
Proof.
  intros Ht ->. destruct (is_space c) eqn:E; [|done]. exfalso.
  assert (Hl : trim_left is_space (String c t) = String c t) by (rewrite <- Ht at 1; unfold TrimSpace; by rewrite trim_left_right).
  cbn in Hl. rewrite E in Hl. destruct (trim_split is_space t) as (a & b & Et & _ & _).
  pose proof (take_trim is_space t) as Hk. rewrite Hl in Hk. apply (f_equal String.length) in Hk.
  rewrite string_app_length in Hk. cbn in Hk. lia.
Qed.

Lemma trimmed_last text a x : TrimSpace text = text → text = a +:+ x → x ≠ "" → every is_space x = false.
Proof.
  intros Ht -> Hx. destruct (every is_space x) eqn:E; [|done]. exfalso.
  assert (Hr : trim_right is_space (a +:+ x) = a +:+ x) by (rewrite <- Ht at 1; unfold TrimSpace; by rewrite trim_right_idem).
  assert (Ha : trim_right is_space (a +:+ x) = trim_right is_space a).
  { unfold trim_right. by rewrite string_rev_app_distr, trim_left_every by (by rewrite every_rev). }
  destruct (trim_right_split is_space a) as (ws & Hws & _). rewrite Ha in Hr. rewrite Hr in Hws.
  apply (f_equal String.length) in Hws. rewrite !string_app_length in Hws. destruct x; [done|]. cbn in Hws. lia.
Qed.

(** ** The expressions that carry a text *)

Definition byte_re (c : ascii) : Regexp := Class (λ d, bool_decide (d = c)).
Fixpoint word_re (acc : Regexp) (w : string) : Regexp :=
  match w with "" => acc | String c w => word_re (Cat acc (byte_re c)) w end.

Lemma byte_matches a p c p' c' : matches (byte_re a) p c p' c' ↔
  c' = c ∧ rest p = String a (rest p') ∧ before p' = Some a.
Proof.
  split.
  - intros H. inversion H as [|? b ch s ? Hd| | | | | | | | |]; subst. by apply bool_decide_eq_true in Hd as ->.
  - intros (-> & Hr & Hb). destruct p as [b s], p' as [b' s']. cbn in *. subst. constructor. by apply bool_decide_eq_true.
Qed.

Lemma word_matches acc w p c p' c' : matches (word_re acc w) p c p' c' ↔
  ∃ p1, matches acc p c p1 c' ∧ rest p1 = w +:+ rest p' ∧ before p' = last_byte (before p1) w.
Proof.
  revert acc. induction w as [|a w IH]; intros acc; cbn [word_re].
  - split; [intros H; by exists p'|]. intros ([b1 s1] & H & Hr & Hb). destruct p'. cbn in *. by subst.
  - rewrite IH. split.
    + intros (p2 & H & Hr & Hb). inversion H as [| |? ? ? ? p1 c1 ? ? H1 H2| | | | | | | |]; subst.
      apply byte_matches in H2 as (-> & Hr1 & Hb1). exists p1. split; [done|]. rewrite Hr1, Hr, Hb, Hb1. done.
    + intros (p1 & H & Hr & Hb). exists (mkPos (Some a) (w +:+ rest p')). split; [|done].
      econstructor; [exact H|]. by apply byte_matches.
Qed.

(** [/\*\s*WORD\s+(.*?)\s*\*/] *)
Definition spaces : Regexp := Star true (Class re_space).
Definition intro_re (w : string) : Regexp := word_re (Cat (Cat (byte_re "/") (byte_re "*")) spaces) w.
Definition lead_re (w : string) : Regexp := Cat (intro_re w) (Plus true (Class re_space)).
Definition any_byte : ascii → bool := λ c, true || negb (N_of_ascii c =? 10)%N.
Definition carrier_re (w : string) : Regexp :=
  Cat (Cat (Cat (Cat (lead_re w) (Group 1 (Star false (Class any_byte)))) spaces) (byte_re "*")) (byte_re "/").

Lemma spaces_stop (f : ascii → bool) ws u c t : every f ws = true → f c = false → ws +:+ u = String c t → ws = "".
Proof. destruct ws as [|d ws]; [done|]. cbn. intros [Hd _]%andb_true_iff Hc [= -> _]. congruence. Qed.

(** The lead of a marker matches it in one way. *)
Lemma lead_matches m w d text p' c' : re_space m = false → re_space d = false →
  matches (lead_re (String m w)) (mkPos None ("/* " +:+ String m w +:+ String " " (String d text))) [] p' c' ↔
  p' = mkPos (Some " "%char) (String d text) ∧ c' = [].
Proof.
  intros Hm Hd. unfold lead_re, Plus. split.
  - intros H. inversion H as [| |? ? ? ? p2 c2 ? ? H1 H2| | | | | | | |]; subst.
    apply word_matches in H1 as (p1 & H1 & Hr1 & Hb1).
    inversion H1 as [| |? ? ? ? p0 c0 ? ? H3 H4| | | | | | | |]; subst.
    inversion H3 as [| |? ? ? ? p3 c3 ? ? H5 H6| | | | | | | |]; subst.
    apply byte_matches in H5 as (-> & Hr5 & _). apply byte_matches in H6 as (-> & Hr6 & _).
    apply spaces_matches in H4 as (-> & ws & Hr4 & Hs & _).
    change (String "/" (String "*" (String " " (String m w +:+ String " " (String d text)))) = String "/" (rest p3)) in Hr5.
    rewrite Hr6, Hr4, Hr1 in Hr5. injection Hr5 as Hr5.
    destruct ws as [|x ws]; [injection Hr5 as <- _; done|]. cbn in Hs. apply andb_true_iff in Hs as [_ Hs].
    injection Hr5 as _ Hr5. symmetry in Hr5. apply (spaces_stop _ _ _ _ _ Hs Hm) in Hr5 as E. subst ws.
    assert (Hu : rest p2 = String " " (String d text)) by (eapply (inj (String.append (String m w))); exact Hr5).
    inversion H2 as [| |? ? ? ? p4 c4 ? ? H7 H8| | | | | | | |]; subst.
    inversion H7 as [|? b ch t ? Hch| | | | | | | | |]; subst. cbn in Hu. injection Hu as -> ->.
    apply spaces_matches in H8 as (-> & ws & Hr8 & Hs8 & Hb8). cbn in Hr8. symmetry in Hr8.
    apply (spaces_stop _ _ _ _ _ Hs8 Hd) in Hr8 as E. subst ws. destruct p'. cbn in *. by subst.
  - intros [-> ->]. set (rest0 := String m w +:+ String " " (String d text)).
    apply (matches_cat _ _ _ _ (mkPos (last_byte (Some " "%char) (String m w)) (String " " (String d text))) []).
    + apply word_matches. exists (mkPos (Some " "%char) rest0). split; [|done].
      apply (matches_cat _ _ _ _ (mkPos (Some "*"%char) (String " " rest0)) []).
      * apply (matches_cat _ _ _ _ (mkPos (Some "/"%char) (String "*" (String " " rest0))) []); by apply byte_matches.
      * apply spaces_matches. split; [done|]. by exists " ".
    + eapply matches_cat; [by apply (matches_class re_space)|]. apply matches_star_nil.
Qed.

Lemma close_inside x ws u : x +:+ " */" = ws +:+ String "*" (String "/" u) → every re_space ws = true →
  closes_comment x = true ∨ every re_space x = true.
Proof.
  revert ws. induction x as [|c x IH]; intros [|d ws] E Hs; [by right..| |].
  - left. destruct x as [|y x]; [discriminate|]. injection E as -> -> E. exact (has_pair_app "*" "/" "" x).
  - injection E as <- E. cbn in Hs. apply andb_true_iff in Hs as [Hc Hs]. destruct (IH ws E Hs) as [Hx|Hx].
    + left. unfold closes_comment in *. cbn [has_pair]. destruct x; [done|]. by rewrite Hx, orb_true_r.
    + right. cbn. by rewrite Hc.
Qed.

Lemma has_pair_suffix c d a b : has_pair c d (a +:+ b) = false → has_pair c d b = false.
Proof.
  induction a as [|x a IH]; [done|]. change (String x a +:+ b) with (String x (a +:+ b)). cbn [has_pair].
  destruct (a +:+ b) as [|y t] eqn:E; [by intros _; apply IH|]. intros [_ H]%orb_false_iff. by apply IH.
Qed.

Lemma every_any s : every any_byte s = true.
Proof. induction s as [|c s IH]; [done|]. exact IH. Qed.

(** The expression of a marker finds the text whole. *)
Lemma carrier_finds m w text : re_space m = false → carriable text →
  ∃ x, FindStringSubmatch (carrier_re (String m w)) ("/* " +:+ String m w +:+ String " " (text +:+ " */")) = Some x ∧
       group x 1 = text.
Proof.
  intros Hm (Hne & Ht & _ & Hclose). destruct text as [|d text]; [done|].
  assert (Hd : re_space d = false).
  { destruct (re_space d) eqn:E; [|done]. apply re_space_is in E. by rewrite (trimmed_first _ d text Ht eq_refl) in E. }
  set (s := "/* " +:+ String m w +:+ String " " (String d text +:+ " */")). set (p := mkPos None s). set (p1 := mkPos (Some " "%char) (String d text +:+ " */")).
  set (q := mkPos (last_byte (Some " "%char) (String d text)) " */").
  set (x := mkMatch p (mkPos (Some "/"%char) "") [(1, (p1, q))]).
  exists x. split; [|exact (span_app _ _ (String d text) " */")].
  unfold FindStringSubmatch, find. rewrite (find_from_here _ _ _ x); [done|].
  set (tail := search spaces (search (byte_re "*") (search (byte_re "/") (λ p' c, Some (mkMatch p p' c))))).
  change (search (lead_re (String m w)) (search (Group 1 (Star false (Class any_byte))) tail) p [] = Some x).
  rewrite (search_unique (lead_re (String m w)) _ p [] p1 []).
  - set (k := λ p' c', tail p' ((1, (p1, p')) :: c')).
    change (star false (search (Class any_byte)) (S (String.length (rest p1))) k p1 [] = Some x).
    apply (lazy_first _ _ _ _ (String d text) " */" [] x).
    + apply every_any.
    + change (rest p1) with (String d text +:+ " */"). rewrite string_app_length. lia.
    + intros x1 x2 Ex Hx2. 
        destruct (search_decides (Cat (Cat spaces (byte_re "*")) (byte_re "/")) (λ p' c, Some (mkMatch p p' c))
          (mkPos (last_byte (Some " "%char) x1) (x2 +:+ " */")) [(1, (p1, mkPos (last_byte (Some " "%char) x1) (x2 +:+ " */")))]) as [Hs _].
        change (tail (mkPos (last_byte (Some " "%char) x1) (x2 +:+ " */")) [(1, (p1, mkPos (last_byte (Some " "%char) x1) (x2 +:+ " */")))] = None).
        destruct (tail _ _) as [y|] eqn:Ey; [|done]. exfalso.
        destruct (Hs y Ey) as (p' & c' & Hmt & _).
        inversion Hmt as [| |? ? ? ? p2 c2 ? ? H1 H2| | | | | | | |]; subst.
        inversion H1 as [| |? ? ? ? p3 c3 ? ? H3 H4| | | | | | | |]; subst.
        apply spaces_matches in H3 as (_ & ws & Hr3 & Hws & _). apply byte_matches in H4 as (_ & Hr4 & _).
        apply byte_matches in H2 as (_ & Hr2 & _). cbn [rest] in Hr3. rewrite Hr4, Hr2 in Hr3.
        apply close_inside in Hr3 as [Hp|Hsp]; [| |done].
      * unfold closes_comment in *. rewrite Ex in Hclose. apply has_pair_suffix in Hclose. congruence.
      * pose proof (trimmed_last _ _ _ Ht Ex Hx2) as Hl. apply not_true_iff_false in Hl. apply Hl.
           clear -Hsp. induction x2 as [|c x2 IH]; [done|]. cbn in *. apply andb_true_iff in Hsp as [Hc Hsp].
           rewrite (re_space_is c Hc). by apply IH.
    + reflexivity.
  - by apply lead_matches.
  - intros p' c' Hl. by apply lead_matches in Hl.
Qed.

(** ** The expressions that do not match *)

Definition slash_star (r : Regexp) : Prop :=
  ∃ f g, first_two r = Some (f, g) ∧ f = (λ d, bool_decide (d = "/"%char)) ∧ g = (λ d, bool_decide (d = "*"%char)).

Lemma slash_star_text r b s c p' c' : slash_star r → matches r (mkPos b s) c p' c' →
  ∃ t, s = String "/" (String "*" t).
Proof.
  intros (f & g & Hf & -> & ->) Hm. destruct (first_two_spec _ _ _ _ _ _ _ Hf Hm) as (x & y & t & Hr & Hx & Hy).
  apply bool_decide_eq_true in Hx as ->. apply bool_decide_eq_true in Hy as ->. by exists t.
Qed.

(** A text without the beginning of a comment. *)
Lemma no_marker r s : slash_star r → opens_comment s = false → FindStringSubmatch r s = None.
Proof.
  intros Hr Hs. unfold FindStringSubmatch, find. pose proof (find_from_spec r None s) as H.
  destruct (find_from r None s) as [[pre m]|]; [|done]. exfalso. destruct H as (E & _ & Hm & _).
  destruct (m_start m) as [b u]. apply slash_star_text in Hm as (t & ->); [|done]. cbn in E.
  unfold opens_comment in Hs. by rewrite E, has_pair_app in Hs.
Qed.

(** A text where a comment begins only at the front, with another word. *)
Lemma other_marker r c0 s A t : slash_star r → reach r A = Some [] → String c0 s = A +:+ t → opens_comment s = false →
  FindStringSubmatch r (String c0 s) = None.
Proof.
  intros Hr HA Es Hs. unfold FindStringSubmatch, find. pose proof (find_from_spec r None (String c0 s)) as H.
  destruct (find_from r None _) as [[pre m]|]; [|done]. exfalso. destruct H as (E & Hb & Hm & _).
  destruct (m_start m) as [b u]. destruct pre as [|c pre].
  - cbn in E. subst u. rewrite Es in Hm. by apply (reach_none _ _ _ _ _ _ _ HA) in Hm.
  - apply slash_star_text in Hm as (v & ->); [|done]. injection E as <- E.
    unfold opens_comment in Hs. cbn in E. by rewrite E, has_pair_app in Hs.
Qed.

(** The expressions of [handleSpecialMarkers]. *)
Definition marker_res : list Regexp :=
  [reMarkerUse; reMarkerCopyInto; reMarkerPut; reMarkerGet; reMarkerList; reMarkerRemove; reMarkerCreateStream;
   reMarkerDropStream; reMarkerShowStreams; reMarkerCreateTask; reMarkerDropTask; reMarkerAlterTask; reMarkerShowTasks;
   reMarkerExecuteTask; reMarkerCreatePipe; reMarkerDropPipe; reMarkerShowPipes; reMarkerShowParameters; reMarkerUndropTable].

Lemma marker_res_open r : r ∈ marker_res ++ [reMarkerAtOffset; reMarkerAtTimestamp] → slash_star r.
Proof.
  revert r. apply Forall_forall. unfold marker_res. cbn [app]. repeat constructor; eexists _, _; split_all; reflexivity.
Qed.

(** *** Every carried statement reaches its handler *)

Inductive Carrier := CCopyInto | CPut | CGet | CList | CRemove | CCreateStream | CCreateTask | CCreatePipe.

Definition carrier_kind (c : Carrier) : string :=
  match c with
  | CCopyInto => "COPY_INTO" | CPut => "PUT" | CGet => "GET" | CList => "LIST" | CRemove => "REMOVE"
  | CCreateStream => "CREATE_STREAM" | CCreateTask => "CREATE_TASK" | CCreatePipe => "CREATE_PIPE"
  end.
(** The place of its expression in the order of the handler. *)
Definition carrier_index (c : Carrier) : nat :=
  match c with
  | CCopyInto => 1 | CPut => 2 | CGet => 3 | CList => 4 | CRemove => 5
  | CCreateStream => 6 | CCreateTask => 9 | CCreatePipe => 14
  end.

Definition marker_head (c : Carrier) : string := "/* MINIFLAKE_" +:+ carrier_kind c +:+ " ".

Lemma marker_text c text : marker (carrier_kind c) text =
  "/* " +:+ String "M" ("INIFLAKE_" +:+ carrier_kind c) +:+ String " " (text +:+ " */").
Proof. destruct c; reflexivity. Qed.

Definition carrier_at (c : Carrier) : Regexp := nth (carrier_index c) marker_res Never.

Lemma carrier_at_re c : carrier_at c = carrier_re (String "M" ("INIFLAKE_" +:+ carrier_kind c)).
Proof. destruct c; reflexivity. Qed.

Definition misses (c : Carrier) (r : Regexp) : bool := bool_decide (reach r (marker_head c) = Some []).
Lemma carriers_apart c : forallb (misses c) (take (carrier_index c) marker_res) = true.
Proof. destruct c; vm_compute; reflexivity. Qed.

Lemma carried_opens text c : carriable text →
  opens_comment (String "*" (" MINIFLAKE_" +:+ carrier_kind c +:+ String " " (text +:+ " */"))) = false.
Proof.
  intros (_ & _ & Ho & _). unfold opens_comment in *.
  assert (H : has_pair "/" "*" (String "*" (" MINIFLAKE_" +:+ carrier_kind c)) = false) by (destruct c; reflexivity).
  replace (String "*" (" MINIFLAKE_" +:+ carrier_kind c +:+ String " " (text +:+ " */")))
    with ((String "*" (" MINIFLAKE_" +:+ carrier_kind c)) +:+ String " " (text +:+ String " " "*/")) by (by destruct c).
  rewrite !has_pair_space, H, Ho by done. reflexivity.
Qed.

Lemma missed c text i : carriable text → i < carrier_index c →
  FindStringSubmatch (nth i marker_res Never) (marker (carrier_kind c) text) = None.
Proof.
  intros Ht Hi. destruct (lookup_lt_is_Some_2 marker_res i) as [r Hr]; [destruct c; cbn in *; lia|].
  rewrite (nth_lookup_Some _ _ _ _ Hr).
  assert (Hm : misses c r = true).
  { pose proof (carriers_apart c) as Hf. rewrite forallb_forall in Hf. apply Hf, list_elem_of_In.
    apply list_elem_of_lookup. exists i. by rewrite lookup_take_lt. }
  apply bool_decide_eq_true in Hm.
  apply (other_marker r "/" (String "*" (" MINIFLAKE_" +:+ carrier_kind c +:+ String " " (text +:+ " */")))
           (marker_head c) (text +:+ " */")); [|done|by destruct c|by apply carried_opens].
  apply marker_res_open, elem_of_app. left. by eapply list_elem_of_lookup_2.
Qed.

(** *** The rewriter makes the marker and leaves it alone *)

(** The expressions by which the first rules recognise a statement, in their order;
    some look at the text without the semicolons at its end. *)
Definition recognisers : list (bool * Regexp) :=
  [(false, reUse); (false, rePut); (false, reGet); (false, Rewriter.reCopyInto); (true, reListCmd); (true, reRemoveCmd);
   (true, Rewriter.reCreateStream); (true, Rewriter.reDropStream); (true, reShowStreams); (true, Rewriter.reCreateTask);
   (true, Rewriter.reDropTask); (true, reAlterTask); (true, reShowTasks); (true, reExecTask); (true, Rewriter.reCreatePipe)].
Definition recogniser (c : Carrier) : nat :=
  match c with
  | CPut => 1 | CGet => 2 | CCopyInto => 3 | CList => 4 | CRemove => 5 | CCreateStream => 6 | CCreateTask => 9 | CCreatePipe => 14
  end.
Definition recognises (sql : string) (e : bool * Regexp) : bool := MatchString e.2 (if e.1 then trimmed sql else sql).

(** The first expression that recognises the statement is the one of the kind. *)
Definition recognised (c : Carrier) (sql : string) : bool :=
  recognises sql (nth (recogniser c) recognisers (false, Never)) &&
  forallb (λ e, negb (recognises sql e)) (take (recogniser c) recognisers).
(** The text that the marker carries. *)
Definition carried_text (c : Carrier) (sql : string) : string :=
  match c with CCopyInto | CPut | CGet => sql | _ => trimmed sql end.

(** What the rules look for anywhere in a text: neither of these is in it. *)
Definition sought : list Regexp :=
  [reAtBeforeOffset; reAtBeforeTimestamp; reIdentifier; reVariantCastNested; reVariantAccessNested; reVariantArrayAccess;
   reFlattenTable; reLateralFlatten; reRlike].
Definition left_alone (s : string) : bool :=
  forallb (λ r, negb (MatchString r s)) sought &&
  forallb (λ n, match findFuncCall s n with None => true | Some _ => false end) function_names.

(** The expressions of the rules that look at the beginning of the text only. *)
Definition at_start : list Regexp :=
  [reUse; rePut; reGet; Rewriter.reCopyInto; reListCmd; reRemoveCmd; Rewriter.reCreateStream; Rewriter.reDropStream; reShowStreams;
   Rewriter.reCreateTask; Rewriter.reDropTask; reAlterTask; reShowTasks; reExecTask; Rewriter.reCreatePipe; Rewriter.reDropPipe;
   reShowPipes; reShowParameters; reUndrop; reMergeUpsert; reShowDatabases; reShowSchemas; reShowTables; reShowColumns;
   reShowWarehouses; reDescribe].
Lemma at_start_ok : forallb (λ r, anchored r && bool_decide (reach r "/" = Some [])) at_start = true.
Proof. vm_compute. reflexivity. Qed.

Lemma no_match r s : MatchString r s = false ↔ FindStringSubmatch r s = None.
Proof. unfold MatchString, FindStringSubmatch. by destruct (find r s). Qed.
Lemma no_replace r s f : MatchString r s = false → ReplaceAllMatch r s f = s.
Proof.
  intros H. assert (Hf : find_from r None s = None) by (unfold MatchString, find in H; by destruct (find_from r None s)).
  unfold ReplaceAllMatch. cbn [replace_from before rest]. by rewrite Hf.
Qed.

Section alone.
Context (fuel : nat) (t : string) (Htrim : trimmed (String "/" t) = String "/" t).
Context (Htrim' : TrimSpace (String "/" t) = String "/" t) (Hleft : left_alone (String "/" t) = true).
Let m := String "/" t.

Lemma start_missed r : r ∈ at_start → MatchString r m = false ∧ FindStringSubmatch r m = None.
Proof.
  intros Hr. rewrite no_match. assert (FindStringSubmatch r m = None); [|done].
  pose proof at_start_ok as Ha. rewrite forallb_forall in Ha. specialize (Ha r ltac:(by apply list_elem_of_In)).
  apply andb_true_iff in Ha as [Ha Hreach]. apply bool_decide_eq_true in Hreach. exact (anchored_none r "/" t Ha Hreach).
Qed.
Lemma sought_missed r : r ∈ sought → MatchString r m = false.
Proof.
  intros Hr. unfold left_alone in Hleft. apply andb_true_iff in Hleft as [H _]. rewrite forallb_forall in H.
  apply negb_true_iff, H. by apply list_elem_of_In.
Qed.
Lemma calls_missed n f : n ∈ function_names → on_calls fuel n f m = Some m.
Proof.
  intros Hn. unfold left_alone in Hleft. apply andb_true_iff in Hleft as [_ H]. rewrite forallb_forall in H.
  specialize (H n ltac:(by apply list_elem_of_In)). fold m in H. unfold on_calls. destruct fuel; cbn [replaceFuncCall]; by destruct (findFuncCall m n) as [[[? ?] ?]|].
Qed.

Ltac in_list := lazymatch goal with
  | |- ?x ∈ ?x :: _ => apply list_elem_of_here
  | |- _ ∈ _ :: _ => apply list_elem_of_further; in_list
  end.
Ltac miss := repeat match goal with
  | |- context [MatchString ?r m] => rewrite (proj1 (start_missed r ltac:(unfold at_start; in_list)))
  | |- context [FindStringSubmatch ?r m] => rewrite (proj2 (start_missed r ltac:(unfold at_start; in_list)))
  | |- context [ReplaceAllMatch ?r m ?f] => rewrite (no_replace r m f (sought_missed r ltac:(unfold sought; in_list)))
  end.

Lemma data_types_leave : rewriteDataTypes m = m.
Proof. unfold rewriteDataTypes, m. by rewrite Htrim'. Qed.

Lemma rules_leave : Forall (λ rule, rule m = Some m) (rules fuel).
Proof.
  pose proof Htrim as Ht. fold m in Ht. unfold rules. repeat apply Forall_cons_2; [..|apply Forall_nil_2].
  all: try (apply calls_missed; unfold function_names; in_list).
  all: try (unfold total; f_equal; first
    [ apply data_types_leave
    | unfold rewriteUseStatements, rewritePutGet, rewriteCopyInto, rewriteStageCommands, rewriteStreams, rewriteTasks, rewritePipes,
        rewriteShowParameters, rewriteUndrop, rewriteTimeTravel, rewriteMerge, rewriteShowCommands, rewriteDescribe,
        rewriteIdentifierFunc, rewriteVariantAccess, rewriteFlatten, rewriteRLike, ReplaceAllString, ReplaceAllStringFunc;
      rewrite ?Ht; cbv zeta; miss; reflexivity ]).
  unfold rewriteToVarchar. rewrite calls_missed by (unfold function_names; in_list).
  apply calls_missed. unfold function_names; in_list.
Qed.
End alone.

Lemma trim_right_end f a c : f c = false → trim_right f (a +:+ String c "") = a +:+ String c "".
Proof.
  intros Hc. unfold trim_right. rewrite string_rev_app_distr. change (string_rev (String c "")) with (String c "").
  change (String c "" +:+ string_rev a) with (String c (string_rev a)). cbn [trim_left]. rewrite Hc.
  change (String c (string_rev a)) with (String c "" +:+ string_rev a). by rewrite string_rev_app_distr, string_rev_involutive.
Qed.
Lemma marker_trimmed kind text : TrimSpace (marker kind text) = marker kind text ∧ trimmed (marker kind text) = marker kind text.
Proof.
  assert (E : marker kind text = (String "/" ("* MINIFLAKE_" +:+ kind +:+ " " +:+ text +:+ " *")) +:+ String "/" "").
  { unfold marker. repeat (cbn [String.append]; rewrite ?string_app_assoc). done. }
  assert (Ht : TrimSpace (marker kind text) = marker kind text).
  { unfold TrimSpace. change (trim_left is_space (marker kind text)) with (marker kind text). rewrite E. by apply trim_right_end. }
  split; [done|]. unfold trimmed. rewrite Ht, E. by apply trim_right_end.
Qed.

Lemma rules_settle m rs : Forall (λ rule : Rule, rule m = Some m) rs → apply_rules rs m = Some m.
Proof. induction 1 as [|rule rs H _ IH]; [done|]. cbn. by rewrite H. Qed.
Lemma rule_passes (rule : Rule) rs sql : rule sql = Some sql → apply_rules (rule :: rs) sql = apply_rules rs sql.
Proof. intros H. cbn. by rewrite H. Qed.
Lemma rule_takes (rule : Rule) rs sql m : rule sql = Some m → Forall (λ rule : Rule, rule m = Some m) rs →
  apply_rules (rule :: rs) sql = Some m.
Proof. intros H Hrs. cbn. rewrite H. by apply rules_settle. Qed.

(** A statement that is recognised first as one of a kind is rewritten to a marker of
    that kind. *)
Lemma carried_rewritten c fuel sql : TrimSpace sql = sql → sql ≠ "" → recognised c sql = true →
  left_alone (marker (carrier_kind c) (carried_text c sql)) = true →
  Rewrite fuel sql = Some (marker (carrier_kind c) (carried_text c sql)).
Proof.
  intros Ht Hne Hr Hl. destruct (marker_trimmed (carrier_kind c) (carried_text c sql)) as [Hm Hm'].
  unfold Rewrite. rewrite Ht, decide_False by done.
  pose proof (rules_leave fuel ("* MINIFLAKE_" +:+ carrier_kind c +:+ " " +:+ carried_text c sql +:+ " */") Hm' Hm Hl) as Hall.
  change (String "/" ("* MINIFLAKE_" +:+ carrier_kind c +:+ " " +:+ carried_text c sql +:+ " */"))
    with (marker (carrier_kind c) (carried_text c sql)) in Hall.
  cut (apply_rules (rules fuel) sql = Some (marker (carrier_kind c) (carried_text c sql))); [intros ->; exact (f_equal Some Hm)|].
  clear Hm Hm' Hl. unfold recognised in Hr. apply andb_true_iff in Hr as [Hr Hb].
  destruct c; cbn [recogniser take nth recognisers forallb recognises fst snd carried_text carrier_kind] in Hr, Hb, Hall |- *;
    rewrite ?andb_true_iff, ?negb_true_iff in Hb; split_all; unfold recognises in *; cbn [fst snd] in *.
  all: unfold rules.
  all: repeat match goal with H : MatchString ?r ?s = false |- _ =>
    let H' := fresh in pose proof (proj1 (no_match r s) H) as H'; revert H end; intros.
  all: repeat first
    [ rewrite rule_passes by (unfold total; f_equal; unfold rewriteUseStatements, rewritePutGet, rewriteCopyInto, rewriteStageCommands,
        rewriteStreams, rewriteTasks, rewritePipes; repeat match goal with H : _ = false |- _ => rewrite H | H : _ = None |- _ => rewrite H end; reflexivity) ].
  all: apply rule_takes; [unfold total; f_equal; unfold rewritePutGet, rewriteCopyInto, rewriteStageCommands, rewriteStreams, rewriteTasks, rewritePipes;
    repeat match goal with H : MatchString _ _ = _ |- _ => rewrite H | H : _ = None |- _ => rewrite H end; reflexivity|].
  all: match goal with |- Forall _ ?l => let n := eval cbv in (37 - length l) in exact (Forall_drop _ n _ Hall) end.
Qed.

Section dispatch.
Context {W : Type} `{MapRange}.
Context (execDB : string → list cell → W → result ExecResult * W).
Context (osMkdirAll osRemove : string → W → result unit * W).
Context (osFiles : OsFiles W) (osStat : string → W → result Z).
Context (walkDir : string → W → list WalkEntry) (fileMD5 : string → W → string).
Context (glob : string → string → result bool) (compile : string → result (string → bool)).
Context (bad_authority bad_fragment : string → bool) (LoadLocation : string → result Location) (now : nat → Z).

(** The handler of each kind, as a call with the statement's own text. *)
Definition carried_to (c : Carrier) (sess : Session) (text : string) : GoM (Orchestrator W) QueryResult :=
  match c with
  | CCopyInto => handleCopyInto execDB osMkdirAll osRemove osStat walkDir fileMD5 glob compile now sess text
  | CPut => on_stage (handlePut osMkdirAll osFiles osStat bad_authority bad_fragment (now 0) sess text)
  | CGet => on_stage (handleGet osMkdirAll osFiles walkDir fileMD5 glob compile bad_authority bad_fragment (now 0) sess text)
  | CList => on_stage (handleListStage osMkdirAll walkDir fileMD5 glob compile (now 0) sess text)
  | CRemove => on_stage (handleRemoveStage osMkdirAll osRemove walkDir fileMD5 glob compile (now 0) sess text)
  | CCreateStream => handleCreateStream now sess text
  | CCreateTask => handleCreateTask LoadLocation now sess text
  | CCreatePipe => handleCreatePipe now sess text
  end.

Lemma on_match_none r sql k next (st : Session * Orchestrator W) : FindStringSubmatch r sql = None →
  on_match r sql k next st = next st.
Proof. intros E. unfold on_match. by rewrite E. Qed.
Lemma on_match_some r sql k next m (st : Session * Orchestrator W) : FindStringSubmatch r sql = Some m →
  on_match r sql k next st = k m st.
Proof. intros E. unfold on_match. by rewrite E. Qed.

(** A marker whose text has no comment of its own reaches the handler of its kind: no
    earlier expression takes it, and the lazy group ends at the end of the marker. *)
Lemma marker_handled c text st : carriable text →
  handleSpecialMarkers execDB osMkdirAll osRemove osFiles osStat walkDir fileMD5 glob compile bad_authority bad_fragment
    LoadLocation now (marker (carrier_kind c) text) st
  = handled (carried_to c st.1 text) st.
Proof.
  intros Ht. pose proof (missed c text) as Hmiss.
  destruct (carrier_finds "M" ("INIFLAKE_" +:+ carrier_kind c) text eq_refl Ht) as (x & Hx & Hg).
  rewrite <- carrier_at_re, <- marker_text in Hx. unfold handleSpecialMarkers, bind at 1, get.
  assert (Hno : ∀ i r k next st', i < carrier_index c → nth i marker_res Never = r →
    on_match (W:=W) r (marker (carrier_kind c) text) k next st' = next st').
  { intros i r k next st' Hi <-. apply on_match_none, Hmiss; [done|lia]. }
  destruct c; cbn [carrier_index] in Hno.
  all: match type of Hno with ∀ i r k next st', i < ?n → _ =>
    let rec skip i := tryif constr_eq i n then idtac
      else (etransitivity; [apply (Hno i); [lia|reflexivity]|]; let j := eval cbv in (S i) in skip j) in skip 0
    end.
  all: etransitivity; [apply (on_match_some _ _ _ _ x); exact Hx|]; by rewrite Hg.
Qed.

Context (queryDB : string → list cell → W → result Engine.Rows * W) (osRemoveAll : string → W → result unit * W).
Context (parseTime : string → result Z) (time_string : Z → string).

(** C7: A statement that the rewriter recognises as one for the orchestrator (COPY INTO,
    PUT, GET, LIST, REMOVE, CREATE STREAM, TASK or PIPE) reaches the handler of its kind
    with its own text, whole and unchanged, and nothing else happens: provided that the
    text has no comment in it and no white space at its end, and that there is nothing
    in it that the rules for queries look for anywhere in a text. *)
Theorem marked_statement_arrives c fuel sql st : recognised c (TrimSpace sql) = true →
  let text := carried_text c (TrimSpace sql) in
  carriable text → left_alone (marker (carrier_kind c) text) = true →
  ExecuteSQL queryDB execDB osMkdirAll osRemoveAll osRemove osFiles osStat walkDir fileMD5 glob compile bad_authority
    bad_fragment LoadLocation parseTime time_string now fuel sql st = Some (on_orch (carried_to c st.1 text) st).
Proof.
  intros Hr text Hc Hl. unfold ExecuteSQL.
  assert (Hne : TrimSpace sql ≠ "").
  { intros E. destruct Hc as [Hc _]. apply Hc. unfold text. rewrite E. by destruct c. }
  rewrite decide_False by done.
  rewrite (carried_rewritten c fuel (TrimSpace sql)) by (done || exact (TrimSpace_again "" sql eq_refl)). f_equal.
  fold text. unfold execute_rewritten, or_else, bind at 1. rewrite marker_handled by done.
  unfold handled, bind, ret. destruct (on_orch (carried_to c st.1 text) st) as [[r|e] st']; done.
Qed.

Lemma expand_unmarked r file sql : slash_star r → opens_comment sql = false → expand_marker r file sql = Ok sql.
Proof.
  intros Hr Hs. assert (Hf : find_from r None sql = None).
  { pose proof (no_marker r sql Hr Hs) as Hn. unfold FindStringSubmatch, find in Hn. by destruct (find_from r None sql). }
  unfold expand_marker, first_failure, FindAllStringSubmatch, ReplaceAllStringFunc, ReplaceAllMatch.
  cbn [find_all replace_from before rest]. by rewrite Hf.
Qed.

(** The two bytes that the statements of [handleQuery] begin with, in either case. *)
Definition query_heads : list string :=
  p ← query_prefixes;
  match p with
  | String a (String b _) => x ← [a; lower_byte a]; y ← [b; lower_byte b]; [String x (String y "")]
  | _ => []
  end.
Definition ddl_res : list Regexp :=
  [reCloneTable; reCreateDatabase; reDropDatabase; reCreateSchema; reDropSchema; reCreateTable; reDropTable; reCreateView;
   Orchestrator.reCreateStream; Orchestrator.reDropStream; Orchestrator.reCreateTask; Orchestrator.reDropTask;
   reAlterTaskResume; reAlterTaskSusp; Orchestrator.reCreatePipe; Orchestrator.reDropPipe; reCreateStage; reDropStage;
   reCreateFunc; reGrant; reRevoke; reCreateRole].

Lemma ddl_heads : forallb (λ h, forallb (λ r, anchored r && bool_decide (reach r h = Some [])) ddl_res) query_heads = true.
Proof. vm_compute. reflexivity. Qed.

Lemma upper_cases a c : upper_byte a = c → a = c ∨ a = lower_byte c.
Proof. intros <-. destruct a as [[] [] [] [] [] [] [] []]; first [left; reflexivity|right; reflexivity]. Qed.

Lemma query_head s : has_any_prefix query_prefixes (ToUpper s) = true → ∃ h t, h ∈ query_heads ∧ s = h +:+ t.
Proof.
  unfold has_any_prefix. rewrite existsb_exists. intros (p & Hp & (u & Hu)%HasPrefix_spec).
  assert (H2 : ∃ a b p', p = String a (String b p')).
  { repeat destruct Hp as [<-|Hp]; try destruct Hp; by eexists _, _, _. }
  destruct H2 as (a & b & p' & ->). destruct s as [|x [|y s]]; try done. cbn in Hu. injection Hu as Hx Hy _.
  exists (String x (String y "")), s. split; [|done]. unfold query_heads. apply list_elem_of_bind.
  exists (String a (String b p')). split; [|by apply list_elem_of_In].
  apply list_elem_of_bind. exists x. split; [|apply upper_cases in Hx; set_solver].
  apply list_elem_of_bind. exists y. split; [|apply upper_cases in Hy; set_solver]. apply list_elem_of_here.
Qed.

Lemma no_special sql (st : Session * Orchestrator W) : opens_comment sql = false →
  handleSpecialMarkers execDB osMkdirAll osRemove osFiles osStat walkDir fileMD5 glob compile bad_authority bad_fragment
    LoadLocation now sql st = (Ok None, st).
Proof.
  intros Hs. assert (Hno : ∀ i r k next st', nth i marker_res Never = r → i < length marker_res →
    on_match (W:=W) r sql k next st' = next st').
  { intros i r k next st' Hi Hl. apply on_match_none, no_marker; [|done]. apply marker_res_open, elem_of_app. left.
    rewrite <- Hi. apply list_elem_of_In, nth_In, Hl. }
  unfold handleSpecialMarkers, bind at 1, get.
  let rec skip i := tryif constr_eq i 19 then idtac
    else (etransitivity; [apply (Hno i); [reflexivity|cbn; lia]|]; let j := eval cbv in (S i) in skip j) in skip 0.
  reflexivity.
Qed.

Lemma no_ddl sql (st : Session * Orchestrator W) : has_any_prefix query_prefixes (ToUpper sql) = true →
  handleDDL queryDB execDB osMkdirAll osRemoveAll LoadLocation now sql st = (Ok None, st).
Proof.
  intros (h & t & Hh & ->)%query_head. pose proof ddl_heads as Hd. rewrite forallb_forall in Hd.
  specialize (Hd h ltac:(by apply list_elem_of_In)). rewrite forallb_forall in Hd.
  assert (Hno : ∀ i r k next st', nth i ddl_res Never = r → i < length ddl_res →
    on_match (W:=W) r (h +:+ t) k next st' = next st').
  { intros i r k next st' Hi Hl. specialize (Hd r ltac:(rewrite <- Hi; by apply nth_In)).
    apply andb_true_iff in Hd as [Ha Hr]. apply bool_decide_eq_true in Hr. by apply on_match_none, anchored_none. }
  unfold handleDDL, stream_ddl, task_ddl, pipe_ddl, stage_ddl, function_ddl, role_ddl, bind at 1, get.
  let rec skip i := tryif constr_eq i 22 then idtac
    else (etransitivity; [apply (Hno i); [reflexivity|cbn; lia]|]; let j := eval cbv in (S i) in skip j) in skip 0.
  reflexivity.
Qed.

Lemma at_open r : r = reMarkerAtOffset ∨ r = reMarkerAtTimestamp → slash_star r.
Proof. intros Hr. apply marker_res_open, elem_of_app. right. destruct Hr as [->| ->]; repeat constructor. Qed.

Lemma prefixes_apart A B s : has_any_prefix A s = true →
  forallb (λ a, forallb (λ b, negb (HasPrefix a b || HasPrefix b a)) B) A = true → has_any_prefix B s = false.
Proof.
  intros (a & Ha & (x & ->)%HasPrefix_spec)%existsb_exists HAB. rewrite forallb_forall in HAB. specialize (HAB a Ha).
  rewrite forallb_forall in HAB. apply not_true_iff_false. intros (b & Hb & (y & Hy)%HasPrefix_spec)%existsb_exists.
  specialize (HAB b Hb). apply negb_true_iff, orb_false_iff in HAB as [H1 H2].
  clear -Hy H1 H2. revert b Hy H1 H2. induction a as [|c a IH]; intros [|d b] Hy H1 H2; try done.
  injection Hy as -> Hy. apply (IH b Hy); [revert H1|revert H2]; rewrite <- !not_true_iff_false, !HasPrefix_spec;
    intros Hn (t & ->); apply Hn; by exists t.
Qed.

(** The orchestrator after the world has moved. *)
Definition with_world (w : W) (o : Orchestrator W) : Orchestrator W :=
  mkOrchestrator (engine o) (catalog o) (stageMgr o) (streamEng o) (taskSched o) (timeTravelEng o) (cloneEng o) (udfReg o)
    (rbacEng o) (snowpipeEng o) w.

(** C13: A statement that is rewritten to a query without comments is answered by the
    database alone: it is given to it as it is, its columns and rows are the answer,
    and neither the session nor any subsystem changes. *)
Theorem queries_read_only fuel sql s (st : Session * Orchestrator W) :
  TrimSpace sql ≠ "" → Rewrite fuel (TrimSpace sql) = Some s →
  has_any_prefix query_prefixes (ToUpper s) = true → opens_comment s = false →
  ExecuteSQL queryDB execDB osMkdirAll osRemoveAll osRemove osFiles osStat walkDir fileMD5 glob compile bad_authority
    bad_fragment LoadLocation parseTime time_string now fuel sql st =
  let '(r, (_, w)) := Engine.Execute queryDB s [] (engine st.2, world st.2) in
  Some (result_map (λ '(cols, rows), mkQueryResult cols rows 0 "SELECT") r, (st.1, with_world w st.2)).
Proof.
  intros Hne Hrw Hq Ho. unfold ExecuteSQL. rewrite decide_False, Hrw by done. destruct st as [sess o]. cbn [fst snd].
  assert (Hts : TrimSpace s = s).
  { unfold Rewrite in Hrw. revert Hrw. case_decide; [by intros [= <-]|]. destruct (apply_rules _ _) as [x|]; [|done]. cbn.
    intros [= <-]. exact (TrimSpace_again "" x eq_refl). }
  assert (Ht : ∀ (h : GoM (Session * Orchestrator W) (option QueryResult)) next st0, h st0 = (Ok None, st0) →
    or_else h next st0 = next st0) by (intros h next st0 Hh; unfold or_else, bind; by rewrite Hh).
  assert (Hon : ∀ (m : GoM (Orchestrator W) (option QueryResult)) o', m o' = (Ok None, o') →
    on_orch m (sess, o') = (Ok None, (sess, o'))) by (intros m o' Hm; unfold on_orch; cbn; by rewrite Hm).
  f_equal. unfold execute_rewritten. rewrite Ht by (by apply no_special). unfold bind at 1, get. cbn [fst snd].
  unfold expandTimeTravelMarkers.
  rewrite (expand_unmarked reMarkerAtOffset _ s) by (done || apply at_open; by left).
  rewrite (expand_unmarked reMarkerAtTimestamp _ s) by (done || apply at_open; by right).
  rewrite Hts, Ht by (by apply no_ddl).
  rewrite Ht by (apply Hon; unfold handleDML; by rewrite (prefixes_apart query_prefixes)).
  rewrite Ht by (apply Hon; unfold handleTransaction; by rewrite (prefixes_apart query_prefixes)).
  unfold handleQuery. rewrite Hq. cbn [negb]. unfold or_else, on_orch, on_engine, bind. cbn [fst snd].
  unfold Engine.Execute, wrapped, lift, bind. cbn [fst snd].
  destruct (queryDB s [] (world o)) as [[rows|e] w]; cbn; [|done]. destruct (r_columns rows); [|done]. by destruct (r_err rows).
Qed.
End dispatch.

(** ** Concrete statements *)

#[local] Existing Instance key_order.

Definition put_text : string := "PUT file:///tmp/a.csv @s/in AUTO_COMPRESS = FALSE".

Lemma marked_statement_arrives_witness :
  demo_statement 0 (" " +:+ put_text) (demo_session, demo_boot) =
  Some (on_orch (on_stage (handlePut demo_dir demo_copy (λ _ _, Err "no file") (λ _, false) (λ _, false) 0 demo_session put_text))
          (demo_session, demo_boot)).
Proof.
  assert (Hr : recognised CPut (TrimSpace (" " +:+ put_text)) = true) by (vm_compute; reflexivity).
  assert (Hc : carriable (carried_text CPut (TrimSpace (" " +:+ put_text)))) by (apply (bool_decide_unpack _); vm_compute; exact I).
  assert (Hl : left_alone (marker (carrier_kind CPut) (carried_text CPut (TrimSpace (" " +:+ put_text)))) = true) by (vm_compute; reflexivity).
  exact (marked_statement_arrives demo_exec demo_dir demo_dir demo_copy (λ _ _, Err "no file") (λ _ _, []) (λ _ _, "") (λ _ _, Ok true)
    (λ _, Err "bad pattern") (λ _, false) (λ _, false) demo_zone _ demo_query demo_dir _ _ CPut _ _ (demo_session, demo_boot) Hr Hc Hl).
Defined.

(** Data that looks like the access to an element is rewritten inside the marker. *)
Example marker_rewritten : left_alone (marker "PUT" "PUT file:///tmp/data[0].csv @s") = false ∧
  Rewrite 4 "PUT file:///tmp/data[0].csv @s" = Some "/* MINIFLAKE_PUT PUT file:///tmp/data->>0.csv @s */"%string.
Proof. vm_compute. split; reflexivity. Qed.

(** A comment in the text ends the marker. *)
Example comment_cuts_marker :
  (λ m, group m 1) <$> FindStringSubmatch reMarkerCreateTask (marker "CREATE_TASK" "CREATE TASK t AS SELECT 1 /* one */ + 2")
  = Some "CREATE TASK t AS SELECT 1 /* one"%string ∧ ¬ carriable "CREATE TASK t AS SELECT 1 /* one */ + 2".
Proof. split; [vm_compute; reflexivity|]. apply (bool_decide_unpack _). vm_compute. exact I. Qed.

(** A marker inside a literal is executed. *)
Example marker_in_literal :
  let st := (demo ["CREATE TASK x AS SELECT 1"; "SELECT '/* MINIFLAKE_DROP_TASK x 1 */'"]).2 in
  Task.tasks (taskSched st.2) = ∅ ∧ d_log (world st.2) = [].
Proof. vm_compute. split; reflexivity. Qed.

Lemma queries_read_only_witness :
  (demo_statement 0 " select a from t;" (demo_session, demo_boot)) =
    Some (Ok (mkQueryResult [] [] 0 "SELECT"), (demo_session, with_world (logged "select a from t;" empty_demo) demo_boot)).
Proof.
  unfold demo_statement.
  rewrite (queries_read_only demo_exec demo_dir demo_dir demo_copy _ _ _ _ _ _ _ demo_zone _ demo_query demo_dir _ _
    20 " select a from t;" "select a from t;" (demo_session, demo_boot)).
  - vm_compute. reflexivity.
  - discriminate.
  - vm_compute. reflexivity.
  - vm_compute. reflexivity.
  - vm_compute. reflexivity.
Defined.
