(* ===== verification/OrchestratorSpec.v ===== *)
(** * Properties of the orchestrator

    What every statement keeps intact in every subsystem, what single statements do,
    and how a statement travels from the rewriter's marker to its handler. *)

From S2P Require Import Prelude GoStrings GoTime GoPath Regexp Rewriter Rbac Stream Snowpipe Catalog Session TimeTravel Clone Cron Task Udf CopyInto Engine Stage StageRef Parameters Orchestrator Demo.
From Stdlib Require Import Ascii.

(** ** Well-formed subsystems *)

(** Pipes and functions are stored under the keys of their names, and every pipe has
    a history. *)
Definition pipes_wf (e : Snowpipe.Engine) : Prop :=
  ∀ key p, Snowpipe.pipes e !! key = Some p →
    key = pipeKey (Snowpipe.Database p) (Snowpipe.Schema p) (Snowpipe.Name p) ∧ is_Some (Snowpipe.history e !! key).
Definition functions_wf (r : Udf.Registry) : Prop := ∀ key u, udfs r !! key = Some u → key = makeKeyFromUDF u.

Definition stages_ok {W} (s : Stage.Manager * W) : Prop := clean_stages s.1.

Record orch_ok {W} (o : Orchestrator W) : Prop := mkOk {
  ok_catalog : Catalog.wf (catalog o);
  ok_stages : clean_stages (stageMgr o);
  ok_streams : Stream.wf (streamEng o);
  ok_tasks : Task.wf (taskSched o);
  ok_roles : Rbac.wf (rbacEng o);
  ok_pipes : pipes_wf (snowpipeEng o);
  ok_functions : functions_wf (udfReg o);
}.

Section lens_lemmas.
Context {W A : Type}.

Lemma keeps_on_engine (m : GoM (Engine.Engine * W) A) : keeps orch_ok (on_engine m).
Proof. intros o []. unfold on_engine. destruct (m _) as [r [e w]]. by split. Qed.
Lemma keeps_on_timetravel (m : GoM (TimeTravel.Engine * W) A) : keeps orch_ok (on_timetravel m).
Proof. intros o []. unfold on_timetravel. destruct (m _) as [r [e w]]. by split. Qed.
Lemma keeps_on_clone (m : GoM (Clone.Engine * W) A) : keeps orch_ok (on_clone m).
Proof. intros o []. unfold on_clone. destruct (m _) as [r [e w]]. by split. Qed.
Lemma keeps_on_catalog (m : GoM Catalog.Catalog A) : keeps Catalog.wf m → keeps (orch_ok (W:=W)) (on_catalog m).
Proof. intros Hm o []. unfold on_catalog. pose proof (Hm (catalog o)). destruct (m _) as [r c]. split; cbn in *; auto. Qed.
Lemma keeps_on_stage (m : GoM (Stage.Manager * W) A) : keeps stages_ok m → keeps orch_ok (on_stage m).
Proof.
  intros Hm o []. unfold on_stage. pose proof (Hm (stageMgr o, world o)). destruct (m _) as [r [s w]].
  split; cbn in *; unfold stages_ok in *; auto.
Qed.
Lemma keeps_on_stream (m : GoM Stream.Engine A) : keeps Stream.wf m → keeps (orch_ok (W:=W)) (on_stream m).
Proof. intros Hm o []. unfold on_stream. pose proof (Hm (streamEng o)). destruct (m _) as [r c]. split; cbn in *; auto. Qed.
Lemma keeps_on_task (m : GoM (Task.Scheduler (Stream.Engine * W)) A) : keeps Task.wf m → keeps orch_ok (on_task m).
Proof. intros Hm o []. unfold on_task. pose proof (Hm (taskSched o)). destruct (m _) as [r c]. split; cbn in *; auto. Qed.
Lemma keeps_on_udf (m : GoM Udf.Registry A) : keeps functions_wf m → keeps (orch_ok (W:=W)) (on_udf m).
Proof. intros Hm o []. unfold on_udf. pose proof (Hm (udfReg o)). destruct (m _) as [r c]. split; cbn in *; auto. Qed.
Lemma keeps_on_rbac (m : GoM Rbac.Engine A) : keeps Rbac.wf m → keeps (orch_ok (W:=W)) (on_rbac m).
Proof. intros Hm o []. unfold on_rbac. pose proof (Hm (rbacEng o)). destruct (m _) as [r c]. split; cbn in *; auto. Qed.
Lemma keeps_on_pipes (m : GoM Snowpipe.Engine A) : keeps pipes_wf m → keeps (orch_ok (W:=W)) (on_pipes m).
Proof.
  intros Hm o []. unfold on_pipes, on_snowpipe. cbn. pose proof (Hm (snowpipeEng o)). destruct (m _) as [r c].
  split; cbn in *; auto.
Qed.
End lens_lemmas.

#[export] Hint Resolve keeps_on_engine keeps_on_timetravel keeps_on_clone keeps_on_catalog keeps_on_stage keeps_on_stream
  keeps_on_task keeps_on_udf keeps_on_rbac keeps_on_pipes : keeps.

(** *** The operations of the subsystems *)

Lemma keeps_CreateDatabase now n o : keeps Catalog.wf (Catalog.CreateDatabase now n o).
Proof. intros c. apply (catalog_op_wf (OpCreateDatabase now n o)). Qed.
Lemma keeps_DropDatabase n : keeps Catalog.wf (Catalog.DropDatabase n).
Proof. intros c. apply (catalog_op_wf (OpDropDatabase n)). Qed.
Lemma keeps_CreateSchema now d n o : keeps Catalog.wf (Catalog.CreateSchema now d n o).
Proof. intros c. apply (catalog_op_wf (OpCreateSchema now d n o)). Qed.
Lemma keeps_DropSchema d n : keeps Catalog.wf (Catalog.DropSchema d n).
Proof. intros c. apply (catalog_op_wf (OpDropSchema d n)). Qed.
Lemma keeps_RegisterTable now d s t : keeps Catalog.wf (Catalog.RegisterTable now d s t).
Proof. intros c. apply (catalog_op_wf (OpRegisterTable now d s t)). Qed.
Lemma keeps_DropTable d s t : keeps Catalog.wf (Catalog.DropTable d s t).
Proof. intros c. apply (catalog_op_wf (OpDropTable d s t)). Qed.
Lemma keeps_CreateStream now db sc n t ty : keeps Stream.wf (Stream.CreateStream now db sc n t ty).
Proof. intros e. apply CreateStream_wf. Qed.
Lemma keeps_DropStream db sc n : keeps Stream.wf (Stream.DropStream db sc n).
Proof. intros e. apply DropStream_wf. Qed.
Lemma keeps_RecordChange `{MapRange} now db sc t c : keeps Stream.wf (Stream.RecordChange now db sc t c).
Proof. intros e. apply RecordChange_wf. Qed.
Lemma keeps_CreateTask {W} LoadLocation now db sc n sql schd wh pred cond :
  keeps (Task.wf (W:=W)) (Task.CreateTask LoadLocation now db sc n sql schd wh pred cond).
Proof. intros s. apply CreateTask_wf. Qed.
Lemma keeps_DropTask {W} db sc n : keeps (Task.wf (W:=W)) (Task.DropTask db sc n).
Proof. intros s. apply DropTask_wf. Qed.
Lemma keeps_AlterTask {W} db sc n st : keeps (Task.wf (W:=W)) (Task.AlterTask db sc n st).
Proof. intros s. apply AlterTask_wf. Qed.
Lemma keeps_GrantPrivilege now p ot n r wg : keeps Rbac.wf (Rbac.GrantPrivilege now p ot n r wg).
Proof. intros e. apply GrantPrivilege_wf. Qed.
Lemma keeps_RevokePrivilege p ot n r : keeps Rbac.wf (Rbac.RevokePrivilege p ot n r).
Proof. intros e. apply RevokePrivilege_wf. Qed.
Lemma keeps_CreateRole now n : keeps Rbac.wf (Rbac.CreateRole now n).
Proof. intros e. apply CreateRole_wf. Qed.

Lemma keeps_CreatePipe now db sc n c a : keeps pipes_wf (Snowpipe.CreatePipe now db sc n c a).
Proof.
  apply keeps_get_bind. intros e He. destruct (Snowpipe.pipes e !! pipeKey db sc n) as [?|]; [apply keeps_fail|].
  apply keeps_put. intros key q. cbn. intros [[<- <-]|[Hne Hk]]%lookup_insert_Some.
  - split; [|rewrite lookup_insert_eq; eauto]. unfold pipeKey. cbn. by rewrite !ToUpper_idem.
  - rewrite lookup_insert_ne by done. by apply He.
Qed.
Lemma keeps_DropPipe db sc n : keeps pipes_wf (Snowpipe.DropPipe db sc n).
Proof.
  apply keeps_get_bind. intros e He. destruct (Snowpipe.pipes e !! pipeKey db sc n) as [?|]; [|apply keeps_fail].
  apply keeps_put. intros key q. cbn. intros [Hne Hk]%lookup_delete_Some. rewrite lookup_delete_ne by done. by apply He.
Qed.
Lemma keeps_Register now u : keeps functions_wf (Udf.Register now u).
Proof.
  unfold Udf.Register. case_decide; [apply keeps_fail|]. apply keeps_get_bind. intros r Hr.
  set (u' := if IsZero _ then _ else u). destruct (udfs r !! makeKeyFromUDF u'); [apply keeps_fail|].
  apply keeps_put. intros key x. cbn. intros [[<- <-]|[_ Hk]]%lookup_insert_Some; [done|by apply Hr].
Qed.

#[export] Hint Resolve keeps_CreateDatabase keeps_DropDatabase keeps_CreateSchema keeps_DropSchema keeps_RegisterTable
  keeps_DropTable keeps_CreateStream keeps_DropStream keeps_RecordChange keeps_CreateTask keeps_DropTask keeps_AlterTask
  keeps_GrantPrivilege keeps_RevokePrivilege keeps_CreateRole keeps_CreatePipe keeps_DropPipe keeps_Register : keeps.

(** *** The operations on stages *)

Section stage_ops.
Context {W : Type} (osMkdirAll osRemoveAll osRemove : string → W → result unit * W).
Context (osFiles : OsFiles W).

Lemma clean_insert base sts key meta : clean_stages (Stage.mkManager base sts) →
  Clean (LocalPath meta) = LocalPath meta → clean_stages (Stage.mkManager base (<[key := meta]> sts)).
Proof. intros [Hb Hc] Hm. split; [done|]. cbn. intros k y [[<- <-]|[_ Hy]]%lookup_insert_Some; [done|by eapply Hc]. Qed.

Lemma keeps_lift_stage {A} (f : W → result A * W) : keeps stages_ok (lift f).
Proof. apply keeps_lift. Qed.
Hint Resolve keeps_lift_stage : keeps.

Lemma keeps_CreateStage now db sc n ty url : keeps stages_ok (Stage.CreateStage osMkdirAll now db sc n ty url).
Proof.
  apply keeps_get_bind. intros s0 Hs0. destruct (stages s0.1 !! _); [apply keeps_fail|].
  apply keeps_bind; [keeps_auto|]. intros _. apply keeps_modify. intros [[base sts] w] Hs.
  apply (clean_insert base sts); [done|]. apply PathJoin_clean, Hs0.
Qed.
Lemma keeps_DropStage db sc n : keeps stages_ok (Stage.DropStage osRemoveAll db sc n).
Proof.
  apply keeps_get_bind. intros s0 Hs0. destruct (stages s0.1 !! _); [|apply keeps_fail].
  apply keeps_bind; [keeps_auto|]. intros _. apply keeps_modify. intros [[base sts] w] [Hb Hc]. split; [done|]. cbn.
  intros k y [_ Hy]%lookup_delete_Some. by eapply Hc.
Qed.
Lemma keeps_stage_Reset : keeps stages_ok (Stage.Reset osMkdirAll osRemoveAll).
Proof.
  apply keeps_get_bind. intros s0 [Hb _]. apply keeps_bind; [|keeps_auto].
  apply keeps_put. split; [done|]. intros k y Hk. cbn in Hk. by rewrite lookup_empty in Hk.
Qed.

Lemma keeps_get_or_create key dir meta : (∀ l, LocalPath (meta l) = l) → (∀ b, b ≠ "" → Clean (dir b) = dir b) →
  keeps stages_ok (get_or_create osMkdirAll key dir meta).
Proof.
  intros Hm Hd. apply keeps_get_bind. intros s0 [Hb _]. destruct (stages s0.1 !! _); [apply keeps_ret|].
  apply keeps_bind; [keeps_auto|]. intros _. apply keeps_bind; [|intros; apply keeps_ret].
  apply keeps_modify. intros [[base sts] w] Hs. apply (clean_insert base sts); [done|]. rewrite Hm. by apply Hd.
Qed.
Lemma keeps_GetUserStage now u : keeps stages_ok (GetUserStage osMkdirAll now u).
Proof. apply keeps_get_or_create; [done|]. intros. by apply PathJoin_clean. Qed.
Lemma keeps_GetTableStage now db sc t : keeps stages_ok (GetTableStage osMkdirAll now db sc t).
Proof. apply keeps_get_or_create; [done|]. intros. by apply PathJoin_clean. Qed.
Hint Resolve keeps_GetUserStage keeps_GetTableStage : keeps.

Lemma keeps_resolveStage now sess raw : keeps stages_ok (resolveStage osMkdirAll now sess raw).
Proof. unfold resolveStage, resolveStageRef. keeps_auto. Qed.
Hint Resolve keeps_resolveStage : keeps.

Lemma keeps_PutMetaFile m l d : keeps stages_ok (PutMetaFile osMkdirAll osFiles m l d).
Proof. unfold PutMetaFile. keeps_auto. Qed.
Lemma keeps_GetMetaFile m l d : keeps stages_ok (GetMetaFile osMkdirAll osFiles m l d).
Proof. unfold GetMetaFile. keeps_auto. Qed.
Lemma keeps_RemoveMetaFile m p : keeps stages_ok (RemoveMetaFile osRemove m p).
Proof. unfold RemoveMetaFile. keeps_auto. Qed.
End stage_ops.

#[export] Hint Resolve keeps_CreateStage keeps_DropStage keeps_stage_Reset keeps_resolveStage keeps_PutMetaFile
  keeps_GetMetaFile keeps_RemoveMetaFile keeps_lift_stage : keeps.

Section stage_handlers.
Context {W : Type} (osMkdirAll osRemove : string → W → result unit * W).
Context (osFiles : OsFiles W) (osStat : string → W → result Z).
Context (walkDir : string → W → list WalkEntry) (fileMD5 : string → W → string).
Context (glob : string → string → result bool) (compile : string → result (string → bool)).
Context (bad_authority bad_fragment : string → bool) (now : Z).

Lemma keeps_handlePut sess sql :
  keeps stages_ok (handlePut osMkdirAll osFiles osStat bad_authority bad_fragment now sess sql).
Proof. unfold handlePut. keeps_auto. Qed.
Lemma keeps_handleGet sess sql : keeps stages_ok
  (handleGet osMkdirAll osFiles walkDir fileMD5 glob compile bad_authority bad_fragment now sess sql).
Proof. unfold handleGet, get_one. keeps_auto. Qed.
Lemma keeps_handleListStage sess sql : keeps stages_ok (handleListStage osMkdirAll walkDir fileMD5 glob compile now sess sql).
Proof. unfold handleListStage. keeps_auto. Qed.
Lemma keeps_handleRemoveStage sess sql : keeps stages_ok
  (handleRemoveStage osMkdirAll osRemove walkDir fileMD5 glob compile now sess sql).
Proof. unfold handleRemoveStage, remove_one. keeps_auto. Qed.

Lemma keeps_load_files exec t meta f o fs s : clean_stages s.1 →
  clean_stages (load_files exec osRemove t meta f o fs s).2.1.
Proof.
  revert s. induction fs as [|x fs IH]; intros s Hs; [done|]. cbn [load_files].
  destruct (load_file _ _ _ _ _ _) as [[r|e] w].
  - set (s' := if Purge o then _ else _).
    assert (Hs' : clean_stages s'.1) by (unfold s'; destruct (Purge o); [by apply keeps_RemoveMetaFile|done]).
    specialize (IH s' Hs'). by destruct (load_files _ _ _ _ _ _ _ s') as [[? ?] ?].
  - case_decide; [done|]. specialize (IH (s.1, w) Hs). by destruct (load_files _ _ _ _ _ _ _ _) as [[? ?] ?].
Qed.
Lemma keeps_ExecuteLoad exec t meta sub f o : keeps stages_ok (λ s : Stage.Manager * W,
    let '(out, s) := ExecuteLoad exec osRemove walkDir fileMD5 glob compile t meta sub f o s in (Ok out, s)).
Proof.
  intros s Hs. unfold ExecuteLoad. destruct (ListMetaFiles _ _ _ _ _ _ _) as [fs|e]; [|done].
  pose proof (keeps_load_files exec t meta f o fs s Hs). by destruct (load_files _ _ _ _ _ _ _ _).
Qed.
Lemma keeps_ExecuteUnload exec st t meta sub f o : keeps stages_ok (λ s : Stage.Manager * W,
    let '(out, w) := ExecuteUnload exec osMkdirAll osRemove st t meta sub f o s.2 in (Ok out, (s.1, w))).
Proof. intros s Hs. by destruct (ExecuteUnload _ _ _ _ _ _ _ _ _ _). Qed.
End stage_handlers.

#[export] Hint Resolve keeps_handlePut keeps_handleGet keeps_handleListStage keeps_handleRemoveStage keeps_ExecuteLoad
  keeps_ExecuteUnload : keeps.

(** ** Every statement keeps every subsystem well formed *)

Section statements.
Context {W : Type} `{MapRange}.
Context (queryDB : string → list cell → W → result Engine.Rows * W).
Context (execDB : string → list cell → W → result ExecResult * W).
Context (osMkdirAll osRemoveAll osRemove : string → W → result unit * W).
Context (osFiles : OsFiles W).
Context (osStat : string → W → result Z).
Context (walkDir : string → W → list WalkEntry).
Context (fileMD5 : string → W → string).
Context (glob : string → string → result bool).
Context (compile : string → result (string → bool)).
Context (bad_authority bad_fragment : string → bool).
Context (LoadLocation : string → result Location).
Context (parseTime : string → result Z) (time_string : Z → string).
Context (scanStrings : list cell → result (list string)) (role_time : string → Z).

(** [(session, orchestrator)]: statements change where a session is, never whose it is. *)
Definition identity (sess : Session) : string * string * string := (Session.ID sess, Session.Token sess, Session.User sess).
Definition both_ok (who : string * string * string) (st : Session * Orchestrator W) : Prop := orch_ok st.2 ∧ identity st.1 = who.

Lemma keeps_both_orch {who} {A} (m : GoM (Orchestrator W) A) : keeps orch_ok m → keeps (both_ok who) (on_orch m).
Proof. intros Hm st [Ho Hw]. unfold on_orch. pose proof (Hm st.2 Ho). by destruct (m st.2). Qed.
Hint Resolve keeps_both_orch : keeps.

Lemma keeps_handled {who} (m : GoM (Orchestrator W) QueryResult) : keeps orch_ok m → keeps (both_ok who) (handled m).
Proof. intros. unfold handled. keeps_auto. Qed.
Lemma keeps_done {who} {A} (m : GoM (Orchestrator W) A) : keeps orch_ok m → keeps (both_ok who) (done m).
Proof. intros. apply keeps_handled. keeps_auto. Qed.
Lemma keeps_on_match {who} r sql k next : (∀ m, keeps (both_ok who) (k m)) → keeps (both_ok who) next →
  keeps (both_ok who) (on_match (W:=W) r sql k next).
Proof. intros. unfold on_match. by destruct (FindStringSubmatch r sql). Qed.
Lemma keeps_or_else {who} h next : keeps (both_ok who) h → keeps (both_ok who) next → keeps (both_ok who) (or_else (W:=W) h next).
Proof. intros. unfold or_else. keeps_auto. Qed.
(** A call that is told a part of the state. *)
Lemma keeps_told {S A B} (I : S → Prop) (f : S → B) (m : B → GoM S A) : (∀ b, keeps I (m b)) → keeps I (λ s, m (f s) s).
Proof. intros Hm s. apply Hm. Qed.

Lemma keeps_exec_sql sql : keeps orch_ok (exec_sql execDB sql).
Proof. apply keeps_on_engine. Qed.
Lemma keeps_capture now db sc t : keeps orch_ok (capture queryDB osMkdirAll now db sc t).
Proof. intros o. apply keeps_on_timetravel. Qed.
Hint Resolve keeps_exec_sql keeps_capture : keeps.

Lemma keeps_drop_object kind n b m : keeps orch_ok m → keeps orch_ok (drop_object (W:=W) kind n b m).
Proof. intros. unfold drop_object. keeps_auto. Qed.
Hint Resolve keeps_drop_object : keeps.

Lemma keeps_handleCopyInto now sess text : keeps orch_ok
  (handleCopyInto execDB osMkdirAll osRemove osStat walkDir fileMD5 glob compile now sess text).
Proof. unfold handleCopyInto. keeps_auto. Qed.

Lemma keeps_handleUse {who} kind name : keeps (both_ok who) (handleUse (W:=W) kind name).
Proof.
  intros [sess o] [Ho Hw]. unfold handleUse, put. go_unfold.
  repeat case_decide; cbn; (split; [by destruct o, Ho|done]).
Qed.
Hint Resolve keeps_handleUse keeps_handleCopyInto : keeps.

Lemma keeps_handleSpecialMarkers {who} now sql : keeps (both_ok who)
  (handleSpecialMarkers execDB osMkdirAll osRemove osFiles osStat walkDir fileMD5 glob compile bad_authority
     bad_fragment LoadLocation now sql).
Proof.
  unfold handleSpecialMarkers. apply keeps_bind; [apply keeps_get|]. intros st.
  repeat (apply keeps_on_match; [intros m|]); try apply keeps_ret; try apply keeps_handled; try (apply keeps_handleUse).
  all: unfold handleCreateStream, handleDropStream, handleShowStreams, handleCreateTask, handleDropTask, handleAlterTask,
    handleShowTasks, handleExecuteTask, handleCreatePipe, handleDropPipe, handleShowPipes, handleUndropTable.
  all: keeps_auto.
Qed.

Lemma keeps_handleDDL {who} now sql : keeps (both_ok who)
  (handleDDL queryDB execDB osMkdirAll osRemoveAll LoadLocation now sql).
Proof.
  unfold handleDDL, stream_ddl, task_ddl, pipe_ddl, stage_ddl, function_ddl, role_ddl. apply keeps_bind; [apply keeps_get|]. intros st.
  repeat (apply keeps_on_match; [intros m|]); try apply keeps_ret; apply keeps_done.
  all: unfold create_database, create_schema, drop_schema, create_table, drop_table, create_stage, drop_stage.
  all: try (destruct (schema_of st.1 _)); try (destruct (qualify_table st.1 _) as [[? ?] ?]).
  all: keeps_auto.
  intros s. apply keeps_on_clone.
Qed.

Lemma keeps_handleDML now sess sql upper : keeps orch_ok (handleDML queryDB execDB osMkdirAll now sess sql upper).
Proof. unfold handleDML. keeps_auto. Qed.
Lemma keeps_handleTransaction sql upper : keeps orch_ok (handleTransaction execDB sql upper).
Proof. unfold handleTransaction. keeps_auto. Qed.
Lemma keeps_handleQuery sql upper : keeps orch_ok (handleQuery queryDB (W:=W) sql upper).
Proof. unfold handleQuery. keeps_auto. Qed.
Lemma keeps_fallback sql : keeps orch_ok (fallback execDB sql).
Proof. unfold fallback. keeps_auto. Qed.
Hint Resolve keeps_handleDML keeps_handleTransaction keeps_handleQuery keeps_fallback : keeps.

Lemma keeps_ExecuteSQL {who} now fuel sql st r st' : both_ok who st →
  ExecuteSQL queryDB execDB osMkdirAll osRemoveAll osRemove osFiles osStat walkDir fileMD5 glob compile bad_authority
    bad_fragment LoadLocation parseTime time_string now fuel sql st = Some (r, st') → both_ok who st'.
Proof.
  intros Hst. unfold ExecuteSQL. case_decide; [by intros [= _ <-]|]. destruct (Rewrite _ _) as [rw|]; [|done].
  intros [= E]. assert (Hk : keeps (both_ok who) (execute_rewritten queryDB execDB osMkdirAll osRemoveAll osRemove osFiles osStat
    walkDir fileMD5 glob compile bad_authority bad_fragment LoadLocation parseTime time_string now rw)).
  - unfold execute_rewritten. apply keeps_or_else; [apply keeps_handleSpecialMarkers|].
    apply keeps_bind; [apply keeps_get|]. intros s. destruct (expandTimeTravelMarkers _ _ _ _ _ _); [|apply keeps_fail].
    repeat apply keeps_or_else; [apply keeps_handleDDL|..]; keeps_auto.
  - specialize (Hk st Hst). rewrite E in Hk. exact Hk.
Qed.

Lemma keeps_InsertPipeFiles now db sc n fs : keeps orch_ok (InsertPipeFiles execDB now db sc n fs).
Proof.
  intros o Ho. unfold InsertPipeFiles, on_snowpipe, Snowpipe.InsertFiles. go_unfold. cbn [fst snd].
  destruct (insert_begin _ _); [|by destruct o, Ho]. destruct (Snowpipe.load_files _ _ _ _ _) as [sts w].
  destruct Ho. split; cbn; try done. intros key p Hp. destruct (ok_pipes0 _ _ Hp) as [E Hh]. split; [done|].
  apply lookup_insert_is_Some. destruct (decide (pipeKey db sc n = key)); auto.
Qed.

Ltac empty_map := intros; cbn in *; match goal with E : @eq (option _) _ (Some _) |- _ => by rewrite lookup_empty in E end.

Lemma keeps_reset now : keeps orch_ok
  (reset_all queryDB execDB osMkdirAll osRemoveAll now scanStrings role_time).
Proof.
  unfold reset_all. repeat (apply keeps_bind; [|intros _]).
  - apply keeps_on_engine.
  - apply keeps_on_catalog. intros c. apply (catalog_op_wf (Catalog.OpReset now)).
  - apply keeps_on_stage, keeps_stage_Reset.
  - apply keeps_on_stream, keeps_modify. intros e _. split; empty_map.
  - apply keeps_on_task, keeps_modify. intros s _. unfold Task.wf. empty_map.
  - apply keeps_on_timetravel.
  - apply keeps_on_clone.
  - apply keeps_on_udf, keeps_put. unfold functions_wf, pipes_wf. empty_map.
  - apply keeps_on_rbac. intros e _. apply Rbac.Reset_wf.
  - apply keeps_on_pipes, keeps_put. unfold functions_wf, pipes_wf. empty_map.
Qed.

(** *** The orchestrator as a transition system

    It starts as [main.go] leaves it; every statement, of any session, may come next,
    and so may the files that are sent to a pipe, and a reset. *)

Inductive Event : Type :=
  | Statement (now : nat → Z) (fuel : nat) (sess : Session) (sql : string)
  | PipeFiles (now : nat → Z) (db schema pipe : string) (files : list string)
  | ResetAll (now : nat → Z).

Definition booted (o : Orchestrator W) : Prop :=
  ∃ eng base now w, base ≠ "" ∧ o = boot eng base now role_time w.

Definition orch_step (o : Orchestrator W) (ev : Event) (o' : Orchestrator W) : Prop :=
  match ev with
  | Statement now fuel sess sql => ∃ r sess',
      ExecuteSQL queryDB execDB osMkdirAll osRemoveAll osRemove osFiles osStat walkDir fileMD5 glob compile bad_authority
        bad_fragment LoadLocation parseTime time_string now fuel sql (sess, o) = Some (r, (sess', o'))
  | PipeFiles now db sc n fs => o' = (InsertPipeFiles execDB now db sc n fs o).2
  | ResetAll now => o' = (reset_all queryDB execDB osMkdirAll osRemoveAll now scanStrings role_time o).2
  end.

Definition orch_reachable : Orchestrator W → Prop := reachable booted orch_step.

Lemma reachable_ok o : orch_reachable o → orch_ok o.
Proof.
  apply (reachable_inv _ _ orch_ok).
  - intros o0 (eng & base & t0 & w & Hb & ->). split; cbn [boot catalog stageMgr streamEng taskSched rbacEng snowpipeEng udfReg].
    + apply catalog_Init_wf, New_wf.
    + split; [done|]. empty_map.
    + split; empty_map.
    + unfold Task.wf. empty_map.
    + apply rbac_Init_wf, NewEngine_wf.
    + unfold pipes_wf. empty_map.
    + unfold functions_wf. empty_map.
  - intros o0 [now fuel sess sql|now db sc n fs|now] o' Ho; cbn.
    + intros (r & sess' & E). exact (proj1 (keeps_ExecuteSQL _ _ _ (sess, o0) _ _ (conj Ho eq_refl) E)).
    + intros ->. by apply keeps_InsertPipeFiles.
    + intros ->. by apply keeps_reset.
Qed.

(** Whatever statements are executed, by whatever sessions and with whatever text,
    and whatever database and file system answer them, the state of every subsystem
    stays well formed: the catalog's names are canonical, a stage's directory is a
    cleaned path, stream and task tables point at live objects under their own keys and
    no closed task channel is kept, roles and grants have no dangling reference, every
    pipe has its history, and functions are stored under their own keys. *)
Theorem statements_keep_state o : orch_reachable o → orch_ok o.
Proof. apply reachable_ok. Qed.

(** *** A reset *)

Lemma engine_reset_ok s s' : Engine.Reset queryDB execDB scanStrings s = (Ok tt, s') →
  s'.1 = Engine.mkEngine (Engine.dataDir s.1) "miniflake" "main".
Proof.
  set (I := λ t : Engine.Engine * W, t.1 = s.1).
  assert (Hl : ∀ A (f : W → result A * W), keeps I (lift f)) by (intros A f; apply (keeps_lift (λ e, e = s.1))).
  assert (Hn : ∀ q w, keeps I (list_names queryDB scanStrings q w)) by (intros; unfold list_names; keeps_auto).
  assert (Hr : ∀ f q, keeps I (run_stmt execDB f q)) by (intros; unfold run_stmt; keeps_auto).
  unfold Engine.Reset. rewrite <- !bind_assoc. intros (? & s1 & E1 & E)%bind_ok.
  match type of E1 with ?m s = _ => assert (Hk : keeps I m) end.
  { repeat (apply keeps_bind; [|intros _]); unfold dropAll, drop_schemas, detach_all; keeps_auto. }
  specialize (Hk s eq_refl). rewrite E1 in Hk. unfold I in Hk. injection E as <-. cbn in *. by rewrite Hk.
Qed.

Lemma stage_reset_ok s r s' : Stage.Reset osMkdirAll osRemoveAll s = (r, s') → s'.1 = Stage.NewManager (Stage.baseDir s.1).
Proof.
  unfold Stage.Reset, bind, get, put, wrapped, lift. cbn. destruct (osRemoveAll _ _) as [[[]|e] w]; cbn; [|by intros [= _ <-]].
  destruct (osMkdirAll _ _) as [r1 w1]. by intros [= _ <-].
Qed.
Lemma timetravel_reset_ok s r s' : TimeTravel.Reset osMkdirAll osRemoveAll s = (r, s') →
  s'.1 = TimeTravel.mkEngine ∅ (TimeTravel.dataDir s.1) (TimeTravel.maxAge s.1) 1.
Proof.
  unfold TimeTravel.Reset, bind, get, modify, wrapped, lift. cbn. case_decide; [by intros [= _ <-]|].
  destruct (osRemoveAll _ _) as [[[]|e] w]; cbn; [|by intros [= _ <-]]. destruct (osMkdirAll _ _) as [r1 w1]. by intros [= _ <-].
Qed.

(** C19: A reset that reports success, whatever happened before it, leaves every
    subsystem as the program's start does: the catalog and the roles with their
    defaults only, and no stage, stream, task, snapshot, clone record, function or pipe.
    What is kept is what [main.go] chose: the data and stage directories and the age at
    which snapshots are dropped. *)
Theorem reset_starts_over now o o' :
  reset_all queryDB execDB osMkdirAll osRemoveAll now scanStrings role_time o = (Ok tt, o') →
  let b := boot (Engine.mkEngine (Engine.dataDir (engine o)) "miniflake" "main") (Stage.baseDir (stageMgr o)) now role_time
             (world o') in
  engine o' = engine b ∧ catalog o' = catalog b ∧ stageMgr o' = stageMgr b ∧ Stream.streams (streamEng o') = ∅ ∧
  Task.tasks (taskSched o') = ∅ ∧ cloneEng o' = [] ∧ udfReg o' = udfReg b ∧ rbacEng o' = rbacEng b ∧
  snowpipeEng o' = snowpipeEng b ∧
  timeTravelEng o' = TimeTravel.mkEngine ∅ (TimeTravel.dataDir (timeTravelEng o)) (TimeTravel.maxAge (timeTravelEng o)) 1.
Proof.
  unfold reset_all. intros ([] & o1 & E1 & ([] & o2 & E2 & ([] & o3 & E3 & ([] & o4 & E4 & ([] & o5 & E5 & ([] & o6 & E6 &
    ([] & o7 & E7 & ([] & o8 & E8 & ([] & o9 & E9 & E10)%bind_ok)%bind_ok)%bind_ok)%bind_ok)%bind_ok)%bind_ok)%bind_ok)%bind_ok)%bind_ok.
  unfold on_engine in E1. destruct (Engine.Reset _ _ _ _) as [r1 [e1 w1]] eqn:F1. injection E1 as -> <-. apply engine_reset_ok in F1.
  unfold on_catalog in E2. cbn [catalog] in E2. destruct (Catalog.Reset now _) as [r2 c2] eqn:F2. injection E2 as -> <-.
  unfold on_stage in E3. cbn [stageMgr world] in E3. destruct (Stage.Reset _ _ _) as [r3 [m3 w3]] eqn:F3. injection E3 as -> <-.
  unfold on_stream in E4. injection E4 as <-. unfold on_task in E5. injection E5 as <-.
  unfold on_timetravel in E6. cbn [timeTravelEng world] in E6. destruct (TimeTravel.Reset _ _ _) as [r6 [t6 w6]] eqn:F6. injection E6 as -> <-.
  unfold on_clone in E7. injection E7 as <-. unfold on_udf in E8. injection E8 as <-.
  unfold on_rbac in E9. cbn [rbacEng] in E9. destruct (Rbac.Reset _ _) as [r9 e9] eqn:F9. injection E9 as -> <-.
  unfold on_pipes, on_snowpipe in E10. injection E10 as <-. cbn.
  apply stage_reset_ok in F3. apply timetravel_reset_ok in F6. cbn [fst] in *. subst.
  assert (c2 = (Catalog.Init now Catalog.New).2) as -> by (change (Catalog.Reset now (catalog o)) with (Catalog.Init now Catalog.New) in F2; by rewrite F2).
  assert (e9 = (Rbac.Init role_time Rbac.NewEngine).2) as -> by (change (Rbac.Reset role_time (rbacEng o)) with (Rbac.Init role_time Rbac.NewEngine) in F9; by rewrite F9).
  split_all; try reflexivity.
Qed.
(** ** The table of a statement that changes data *)

Inductive DmlKind : Type := InsertInto | UpdateTable | DeleteFrom | MergeInto.
Definition dml_words (k : DmlKind) : list string :=
  match k with
  | InsertInto => ["INSERT"; "INTO"] | UpdateTable => ["UPDATE"] | DeleteFrom => ["DELETE"; "FROM"] | MergeInto => ["MERGE"; "INTO"]
  end.
Definition dml_change (k : DmlKind) : ChangeType :=
  match k with UpdateTable => "UPDATE" | DeleteFrom => "DELETE" | _ => ChangeInsert end.

Definition ends_word (s : string) : bool := match s with "" => true | String c _ => re_space c end.
(** The statement begins with the words of its kind and the table's name alone. *)
Definition changes_table (k : DmlKind) (t sql : string) : Prop :=
  t ≠ "" ∧ every (λ c, negb (re_space c)) (ToUpper t) = true ∧ (dot ∉ bytes (ToUpper t)) ∧
  ∃ rest, led_by (dml_words k) (ToUpper sql) (ToUpper t +:+ rest) ∧ ends_word rest = true.

Definition dml_re (k : DmlKind) : Regexp :=
  match k with InsertInto => reInsertInto | UpdateTable => reUpdateTbl | DeleteFrom => reDeleteFrom | MergeInto => reMergeInto end.
Lemma dml_re_lead k : dml_re k = Cat (lead (dml_words k) TextStart) (Group 1 (Plus true (Class (λ c, negb (re_space c))))).
Proof. destruct k; reflexivity. Qed.

Lemma dml_re_finds k t rest s : t ≠ "" → every (λ c, negb (re_space c)) t = true → led_by (dml_words k) s (t +:+ rest) →
  ends_word rest = true → ∃ m, FindStringSubmatch (dml_re k) s = Some m ∧ group m 1 = t.
Proof.
  intros Hne Ht Hl Hr. rewrite dml_re_lead. set (p := mkPos None s).
  destruct (lead_then_here (dml_words k) (search (Group 1 (Plus true (Class (λ c, negb (re_space c))))) (λ p' c, Some (mkMatch p p' c)))
    s (t +:+ rest) [] (λ b, mkMatch p (mkPos (last_byte b t) rest) [(1, (mkPos b (t +:+ rest), mkPos (last_byte b t) rest))]) Hl) with (b := @None ascii)
    as [b Hb].
  - intros b. cbn [search]. apply (greedy_plus (λ c, negb (re_space c)) _ b t rest []); [done|done| |done].
    destruct rest; [done|]. cbn in Hr. by rewrite Hr.
  - exists (mkMatch p (mkPos (last_byte b t) rest) [(1, (mkPos b (t +:+ rest), mkPos (last_byte b t) rest))]).
    split; [|exact (span_app b (last_byte b t) t rest)]. unfold FindStringSubmatch, find. erewrite find_from_here; [reflexivity|].
    unfold match_at. fold p. cbn [search]. rewrite search_lead. exact Hb.
Qed.

Lemma dml_re_apart k k' u : k ≠ k' → FindStringSubmatch (dml_re k') (List.hd "" (dml_words k) +:+ u) = None.
Proof. destruct k, k'; try done; intros _; (apply anchored_none; [reflexivity|vm_compute; reflexivity]). Qed.

Lemma led_head w words s t : led_by (w :: words) s t → ∃ u, s = w +:+ u.
Proof. inversion 1; subst. eauto. Qed.

Lemma changes_table_read k t sql : changes_table k t sql →
  has_any_prefix ["INSERT"; "UPDATE"; "DELETE"; "MERGE"] (ToUpper sql) = true ∧
  extractTableFromDML (ToUpper sql) = ToUpper t ∧ dml_action (ToUpper sql) = dml_change k ∧
  ∀ db sc, tableKey db sc (ToUpper t) = tableKey db sc t.
Proof.
  intros (Hne & Hs & Hd & rest & Hl & Hr).
  assert (Hne' : ToUpper t ≠ "") by (by destruct t).
  destruct (dml_re_finds k (ToUpper t) rest (ToUpper sql) Hne' Hs Hl Hr) as (m & Hm & Hg).
  assert (Hhead : ∃ u, ToUpper sql = List.hd "" (dml_words k) +:+ u) by (destruct k; by eapply led_head).
  destruct Hhead as [u Hu]. split_all.
  - rewrite Hu. by destruct k.
  - unfold extractTableFromDML. assert (Hf : first_match [reInsertInto; reUpdateTbl; reDeleteFrom; reMergeInto] (ToUpper sql) = Some m).
    { change (first_match (dml_re <$> [InsertInto; UpdateTable; DeleteFrom; MergeInto]) (ToUpper sql) = Some m).
      pose proof (λ k', dml_re_apart k k' u) as Hno. rewrite <- Hu in Hno.
      destruct k; cbn [fmap list_fmap first_match]; rewrite ?Hno by done; by rewrite Hm. }
    rewrite Hf, Hg. by rewrite SplitByte_single.
  - rewrite Hu. by destruct k.
  - intros db sc. unfold tableKey, dotted. rewrite !ToLower_app. by rewrite ToLower_ToUpper.
Qed.

(** *** Changes *)

Lemma on_timetravel_rest {A} (m : GoM (TimeTravel.Engine * W) A) o : streamEng (on_timetravel m o).2 = streamEng o.
Proof. unfold on_timetravel. by destruct (m _) as [r [e w]]. Qed.
Lemma on_engine_rest {A} (m : GoM (Engine.Engine * W) A) o : streamEng (on_engine m o).2 = streamEng o.
Proof. unfold on_engine. by destruct (m _) as [r [e w]]. Qed.

(** What a statement on the table [t] does to the streams, by the name that the
    statement gives. *)
Lemma dml_recorded now sess sql upper o r o' : Stream.wf (streamEng o) →
  has_any_prefix ["INSERT"; "UPDATE"; "DELETE"; "MERGE"] upper = true → extractTableFromDML upper ≠ "" →
  handleDML queryDB execDB osMkdirAll now sess sql upper o = (r, o') →
  match r with
  | Err _ => streamEng o' = streamEng o
  | Ok _ =>
      let tKey := tableKey (Session.Database sess) (Session.Schema sess) (extractTableFromDML upper) in
      let c := stamp (now 0) (mkChange (dml_action upper) false "" ∅ zero_time) in
      Stream.streams (streamEng o') = Stream.streams (streamEng o) ∧
      ∀ k p s, Stream.streams (streamEng o) !! k = Some p → Stream.heap (streamEng o) !! p = Some s →
        Stream.heap (streamEng o') !! p =
          Some (if decide (tableKey (Stream.DatabaseName s) (Stream.SchemaName s) (Stream.TableName s) = tKey ∧
                           (Stream.Type_ s = "APPEND_ONLY" → dml_action upper = ChangeInsert))
                then set_changes (Stream.changes s ++ [c]) s else s)
  end.
Proof.
  intros Hwf Hp Ht. unfold handleDML. rewrite Hp. cbn [negb]. rewrite !decide_False by done. rewrite bind_ignore.
  pose proof (on_timetravel_rest (TimeTravel.CaptureSnapshot osMkdirAll (run_query queryDB (engine o)) (now 0)
    (Session.Database sess) (Session.Schema sess) (extractTableFromDML upper)) o) as H1.
  fold (capture queryDB osMkdirAll now (Session.Database sess) (Session.Schema sess) (extractTableFromDML upper) o) in H1.
  destruct (capture _ _ _ _ _ _ o) as [r0 o0]. cbn [snd] in *. unfold bind at 1.
  pose proof (on_engine_rest (Engine.ExecNoResult execDB sql []) o0) as H2. fold (exec_sql execDB sql o0) in H2.
  destruct (exec_sql execDB sql o0) as [[n|e] o1]; cbn [snd] in *; [|intros [= <- <-]; congruence].
  unfold bind, on_stream. rewrite H1 in H2. rewrite H2.
  destruct (RecordChange_spec (streamEng o) (now 0) (Session.Database sess) (Session.Schema sess) (extractTableFromDML upper)
    (mkChange (dml_action upper) false "" ∅ zero_time) Hwf) as (E & Hs & _ & Hh).
  destruct (RecordChange _ _ _ _ _ (streamEng o)) as [r1 e1]. cbn [fst snd] in *. subst r1. intros [= <- <-].
  cbn [streamEng]. split; [exact Hs|exact Hh].
Qed.

(** C15: A statement that inserts into, updates, deletes from or merges into a table that
    it names alone (without database or schema, and followed by white space or nothing),
    in upper or lower case and with any white space between the words, leaves when it
    succeeds one new change of its kind on every stream of that table in the session's
    database and schema that captures the kind, after the changes that were there, and
    leaves every other stream alone; when the database refuses it no stream has a change. *)
Theorem dml_reaches_streams now sess k t sql o r o' : Stream.wf (streamEng o) → changes_table k t sql →
  handleDML queryDB execDB osMkdirAll now sess sql (ToUpper sql) o = (r, o') →
  match r with
  | Err _ => streamEng o' = streamEng o
  | Ok _ =>
      let c := stamp (now 0) (mkChange (dml_change k) false "" ∅ zero_time) in
      Stream.streams (streamEng o') = Stream.streams (streamEng o) ∧
      ∀ key p s, Stream.streams (streamEng o) !! key = Some p → Stream.heap (streamEng o) !! p = Some s →
        Stream.heap (streamEng o') !! p =
          Some (if decide (tableKey (Stream.DatabaseName s) (Stream.SchemaName s) (Stream.TableName s) =
                             tableKey (Session.Database sess) (Session.Schema sess) t ∧
                           (Stream.Type_ s = "APPEND_ONLY" → dml_change k = ChangeInsert))
                then set_changes (Stream.changes s ++ [c]) s else s)
  end.
Proof.
  intros Hwf Hc E. pose proof (proj1 Hc) as Hne. apply changes_table_read in Hc as (Hp & Ht & Ha & Hk).
  pose proof (dml_recorded now sess sql (ToUpper sql) o r o' Hwf Hp) as Hrec. rewrite Ht, Ha, Hk in Hrec.
  apply Hrec; [|done]. intros E0. by destruct t.
Qed.
End statements.

(** ** Dropped tables come back

    What the round trip relies on of the database, for tables of the current schema:
    an export to a file keeps what the table holds, [DROP TABLE] removes the table and
    no file, [CREATE TABLE ... AS] makes a table with what a file holds; and making a
    directory changes neither. *)

Definition quote_free (s : string) : Prop := escapeStringLiteral s = s.
#[export] Instance quote_free_dec s : Decision (quote_free s).
Proof. unfold quote_free. apply _. Defined.

Definition drop_sql (t : string) : string := "DROP TABLE " +:+ t.
Definition restore_sql (t f : string) : string := "CREATE TABLE " +:+ t +:+ " AS SELECT * FROM read_parquet('" +:+ f +:+ "')".

(** A name that no layer takes apart or strips. *)
Definition plain_name (t : string) : Prop :=
  cleanIdent t = t ∧ unquoted t = t ∧ SplitByte dot t = [t] ∧ TableStore.no_space t.
#[export] Instance plain_name_dec t : Decision (plain_name t).
Proof. unfold plain_name. apply _. Defined.

Class TableFiles (W : Type) (queryDB : string → list cell → W → result Engine.Rows * W)
    (execDB : string → list cell → W → result ExecResult * W) (mkdir : string → W → result unit * W) := {
  held : W → string → option string;
  exported : W → string → option string;
  export_ok : ∀ t f w rows w', TableStore.no_space t → quote_free f →
    queryDB (TimeTravel.copy_sql t f) [] w = (Ok rows, w') →
    is_Some (held w t) ∧ exported w' f = held w t ∧ held w' = held w;
  drop_ok : ∀ t w r w', TableStore.no_space t → execDB (drop_sql t) [] w = (Ok r, w') → exported w' = exported w;
  restore_ok : ∀ t f w r w', TableStore.no_space t → quote_free f →
    execDB (restore_sql t f) [] w = (Ok r, w') → held w' t = exported w f;
  mkdir_ok : ∀ d w, held (mkdir d w).2 = held w ∧ exported (mkdir d w).2 = exported w;
}.

Section undrop.
Context {W : Type} `{MapRange}.
Context (queryDB : string → list cell → W → result Engine.Rows * W).
Context (execDB : string → list cell → W → result ExecResult * W).
Context (osMkdirAll : string → W → result unit * W) `{!TableFiles W queryDB execDB osMkdirAll}.
Context (now : nat → Z).

Definition snapshot_of (o : Orchestrator W) (sess : Session) (t : string) : string :=
  snapshot_file (timeTravelEng o) (now 0) (Session.Database sess) (Session.Schema sess) t.

(** A snapshot that succeeds records its file last and exports the table to it. *)
Lemma capture_ok o sess t o' : TableStore.no_space t → quote_free (snapshot_of o sess t) →
  capture queryDB osMkdirAll now (Session.Database sess) (Session.Schema sess) t o = (Ok tt, o') →
  Undrop (timeTravelEng o') (Session.Database sess) (Session.Schema sess) t = Ok (snapshot_of o sess t) ∧
  exported (world o') (snapshot_of o sess t) = held (world o) t ∧ is_Some (held (world o) t).
Proof.
  intros Hns Hq. unfold capture, on_timetravel.
  destruct (TimeTravel.CaptureSnapshot _ _ _ _ _ _ _) as [r [e w]] eqn:E. intros [= -> <-]. cbn [timeTravelEng world].
  unfold TimeTravel.CaptureSnapshot, bind, get, wrapped, lift, modify in E. cbn [fst snd] in E.
  pose proof (mkdir_ok (snapshotDir (timeTravelEng o) (Session.Database sess) (Session.Schema sess) t) (world o)) as [Hh He].
  destruct (osMkdirAll _ (world o)) as [[[]|e1] w1]; cbn [wrap_err fst snd] in *; [|done].
  fold (snapshot_of o sess t) in E. unfold run_query, query_world, Engine.Execute, bind, wrapped, lift in E. cbn [fst snd] in E.
  destruct (queryDB _ [] w1) as [[rows|e2] w2] eqn:Eq; cbn in E; [|done].
  apply export_ok in Eq as (Hs & Hex & _); [|done..]. rewrite Hh in *.
  destruct (r_columns rows); cbn in E; [|done]. destruct (r_err rows); cbn in E; [done|]. injection E as <- <-.
  split_all; [|done|done]. unfold Undrop, add_snapshot. cbn [TimeTravel.snapshots]. rewrite lookup_insert_eq.
  cbn [default from_option]. unfold id at 1. by rewrite last_snoc.
Qed.

Lemma exec_sql_ok sql o n o' : exec_sql execDB sql o = (Ok n, o') →
  timeTravelEng o' = timeTravelEng o ∧ ∃ r, execDB sql [] (world o) = (Ok r, world o').
Proof.
  unfold exec_sql, on_engine, Engine.ExecNoResult, bind, wrapped, lift. cbn [fst snd].
  destruct (execDB sql [] (world o)) as [[r|e] w]; cbn [wrap_err]; [|done].
  destruct (affected r); intros [= <- <-]; cbn; eauto.
Qed.

Lemma drop_table_ok sess t m o oc od : plain_name t → group m 1 = "" → group m 2 = t →
  (capture queryDB osMkdirAll now (Session.Database sess) (Session.Schema sess) t o).2 = oc →
  drop_table queryDB execDB osMkdirAll now sess (drop_sql t) m o = (Ok tt, od) →
  timeTravelEng od = timeTravelEng oc ∧ ∃ r, execDB (drop_sql t) [] (world oc) = (Ok r, world od).
Proof.
  intros (Hc & _ & Hsp & _) Hg1 Hg2 <-. unfold drop_table. rewrite Hg1, Hg2, Hc. unfold qualify_table, splitQualifiedName.
  rewrite Hsp, bind_ignore. intros (r & o1 & E & Hr)%bind_ok. unfold catch in E.
  destruct (exec_sql execDB (drop_sql t) _) as [r0 o2] eqn:Ee. injection E as <- <-. destruct r0 as [n|e]; [|by rewrite decide_True in Hr].
  destruct (exec_sql_ok _ _ _ _ Ee) as (Ht & Hx). apply (f_equal snd) in Hr. rewrite ignore_snd in Hr. unfold on_catalog in Hr.
  destruct (Catalog.DropTable _ _ _ _) as [r3 c3]. cbn [snd] in Hr. subst od. cbn [timeTravelEng world]. eauto.
Qed.

(** C10: A table dropped by its plain name comes back with what it held: when the
    snapshot taken before the drop succeeds, and so do the drop and the [UNDROP], which
    may come at any later moment at which the snapshot is still the table's last one
    and its file is still there. *)
Theorem drop_undrop sess t m o oc od ou q o' : plain_name t → quote_free (snapshot_of o sess t) →
  group m 1 = "" → group m 2 = t →
  capture queryDB osMkdirAll now (Session.Database sess) (Session.Schema sess) t o = (Ok tt, oc) →
  drop_table queryDB execDB osMkdirAll now sess (drop_sql t) m o = (Ok tt, od) →
  timeTravelEng ou = timeTravelEng od → exported (world ou) = exported (world od) →
  handleUndropTable execDB sess t ou = (Ok q, o') →
  is_Some (held (world o) t) ∧ held (world o') t = held (world o) t.
Proof.
  intros Hpl Hq Hg1 Hg2 Hcap Hdrop Htt Hfiles Hun. pose proof Hpl as (_ & Hu & _ & Hns).
  destruct (capture_ok _ _ _ _ Hns Hq Hcap) as (Hlast & Hex & Hs). split; [done|].
  destruct (drop_table_ok _ _ _ _ oc _ Hpl Hg1 Hg2 ltac:(by rewrite Hcap) Hdrop) as (Htd & r & Hx).
  apply drop_ok in Hx; [|done]. unfold handleUndropTable in Hun. rewrite Hu in Hun. unfold bind at 1, get in Hun.
  rewrite Htt, Htd, Hlast in Hun. apply bind_ok in Hun as (n & o1 & E & [= _ <-]).
  unfold wrapped in E. destruct (exec_sql execDB _ ou) as [r1 o2] eqn:Ee. destruct r1 as [k|e]; [|done]. injection E as _ <-.
  destruct (exec_sql_ok _ _ _ _ Ee) as (_ & r2 & Hr2). unfold quote_free in Hq. rewrite Hq in Hr2.
  fold (restore_sql t (snapshot_of o sess t)) in Hr2. apply restore_ok in Hr2; [|done..]. by rewrite Hr2, Hfiles, Hx, Hex.
Qed.
End undrop.

(** ** Concrete runs *)

#[local] Existing Instance key_order.

Lemma double_length q s : String.length s ≤ String.length (double_quotes q s).
Proof. induction s as [|c s IH]; cbn; [done|]. case_decide; cbn; lia. Qed.
Lemma quote_free_every s : quote_free s → every (λ d, negb (bool_decide (d = sq))) s = true.
Proof.
  unfold quote_free, escapeStringLiteral. rewrite (ReplaceAll_double sq). intros E.
  induction s as [|c s IH]; [done|]. cbn in E |- *. case_decide as Hc.
  - injection E as E. apply (f_equal String.length) in E. pose proof (double_length sq s). cbn in E. lia.
  - injection E as E. by rewrite bool_decide_false, IH.
Qed.
Lemma no_space_every t : TableStore.no_space t → every (λ d, negb (bool_decide (d = " "%char))) t = true.
Proof.
  unfold TableStore.no_space. induction t as [|c t IH]; [done|]. cbn [bytes every]. intros [Hc Ht]%not_elem_of_cons.
  by rewrite bool_decide_false, IH by congruence.
Qed.
Lemma Cut_no_space c t r' rest : c ≠ " "%char → TableStore.no_space t →
  Cut (t +:+ (String c (String " " r') +:+ rest)) (String c (String " " r')) = Some (t, rest).
Proof.
  intros Hc. induction t as [|d t IH]; intros Ht.
  - change ("" +:+ ?x) with x. destruct (String c (String " " r') +:+ rest) as [|x u] eqn:E; [done|]. rewrite <- E.
    rewrite E at 1. cbn [Cut]. rewrite <- E. by rewrite TrimPrefixOpt_app.
  - unfold TableStore.no_space in *. cbn [bytes] in Ht. apply not_elem_of_cons in Ht as [Hd Ht].
    change (String d t +:+ ?x) with (String d (t +:+ x)). cbn [Cut]. rewrite IH by done.
    destruct (TrimPrefixOpt _ _) eqn:E; [|done]. exfalso. apply TrimPrefixOpt_spec in E. injection E as -> E.
    destruct t as [|y t]; cbn in E; injection E as Ey _; [congruence|]. subst y. apply Ht. cbn. apply list_elem_of_here.
Qed.

#[export] Program Instance demo_files : TableFiles Demo demo_query demo_exec demo_dir := {|
  held w t := d_tables w !! t;
  exported w f := d_files w !! f;
|}.
Next Obligation.
  intros t f w rows w' Ht Hf. unfold demo_query, TimeTravel.copy_sql.
  change ("COPY " +:+ String dq t +:+ String dq (" TO '" +:+ f +:+ "' (FORMAT PARQUET)"))
    with (("COPY " +:+ String dq "") +:+ (t +:+ (String dq " TO '" +:+ (f +:+ String sq " (FORMAT PARQUET)")))).
  rewrite TrimPrefixOpt_app. unfold around. rewrite Cut_no_space by done. cbn [from_option]. unfold id. cbv iota beta.
  change "'" with (String sq ""). rewrite Cut_byte by (by apply quote_free_every). cbn [from_option]. unfold id. cbn [fst].
  cbn [logged d_tables]. destruct (d_tables w !! t) as [x|] eqn:E; [|done]. intros [= _ <-]. cbn.
  rewrite lookup_insert_eq. split_all; eauto.
Qed.
Next Obligation.
  intros t w r w' Ht. unfold demo_exec, demo_effect, drop_sql. rewrite TrimPrefixOpt_app. cbn [logged d_tables].
  case_decide; [|done]. by intros [= _ <-].
Qed.
Next Obligation.
  intros t f w r w' Ht Hf. unfold demo_exec, demo_effect, restore_sql.
  change (TrimPrefixOpt ("CREATE TABLE " +:+ t +:+ ?x) "DROP TABLE ") with (@None string). cbv iota.
  rewrite TrimPrefixOpt_app. change (t +:+ " AS SELECT * FROM read_parquet('" +:+ f +:+ "')")
    with (t +:+ String " " ("AS SELECT * FROM read_parquet('" +:+ (f +:+ String sq ")"))).
  unfold around at 1. change " " with (String " " ""). rewrite Cut_byte by (by apply no_space_every). cbn [from_option]. unfold id at 1. cbv iota beta.
  cbn [logged d_tables]. case_decide; [done|]. rewrite TrimPrefixOpt_app. unfold around. change "'" with (String sq "").
  rewrite Cut_byte by (by apply quote_free_every). cbn [from_option]. unfold id. cbn [fst logged d_files].
  destruct (d_files w !! f) as [x|] eqn:E; [|done]. intros [= _ <-]. cbn. by rewrite lookup_insert_eq.
Qed.
Next Obligation. done. Qed.

(** The demonstration's runs are runs of the transition system. *)
Definition demo_reachable : Orchestrator Demo → Prop :=
  orch_reachable demo_query demo_exec demo_dir demo_dir demo_dir demo_copy (λ _ _, Err "no file") (λ _ _, []) (λ _ _, "")
    (λ _ _, Ok true) (λ _, Err "bad pattern") (λ _, false) (λ _, false) demo_zone (λ _, Err "bad time") Itoa (λ _, Ok [])
    (λ _, 0%Z).

Lemma demo_run_reachable sqls now st : demo_reachable st.2 → demo_reachable (demo_run now sqls st).2.2.
Proof.
  revert now st. induction sqls as [|sql sqls IH]; intros now st Hst; [done|]. cbn [demo_run].
  destruct (demo_statement now sql st) as [[r st1]|] eqn:E; [|done]. specialize (IH (now + Second)%Z st1).
  destruct (demo_run _ sqls st1) as [rs st2]. apply IH. destruct st as [sess o], st1 as [sess1 o1].
  refine (reachable_step _ _ _ (Statement (λ _, now) 20 sess sql) _ Hst _). by exists r, sess1.
Qed.
Lemma demo_reachable_all sqls : demo_reachable (demo sqls).2.2.
Proof.
  apply demo_run_reachable. exists demo_boot, []. split; [by eexists _, "/s", (λ _, 0%Z), empty_demo|constructor].
Qed.

Definition demo_sqls : list string :=
  ["CREATE TABLE t (a INT)"; "CREATE STREAM s ON TABLE t"; "CREATE TASK k AS SELECT 1"; "CREATE STAGE g"; "DROP TABLE t"].

Lemma statements_keep_state_witness : demo_reachable (demo demo_sqls).2.2 ∧ orch_ok (demo demo_sqls).2.2.
Proof.
  split; [apply demo_reachable_all|].
  exact (statements_keep_state _ _ _ _ _ _ _ _ _ _ _ _ _ _ _ _ _ _ _ (demo_reachable_all demo_sqls)).
Defined.

Definition demo_reset : GoM (Orchestrator Demo) unit :=
  reset_all demo_query demo_exec demo_dir demo_dir (λ _, 5%Z) (λ _, Ok []) (λ _, 0%Z).

Lemma reset_starts_over_witness :
  Stream.streams (streamEng (demo demo_sqls).2.2) ≠ ∅ ∧ (demo_reset (demo demo_sqls).2.2).1 = Ok tt ∧
  Stream.streams (streamEng (demo_reset (demo demo_sqls).2.2).2) = ∅.
Proof.
  split; [intros H; vm_compute in H; discriminate H|].
  assert (E : (demo_reset (demo demo_sqls).2.2).1 = Ok tt) by (vm_compute; reflexivity). split; [exact E|].
  remember (demo demo_sqls).2.2 as o eqn:Eo. clear Eo. destruct (demo_reset o) as [r o'] eqn:Er. cbn [fst snd] in *. subst r.
  pose proof (reset_starts_over demo_query demo_exec demo_dir demo_dir (λ _, Ok []) (λ _, 0%Z) (λ _, 5%Z) o o' Er) as H.
  apply H.
Defined.

Definition streamed : Orchestrator Demo := (demo ["CREATE STREAM s ON TABLE t"]).2.2.
Definition insert_sql : string := "insert INTO t VALUES (1)".

Lemma dml_reaches_streams_witness :
  length ∘ Stream.changes <$> Stream.heap (streamEng streamed) = [0] ∧
  length ∘ Stream.changes <$>
    (Stream.heap (streamEng (handleDML demo_query demo_exec demo_dir (λ _, 7%Z) demo_session insert_sql (ToUpper insert_sql) streamed).2) !! 0)
  = Some 1.
Proof.
  split; [vm_compute; reflexivity|].
  assert (Hc : changes_table InsertInto "t" insert_sql).
  { split; [discriminate|]. split; [reflexivity|]. split; [apply (bool_decide_unpack _); vm_compute; exact I|]. exists " VALUES (1)"%string. split; [|reflexivity].
    apply (led_word "INSERT" ["INTO"%string] " " "INTO T VALUES (1)"); [discriminate|reflexivity..|].
    apply (led_word "INTO" [] " " "T VALUES (1)"); [discriminate|reflexivity..|apply led_none]. }
  destruct (handleDML demo_query demo_exec demo_dir (λ _, 7%Z) demo_session insert_sql (ToUpper insert_sql) streamed) as [r o'] eqn:E.
  assert (Hr : is_ok r = true).
  { change r with (fst (r, o')). rewrite <- E. vm_compute. reflexivity. }
  assert (Hw : Stream.wf (streamEng streamed)) by apply (ok_streams _ (reachable_ok _ _ _ _ _ _ _ _ _ _ _ _ _ _ _ _ _ _ _
    (demo_reachable_all ["CREATE STREAM s ON TABLE t"]))).
  pose proof (dml_reaches_streams demo_query demo_exec demo_dir (λ _, 7%Z) demo_session InsertInto "t" insert_sql streamed r o' Hw Hc E) as H.
  destruct r as [q|e]; [|discriminate Hr]. destruct H as [_ H].
  cbn [snd]. erewrite (H "db.public.s" 0); [|vm_compute; reflexivity|vm_compute; reflexivity]. vm_compute. reflexivity.
Defined.

Definition with_table : Orchestrator Demo := (demo ["CREATE TABLE t (a INT)"]).2.2.
Definition drop_match : Match := default (mkMatch (mkPos None "") (mkPos None "") []) (FindStringSubmatch Orchestrator.reDropTable (drop_sql "t")).

Lemma drop_undrop_witness :
  let od := (drop_table demo_query demo_exec demo_dir (λ _, 9%Z) demo_session (drop_sql "t") drop_match with_table).2 in
  held (world od) "t" = None ∧ held (world (handleUndropTable demo_exec demo_session "t" od).2) "t" = Some "(a INT)"%string.
Proof.
  intros od. split; [vm_compute; reflexivity|].
  destruct (handleUndropTable demo_exec demo_session "t" od) as [r o'] eqn:E.
  assert (Hr : r = Ok (statusResult "Table t successfully restored.")).
  { change r with (fst (r, o')). rewrite <- E. vm_compute. reflexivity. }
  destruct (drop_undrop demo_query demo_exec demo_dir (λ _, 9%Z) demo_session "t" drop_match with_table
    (capture demo_query demo_dir (λ _, 9%Z) "DB" "PUBLIC" "t" with_table).2 od od
    (statusResult "Table t successfully restored.") o') as [_ H].
  - apply (bool_decide_unpack _). vm_compute. exact I.
  - apply (bool_decide_unpack _). vm_compute. exact I.
  - vm_compute. reflexivity.
  - vm_compute. reflexivity.
  - vm_compute. reflexivity.
  - vm_compute. reflexivity.
  - reflexivity.
  - reflexivity.
  - rewrite <- Hr. exact E.
  - cbn [snd]. rewrite H. vm_compute. reflexivity.
Defined.

(** ** What single statements do *)

(** The answers as rows or errors, and the texts that the database was given. *)
Definition outcome (sqls : list string) : list (result (list (list cell))) * list string :=
  let d := demo sqls in (result_map Rows <$> d.1, d_log (world d.2.2)).
Definition executed_row : list (list cell) := [[CStr "Statement executed successfully."]].

(** The snapshot before a drop is of the unqualified name, in the current schema. *)
Example drop_snapshots_other_table :
  outcome ["CREATE TABLE t (a INT)"; "CREATE TABLE other.t (b INT)"; "DROP TABLE other.t"] =
  ([Ok executed_row; Ok executed_row; Ok executed_row],
   ["CREATE TABLE t (a INT)"; "CREATE TABLE other.t (b INT)";
    "COPY " +:+ String dq ("t" +:+ String dq " TO '/d/snapshots/snapshots/DB/other/t/2000000000.parquet' (FORMAT PARQUET)");
    "DROP TABLE other.t"])%string.
Proof. vm_compute. reflexivity. Qed.

(** A drop whose snapshot fails goes on, and the table cannot come back: here the name
    in the snapshot keeps no schema, and there is no such table. *)
Example drop_without_snapshot :
  (outcome ["CREATE TABLE other.t (b INT)"; "DROP TABLE other.t"; "USE SCHEMA other"; "UNDROP TABLE t"]).1 !! 3 =
  Some (Err ("UNDROP TABLE t: timetravel: no snapshots for table " +:+ Quote "db.other.t" +:+ " (cannot undrop)")).
Proof. vm_compute. reflexivity. Qed.

(** A table that comes back is not in the catalog. *)
Example undrop_not_in_catalog :
  let d := demo ["CREATE DATABASE DB"; "CREATE TABLE t (a INT)"; "DROP TABLE t"; "UNDROP TABLE t"] in
  (d_tables (world d.2.2) !! "t", is_ok (Catalog.GetTable (catalog d.2.2) "DB" "PUBLIC" "t")) = (Some "(a INT)"%string, false).
Proof. vm_compute. reflexivity. Qed.

(** With a list of columns right after the name, no stream sees the rows. *)
Example insert_columns_not_streamed :
  let changes (sql : string) := length ∘ Stream.changes <$> Stream.heap (streamEng (demo ["CREATE STREAM s ON TABLE t"; sql]).2.2) in
  changes "INSERT INTO t (a) VALUES (1)" = [1] ∧ changes "INSERT INTO t(a) VALUES (1)" = [0].
Proof. vm_compute. split; reflexivity. Qed.

(** The name of a function takes the beginning of its argument list. *)
Example function_name_cut :
  Udf.Name <$> (map_to_list (udfs (udfReg (demo ["CREATE FUNCTION add(a INT, b INT) RETURNS INT AS 'a+b'"]).2.2))).*2
  = ["add(a"]%string.
Proof. vm_compute. reflexivity. Qed.

(** A database that exists may be created again. *)
Example create_database_twice : (outcome ["CREATE DATABASE d1"; "CREATE DATABASE d1"]).1 = [Ok executed_row; Ok executed_row].
Proof. vm_compute. reflexivity. Qed.

(** [OR REPLACE] does not replace a task. *)
Example task_not_replaced :
  (outcome ["CREATE OR REPLACE TASK t AS SELECT 1"; "CREATE OR REPLACE TASK t AS SELECT 2"]).1 !! 1
  = Some (Err ("task: " +:+ Quote "t" +:+ " already exists")).
Proof. vm_compute. reflexivity. Qed.

(** A task created under a quoted name is not found under it. *)
Example quoted_task_lost :
  let q (s : string) := String dq (s +:+ String dq "") in
  (outcome ["CREATE TASK " +:+ q "t" +:+ " AS SELECT 1"; "DROP TASK " +:+ q "t"]%string).1 !! 1
  = Some (Err ("task: " +:+ Quote (q "t") +:+ " does not exist")).
Proof. vm_compute. reflexivity. Qed.

(** An instant written with a space is not looked up: the table as it is now answers. *)
Example timestamp_with_space_ignored :
  (outcome ["SELECT * FROM t AT(TIMESTAMP => '2024-01-01 10:00:00')"]).2
  = ["SELECT * FROM /* MINIFLAKE_AT_TIMESTAMP t 2024-01-01 10:00:00 */ t"]%string.
Proof. vm_compute. reflexivity. Qed.
