(* ===== verification/Server.v ===== *)
(** * The HTTP front end ([internal/server/server.go])

    A request is decompressed, takes the state lock and reaches the handler of its
    path.  The bodies of requests are decoded by functions that are parameters
    ([encoding/json] into the source's structures; Protocol.v has them over the scanner);
    responses are JSON values.  A request is one step here; Concurrent.v takes query
    requests apart.  The paths of requests are clean, as the mux of [net/http] leaves them. *)

From S2P Require Import Prelude GoStrings GoTime GoPath Regexp Rewriter Rbac Stream Snowpipe Catalog Session TimeTravel Clone Cron Task Binding Udf CopyInto Engine Stage StageRef Parameters Orchestrator.
From Stdlib Require Import Ascii.
#[local] Open Scope Z_scope.

(** ** Requests and responses *)

#[local] Set Warnings "-register-all".
Inductive json : Type :=
  | JNull
  | JBool (b : bool)
  | JNum (z : Z)
  | JText (s : string)
  | JArr (l : list json)
  | JObj (fields : list (string * json)).

Record Request := mkRequest {
  Method : string;
  Path : string;
  query_get : string → string;     (* r.URL.Query().Get *)
  Authorization : string;
  ContentEncoding : string;
  Body : string;
}.

Record Response := mkResponse { r_status : Z; r_body : json }.

Record loginRequestBody := mkLoginBody {
  LoginName : string;
  Password : string;
  AccountName : string;
  DatabaseName : string;
  SchemaName : string;
  WarehouseName : string;
}.
Record queryRequestBody := mkQueryBody {
  SQLText : string;
  Bindings : gmap string Binding;
  BindStage : string;
  DescribeOnly : bool;
}.
Record v2Body := mkV2Body { Statement : string; v_Bindings : gmap string Binding }.

Definition writeJSON (status : Z) (v : json) : Response := mkResponse status v.

(** [snowflakeResponse] *)
Definition snowflakeResponse (data code message : json) (success : bool) : json :=
  JObj [("data", data); ("code", code); ("message", message); ("success", JBool success)].
Definition errorResponse (status : Z) (code message : string) : Response :=
  writeJSON status (snowflakeResponse JNull (JText code) (JText message) false).
Definition successResponse (data : json) : Response :=
  writeJSON 200 (snowflakeResponse data JNull JNull true).
Definition queryResponse (data : json) : Response :=
  writeJSON 200 (snowflakeResponse data (JText "090000") JNull true).
Definition failure (code message : string) (data : json) : Response :=
  writeJSON 200 (snowflakeResponse data (JText code) (JText message) false).
Definition not_allowed : Response := errorResponse 405 "405" "method not allowed".
Definition bad_body : Response := errorResponse 400 "400" "invalid request body".

(** The data of a failed query; [sqlState] is left out when it is empty. *)
Definition failed_data (queryID sqlState sqlText : string) : json :=
  JObj ([("queryId", JText queryID); ("queryStatus", JText "FAILED_WITH_ERROR")]
        ++ (if decide (sqlState = "") then [] else [("sqlState", JText sqlState)]) ++ [("sqlText", JText sqlText)]).

Definition queryFailure (err queryID sqlText : string) : Response :=
  if Contains err "Division by zero"
  then failure "100051" "Division by zero" (failed_data queryID "22012" sqlText)
  else failure "002043" err (failed_data queryID "" sqlText).

Definition writeBindFailure (queryID sqlText msg : string) : Response :=
  failure "000008" msg (failed_data queryID "" sqlText).

(** ** Statements *)

Definition isQueryStatement (sql : string) : bool :=
  let upper := ToUpper (TrimSpace sql) in
  existsb (HasPrefix upper) ["SELECT"; "WITH"; "SHOW"; "DESC "; "DESCRIBE"; "EXPLAIN"; "LIST"]%string.

Definition stmtSelect : Z := 0x1000.
Definition stmtInsert : Z := 0x3100.
Definition stmtUpdate : Z := 0x3200.
Definition stmtDelete : Z := 0x3300.
Definition stmtMerge : Z := 0x3400.
Definition stmtCopy : Z := 0x3600.
Definition stmtAlterSess : Z := 0x4100.
Definition stmtUse : Z := 0x4300.
Definition stmtShow : Z := 0x4400.
Definition stmtDescribe : Z := 0x4500.
Definition stmtTransaction : Z := 0x5000.
Definition stmtDDL : Z := 0x6000.

Definition ddl_words : list string := ["CREATE"; "DROP"; "ALTER"; "TRUNCATE"; "UNDROP"; "COMMENT"; "GRANT"; "REVOKE"].
Definition is_word_end (c : ascii) : bool := bool_decide (c = ";"%char) || bool_decide (c = "("%char).

Definition statementTypeID (sql : string) : Z :=
  match Fields (ToUpper sql) with
  | [] => 0
  | w :: words =>
      let first := trim_right is_word_end w in
      let second := match words with [] => ""%string | w2 :: _ => w2 end in
      if decide (first = "SELECT" ∨ first = "WITH") then stmtSelect
      else if decide (first = "INSERT") then stmtInsert
      else if decide (first = "UPDATE") then stmtUpdate
      else if decide (first = "DELETE") then stmtDelete
      else if decide (first = "MERGE") then stmtMerge
      else if decide (first = "COPY") then stmtCopy
      else if decide (first = "SHOW") then stmtShow
      else if decide (first = "DESC" ∨ first = "DESCRIBE") then stmtDescribe
      else if decide (first ∈ ["BEGIN"; "START"; "COMMIT"; "ROLLBACK"]%string) then stmtTransaction
      else if decide (first ∈ ddl_words) then
        if decide (first = "ALTER" ∧ second = "SESSION") then stmtAlterSess else stmtDDL
      else if decide (first = "USE") then
        if decide (second = "DATABASE") then stmtUse + 1
        else if decide (second = "SCHEMA") then stmtUse + 2
        else if decide (second = "WAREHOUSE") then stmtUse + 3
        else stmtUse
      else 0
  end.

(** ** Headers and identifiers *)

Definition hasGzipEncoding (header : string) : bool :=
  existsb (λ enc, EqualFold (TrimSpace enc) "gzip") (SplitByte "," header).

Definition token_prefix : string := "Snowflake Token=" +:+ String dq "".
Definition extractToken (auth : string) : string :=
  if decide (auth = "") then ""
  else match Cut auth token_prefix with
  | None => ""
  | Some (_, rest) => match Cut rest (String dq "") with None => rest | Some (tok, _) => tok end
  end.

(** [%0wx] of a number that has at most [w] digits. *)
Fixpoint hex_fixed (w : nat) (z : Z) : string :=
  match w with
  | O => ""
  | S w => hex_fixed w (z / 16) +:+ String (hex_digit (Z.to_N (z mod 16))) ""
  end.
(** The three readings of the clock. *)
Definition generateQueryID (t0 t1 t2 : Z) : string :=
  hex_fixed 16 t0 +:+ "-" +:+ hex_fixed 4 (Z.land (t1 mod Second) 0xffff) +:+ "-"
    +:+ hex_fixed 4 (Z.land (t2 / 1000) 0xffff).

(** ** Values on the wire *)

Definition snowflakeTypeName (v : cell) : string :=
  match v with
  | CInt _ => "fixed"
  | CFloat _ => "real"
  | CBool _ => "boolean"
  | CTime _ => "timestamp_ntz"
  | CBytes _ => "binary"
  | CStr _ | CNull => "text"
  end.

(** Length, precision, scale and byte length. *)
Definition snowflakeColumnMetadata (typeName : string) : option Z * option Z * option Z * option Z :=
  if decide (typeName = "fixed") then (None, Some 38, Some 0, None)
  else if decide (typeName = "text") then (Some 16777216, None, None, Some 16777216)
  else if decide (typeName = "binary") then (Some 8388608, None, None, Some 8388608)
  else if decide (typeName ∈ ["timestamp_ntz"; "timestamp_ltz"; "timestamp_tz"; "time"]%string) then (None, Some 0, Some 9, None)
  else (None, None, None, None).

(** [%x] of a byte slice. *)
Fixpoint hex_text (s : string) : string :=
  match s with "" => "" | String c s => hex_byte (Z.of_N (N_of_ascii c)) +:+ hex_text s end.

(** [%d.%09d]; seconds are rounded down. *)
Definition epoch_text (t : Z) : string := Itoa (t / Second) +:+ "." +:+ pad 9 (t mod Second).

Definition cellToString (v : cell) : string :=
  match v with
  | CNull => "null"
  | CTime t => epoch_text t
  | CBytes b => hex_text b
  | CBool b => if b then "1" else "0"
  | CInt z => Itoa z
  | CFloat s | CStr s => s
  end.

Definition wire_cell (v : cell) : json := match v with CNull => JNull | _ => JText (cellToString v) end.
Definition buildRowSet (rows : list (list cell)) : list (list json) := (λ row : list cell, wire_cell <$> row) <$> rows.

(** The type of a column, after the first row's value. *)
Definition column_type (rows : list (list cell)) (i : nat) : string :=
  match rows with
  | row :: _ => match row !! i with Some v => snowflakeTypeName v | None => "text" end
  | [] => "text"
  end.

Definition opt_num (o : option Z) : json := match o with Some n => JNum n | None => JNull end.
Definition row_type_field (name typeName : string) (nullable : bool) (meta : option Z * option Z * option Z * option Z) : json :=
  let '(length, precision, scale, byteLength) := meta in
  JObj [("name", JText name); ("type", JText typeName); ("length", opt_num length); ("precision", opt_num precision);
        ("scale", opt_num scale); ("byteLength", opt_num byteLength); ("nullable", JBool nullable)].
Definition row_type (cols : list string) (rows : list (list cell)) : list json :=
  imap (λ i col, let ty := column_type rows i in row_type_field col ty true (snowflakeColumnMetadata ty)) cols.

(** [queryResponseData]; [arrayBindSupported] is left out when it is false. *)
Definition queryResponseData (queryID sqlText : string) (rowType : list json) (rowSet : list (list json)) : json :=
  let id := statementTypeID sqlText in
  JObj ([("queryId", JText queryID); ("sqlText", JText sqlText); ("queryResultFormat", JText "json");
         ("rowtype", JArr rowType); ("rowset", JArr (JArr <$> rowSet));
         ("total", JNum (Z.of_nat (length rowSet))); ("returned", JNum (Z.of_nat (length rowSet)));
         ("queryStatus", JText "SUCCESS"); ("statementTypeId", JNum id)]
        ++ if decide (id = stmtInsert) then [("arrayBindSupported", JBool true)] else []).

Definition cell_json (v : cell) : json :=
  match v with CBool b => JBool b | CInt z => JNum z | CNull => JNull | v => JText (cellToString v) end.
Definition loginParameters : list json :=
  (λ p, JObj [("name", JText p.1); ("value", cell_json p.2)]) <$> DefaultSessionParameters.

(** ** The server *)

(** [s.engine], and the orchestrator that holds the same engine when there is one. *)
Inductive Backend (W : Type) : Type :=
  | EngineOnly (eng : Engine.Engine) (w : W)
  | Wired (orch : Orchestrator W).
Arguments EngineOnly {W}.
Arguments Wired {W}.

Record Server (W : Type) := mkServer {
  backend : Backend W;
  sessionMgr : Session.Manager;
  sessionIDCounter : Z;
}.
Arguments mkServer {W}.
Arguments backend {W}.
Arguments sessionMgr {W}.
Arguments sessionIDCounter {W}.

Section server.
Context {W : Type} `{MapRange}.
Context (queryDB : string → list cell → W → result Engine.Rows * W).
Context (execDB : string → list cell → W → result ExecResult * W).
(** [ExecuteSQL] and [Reset] of the orchestrator and [InsertPipeFiles], with the
    parameters of the orchestrator. *)
Context (ExecuteSQL : string → Session * Orchestrator W → option (result QueryResult * (Session * Orchestrator W))).
Context (ResetAll : GoM (Orchestrator W) unit).
Context (InsertPipeFiles : string → string → string → list string → GoM (Orchestrator W) unit).
(** [encoding/json] *)
Context (decode_login : string → option loginRequestBody) (decode_query : string → option queryRequestBody).
Context (decode_v2 : string → option v2Body) (decode_pipe : string → option (list string)).
Context (unmarshal_string : string → option string) (parse_float : string → option Float).
Context (unmarshal_array : string → option (list string)).
(** What [gzip.NewReader] makes of a body: nothing, or the text that can be read. *)
Context (gunzip : string → option string).
(** The clock, and the random bytes of a session, during one request. *)
Context (now : nat → Z) (idBytes tokenBytes : list Z).

Definition queryID : string := generateQueryID (now 0) (now 1) (now 2).

(** *** Parts of the server *)

Definition on_sessions {A} (m : GoM Session.Manager A) : GoM (Server W) A := λ s,
  let '(r, mgr) := m (sessionMgr s) in (r, mkServer (backend s) mgr (sessionIDCounter s)).

(** A call on the engine, wherever it is. *)
Definition on_srv_engine {A} (m : GoM (Engine.Engine * W) A) : GoM (Server W) A := λ s,
  match backend s with
  | EngineOnly e w => let '(r, (e, w)) := m (e, w) in (r, mkServer (EngineOnly e w) (sessionMgr s) (sessionIDCounter s))
  | Wired o => let '(r, o) := on_engine m o in (r, mkServer (Wired o) (sessionMgr s) (sessionIDCounter s))
  end.

(** A call on the orchestrator; without one a call would be on a nil pointer. *)
Definition on_orchestrator {A} (m : GoM (Orchestrator W) A) : GoM (Server W) A := λ s,
  match backend s with
  | EngineOnly _ _ => (Err "panic: nil pointer dereference", s)
  | Wired o => let '(r, o) := m o in (r, mkServer (Wired o) (sessionMgr s) (sessionIDCounter s))
  end.
Definition has_orchestrator (s : Server W) : bool := match backend s with Wired _ => true | EngineOnly _ _ => false end.

(** [int64(atomic.AddUint64(&sessionIDCounter, 1))] *)
Definition next_session_id : GoM (Server W) Z := λ s,
  let n := (sessionIDCounter s + 1) mod 2 ^ 64 in (Ok (wrap64 n), mkServer (backend s) (sessionMgr s) n).

Definition touch_session (token : string) : GoM (Server W) unit :=
  if decide (token = "") then ret tt else on_sessions (Session.UpdateActivity (now 0) token).

(** *** Sessions *)

Definition Handler : Type := Request → GoM (Server W) Response.

(** The method check that opens a handler. *)
Definition only (method : string) (r : Request) (k : GoM (Server W) Response) : GoM (Server W) Response :=
  if decide (Method r = method) then k else ret not_allowed.

Definition or_query (value : string) (r : Request) (key : string) : string :=
  if decide (value = "") then query_get r key else value.

Definition handleLogin : Handler := λ r, only "POST" r
  match decode_login (Body r) with
  | None => ret bad_body
  | Some body =>
      let database := or_query (DatabaseName body) r "databaseName" in
      let schema := or_query (SchemaName body) r "schemaName" in
      let warehouse := or_query (WarehouseName body) r "warehouse" in
      let! sess := on_sessions (Session.CreateSession (now 0) idBytes tokenBytes (LoginName body) database schema warehouse "SYSADMIN") in
      let! id := next_session_id in
      ret (successResponse (JObj
        [("token", JText (Session.Token sess)); ("masterToken", JText (Session.ID sess)); ("sessionId", JNum id);
         ("masterValidityInSeconds", JNum 14400); ("displayUserName", JText (ToUpper (LoginName body)));
         ("serverVersion", JText "10.37.0");
         ("sessionInfo", JObj [("databaseName", JText database); ("schemaName", JText schema);
                               ("warehouseName", JText warehouse); ("roleName", JText "SYSADMIN")]);
         ("parameters", JArr loginParameters)]))
  end.

Definition invalid_token : Response := errorResponse 401 "390100" "session token is invalid".

Definition handleTokenRefresh : Handler := λ r, only "POST" r (
  let token := extractToken (Authorization r) in
  let! s := get in
  match Session.GetSession (sessionMgr s) token with
  | None => ret invalid_token
  | Some sess =>
      on_sessions (Session.UpdateActivity (now 0) token) ;;;
      let! id := next_session_id in
      ret (successResponse (JObj
        [("token", JText (Session.Token sess)); ("masterToken", JText (Session.ID sess)); ("sessionId", JNum id);
         ("masterValidityInSeconds", JNum 14400); ("displayUserName", JText (ToUpper (Session.User sess)));
         ("serverVersion", JText "");
         ("sessionInfo", JObj [("databaseName", JText ""); ("schemaName", JText ""); ("warehouseName", JText "");
                               ("roleName", JText "")]);
         ("parameters", JNull)]))
  end).

Definition handleAuthenticator : Handler := λ r, only "POST" r
  (ret (successResponse (JObj [("proofKey", JText ""); ("ssoUrl", JText ""); ("tokenUrl", JText "")]))).

Definition handleSession : Handler := λ r,
  if decide (Method r ≠ "DELETE" ∧ query_get r "delete" ≠ "true") then ret not_allowed
  else
    let token := extractToken (Authorization r) in
    (if decide (token = "") then ret tt else on_sessions (Session.DeleteSession token)) ;;;
    ret (successResponse JNull).

(** *** Queries *)

(** A computation that may not come to an end. *)
Definition Partial (S A : Type) : Type := S → option (result A * S).
Definition ended {S A} (m : GoM S A) : Partial S A := λ s, Some (m s).
Definition pbind {S A B} (m : Partial S A) (k : A → Partial S B) : Partial S B := λ s,
  match m s with
  | None => None
  | Some (Err e, s) => Some (Err e, s)
  | Some (Ok a, s) => k a s
  end.

(** One statement on the orchestrator, in a session that it may change. *)
Definition run_statement (stmt : string) : Partial (Session * Server W) QueryResult := λ st,
  match backend st.2 with
  | EngineOnly _ _ => Some (Err "panic: nil pointer dereference", st)
  | Wired o =>
      match ExecuteSQL stmt (st.1, o) with
      | None => None
      | Some (r, (sess, o)) => Some (r, (sess, mkServer (Wired o) (sessionMgr st.2) (sessionIDCounter st.2)))
      end
  end.

(** Between two of several statements: the rows so far, or the error that ends them. *)
Definition next_total (total : Z) (res : QueryResult) : result Z :=
  if decide (StatementType res ≠ "DML") then Err "array binding is only supported for DML statements"
  else Ok (wrap64 (total + RowsAffected res)).
(** After the last of several. *)
Definition bulk_result (total : Z) (last : option QueryResult) : result QueryResult :=
  match last with
  | None => Err "panic: nil pointer dereference"
  | Some q => Ok (mkQueryResult (Columns q) [[CInt total; CInt 0; CInt 0]] total (StatementType q))
  end.

(** The loop of [executeStatements]. *)
Fixpoint execute_each (total : Z) (last : option QueryResult) (stmts : list string) : Partial (Session * Server W) QueryResult :=
  match stmts with
  | [] => λ st, Some (bulk_result total last, st)
  | stmt :: stmts =>
      pbind (run_statement stmt) (λ res,
        match next_total total res with
        | Err e => ended (fail e)
        | Ok total => execute_each total (Some res) stmts
        end)
  end.
Definition executeStatements (stmts : list string) : Partial (Session * Server W) QueryResult :=
  match stmts with
  | [stmt] => run_statement stmt
  | _ => execute_each 0 None stmts
  end.

Definition temporary : Session := mkSession "" "" "miniflake" "main" "COMPUTE_WH" "SYSADMIN" "" zero_time zero_time.

(** The session behind a token is shared: what a statement changes in it stays. *)
Definition store_session (token : string) (sess : Session) (s : Server W) : Server W :=
  mkServer (backend s)
    (Session.mkManager (<[token := sess]> (Session.sessions (sessionMgr s))) (Session.done_closed (sessionMgr s)))
    (sessionIDCounter s).

(** The outcome of the statements for the caller, with the session put back. *)
Definition in_session (token : string) (sess : Session) (known : bool) (m : Partial (Session * Server W) QueryResult)
    : Partial (Server W) (result QueryResult) := λ s,
  match m (sess, s) with
  | None => None
  | Some (r, (sess, s)) => Some (Ok r, if known then store_session token sess s else s)
  end.

Definition rows_response (sqlText : string) (describe : bool) (cols : list string) (rows : list (list cell)) : Response :=
  queryResponse (queryResponseData queryID sqlText (row_type cols rows) (if describe then [] else buildRowSet rows)).

Definition answer (sqlText : string) (describe : bool) (r : result QueryResult) : Response :=
  match r with
  | Err e => queryFailure e queryID sqlText
  | Ok q => rows_response sqlText describe (Columns q) (Rows q)
  end.

(** The session that the statements run in, and whether the manager has it. *)
Definition session_for (token : string) (s : Server W) : option (Session * bool) :=
  match Session.GetSession (sessionMgr s) token with
  | Some sess => Some (sess, true)
  | None => if decide (token ≠ "") then None else Some (temporary, false)
  end.

(** Through the orchestrator. *)
Definition routed (token sqlText : string) (describe : bool) (stmts : list string) : Partial (Server W) Response := λ s,
  match session_for token s with
  | None => ended (ret invalid_token) s
  | Some (sess, known) => pbind (in_session token sess known (executeStatements stmts)) (λ r, ended (ret (answer sqlText describe r))) s
  end.

(** The affected rows of the statements, up to the first error. *)
Fixpoint exec_all (affected : Z) (stmts : list string) : GoM (Server W) Z :=
  match stmts with
  | [] => ret affected
  | stmt :: stmts =>
      let! n := on_srv_engine (Engine.ExecNoResult execDB stmt []) in exec_all (wrap64 (affected + n)) stmts
  end.

Definition direct_prefixes : list string := ["SELECT"; "SHOW"; "DESCRIBE"; "DESC"; "EXPLAIN"; "LIST"; "WITH"]%string.

(** On the engine alone. *)
Definition direct (sqlText : string) (describe : bool) (stmts : list string) : GoM (Server W) Response :=
  match stmts with
  | [] => fail "panic: index out of range"
  | execSQL :: rest =>
      if bool_decide (rest = []) && existsb (HasPrefix (ToUpper sqlText)) direct_prefixes then
        let! r := catch (on_srv_engine (Engine.Execute queryDB execSQL [])) in
        match r with
        | Err e => ret (queryFailure e queryID sqlText)
        | Ok (cols, rows) => ret (rows_response sqlText describe cols rows)
        end
      else
        let! r := catch (exec_all 0 stmts) in
        match r with
        | Err e => ret (queryFailure e queryID sqlText)
        | Ok affected =>
            ret (queryResponse (queryResponseData queryID sqlText
              [row_type_field "rows_affected" "fixed" false (None, Some 38, Some 0, None)] [[JText (Itoa affected)]]))
        end
  end.

(** A query that is ready to run. *)
Record Prepared := mkPrepared {
  p_token : string;
  p_sqlText : string;
  p_describe : bool;
  p_stmts : list string;
}.

(** Up to the first statement: an answer, or the query that is to run. *)
Definition prepare (r : Request) : GoM (Server W) (Response + Prepared) :=
  if decide (Method r ≠ "POST") then ret (inl not_allowed)
  else
    let token := extractToken (Authorization r) in
    touch_session token ;;;
    match decode_query (Body r) with
    | None => ret (inl bad_body)
    | Some body =>
        let sqlText := TrimSpace (SQLText body) in
        if decide (sqlText = "") then ret (inl (errorResponse 400 "400" "empty SQL text"))
        else if decide (BindStage body ≠ "") then
          ret (inl (writeBindFailure queryID sqlText "staged array binding (bindStage) is not supported"))
        else if DescribeOnly body && negb (isQueryStatement sqlText) then
          ret (inl (queryResponse (queryResponseData queryID sqlText [] [])))
        else
          let execText := if DescribeOnly body && bool_decide (Bindings body = ∅) then FillNull sqlText else sqlText in
          match Expand unmarshal_string parse_float unmarshal_array execText (Bindings body) with
          | Err e => ret (inl (writeBindFailure queryID sqlText e))
          | Ok stmts => ret (inr (mkPrepared token sqlText (DescribeOnly body) stmts))
          end
    end.

Definition handleQueryRequest (r : Request) : Partial (Server W) Response :=
  pbind (ended (prepare r)) (λ ready,
    match ready with
    | inl resp => ended (ret resp)
    | inr p => λ s,
        if has_orchestrator s then routed (p_token p) (p_sqlText p) (p_describe p) (p_stmts p) s
        else ended (direct (p_sqlText p) (p_describe p) (p_stmts p)) s
    end).

Definition handleAbortRequest : Handler := λ r, only "POST" r (ret (successResponse (JObj []))).

Definition first_part (s : string) : string := List.hd "" (SplitByte "/" s).

Definition handleQueryStatus : Handler := λ r, only "GET" r
  (ret (successResponse (JObj
    [("queryId", JText (first_part (TrimPrefix (Path r) "/monitoring/queries/"))); ("queryStatus", JText "SUCCESS")]))).

(** *** The SQL API

    Maps are encoded with their keys in order. *)

Definition v2_column (rows : list (list cell)) (i : nat) (col : string) : json :=
  let ty := column_type rows i in
  let '(length, precision, scale, byteLength) := snowflakeColumnMetadata ty in
  JObj [("byteLength", opt_num byteLength); ("length", opt_num length); ("name", JText col); ("nullable", JBool true);
        ("precision", opt_num precision); ("scale", opt_num scale); ("type", JText ty)].

Definition handleV2Statements : Handler := λ r, only "POST" r (
  touch_session (extractToken (Authorization r)) ;;;
  match decode_v2 (Body r) with
  | None => ret bad_body
  | Some body =>
      let sqlText := TrimSpace (Statement body) in
      if decide (sqlText = "") then ret (errorResponse 400 "400" "empty statement")
      else match Substitute unmarshal_string parse_float sqlText (v_Bindings body) with
      | Err e => ret (errorResponse 422 "000008" e)
      | Ok sqlText =>
          let! res := catch (on_srv_engine (Engine.Execute queryDB sqlText [])) in
          match res with
          | Err e =>
              let! res2 := catch (on_srv_engine (Engine.ExecNoResult execDB sqlText [])) in
              match res2 with
              | Err _ => ret (errorResponse 422 "002043" e)
              | Ok affected =>
                  ret (successResponse (JObj
                    [("data", JArr []);
                     ("resultSetMetaData", JObj [("format", JText "jsonv2"); ("numRows", JNum 0); ("rowType", JArr [])]);
                     ("rowsAffected", JNum affected); ("statementHandle", JText queryID); ("status", JText "SUCCESS")]))
              end
          | Ok (cols, rows) =>
              ret (successResponse (JObj
                [("data", JArr ((λ row : list cell, JArr ((λ v, JText (cellToString v)) <$> row)) <$> rows));
                 ("resultSetMetaData", JObj [("format", JText "jsonv2"); ("numRows", JNum (Z.of_nat (length rows)));
                                             ("rowType", JArr (imap (v2_column rows) cols))]);
                 ("statementHandle", JText queryID); ("status", JText "SUCCESS")]))
          end
      end
  end).

Definition handleV2StatementsID : Handler := λ r,
  let parts := SplitByte "/" (TrimPrefix (Path r) "/api/v2/statements/") in
  let handle := List.hd ""%string parts in
  let done (status : string) := ret (successResponse (JObj [("statementHandle", JText handle); ("status", JText status)])) in
  match parts with
  | _ :: "cancel"%string :: _ => done "ABORTED"%string
  | _ => only "GET" r (done "SUCCESS"%string)
  end.

(** *** The rest *)

Definition handleTelemetry : Handler := λ _, ret (successResponse (JObj [])).
Definition handleHeartbeat : Handler := λ r,
  touch_session (extractToken (Authorization r)) ;;; ret (successResponse (JObj [])).

Definition status_ok : Response := writeJSON 200 (JObj [("status", JText "ok")]).
Definition handleHealth : Handler := λ _, ret status_ok.

Definition not_configured : Response := errorResponse 503 "503" "orchestrator not configured".

Definition handleReset : Handler := λ r, only "POST" r (
  let! s := get in
  if negb (has_orchestrator s) then ret not_configured
  else
    let! res := catch (on_orchestrator ResetAll) in
    match res with
    | Err e => ret (errorResponse 500 "500" e)
    | Ok _ => on_sessions Session.Reset ;;; ret status_ok
    end).

Definition handleSnowpipeIngest : Handler := λ r, only "POST" r (
  let! s := get in
  if negb (has_orchestrator s) then ret not_configured
  else match SplitByte "/" (TrimPrefix (Path r) "/v1/data/pipes/") with
  | [db; schema; pipe; "insertFiles"%string] =>
      match decode_pipe (Body r) with
      | None => ret bad_body
      | Some [] => ret (errorResponse 400 "400" "files list is required")
      | Some files =>
          let! res := catch (on_orchestrator (InsertPipeFiles db schema pipe files)) in
          match res with
          | Err e => ret (errorResponse 400 "002043" e)
          | Ok _ =>
              ret (writeJSON 200 (JObj [("message", JText "SUCCESS"); ("pipe", JText (dotted db schema pipe));
                                        ("requestId", JText queryID); ("statusCode", JNum 200)]))
          end
      end
  | _ => ret (errorResponse 404 "404" "unknown pipe endpoint")
  end).

(** *** Routing

    The mux takes an exact path, or the prefix of a pattern that ends with a slash;
    any other path has its plain 404.  Its redirects are left out. *)

Definition not_found : Response := mkResponse 404 JNull.

Definition route (r : Request) : Partial (Server W) Response :=
  let exact (p : string) (h : Handler) (next : Partial (Server W) Response) :=
    if decide (Path r = p) then ended (h r) else next in
  let below (p : string) (h : Handler) (next : Partial (Server W) Response) :=
    if HasPrefix (Path r) p then ended (h r) else next in
  exact "/session/v1/login-request" handleLogin $
  exact "/session/token-request" handleTokenRefresh $
  exact "/session/authenticator-request" handleAuthenticator $
  exact "/session" handleSession $
  (λ next, if decide (Path r = "/queries/v1/query-request"%string) then handleQueryRequest r else next) $
  exact "/queries/v1/abort-request" handleAbortRequest $
  below "/monitoring/queries/" handleQueryStatus $
  exact "/api/v2/statements" handleV2Statements $
  below "/api/v2/statements/" handleV2StatementsID $
  exact "/telemetry/send" handleTelemetry $
  exact "/session/heartbeat" handleHeartbeat $
  below "/v1/data/pipes/" handleSnowpipeIngest $
  exact "/_miniflake/health" handleHealth $
  exact "/_miniflake/reset" handleReset $
  ended (ret not_found).

(** [withDecompressedBody]: what the handlers see of the request. *)
Definition decompressed (r : Request) : option Request :=
  if hasGzipEncoding (ContentEncoding r) then
    match gunzip (Body r) with
    | None => None
    | Some text => Some (mkRequest (Method r) (Path r) (query_get r) (Authorization r) "" text)
    end
  else Some r.

Definition serve (r : Request) : Partial (Server W) Response :=
  match decompressed r with
  | None => ended (ret bad_body)
  | Some r => route r
  end.
End server.

(** ** The state lock ([withStateLock])

    What a request holds while its handler runs. *)

Inductive Lock : Type := Unlocked | Shared | Exclusive.

Definition lock_of (r : Request) : Lock :=
  if decide (Path r = "/_miniflake/health"%string) then Unlocked
  else if decide (Path r = "/_miniflake/reset"%string) then
    if decide (Method r ≠ "POST"%string) then Unlocked else Exclusive
  else Shared.

(** The requests whose handlers run, by number; [sync.RWMutex] lets a reader in when
    no writer holds the lock and a writer when nobody does, and may keep others
    waiting besides. *)
Definition Running : Type := gmap nat Request.
Definition holds (l : Lock) (run : Running) : Prop := ∃ i r, run !! i = Some r ∧ lock_of r = l.

Inductive LockEvent : Type := Begin (i : nat) (r : Request) | Finish (i : nat).

Definition may_begin (l : Lock) (run : Running) : Prop :=
  match l with
  | Unlocked => True
  | Shared => ¬ holds Exclusive run
  | Exclusive => ¬ holds Exclusive run ∧ ¬ holds Shared run
  end.

Inductive lock_step : Running → LockEvent → Running → Prop :=
  | step_begin run i r : run !! i = None → may_begin (lock_of r) run → lock_step run (Begin i r) (<[i := r]> run)
  | step_finish run i r : run !! i = Some r → lock_step run (Finish i) (delete i run).
