(* ===== verification/Wire.v ===== *)
(** * Reading the row sets of answers back

    Decoders for the texts that cells have on the wire, the way a driver reads them
    after the type of their column, and the round trips: numbers, instants, bytes,
    single cells and whole row sets. *)

From S2P Require Import Prelude GoStrings GoTime Server.
From Stdlib Require Import Ascii DecimalString DecimalZ DecimalPos.
#[local] Open Scope Z_scope.

(** ** Decoders *)

Definition read_int (s : string) : option Z :=
  match s with String "-" t => Z.opp <$> digits_val 0 t | _ => digits_val 0 s end.

(** Seconds, a point and nanoseconds. *)
Definition read_epoch (s : string) : option Z :=
  match Cut s "." with
  | None => None
  | Some (secs, nanos) =>
      match read_int secs, digits_val 0 nanos with
      | Some a, Some b => Some (a * Second + b)
      | _, _ => None
      end
  end.

Definition hex_value (c : ascii) : Z :=
  let n := Z.of_N (N_of_ascii c) in if is_digit c then n - 48 else n - 87.
Fixpoint read_hex (s : string) : option string :=
  match s with
  | "" => Some ""%string
  | String a (String b s) =>
      String (ascii_of_N (Z.to_N (hex_value a * 16 + hex_value b))) <$> read_hex s
  | String _ "" => None
  end.

Definition read_bool (s : string) : option bool :=
  if decide (s = "1") then Some true else if decide (s = "0") then Some false else None.

(** A cell of a column of type [ty]. *)
Definition read_cell (ty : string) (j : json) : option cell :=
  match j with
  | JNull => Some CNull
  | JText s =>
      if decide (ty = "fixed") then CInt <$> read_int s
      else if decide (ty = "real") then Some (CFloat s)
      else if decide (ty = "boolean") then CBool <$> read_bool s
      else if decide (ty = "timestamp_ntz") then CTime <$> read_epoch s
      else if decide (ty = "binary") then CBytes <$> read_hex s
      else Some (CStr s)
  | _ => None
  end.
Definition read_rows (rows : list (list cell)) (rowSet : list (list json)) : list (list (option cell)) :=
  imap (λ i j, read_cell (column_type rows i) j) <$> rowSet.

(** ** Numbers *)

Lemma read_Itoa z : read_int (Itoa z) = Some z.
Proof.
  destruct (decide (0 ≤ z)) as [Hz|Hz].
  - pose proof (digits_Itoa z Hz) as E. unfold read_int. destruct (Itoa z) as [|c s] eqn:Ez; [done|].
    pose proof (digits_val_every _ _ _ E) as Hc. cbn [every] in Hc.
    destruct c as [[] [] [] [] [] [] [] []]; try exact E. cbn in Hc. discriminate Hc.
  - rewrite Itoa_neg by lia. cbn [read_int]. rewrite digits_Itoa by lia. cbn. f_equal. lia.
Qed.

Lemma digits_zeros k s : digits_val 0 (Join "" (repeat "0"%string k) +:+ s) = digits_val 0 s.
Proof.
  induction k as [|k IH]; [done|]. rewrite <- IH. destruct k as [|k]; reflexivity.
Qed.
Lemma digits_pad w z : 0 ≤ z → digits_val 0 (pad w z) = Some z.
Proof.
  intros Hz. unfold pad. destruct (z <? 0) eqn:E; [apply Z.ltb_lt in E; lia|]. change ("" +:+ ?x) with x.
  rewrite digits_zeros, Z.abs_eq by done. by apply digits_Itoa.
Qed.

Lemma every_weaken (f g : ascii → bool) s : (∀ c, f c = true → g c = true) → every f s = true → every g s = true.
Proof. intros Hfg. induction s as [|c s IH]; cbn; [done|]. intros [Hc Hs]%andb_true_iff. by rewrite Hfg, IH. Qed.
Lemma Itoa_no_point z : every (λ d, negb (bool_decide (d = "."%char))) (Itoa z) = true.
Proof.
  assert (Hd : ∀ n, 0 ≤ n → every (λ d, negb (bool_decide (d = "."%char))) (Itoa n) = true).
  { intros n Hn%digits_Itoa. apply digits_val_every in Hn. revert Hn. apply every_weaken. intros c Hc.
    apply negb_true_iff, bool_decide_eq_false. by intros ->. }
  destruct (decide (0 ≤ z)); [by apply Hd|]. rewrite Itoa_neg by lia. cbn. apply Hd. lia.
Qed.

Lemma read_epoch_text t : read_epoch (epoch_text t) = Some t.
Proof.
  unfold read_epoch, epoch_text. change ("." +:+ ?x) with (String "." x). change "."%string with (String "." "").
  rewrite Cut_byte by apply Itoa_no_point. rewrite read_Itoa, digits_pad by (apply Z.mod_pos_bound; done).
  f_equal. pose proof (Z.div_mod t Second ltac:(done)). lia.
Qed.

(** ** Bytes *)

Lemma read_hex_text s : read_hex (hex_text s) = Some s.
Proof.
  induction s as [|c s IH]; [done|]. cbn [hex_text]. unfold Session.hex_byte. change (String ?a (String ?b "") +:+ ?x) with (String a (String b x)).
  cbn [read_hex]. rewrite IH. cbn [fmap option_fmap option_map]. do 2 f_equal.
  destruct c as [[] [] [] [] [] [] [] []]; vm_compute; reflexivity.
Qed.

(** ** Cells and row sets *)

(** The columns whose values the engine returns as they are; those of DATE columns, which
    come as instants, are not among them. *)
Inductive Column : Type := Number | Real | Text | Boolean | Binary | Timestamp.
Definition wire_type (k : Column) : string :=
  match k with
  | Number => "fixed" | Real => "real" | Text => "text" | Boolean => "boolean" | Binary => "binary" | Timestamp => "timestamp_ntz"
  end.
(** A value of the column, or NULL. *)
Definition value_of (k : Column) (v : cell) : bool :=
  match v, k with
  | CNull, _ | CInt _, Number | CFloat _, Real | CStr _, Text | CBool _, Boolean | CBytes _, Binary | CTime _, Timestamp => true
  | _, _ => false
  end.
(** What the first row must have for the type to show. *)
Definition shows (k : Column) (v : cell) : Prop := v = CNull → k = Text.

Lemma read_wire_cell k v : value_of k v = true → read_cell (wire_type k) (wire_cell v) = Some v.
Proof.
  destruct v as [|b|z|f|s|t|s], k; try done; intros _; cbn; [by destruct b|by rewrite read_Itoa|by rewrite read_epoch_text|by rewrite read_hex_text].
Qed.
Lemma shown_type k v : value_of k v = true → shows k v → snowflakeTypeName v = wire_type k.
Proof. unfold shows. destruct v, k; try done; intros _ H; discriminate (H eq_refl). Qed.

(** The rows of a query with such columns, and its first row. *)
Definition typed (ks : list Column) (rows : list (list cell)) : Prop :=
  Forall (Forall2 (λ k v, value_of k v = true) ks) rows ∧
  match rows with row :: _ => Forall2 shows ks row | [] => True end.

Lemma typed_column ks rows row i k : typed ks rows → row ∈ rows → ks !! i = Some k → column_type rows i = wire_type k.
Proof.
  intros [Hall Hfirst] Hin Hk. destruct rows as [|first rows]; [by apply elem_of_nil in Hin|]. unfold column_type.
  apply Forall_cons in Hall as [Hv _]. destruct (Forall2_lookup_l _ _ _ _ _ Hv Hk) as (v & Hi & Hval). rewrite Hi.
  destruct (Forall2_lookup_l _ _ _ _ _ Hfirst Hk) as (v' & Hi' & Hs). assert (v' = v) as -> by congruence. by apply shown_type.
Qed.

(** C17: A result of number, text, boolean, binary and timestamp columns loses nothing on
    its way, when its first row has a NULL at most in columns of texts: the answer
    announces for every column its type, and the texts of the cells, read after the
    types that it announces, are the cells that the database returned: numbers of either
    sign, instants to the nanosecond before and after 1970, bytes, booleans and NULL
    included. *)
Theorem rows_read_back ks rows : typed ks rows →
  (∀ i k, rows ≠ [] → ks !! i = Some k → column_type rows i = wire_type k) ∧
  read_rows rows (buildRowSet rows) = (λ row : list cell, Some <$> row) <$> rows.
Proof.
  intros Ht. split.
  { intros i k Hne Hk. destruct rows as [|row rows]; [done|]. eapply typed_column; [done|apply list_elem_of_here|done]. }
  unfold read_rows, buildRowSet. rewrite <- list_fmap_compose. apply list_fmap_ext. intros n row Hrow.
  unfold compose. apply list_eq. intros i. rewrite list_lookup_imap, !list_lookup_fmap.
  destruct (row !! i) as [v|] eqn:E; [|done]. cbn. f_equal. apply list_elem_of_lookup_2 in Hrow.
  pose proof (proj1 (Forall_forall _ _) (proj1 Ht) row Hrow) as Hv. destruct (Forall2_lookup_r _ _ _ _ _ Hv E) as (k & Hk & Hval).
  rewrite (typed_column ks rows row i k Ht Hrow Hk). by apply read_wire_cell.
Qed.

Definition wire_rows : list (list cell) :=
  [[CInt (-7); CTime (-1); CBytes "a"; CBool true; CNull]; [CNull; CTime 1500000000; CBytes ""; CBool false; CStr ""]].
Definition wire_columns : list Column := [Number; Timestamp; Binary; Boolean; Text].

Lemma rows_read_back_witness : typed wire_columns wire_rows ∧
  buildRowSet wire_rows !! 0%nat =
    Some [JText "-7"; JText "-1.999999999"; JText "61"; JText "1"; JNull] ∧
  read_rows wire_rows (buildRowSet wire_rows) = (λ row : list cell, Some <$> row) <$> wire_rows.
Proof.
  assert (Ht : typed wire_columns wire_rows).
  { split; unfold wire_rows, wire_columns; repeat constructor; done. }
  split; [exact Ht|]. split; [reflexivity|]. exact (proj2 (rows_read_back wire_columns wire_rows Ht)).
Defined.

(** A date, which the engine returns as an instant, is announced and sent as one. *)
Example date_as_timestamp : column_type [[CTime (48 * Hour)]] 0 = "timestamp_ntz"%string ∧
  buildRowSet [[CTime (48 * Hour)]] = [[JText "172800.000000000"]].
Proof. vm_compute. split; reflexivity. Qed.

(** The type of a column is that of its first row: with NULL there, the column is text
    and a number below it arrives as one. *)
Example null_first : read_rows [[CNull]; [CInt 1]] (buildRowSet [[CNull]; [CInt 1]]) = [[Some CNull]; [Some (CStr "1")]].
Proof. reflexivity. Qed.
