(* ===== verification/ServerSpec.v ===== *)
(** * Properties of the HTTP front end

    What a reset excludes, what a request without a session can do, that sessions do
    not touch each other, and how the statements of a bulk binding are merged. *)

From S2P Require Import Prelude GoStrings GoTime GoPath Regexp Rewriter Rbac Stream Snowpipe Catalog Session TimeTravel Clone Cron Task Binding Udf CopyInto Engine Stage StageRef Parameters Orchestrator Demo Server.
From Stdlib Require Import Ascii.
#[local] Open Scope Z_scope.

(** ** Answers *)

Fixpoint assoc (key : string) (fields : list (string * json)) : option json :=
  match fields with
  | [] => None
  | (k, v) :: fields => if decide (k = key) then Some v else assoc key fields
  end.
Definition member (key : string) (j : json) : option json :=
  match j with JObj fields => assoc key fields | _ => None end.

(** The rows of an answer. *)
Definition rows_sent (resp : Response) : list json :=
  match member "data" (r_body resp) ≫= member "rowset" with Some (JArr l) => l | _ => [] end.
(** The token of an answer to a login, and the header that a client makes of it. *)
Definition token_sent (resp : Response) : option string :=
  match member "data" (r_body resp) ≫= member "token" with Some (JText t) => Some t | _ => None end.
Definition token_header (token : string) : string := token_prefix +:+ token +:+ String dq "".

(** ** Resets run alone *)

Definition lock_ok (run : Running) : Prop := ∀ i j r r', run !! i = Some r → run !! j = Some r' →
  lock_of r = Exclusive → i ≠ j → lock_of r' = Unlocked.

Lemma lock_step_ok run ev run' : lock_ok run → lock_step run ev run' → lock_ok run'.
Proof.
  intros Hok Hst. destruct Hst as [run i r Hi Hmay|run i r Hi].
  - intros a b ra rb Ha Hb Hx Hne. apply lookup_insert_Some in Ha as [[<- <-]|[Hna Ha]], Hb as [[<- <-]|[Hnb Hb]]; try done.
    + rewrite Hx in Hmay. destruct Hmay as [H1 H2]. destruct (lock_of rb) eqn:E; [done| |]; exfalso;
        [apply H2|apply H1]; by exists b, rb.
    + assert (Hex : holds Exclusive run) by (by exists a, ra).
      destruct (lock_of r) eqn:E; [done| |]; exfalso; [by apply Hmay|by apply (proj1 Hmay)].
    + by eapply (Hok a b).
  - intros a b ra rb [_ Ha]%lookup_delete_Some [_ Hb]%lookup_delete_Some. by apply (Hok a b).
Qed.

Definition lock_reachable : Running → Prop := reachable (λ run, run = ∅) lock_step.

(** While the handler of a reset runs, the handlers of all other requests that run
    are those of health checks and of reset requests that are refused: no query, login
    or load is between its beginning and its end, in whatever order the requests came
    and ended. *)
Theorem reset_runs_alone run i j r r' : lock_reachable run → run !! i = Some r → run !! j = Some r' → i ≠ j →
  Path r = "/_miniflake/reset"%string → Method r = "POST"%string →
  Path r' = "/_miniflake/health"%string ∨ Path r' = "/_miniflake/reset"%string ∧ Method r' ≠ "POST"%string.
Proof.
  intros Hr Hi Hj Hne Hp Hm.
  assert (Hok : lock_ok run).
  { clear Hi Hj. revert run Hr. apply (reachable_inv _ _ lock_ok); [|exact lock_step_ok]. intros run0 -> a b ra rb Ha.
    by destruct (lookup_empty_Some (M:=gmap nat) a ra). }
  assert (Hx : lock_of r = Exclusive).
  { unfold lock_of. rewrite Hp, decide_False, decide_True, decide_False by (done || naive_solver). done. }
  specialize (Hok i j r r' Hi Hj Hx Hne). revert Hok. unfold lock_of. repeat case_decide; naive_solver.
Qed.

(** ** Queries *)

Section queries.
Context {W : Type} `{MapRange}.
Context (queryDB : string → list cell → W → result Engine.Rows * W).
Context (execDB : string → list cell → W → result ExecResult * W).
Context (ExecuteSQL : string → Session * Orchestrator W → option (result QueryResult * (Session * Orchestrator W))).
Context (decode_query : string → option queryRequestBody).
Context (unmarshal_string : string → option string) (parse_float : string → option Float).
Context (unmarshal_array : string → option (list string)).
Context (now : nat → Z).

(** What a computation keeps of the server, whatever its outcome. *)
Definition pkeeps {S A} (R : S → S → Prop) (m : Partial S A) : Prop := ∀ s r s', m s = Some (r, s') → R s s'.

Lemma pkeeps_bind {S A B} (R : S → S → Prop) (m : Partial S A) (k : A → Partial S B) :
  (∀ s1 s2 s3, R s1 s2 → R s2 s3 → R s1 s3) → pkeeps R m → (∀ a, pkeeps R (k a)) → pkeeps R (pbind m k).
Proof.
  intros Ht Hm Hk s r s'. unfold pbind. destruct (m s) as [[[a|e] s1]|] eqn:E; [|by intros [= _ <-]; eapply Hm|done].
  intros E2. eapply Ht; [by eapply Hm|by eapply Hk].
Qed.

Lemma run_statement_keeps stmt : pkeeps (λ st st', sessionMgr st'.2 = sessionMgr st.2 ∧ (has_orchestrator st.2 → has_orchestrator st'.2))
  (run_statement ExecuteSQL stmt).
Proof.
  intros [sess s] r st'. unfold run_statement. cbn. destruct (backend s) eqn:E; [by intros [= _ <-]|].
  destruct (ExecuteSQL stmt _) as [[r0 [sess1 o1]]|]; [|done]. by intros [= _ <-].
Qed.
Lemma execute_each_keeps stmts total last : pkeeps (λ st st', sessionMgr st'.2 = sessionMgr st.2 ∧ (has_orchestrator st.2 → has_orchestrator st'.2))
  (execute_each ExecuteSQL total last stmts).
Proof.
  revert total last. induction stmts as [|stmt stmts IH]; intros total last; cbn [execute_each].
  - by intros s r s' [= _ <-].
  - apply pkeeps_bind; [intros ? ? ? [E1 H1] [E2 H2]; split; [congruence|auto]|apply run_statement_keeps|].
    intros res. destruct (next_total total res); [apply IH|by intros s r s' [= _ <-]].
Qed.
Lemma executeStatements_keeps stmts : pkeeps (λ st st', sessionMgr st'.2 = sessionMgr st.2 ∧ (has_orchestrator st.2 → has_orchestrator st'.2))
  (executeStatements ExecuteSQL stmts).
Proof. destruct stmts as [|stmt [|]]; [apply execute_each_keeps|apply run_statement_keeps|apply execute_each_keeps]. Qed.

(** Only the session behind [token] may differ. *)
Definition others_kept (token : string) (s s' : Server W) : Prop :=
  ∀ t, t ≠ token → Session.sessions (sessionMgr s') !! t = Session.sessions (sessionMgr s) !! t.

Lemma touch_others token : pkeeps (others_kept token) (ended (touch_session (W:=W) now token)).
Proof.
  intros s r s'. unfold ended, touch_session. case_decide; [by intros [= _ <-]|]. unfold on_sessions, Session.UpdateActivity, bind, get, put, ret.
  destruct (Session.sessions (sessionMgr s) !! token) eqn:E; intros [= _ <-] t Ht; cbn; [by rewrite lookup_insert_ne|done].
Qed.

Lemma touch_backend token s : backend (touch_session (W:=W) now token s).2 = backend s.
Proof.
  unfold touch_session. case_decide; [done|]. unfold on_sessions. by destruct (Session.UpdateActivity _ _ _) as [r m].
Qed.

Lemma in_session_others token sess known stmts :
  pkeeps (others_kept token) (in_session token sess known (executeStatements ExecuteSQL stmts)).
Proof.
  intros s r s'. unfold in_session. destruct (executeStatements ExecuteSQL stmts (sess, s)) as [[r0 [sess1 s1]]|] eqn:E; [|done].
  apply executeStatements_keeps in E as [E _]. cbn in E. intros [= _ <-] t Ht. destruct known; cbn; [|by rewrite E].
  by rewrite lookup_insert_ne, E.
Qed.

Lemma on_srv_engine_sessions {A} (m : GoM (Engine.Engine * W) A) s : sessionMgr (on_srv_engine m s).2 = sessionMgr s.
Proof.
  unfold on_srv_engine. destruct (backend s) as [e w|o]; [by destruct (m _) as [r [e1 w1]]|by destruct (on_engine m o)].
Qed.
Lemma exec_all_sessions stmts n s : sessionMgr (exec_all execDB n stmts s).2 = sessionMgr s.
Proof.
  revert n s. induction stmts as [|stmt stmts IH]; intros n s; [done|]. cbn [exec_all]. unfold bind.
  pose proof (on_srv_engine_sessions (Engine.ExecNoResult execDB stmt []) s) as H1.
  destruct (on_srv_engine _ s) as [[k|e] s1]; cbn in H1; [rewrite IH|]; done.
Qed.
Lemma direct_sessions sqlText d stmts s : sessionMgr (direct queryDB execDB now sqlText d stmts s).2 = sessionMgr s.
Proof.
  unfold direct. destruct stmts as [|stmt rest]; [done|]. case_match; unfold bind, catch.
  - pose proof (on_srv_engine_sessions (Engine.Execute queryDB stmt []) s) as H1.
    destruct (on_srv_engine _ s) as [[[c r]|e] s1]; done.
  - pose proof (exec_all_sessions (stmt :: rest) 0 s) as H1. by destruct (exec_all _ _ _ s) as [[k|e] s1].
Qed.

Lemma routed_others token sqlText d stmts : pkeeps (others_kept token) (routed ExecuteSQL now token sqlText d stmts).
Proof.
  intros s r s'. unfold routed. destruct (session_for token s) as [[sess known]|]; [|by intros [= _ <-]].
  revert s r s'. apply pkeeps_bind; [intros ? ? ? H1 H2 t Ht; rewrite H2, H1; done|apply in_session_others|by intros a s r s' [= _ <-]].
Qed.

(** What a request comes to before its first statement: an answer, or a query in the
    session of its own token. *)
Lemma prepare_others r : pkeeps (others_kept (extractToken (Authorization r)))
  (ended (prepare (W:=W) decode_query unmarshal_string parse_float unmarshal_array now r)).
Proof.
  unfold prepare. case_decide; [by intros s res s' [= _ <-]|]. intros s res s'. unfold ended, bind.
  destruct (touch_session now _ s) as [[[]|e] s1] eqn:Et.
  - intros [= E]. apply (touch_others (extractToken (Authorization r)) s (Ok tt)). unfold ended. rewrite Et. do 2 f_equal. revert E.
    destruct (decode_query (Body r)) as [body|]; [|by intros [= _ <-]].
    repeat case_decide; try (by intros [= _ <-]). destruct (DescribeOnly body && _); [by intros [= _ <-]|].
    destruct (Expand _ _ _ _ _); by intros [= _ <-].
  - intros [= _ <-]. apply (touch_others (extractToken (Authorization r)) s (Err e)). unfold ended. by rewrite Et.
Qed.
Lemma prepared_token r s p s' : prepare (W:=W) decode_query unmarshal_string parse_float unmarshal_array now r s = (Ok (inr p), s') →
  p_token p = extractToken (Authorization r).
Proof.
  unfold prepare. case_decide; [done|]. unfold bind. destruct (touch_session now _ s) as [[[]|e] s1]; [|done].
  destruct (decode_query (Body r)) as [body|]; [|done]. repeat case_decide; try done. destruct (DescribeOnly body && _); [done|].
  destruct (Expand _ _ _ _ _); by intros [= <- _].
Qed.

(** C9: A query request changes no session but the one behind its own token: whatever
    its statements do, [USE] included, every other session has the database, schema,
    warehouse and role that it had, and none appears or disappears. *)
Theorem query_request_sessions r s res s' t :
  handleQueryRequest queryDB execDB ExecuteSQL decode_query unmarshal_string parse_float unmarshal_array now r s = Some (res, s') →
  t ≠ extractToken (Authorization r) →
  Session.sessions (sessionMgr s') !! t = Session.sessions (sessionMgr s) !! t.
Proof.
  intros E Ht. revert s res s' E t Ht. change (pkeeps (others_kept (extractToken (Authorization r)))
    (handleQueryRequest queryDB execDB ExecuteSQL decode_query unmarshal_string parse_float unmarshal_array now r)).
  intros s res s'. unfold handleQueryRequest, pbind. pose proof (prepare_others r s) as Hp. unfold ended at 1 in Hp. unfold ended at 1.
  destruct (prepare _ _ _ _ _ r s) as [[[resp|p]|e] s1] eqn:Ep; [by intros [= _ <-]; eapply Hp| |by intros [= _ <-]; eapply Hp].
  apply prepared_token in Ep as Ht. specialize (Hp _ _ eq_refl).
  intros E t Hne. rewrite <- (Hp t Hne). revert E. destruct (has_orchestrator s1).
  - rewrite Ht. intros E. exact (routed_others _ _ _ _ _ _ _ E t Hne).
  - unfold ended. intros [= E]. pose proof (direct_sessions (p_sqlText p) (p_describe p) (p_stmts p) s1) as Hs.
    rewrite E in Hs. cbn in Hs. by rewrite Hs.
Qed.

(** The requests of this section, as the server runs them. *)
Definition query_request : Request → Partial (Server W) Response :=
  handleQueryRequest queryDB execDB ExecuteSQL decode_query unmarshal_string parse_float unmarshal_array now.

(** A body that is answered before any session is looked at. *)
Definition answered_early (body : queryRequestBody) : Prop :=
  TrimSpace (SQLText body) = "" ∨ BindStage body ≠ "" ∨
  (DescribeOnly body = true ∧ isQueryStatement (TrimSpace (SQLText body)) = false) ∨
  ∃ e, Expand unmarshal_string parse_float unmarshal_array
    (if DescribeOnly body && bool_decide (Bindings body = ∅) then FillNull (TrimSpace (SQLText body)) else TrimSpace (SQLText body))
    (Bindings body) = Err e.

(** C2: A token that has no session, because it never had one, was logged out, expired
    or was wiped by a reset, runs nothing: the request comes to an end and the server is
    exactly as it was before, database included, and a statement that would have been
    run is answered with 401. *)
Theorem dead_token_runs_nothing r s : has_orchestrator s = true → Method r = "POST"%string →
  extractToken (Authorization r) ≠ "" → Session.GetSession (sessionMgr s) (extractToken (Authorization r)) = None →
  ∃ resp, query_request r s = Some (Ok resp, s) ∧
    ∀ body, decode_query (Body r) = Some body → ¬ answered_early body → resp = invalid_token.
Proof.
  intros Ho Hm Ht Hs. unfold query_request, handleQueryRequest, prepare. rewrite decide_False by (by intros []).
  unfold pbind, ended, touch_session, bind at 1. rewrite decide_False by done. unfold on_sessions, Session.UpdateActivity, bind, get.
  unfold Session.GetSession in Hs. rewrite Hs. cbn [fst snd ret]. destruct s as [b m c]. cbn in *.
  destruct (decode_query (Body r)) as [body|]; [|by eexists].
  set (s := mkServer b m c).
  assert (Hearly : ∀ resp, answered_early body → ∃ resp0, Some (Ok resp, s) = Some (Ok resp0, s) ∧
    ∀ body0, Some body = Some body0 → ¬ answered_early body0 → resp0 = invalid_token).
  { intros resp He. exists resp. split; [done|]. by intros ? [= <-]. }
  case_decide as H1; [apply Hearly; by left|]. case_decide as H2; [apply Hearly; by right; left|].
  destruct (DescribeOnly body && negb _) eqn:H3.
  { apply Hearly. right; right; left. apply andb_true_iff in H3 as [-> H3]. by apply negb_true_iff in H3. }
  destruct (Expand _ _ _ _ _) as [stmts|e] eqn:H4; [|apply Hearly; right; right; right; by exists e].
  unfold s, ret. cbn [p_token]. rewrite Ho. unfold routed, session_for, Session.GetSession. cbn [sessionMgr]. rewrite Hs, decide_True by done.
  eexists. split; [reflexivity|]. done.
Qed.

(** *** Describe-only requests *)

Lemma answer_describe sqlText r : rows_sent (answer now sqlText true r) = [].
Proof. destruct r as [q|e]; [done|]. unfold answer, queryFailure. by destruct (Contains e _). Qed.

Lemma routed_describe token sqlText stmts s resp s' :
  routed ExecuteSQL now token sqlText true stmts s = Some (Ok resp, s') → rows_sent resp = [].
Proof.
  unfold routed, pbind, ended, ret, in_session. destruct (session_for token s) as [[sess known]|]; [|by intros [= <- _]].
  destruct (executeStatements _ _ _) as [[r [sess1 s1]]|]; [|done]. intros [= <- _]. apply answer_describe.
Qed.

(** No answer to a describe-only request carries a row, and when its statement is
    not a query nothing at all is run: of the whole server only the time of the
    session's last activity may change. *)
Theorem describe_sends_no_rows r body s resp s' : Method r = "POST"%string → decode_query (Body r) = Some body →
  DescribeOnly body = true → has_orchestrator s = true → query_request r s = Some (Ok resp, s') →
  rows_sent resp = [] ∧
  (isQueryStatement (TrimSpace (SQLText body)) = false → s' = (touch_session now (extractToken (Authorization r)) s).2).
Proof.
  intros Hm Hd Hdo Ho. unfold query_request, handleQueryRequest, prepare. rewrite decide_False by (by intros []).
  unfold pbind at 1, ended at 1, bind at 1. pose proof (touch_backend (extractToken (Authorization r)) s) as Hb.
  destruct (touch_session now _ s) as [[[]|e] s1]; [|done]. cbn [snd] in *. rewrite Hd, Hdo. unfold ended, ret.
  repeat case_decide; try (by intros [= <- <-]). cbn [andb].
  destruct (isQueryStatement _) eqn:Hq; cbn [negb]; [|by intros [= <- <-]].
  destruct (Expand _ _ _ _ _) as [stmts|e]; [|by intros [= <- <-]].
  assert (Ho1 : has_orchestrator s1 = true) by (unfold has_orchestrator in *; by rewrite Hb). rewrite Ho1.
  intros E. split; [|done]. by apply routed_describe in E.
Qed.

(** *** The shape of answers *)

Definition null_or_number (j : json) : Prop := j = JNull ∨ ∃ n, j = JNum n.
Definition null_or_text (j : json) : Prop := j = JNull ∨ ∃ t, j = JText t.

(** A column: all seven keys are there, whatever the type. *)
Definition column_ok (j : json) : Prop :=
  (∃ t, member "name" j = Some (JText t)) ∧ (∃ t, member "type" j = Some (JText t)) ∧ (∃ b, member "nullable" j = Some (JBool b)) ∧
  ∀ k, k ∈ ["length"; "precision"; "scale"; "byteLength"]%string → ∃ v, member k j = Some v ∧ null_or_number v.

Record success_ok (data : json) : Prop := mkSuccess {
  so_columns : ∃ cols, member "rowtype" data = Some (JArr cols) ∧ Forall column_ok cols;
  so_rows : ∃ rows, member "rowset" data = Some (JArr rows) ∧ Forall (λ row, ∃ cells, row = JArr cells ∧ Forall null_or_text cells) rows ∧
    member "total" data = Some (JNum (Z.of_nat (length rows))) ∧ member "returned" data = Some (JNum (Z.of_nat (length rows)));
  so_status : member "queryStatus" data = Some (JText "SUCCESS");
  so_type : ∃ id, member "statementTypeId" data = Some (JNum id) ∧ (member "arrayBindSupported" data = Some (JBool true) ↔ id = stmtInsert);
}.
Definition failure_ok (data : json) : Prop :=
  data = JNull ∨ member "queryStatus" data = Some (JText "FAILED_WITH_ERROR") ∧ (∃ t, member "sqlText" data = Some (JText t)) ∧
    ∃ t, member "queryId" data = Some (JText t).

(** The four keys of the envelope, and the data that go with its outcome. *)
Definition answer_ok (resp : Response) : Prop :=
  ∃ data code message success, r_body resp = snowflakeResponse data code message success ∧
    (success = true → code = JText "090000" ∧ message = JNull ∧ r_status resp = 200 ∧ success_ok data) ∧
    (success = false → (∃ c, code = JText c) ∧ (∃ t, message = JText t) ∧ failure_ok data).

Lemma row_type_ok cols rows : Forall column_ok (row_type cols rows).
Proof.
  apply Forall_lookup. intros i j. unfold row_type. rewrite list_lookup_imap. destruct (cols !! i) as [col|]; [|done]. intros [= <-].
  unfold row_type_field. destruct (snowflakeColumnMetadata _) as [[[le pr] sc] by_]. unfold column_ok. split_all; [by eexists..|].
  assert (Hn : ∀ o, null_or_number (opt_num o)) by (intros [n|]; [right; by exists n|by left]).
  intros k Hk. rewrite !elem_of_cons, elem_of_nil in Hk. destruct Hk as [->|[->|[->|[->|[]]]]]; eexists; (split; [reflexivity|done]).
Qed.
Lemma buildRowSet_ok rows : Forall (λ row, ∃ cells, row = JArr cells ∧ Forall null_or_text cells) (JArr <$> buildRowSet rows).
Proof.
  apply Forall_lookup. intros i j. unfold buildRowSet. rewrite !list_lookup_fmap. destruct (rows !! i) as [row|]; [|done]. intros [= <-].
  eexists. split; [reflexivity|]. apply Forall_fmap, Forall_true. intros []; try (right; by eexists). by left.
Qed.
Lemma query_data_ok id sqlText cols rows : Forall column_ok cols → Forall (λ row, ∃ cells, row = JArr cells ∧ Forall null_or_text cells) (JArr <$> rows) →
  answer_ok (queryResponse (queryResponseData id sqlText cols rows)).
Proof.
  intros Hc Hr. eexists _, _, _, _. split; [reflexivity|]. split; [|done]. intros _. split_all; [done..|]. split.
  - by exists cols.
  - exists (JArr <$> rows). rewrite length_fmap. by split_all.
  - reflexivity.
  - exists (statementTypeID sqlText). split; [reflexivity|]. unfold queryResponseData. cbn [member assoc app].
    repeat (rewrite decide_False by done). destruct (decide (statementTypeID sqlText = stmtInsert)); cbn; split; intros; congruence || done.
Qed.
Lemma queryFailure_ok err id sqlText : answer_ok (queryFailure err id sqlText).
Proof.
  unfold queryFailure. destruct (Contains _ _); eexists _, _, _, _; (split; [reflexivity|]); (split; [done|]); intros _;
    (split_all; [by eexists..|]); right; (split_all; [reflexivity|by eexists..]).
Qed.
Lemma errorResponse_ok st code msg : answer_ok (errorResponse st code msg).
Proof. eexists _, _, _, _. split; [reflexivity|]. split; [done|]. intros _. split_all; [by eexists..|by left]. Qed.
Lemma bind_failure_ok id sqlText msg : answer_ok (writeBindFailure id sqlText msg).
Proof.
  eexists _, _, _, _. split; [reflexivity|]. split; [done|]. intros _. split_all; [by eexists..|]. right. split_all; [reflexivity|by eexists..].
Qed.
Lemma rows_response_ok sqlText d cols rows : answer_ok (rows_response now sqlText d cols rows).
Proof. apply query_data_ok; [apply row_type_ok|]. destruct d; [constructor|apply buildRowSet_ok]. Qed.
Lemma answer_typed sqlText d r : answer_ok (answer now sqlText d r).
Proof. destruct r; [apply rows_response_ok|apply queryFailure_ok]. Qed.
Lemma direct_typed sqlText d stmts s resp s' : direct queryDB execDB now sqlText d stmts s = (Ok resp, s') → answer_ok resp.
Proof.
  unfold direct. destruct stmts as [|x xs]; [done|]. case_match; unfold bind, catch, ret.
  - destruct (on_srv_engine _ s) as [[[c r]|e] s1]; intros [= <- _]; [apply rows_response_ok|apply queryFailure_ok].
  - destruct (exec_all _ _ _ s) as [[k|e] s1]; intros [= <- _]; [|apply queryFailure_ok]. apply query_data_ok.
    + constructor; [|constructor]. unfold column_ok. split_all; [by eexists..|]. intros k0 Hk. rewrite !elem_of_cons, elem_of_nil in Hk.
      destruct Hk as [->|[->|[->|[->|[]]]]]; eexists; (split; [reflexivity|]); (by left) || (right; by eexists).
    + constructor; [|constructor]. eexists. split; [reflexivity|]. constructor; [right; by eexists|constructor].
Qed.
Lemma routed_typed token sqlText d stmts s resp s' : routed ExecuteSQL now token sqlText d stmts s = Some (Ok resp, s') → answer_ok resp.
Proof.
  unfold routed, pbind, ended, ret, in_session. destruct (session_for token s) as [[sess known]|]; [|intros [= <- _]; apply errorResponse_ok].
  destruct (executeStatements _ _ _) as [[r [sess1 s1]]|]; [|done]. intros [= <- _]. apply answer_typed.
Qed.

(** C14: Every answer to a query request has the shape that the drivers read by key, on
    each of its paths: the four keys of the envelope; with success, the code 090000,
    columns with all seven keys, rows of texts and nulls whose number is the one
    stated, and array binding announced exactly for INSERT; without, a code, a message
    and either no data or those of a failed query. *)
Theorem query_answers_typed r s resp s' : query_request r s = Some (Ok resp, s') → answer_ok resp.
Proof.
  unfold query_request, handleQueryRequest, prepare. unfold pbind, ended, bind, ret. case_decide; [intros [= <- _]; apply errorResponse_ok|].
  destruct (touch_session now _ s) as [[[]|e] s1]; [|done].
  destruct (decode_query _) as [body|]; [|intros [= <- _]; apply errorResponse_ok].
  case_decide; [intros [= <- _]; apply errorResponse_ok|]. case_decide; [intros [= <- _]; apply bind_failure_ok|].
  destruct (DescribeOnly body && _); [intros [= <- _]; apply query_data_ok; constructor|].
  destruct (Expand _ _ _ _ _) as [stmts|e]; [|intros [= <- _]; apply bind_failure_ok].
  destruct (has_orchestrator s1); [apply routed_typed|]. intros [= E]. by eapply direct_typed.
Qed.

(** *** Bulk statements *)

(** The statements ran one after the other, each on what the one before left, and
    every one was DML; [n] rows in all. *)
Inductive dml_run : list string → Session * Orchestrator W → Z → list QueryResult → Session * Orchestrator W → Prop :=
  | dml_nil st : dml_run [] st 0 [] st
  | dml_cons stmt stmts st q st1 n qs st2 :
      ExecuteSQL stmt st = Some (Ok q, st1) → StatementType q = "DML" → dml_run stmts st1 n qs st2 →
      dml_run (stmt :: stmts) st (RowsAffected q + n) (q :: qs) st2.

(** A server around an orchestrator and a session. *)
Definition around_orch (s : Server W) (st : Session * Orchestrator W) : Session * Server W :=
  (st.1, mkServer (Wired st.2) (sessionMgr s) (sessionIDCounter s)).

(** What the loop makes of the rows so far and the last result. *)
Definition merged (total : Z) (q : QueryResult) : QueryResult :=
  mkQueryResult (Columns q) [[CInt total; CInt 0; CInt 0]] total (StatementType q).

Lemma run_statement_around stmt s st : run_statement ExecuteSQL stmt (around_orch s st) =
  (λ '(r, st'), (r, around_orch s st')) <$> ExecuteSQL stmt st.
Proof. destruct st as [sess o]. unfold run_statement. cbn. by destruct (ExecuteSQL stmt (sess, o)) as [[r [sess1 o1]]|]. Qed.

(** The outcome of the loop. *)
Definition each_outcome (stmts : list string) (total : Z) (lastq : option QueryResult) (s : Server W)
    (st : Session * Orchestrator W) (r : result QueryResult) (st' : Session * Server W) : Prop :=
  match r with
  | Ok q => ∃ n qs st2 ql, dml_run stmts st n qs st2 ∧ st' = around_orch s st2 ∧
      list.last (option_list lastq ++ qs) = Some ql ∧ q = merged (if decide (stmts = []) then total else wrap64 (total + n)) ql
  | Err e => (stmts = [] ∧ lastq = None ∧ st' = around_orch s st) ∨
      ∃ pre stmt post n qs st1 st2, stmts = pre ++ stmt :: post ∧ dml_run pre st n qs st1 ∧ st' = around_orch s st2 ∧
        (ExecuteSQL stmt st1 = Some (Err e, st2) ∨
         ∃ q, ExecuteSQL stmt st1 = Some (Ok q, st2) ∧ StatementType q ≠ "DML"%string)
  end.

Lemma execute_each_spec stmts total lastq s st r st' :
  execute_each ExecuteSQL total lastq stmts (around_orch s st) = Some (r, st') → each_outcome stmts total lastq s st r st'.
Proof.
  revert total lastq st. induction stmts as [|stmt stmts IH]; intros total lastq st; cbn [execute_each].
  - destruct lastq as [q|]; intros [= <- <-]; cbn; [|by left]. exists 0, [], st, q. split_all; [constructor|done..].
  - unfold pbind. rewrite run_statement_around. destruct (ExecuteSQL stmt st) as [[[q|e] st1]|] eqn:E; cbn; [| |done].
    + unfold next_total. case_decide as Hd.
      * intros [= <- <-]. right. exists [], stmt, stmts, 0, [], st, st1. split_all; [done|constructor|done|right; by exists q].
      * intros Ho%IH. destruct r as [q'|e]; cbn in Ho |- *.
        -- destruct Ho as (n & qs & st2 & ql & Hrun & -> & Hl & ->). exists (RowsAffected q + n), (q :: qs), st2, ql.
           split_all; [by econstructor|done| |].
           ++ destruct lastq; [|done]. cbn. destruct qs; [done|]. exact Hl.
           ++ f_equal. case_decide as Hs; [|by rewrite wrap64_add_l, Z.add_assoc]. subst stmts. inversion Hrun; subst. f_equal. lia.
        -- right. destruct Ho as [(-> & Hq & _)|(pre & bad & post & n & qs & st2 & st3 & -> & Hrun & -> & Hbad)]; [done|].
           exists (stmt :: pre), bad, post, (RowsAffected q + n), (q :: qs), st2, st3. split_all; [done|by econstructor|done|done].
    + intros [= <- <-]. right. exists [], stmt, stmts, 0, [], st, st1. split_all; [done|constructor|done|by left].
Qed.

(** C12: The statements of a bulk binding run in order, each in the session and on the
    state that the one before left.  When all are DML and succeed, the answer is the
    last one's with the sum of the rows, in 64 bits; otherwise the first failing
    statement, or the first that is not DML, ends the run: what came before it stays,
    and what comes after it is not run. *)
Theorem statements_merged a b stmts s st r st' :
  executeStatements ExecuteSQL (a :: b :: stmts) (around_orch s st) = Some (r, st') →
  match r with
  | Ok q => ∃ n qs st2 ql, dml_run (a :: b :: stmts) st n qs st2 ∧ st' = around_orch s st2 ∧
      list.last qs = Some ql ∧ q = merged (wrap64 n) ql
  | Err e => ∃ pre stmt post n qs st1 st2, a :: b :: stmts = pre ++ stmt :: post ∧ dml_run pre st n qs st1 ∧
      st' = around_orch s st2 ∧
      (ExecuteSQL stmt st1 = Some (Err e, st2) ∨
       ∃ q, ExecuteSQL stmt st1 = Some (Ok q, st2) ∧ StatementType q ≠ "DML"%string)
  end.
Proof.
  intros Ho%execute_each_spec. destruct r as [q|e]; cbn in Ho; [|by destruct Ho as [(? & _)|Ho]].
  destruct Ho as (n & qs & st2 & ql & Hrun & -> & Hl & ->). by exists n, qs, st2, ql.
Qed.
End queries.

(** ** Logging in and out *)

Section login.
Context {W : Type}.
Context (decode_login : string → option loginRequestBody).
Context (now : nat → Z) (idBytes tokenBytes : list Z).

Definition no_quote (c : ascii) : bool := negb (bool_decide (c = dq)).

Lemma hex_digit_no_quote z : 0 ≤ z < 16 → no_quote (hex_digit (Z.to_N z)) = true.
Proof.
  intros Hz. assert (Hin : Z.to_N z ∈ N.of_nat <$> seq 0 16).
  { apply list_elem_of_fmap. exists (Z.to_nat z). split; [lia|]. apply elem_of_seq. lia. }
  cbn in Hin. rewrite !elem_of_cons in Hin. repeat destruct Hin as [->|Hin]; try (vm_compute; reflexivity). by apply elem_of_nil in Hin.
Qed.
Lemma hex_bytes_no_quote bs : Forall Session.is_byte bs → every no_quote (Session.hex_bytes bs) = true.
Proof.
  induction 1 as [|b bs Hb _ IH]; [done|]. cbn [Session.hex_bytes]. unfold Session.is_byte, Session.hex_byte in *. rewrite every_app, IH.
  cbn [every]. rewrite !hex_digit_no_quote; [done|..].
  - apply Z.mod_pos_bound. lia.
  - split; [apply Z.div_pos; lia|apply Z.div_lt_upper_bound; lia].
Qed.
Lemma uuid_no_quote bs : Forall Session.is_byte bs → every no_quote (Session.generateUUID bs) = true.
Proof.
  intros Hb%Session.mask_uuid_bytes. unfold Session.generateUUID, Session.format_uuid. rewrite !every_app.
  rewrite !hex_bytes_no_quote; [done|by repeat (apply Forall_take || apply Forall_drop)..].
Qed.

Lemma Cut_prefix p u : Cut (p +:+ u) p = Some ("", u)%string.
Proof.
  pose proof (TrimPrefixOpt_app p u) as E. destruct (p +:+ u) as [|c v]; cbn [Cut]; by rewrite E.
Qed.

(** Whatever follows the token's closing quote is not looked at. *)
Lemma extractToken_header token rest : every no_quote token = true →
  extractToken (token_prefix +:+ token +:+ String dq rest) = token.
Proof.
  intros Ht. unfold extractToken. rewrite decide_False by done.
  assert (E : Cut (token_prefix +:+ token +:+ String dq rest) token_prefix = Some ("", token +:+ String dq rest)).
  { apply Cut_prefix. }
  rewrite E. by rewrite (Cut_byte dq).
Qed.

(** C16: The token that a login answers with is the one that a client's header carries
    back, and behind it there is a session of the login's user, with the database,
    schema and warehouse of the body or else of the URL, the defaults for the first two
    when both are empty, and the role SYSADMIN.  No other session changes, and
    logging out with it leaves the sessions that there were before. *)
Theorem login_logout r body s resp s1 : Method r = "POST"%string → decode_login (Body r) = Some body →
  Forall Session.is_byte tokenBytes →
  handleLogin (W:=W) decode_login now idBytes tokenBytes r s = (Ok resp, s1) →
  ∃ token sess, token_sent resp = Some token ∧ extractToken (token_header token) = token ∧
    Session.GetSession (sessionMgr s1) token = Some sess ∧
    sess = Session.mkSession (Session.generateUUID idBytes) token
      (if decide (or_query (DatabaseName body) r "databaseName" = "") then "miniflake" else or_query (DatabaseName body) r "databaseName")
      (if decide (or_query (SchemaName body) r "schemaName" = "") then "main" else or_query (SchemaName body) r "schemaName")
      (or_query (WarehouseName body) r "warehouse") "SYSADMIN" (LoginName body) (now 0%nat) (now 0%nat) ∧
    (∀ t, t ≠ token → Session.GetSession (sessionMgr s1) t = Session.GetSession (sessionMgr s) t) ∧
    (Session.GetSession (sessionMgr s) token = None → ∀ r2, Method r2 = "DELETE"%string → Authorization r2 = token_header token →
     ∃ s2, handleSession r2 s1 = (Ok (successResponse JNull), s2) ∧ sessionMgr s2 = sessionMgr s).
Proof.
  intros Hm Hd Hb E. set (token := Session.generateUUID tokenBytes).
  assert (Ht : extractToken (token_header token) = token) by (by apply (extractToken_header token ""), uuid_no_quote).
  unfold handleLogin, only in E. rewrite decide_True, Hd in E by done. cbv zeta in E.
  unfold bind, on_sessions, Session.CreateSession, modify, ret, next_session_id in E. cbn in E. injection E as <- <-.
  exists token. eexists. split_all; [reflexivity|done|by apply lookup_insert_eq|done| |].
  - intros t Hne. by apply lookup_insert_ne.
  - intros Hn r2 Hm2 Ha. unfold handleSession. rewrite decide_False by (intros [H1 _]; by rewrite Hm2 in H1). cbv zeta. rewrite Ha, Ht.
    unfold GetSession in Hn. destruct (decide (token = "")) as [Ee|_].
    + exfalso. apply (f_equal String.length) in Ee. subst token. unfold Session.generateUUID, Session.format_uuid in Ee.
      rewrite !string_app_length in Ee. cbn in Ee. lia.
    + eexists. split; [reflexivity|]. cbn. rewrite delete_insert_id by done. by destruct (sessionMgr s).
Qed.
End login.

(** ** Concrete requests *)

#[local] Existing Instance key_order.

Definition a_request (method path auth body : string) : Request := mkRequest method path (λ _, ""%string) auth "" body.

(** A reset has begun while a health check runs. *)
Definition health_first : Running := <[1%nat := a_request "POST" "/_miniflake/reset" "" ""]>
  (<[0%nat := a_request "GET" "/_miniflake/health" "" ""]> ∅).

Lemma reset_runs_alone_witness : lock_reachable health_first ∧
  Path (a_request "GET" "/_miniflake/health" "" "") = "/_miniflake/health"%string.
Proof.
  assert (Hr : lock_reachable health_first).
  { unfold lock_reachable, health_first. apply (reachable_step _ _ (<[0%nat := a_request "GET" "/_miniflake/health" "" ""]> ∅) (Begin 1 (a_request "POST" "/_miniflake/reset" "" ""))).
    - apply (reachable_step _ _ ∅ (Begin 0 (a_request "GET" "/_miniflake/health" "" ""))); [exists ∅, []; split; [done|constructor]|]. by apply step_begin.
    - apply step_begin; [done|]. split; intros (i & r & Hi & Hl); apply lookup_insert_Some in Hi as [[_ <-]|[_ Hi]]; done. }
  split; [exact Hr|].
  destruct (reset_runs_alone health_first 1 0 (a_request "POST" "/_miniflake/reset" "" "")
    (a_request "GET" "/_miniflake/health" "" "") Hr eq_refl eq_refl ltac:(done) eq_refl eq_refl) as [H|[H _]]; [exact H|discriminate H].
Defined.

(** The server of the demonstration, with two sessions; the body of a request is the
    text of its statement, or ["describe "] and the text. *)
Definition other_session : Session := Session.mkSession "2" "u" "DB" "PUBLIC" "WH" "SYSADMIN" "BOB" 0 0.
Definition demo_server : Server Demo :=
  mkServer (Wired demo_boot) (Session.mkManager {[ "t" := demo_session; "u" := other_session ]}%string false) 0.
Definition demo_decode (body : string) : option queryRequestBody :=
  match TrimPrefixOpt body "describe " with
  | Some sql => Some (mkQueryBody sql ∅ "" true)
  | None => Some (mkQueryBody body ∅ "" false)
  end.
Definition demo_request (token body : string) : Partial (Server Demo) Response :=
  query_request demo_query demo_exec (demo_statement 0) demo_decode (λ _, None) (λ _, None) (λ _, None) (λ _, 7)
    (a_request "POST" "/queries/v1/query-request" (token_header token) body).
Definition schema_of_session (token : string) (s : Server Demo) : option string :=
  Session.Schema <$> Session.sessions (sessionMgr s) !! token.
(** The texts that the database was given. *)
Definition orch_log (s : Server Demo) : list string :=
  match backend s with EngineOnly _ w => d_log w | Wired o => d_log (world o) end.
(** The state that a request leaves. *)
Definition left_by (o : option (result Response * Server Demo)) : Server Demo :=
  match o with Some (_, s) => s | None => demo_server end.
Definition answer_of (o : option (result Response * Server Demo)) : Response :=
  match o with Some (Ok resp, _) => resp | _ => not_found end.

Lemma query_request_sessions_witness :
  schema_of_session "t" (left_by (demo_request "t" "USE SCHEMA other" demo_server)) = Some "other"%string ∧
  schema_of_session "u" (left_by (demo_request "t" "USE SCHEMA other" demo_server)) = Some "PUBLIC"%string.
Proof.
  split; [vm_compute; reflexivity|].
  destruct (demo_request "t" "USE SCHEMA other" demo_server) as [[res s']|] eqn:E;
    [|apply (f_equal (λ o, bool_decide (is_Some (fst <$> o)))) in E; vm_compute in E; discriminate E].
  cbn [left_by]. unfold schema_of_session.
  rewrite (query_request_sessions demo_query demo_exec (demo_statement 0) demo_decode _ _ _ _ _ _ _ _ "u"%string E)
    by (vm_compute; discriminate). reflexivity.
Defined.

Lemma dead_token_runs_nothing_witness :
  demo_request "gone" "CREATE TABLE t (a INT)" demo_server = Some (Ok invalid_token, demo_server).
Proof.
  destruct (dead_token_runs_nothing demo_query demo_exec (demo_statement 0) demo_decode (λ _, None) (λ _, None) (λ _, None) (λ _, 7)
    (a_request "POST" "/queries/v1/query-request" (token_header "gone") "CREATE TABLE t (a INT)") demo_server
    eq_refl eq_refl ltac:(vm_compute; discriminate) ltac:(vm_compute; reflexivity)) as (resp & E & Hb).
  unfold demo_request. rewrite E, (Hb (mkQueryBody "CREATE TABLE t (a INT)" ∅ "" false)); [done|reflexivity|].
  intros [H|[H|[[H _]|[e H]]]]; [vm_compute in H; discriminate H|by apply H|discriminate H|vm_compute in H; discriminate H].
Defined.

Lemma describe_sends_no_rows_witness :
  left_by (demo_request "t" "describe CREATE TABLE t (a INT)" demo_server) = (touch_session (λ _, 7) "t" demo_server).2.
Proof.
  destruct (demo_request "t" "describe CREATE TABLE t (a INT)" demo_server) as [[[resp|e] s']|] eqn:E;
    [|apply (f_equal (λ o, r_status (answer_of o))) in E; vm_compute in E; discriminate E..].
  destruct (describe_sends_no_rows demo_query demo_exec (demo_statement 0) demo_decode (λ _, None) (λ _, None) (λ _, None) (λ _, 7)
    (a_request "POST" "/queries/v1/query-request" (token_header "t") "describe CREATE TABLE t (a INT)")
    (mkQueryBody "CREATE TABLE t (a INT)" ∅ "" true) demo_server _ _ eq_refl eq_refl eq_refl eq_refl E) as [_ H].
  apply H. vm_compute. reflexivity.
Defined.

Lemma query_answers_typed_witness :
  r_body (answer_of (demo_request "t" "SELECT 1" demo_server)) ≠ JNull ∧ answer_ok (answer_of (demo_request "t" "SELECT 1" demo_server)).
Proof.
  destruct (demo_request "t" "SELECT 1" demo_server) as [[[resp|e] s']|] eqn:E;
    [|apply (f_equal (λ o, r_status (answer_of o))) in E; vm_compute in E; discriminate E..].
  cbn [answer_of]. unfold demo_request in E. pose proof (query_answers_typed _ _ _ _ _ _ _ _ _ _ _ _ E) as H.
  split; [|exact H]. destruct H as (data & code & msg & ok & -> & _). discriminate.
Defined.

(** Two rows in one statement each. *)
Definition two_inserts : list string := ["INSERT INTO t VALUES (1)"; "INSERT INTO t VALUES (2)"].
Definition affected_of {S} (o : option (result QueryResult * S)) : option Z :=
  match o with Some (Ok q, _) => Some (RowsAffected q) | _ => None end.
Lemma statements_merged_witness :
  affected_of (executeStatements (demo_statement 0) two_inserts (demo_session, demo_server)) = Some 2 ∧
  ∃ n qs st2, dml_run (demo_statement 0) two_inserts (demo_session, demo_boot) n qs st2 ∧ wrap64 n = 2.
Proof.
  assert (H2 : affected_of (executeStatements (demo_statement 0) two_inserts (demo_session, demo_server)) = Some 2)
    by (vm_compute; reflexivity).
  split; [exact H2|].
  destruct (executeStatements (demo_statement 0) two_inserts (demo_session, demo_server)) as [[[q|e] s']|] eqn:E; [|discriminate H2..].
  cbn [affected_of] in H2. injection H2 as H2.
  pose proof (statements_merged (demo_statement 0) _ _ [] demo_server (demo_session, demo_boot) _ _ E) as (n & qs & st2 & ql & Hrun & _ & _ & Hq).
  exists n, qs, st2. split; [exact Hrun|]. rewrite <- H2, Hq. reflexivity.
Defined.

Definition demo_login (body : string) : option loginRequestBody := Some (mkLoginBody body "" "" "" "" "").
Definition zero_bytes : list Z := repeat 0 16.

Lemma login_logout_witness : ∃ resp s1 r2 s2,
  handleLogin (W:=Demo) demo_login (λ _, 7) zero_bytes zero_bytes (a_request "POST" "/session/v1/login-request" "" "ann") demo_server = (Ok resp, s1) ∧
  sessionMgr s1 ≠ sessionMgr demo_server ∧
  handleSession r2 s1 = (Ok (successResponse JNull), s2) ∧ sessionMgr s2 = sessionMgr demo_server.
Proof.
  destruct (handleLogin (W:=Demo) demo_login (λ _, 7) zero_bytes zero_bytes (a_request "POST" "/session/v1/login-request" "" "ann") demo_server)
    as [[resp|e] s1] eqn:E; [|discriminate E].
  destruct (login_logout demo_login (λ _, 7) zero_bytes zero_bytes (a_request "POST" "/session/v1/login-request" "" "ann")
    (mkLoginBody "ann" "" "" "" "" "") demo_server _ _ eq_refl eq_refl
    ltac:(repeat (constructor; [unfold Session.is_byte; lia|]); constructor) E) as (token & sess & Ht & _ & Hs & Hsess & _ & H).
  assert (Hn : Session.GetSession (sessionMgr demo_server) token = None).
  { clear H Hs Hsess. injection E as <- <-. injection Ht as <-. reflexivity. }
  destruct (H Hn (a_request "DELETE" "/session" (token_header token) "") eq_refl eq_refl) as (s2 & Es & Hm).
  exists resp, s1, (a_request "DELETE" "/session" (token_header token) ""), s2. split_all; [done| |done|done].
  intros Heq. rewrite Heq, Hn in Hs. discriminate Hs.
Defined.

(** A describe-only query is run, and only its rows are kept from the answer. *)
Example describe_runs_query :
  orch_log (left_by (demo_request "t" "describe SELECT 1" demo_server)) = ["SELECT 1"%string].
Proof. vm_compute. reflexivity. Qed.

(** The SQL API runs a statement for any token, and once more as a command when its
    rows, as a query, end in an error. *)
Definition broken_rows (sql : string) (_ : list cell) (w : Demo) : result Engine.Rows * Demo :=
  (Ok (mkRows (Ok []) [] (Some "connection lost")), logged sql w).
Example v2_runs_twice :
  orch_log (handleV2Statements broken_rows demo_exec (λ b, Some (mkV2Body b ∅)) (λ _, None) (λ _, None) (λ _, 7)
    (a_request "POST" "/api/v2/statements" (token_header "gone") "DELETE FROM t") demo_server).2
  = ["DELETE FROM t"; "DELETE FROM t"]%string.
Proof. vm_compute. reflexivity. Qed.
