(* ===== verification/Protocol.v ===== *)
(** * The messages of the protocol ([internal/protocol/types.go])

    The structures of the package with the tags of their fields, as types of Json.v, the
    structures that the server decodes the same messages into, and what reaches whom:
    the server reads what a client that uses the package sends, texts with their invalid
    UTF-8 replaced, and such a client reads the answer to its login. *)

From S2P Require Import Prelude GoStrings Json Binding Session Engine Parameters Orchestrator Server ServerSpec Demo.
#[local] Open Scope Z_scope.

(** ** The package's structures *)

Definition SessionInfo : GoType := struct
  [req "databaseName" TString; req "schemaName" TString; req "warehouseName" TString; req "roleName" TString].

Definition LoginRequestData : GoType := struct
  [req "LOGIN_NAME" TString; req "PASSWORD" TString; req "ACCOUNT_NAME" TString;
   opt "DATABASE_NAME" TString; opt "SCHEMA_NAME" TString; opt "WAREHOUSE_NAME" TString; opt "ROLE_NAME" TString;
   opt "CLIENT_APP_ID" TString; opt "CLIENT_APP_VERSION" TString].
Definition LoginRequest : GoType := struct [req "data" LoginRequestData].

Definition LoginResponseData : GoType := struct
  [req "token" TString; req "masterToken" TString; req "sessionId" TInt; req "masterValidityInSeconds" TInt;
   req "displayUserName" TString; req "serverVersion" TString; req "firstLogin" TBool; req "healthCheckInterval" TInt;
   req "newClientForUpgrade" TString; req "sessionInfo" SessionInfo].
Definition LoginResponse : GoType := struct
  [req "data" (TPtr LoginResponseData); req "code" (TPtr TString); req "message" (TPtr TString); req "success" TBool].

Definition BindingValue : GoType := struct [req "type" TString; req "value" TString].
Definition QueryRequest : GoType := struct
  [req "sqlText" TString; req "asyncExec" TBool; req "sequenceId" TInt; req "isInternal" TBool; req "describeOnly" TBool;
   opt "parameters" (TMap TString); opt "bindings" (TMap BindingValue); req "querySubmissionTime" TInt].

Definition RowTypeField : GoType := struct
  [req "name" TString; opt "database" TString; opt "schema" TString; opt "table" TString; req "type" TString;
   req "scale" (TPtr TInt); req "precision" (TPtr TInt); req "length" (TPtr TInt); req "nullable" TBool; opt "byteLength" (TPtr TInt)].
Definition QueryResponseData : GoType := struct
  [req "queryId" TString; req "sqlText" TString; req "queryResultFormat" TString; req "rowtype" (TSlice RowTypeField);
   req "rowset" (TSlice (TSlice TString)); req "total" TInt; req "returned" TInt; opt "queryStatus" TString;
   req "statementTypeId" TInt; opt "finalDatabaseName" TString; opt "finalSchemaName" TString].
Definition QueryResponse : GoType := struct
  [req "data" (TPtr QueryResponseData); req "code" TString; req "message" (TPtr TString); req "success" TBool].

Definition V2Binding : GoType := struct [req "type" TString; req "value" TString].
Definition V2StatementRequest : GoType := struct
  [req "statement" TString; opt "timeout" TInt; opt "database" TString; opt "schema" TString; opt "warehouse" TString;
   opt "role" TString; opt "bindings" (TMap V2Binding); opt "parameters" (TMap TString)].
Definition V2RowType : GoType := struct
  [req "name" TString; opt "database" TString; opt "schema" TString; opt "table" TString; req "type" TString;
   opt "scale" (TPtr TInt); opt "precision" (TPtr TInt); opt "length" (TPtr TInt); req "nullable" TBool; opt "byteLength" (TPtr TInt)].
Definition V2ResultSetMetaData : GoType := struct
  [req "numRows" TInt; req "format" TString; req "rowType" (TSlice V2RowType)].
Definition V2StatementResponse : GoType := struct
  [opt "resultSetMetaData" (TPtr V2ResultSetMetaData); opt "data" (TSlice (TSlice TString)); req "code" TString;
   req "statementHandle" TString; req "statementStatusUrl" TString; req "sqlState" TString; req "message" TString;
   req "createdOn" TInt].

Definition ErrorResponse : GoType := struct
  [req "data" TAny; req "code" TString; req "message" TString; req "success" TBool].

(** ** What the server decodes ([server.go]) *)

Definition server_binding : GoType := struct [req "type" TString; req "value" TRaw].
Definition login_body : GoType := struct
  [req "data" (struct [req "LOGIN_NAME" TString; req "PASSWORD" TString; req "ACCOUNT_NAME" TString;
                       req "DATABASE_NAME" TString; req "SCHEMA_NAME" TString; req "WAREHOUSE_NAME" TString])].
Definition query_body : GoType := struct
  [req "sqlText" TString; req "asyncExec" TBool; req "sequenceId" TInt; req "querySubmissionTime" TInt;
   opt "bindings" (TMap server_binding); opt "bindStage" TString; opt "describeOnly" TBool].
Definition v2_body : GoType := struct
  [req "statement" TString; req "timeout" TInt; req "database" TString; req "schema" TString; req "warehouse" TString;
   req "role" TString; req "bindings" (TMap server_binding)].
Definition pipe_body : GoType := struct [req "files" (TSlice (struct [req "path" TString; req "size" TInt]))].

Section bodies.
(** The scanner of texts, and the text that a JSON value had. *)
Context (scan : string → option JsonValue) (raw_text : JsonValue → string) (float_text : string → option string).

Definition read_binding (b : value server_binding) : Binding :=
  let '(ty, (v, _)) := b in mkBinding ty (match v with None => "" | Some j => raw_text j end).
Definition read_bindings (m : option (gmap string (value server_binding))) : gmap string Binding := read_binding <$> default ∅ m.

(** [json.NewDecoder(r.Body).Decode(&body)] *)
Definition read_body (t : GoType) (text : string) : option (value t) := j ← scan text; Unmarshal float_text t j.

Definition decode_login (text : string) : option loginRequestBody :=
  '((user, (password, (account, (db, (schema, (wh, _)))))), _) ← read_body login_body text;
  Some (mkLoginBody user password account db schema wh).
Definition decode_query (text : string) : option queryRequestBody :=
  '(sql, (_, (_, (_, (binds, (stage, (describe, _))))))) ← read_body query_body text;
  Some (mkQueryBody sql (read_bindings binds) stage describe).
Definition decode_v2 (text : string) : option v2Body :=
  '(sql, (_, (_, (_, (_, (_, (binds, _))))))) ← read_body v2_body text;
  Some (mkV2Body sql (read_bindings binds)).
Definition decode_pipe (text : string) : option (list string) :=
  '(files, _) ← read_body pipe_body text; Some (fst <$> default [] files).
End bodies.

(** The fields of a structure. *)
Definition fields_of (t : GoType) : GoFields := match t with TStruct fs => fs | _ => FEnd end.

(** What the server writes, as the JSON value of its text. *)
Fixpoint of_json (j : json) : JsonValue :=
  match j with
  | JNull => VNull
  | JBool b => VBool b
  | JNum z => VNum (Itoa z)
  | JText s => VText (utf8 s)
  | JArr l => VArr (of_json <$> l)
  | JObj fs => VObj ((λ f, (utf8 f.1, of_json f.2)) <$> fs)
  end.

(** ** Requests *)

Section understood.
Context (scan : string → option JsonValue) (raw_text : JsonValue → string) (float_text : string → option string).

(** A binding as the server sees it. *)
Definition sent_binding (b : value BindingValue) : Binding := mkBinding (utf8 b.1) (raw_text (VText (utf8 b.2.1))).
Definition received (b : value BindingValue) : value server_binding := (utf8 b.1, (Some (VText (utf8 b.2.1)), tt)).

(** Keys that are UTF-8, as the numbers of parameters are. *)
Definition utf8_keys {A} (m : gmap string A) : Prop := ∀ k, k ∈ dom m → utf8 k = k.

Lemma decode_bindings (m : gmap string (value BindingValue)) : utf8_keys m →
  decode_map (decode float_text server_binding) (zero server_binding)
    (prod_map utf8 id <$> sorted_fields (encode BindingValue <$> m)) ∅ = (received <$> m, true).
Proof.
  intros Hm. apply (decode_map_encode _ _ (encode BindingValue)). intros k (ty & v & []) Hk.
  split; [|done]. apply Hm, elem_of_dom. by eexists.
Qed.

Lemma read_sent_bindings (m : gmap string (value BindingValue)) :
  read_bindings raw_text (Some (received <$> m)) = sent_binding <$> m.
Proof. unfold read_bindings. cbn [default from_option id]. rewrite <- map_fmap_compose. apply map_fmap_ext. by intros k (ty & v & []) _. Qed.

Lemma login_understood text user password account db schema wh role app ver :
  scan text = Some (encode LoginRequest ((user, (password, (account, (db, (schema, (wh, (role, (app, (ver, tt))))))))), tt)) →
  decode_login scan float_text text =
    Some (mkLoginBody (utf8 user) (utf8 password) (utf8 account) (utf8 db) (utf8 schema) (utf8 wh)).
Proof.
  intros E. unfold decode_login, read_body. rewrite E. cbn [mbind option_bind]. unfold Unmarshal.
  assert (Hd : decode float_text login_body (encode LoginRequest ((user, (password, (account, (db, (schema, (wh, (role, (app, (ver, tt))))))))), tt)) (zero login_body)
    = (((utf8 user, (utf8 password, (utf8 account, (utf8 db, (utf8 schema, (utf8 wh, tt)))))), tt), true)).
  { apply receive_struct. apply decode_field; [|reflexivity]. eapply decode_sent; [find_field|closed_names..|discriminate|].
    intros _. apply receive_struct. repeat (apply decode_field; [receive|]). reflexivity. }
  by rewrite Hd.
Qed.

Lemma bindings_understood fs v names n om x : field_at fs v n om (TMap BindingValue) x → NoDup (field_names fs) →
  n ∈ names → sends (field_names fs) names = true → utf8_keys (default ∅ x) →
  ∃ y, decode_members (decode float_text (TMap server_binding)) (members_of names n (encode_fields fs v)) (zero (TMap server_binding)) = (y, true) ∧
    read_bindings raw_text y = sent_binding <$> default ∅ x.
Proof.
  intros Hat Hnd Hn Hs Hkeys. destruct (om && is_empty (TMap BindingValue) x) eqn:E.
  - exists None. split.
    + apply (decode_sent float_text fs v names n om (TMap BindingValue) x (TMap server_binding) None None Hat Hnd Hn Hs); [done|]. congruence.
    + apply andb_true_iff in E as [_ E]. destruct x as [m|]; [|done]. cbn in E. apply bool_decide_eq_true, map_size_empty_inv in E. by subst m.
  - exists (match x with None => None | Some m => Some (received <$> m) end). split.
    + apply (decode_sent float_text fs v names n om (TMap BindingValue) x (TMap server_binding) None _ Hat Hnd Hn Hs); [congruence|].
      intros _. destruct x as [m|]; [|done]. exact (f_equal (λ '(m0, ok), (Some m0, ok)) (decode_bindings m Hkeys)).
    + destruct x as [m|]; [apply read_sent_bindings|done].
Qed.

Lemma query_understood text sql async seq internal describe params binds time : in_int64 seq → in_int64 time → utf8_keys (default ∅ binds) →
  scan text = Some (encode QueryRequest (sql, (async, (seq, (internal, (describe, (params, (binds, (time, tt))))))))) →
  decode_query scan raw_text float_text text = Some (mkQueryBody (utf8 sql) (sent_binding <$> default ∅ binds) "" describe).
Proof.
  intros Hseq Htime Hkeys E. set (v := (sql, (async, (seq, (internal, (describe, (params, (binds, (time, tt)))))))) : value QueryRequest) in E.
  destruct (bindings_understood (fields_of QueryRequest) v (field_names (fields_of query_body)) "bindings" true binds)
    as (y & Hy & Hr); [find_field|closed_names..|exact Hkeys|].
  unfold decode_query, read_body. rewrite E. cbn [mbind option_bind]. unfold Unmarshal.
  assert (Hd : decode float_text query_body (encode QueryRequest v) (zero query_body)
    = ((utf8 sql, (async, (seq, (time, (y, (""%string, (describe, tt))))))), true)).
  { apply receive_struct. repeat (apply decode_field; [first [exact Hy|receive; done]|]). reflexivity. }
  rewrite Hd. cbn. by rewrite Hr.
Qed.

Lemma v2_understood text sql timeout db schema wh role binds params : in_int64 timeout → utf8_keys (default ∅ binds) →
  scan text = Some (encode V2StatementRequest (sql, (timeout, (db, (schema, (wh, (role, (binds, (params, tt))))))))) →
  decode_v2 scan raw_text float_text text = Some (mkV2Body (utf8 sql) (sent_binding <$> default ∅ binds)).
Proof.
  intros Htime Hkeys E. set (v := (sql, (timeout, (db, (schema, (wh, (role, (binds, (params, tt)))))))) : value V2StatementRequest) in E.
  destruct (bindings_understood (fields_of V2StatementRequest) v (field_names (fields_of v2_body)) "bindings" true binds)
    as (y & Hy & Hr); [find_field|closed_names..|exact Hkeys|].
  unfold decode_v2, read_body. rewrite E. cbn [mbind option_bind]. unfold Unmarshal.
  assert (Hd : decode float_text v2_body (encode V2StatementRequest v) (zero v2_body)
    = ((utf8 sql, (timeout, (utf8 db, (utf8 schema, (utf8 wh, (utf8 role, (y, tt))))))), true)).
  { apply receive_struct. repeat (apply decode_field; [first [exact Hy|receive; done]|]). reflexivity. }
  rewrite Hd. cbn. by rewrite Hr.
Qed.
End understood.

(** ** Answers *)

(** The structures that the server encodes ([snowflakeResponse], [loginResponseData]). *)
Definition snowflake_response : GoType := struct
  [req "data" TAny; req "code" (TPtr TString); req "message" (TPtr TString); req "success" TBool].
Definition login_session_info : GoType := struct
  [req "databaseName" TString; req "schemaName" TString; req "warehouseName" TString; req "roleName" TString].
Definition name_value_parameter : GoType := struct [req "name" TString; req "value" TAny].
Definition login_response_data : GoType := struct
  [req "token" TString; req "masterToken" TString; req "sessionId" TInt; req "masterValidityInSeconds" TInt;
   req "displayUserName" TString; req "serverVersion" TString; req "sessionInfo" login_session_info;
   req "parameters" (TSlice name_value_parameter)].

Definition login_parameters : list (value name_value_parameter) :=
  (λ p, (p.1, (of_json (cell_json p.2), tt))) <$> DefaultSessionParameters.
(** What a login answers, before it is encoded. *)
Definition login_data (token id : string) (sid : Z) (user db schema wh role : string) : value login_response_data :=
  (token, (id, (sid, (14400, (ToUpper user, ("10.37.0"%string, ((db, (schema, (wh, (role, tt)))), (Some login_parameters, tt)))))))).

Lemma login_parameters_sent : of_json (JArr loginParameters) = encode (TSlice name_value_parameter) (Some login_parameters).
Proof.
  unfold loginParameters, login_parameters. by cbn [of_json encode].
Qed.

Section answers.
Context (float_text : string → option string).

(** A client reads the answer of a login as the data of a [LoginResponse]. *)
Lemma login_answer_read token id sid user db schema wh role : utf8 token = token → utf8 id = id → in_int64 sid →
  Unmarshal float_text LoginResponse
    (encode snowflake_response (encode login_response_data (login_data token id sid user db schema wh role), (None, (None, (true, tt)))))
  = Some (Some (token, (id, (sid, (14400, (utf8 (ToUpper user), ("10.37.0"%string, (false, (0, (""%string,
      ((utf8 db, (utf8 schema, (utf8 wh, (utf8 role, tt)))), tt)))))))))), (None, (None, (true, tt)))).
Proof.
  intros Htok Hid Hs. unfold Unmarshal. set (d := encode login_response_data _).
  assert (Hd : decode float_text LoginResponse (encode snowflake_response (d, (None, (None, (true, tt))))) (zero LoginResponse)
    = ((Some (token, (id, (sid, (14400, (utf8 (ToUpper user), ("10.37.0"%string, (false, (0, (""%string,
      ((utf8 db, (utf8 schema, (utf8 wh, (utf8 role, tt)))), tt)))))))))), (None, (None, (true, tt)))), true)); [|by rewrite Hd].
  apply receive_struct. apply decode_field.
  { eapply decode_sent; [find_field|closed_names..|discriminate|]. intros _. apply receive_ptr.
    assert (Hp : decode float_text LoginResponseData d (zero LoginResponseData)
      = ((token, (id, (sid, (14400, (utf8 (ToUpper user), ("10.37.0"%string, (false, (0, (""%string, ((utf8 db, (utf8 schema, (utf8 wh, (utf8 role, tt)))), tt)))))))))), true)).
    { apply receive_struct. do 9 (apply decode_field; [receive; try exact Hs; done|]). apply decode_field; [|reflexivity].
      eapply decode_sent; [find_field|closed_names..|discriminate|]. intros _. apply receive_struct.
      repeat (apply decode_field; [receive|]). reflexivity. }
    exact Hp. }
  do 2 (apply decode_field; [eapply decode_sent; [find_field|closed_names..|done|done]|]).
  apply decode_field; [receive|reflexivity].
Qed.
End answers.

Section driver.
Context {W : Type}.
Context (scan : string → option JsonValue) (raw_text : JsonValue → string) (float_text : string → option string).
Context (now : nat → Z) (idBytes tokenBytes : list Z) (Hid : Forall Session.is_byte idBytes) (Htok : Forall Session.is_byte tokenBytes).

Lemma login_answer_sent token id sid user db schema wh role :
  of_json (r_body (successResponse (JObj
    [("token", JText token); ("masterToken", JText id); ("sessionId", JNum sid);
     ("masterValidityInSeconds", JNum 14400); ("displayUserName", JText (ToUpper user));
     ("serverVersion", JText "10.37.0");
     ("sessionInfo", JObj [("databaseName", JText db); ("schemaName", JText schema);
                           ("warehouseName", JText wh); ("roleName", JText role)]);
     ("parameters", JArr loginParameters)])))
  = encode snowflake_response (encode login_response_data (login_data token id sid user db schema wh role), (None, (None, (true, tt)))).
Proof.
  pose proof login_parameters_sent as Hp. cbn [of_json encode] in Hp. unfold successResponse, writeJSON, snowflakeResponse. cbn [r_body of_json list_fmap fmap fst snd].
  by rewrite Hp.
Qed.

(** C27: A client that logs in with a [LoginRequest] of the package is answered with
    status 200, and what it reads the answer as is a successful [LoginResponse]: the
    token of a session that the server now has for this user, the database, schema and
    warehouse of the request, or those of the URL where the request leaves them empty,
    and the role SYSADMIN; the session itself has the default database and schema where
    both are empty, and the answer does not say so.  Names travel as UTF-8, what is not
    being replaced on either side ([utf8], which leaves valid texts alone). *)
Theorem driver_login r s user password account db schema wh role app ver : Method r = "POST"%string →
  scan (Body r) = Some (encode LoginRequest ((user, (password, (account, (db, (schema, (wh, (role, (app, (ver, tt))))))))), tt)) →
  let token := Session.generateUUID tokenBytes in
  let database := or_query (utf8 db) r "databaseName" in
  let schema' := or_query (utf8 schema) r "schemaName" in
  let warehouse := or_query (utf8 wh) r "warehouse" in
  ∃ resp s1 id sid, handleLogin (W:=W) (decode_login scan float_text) now idBytes tokenBytes r s = (Ok resp, s1) ∧ r_status resp = 200 ∧
    Unmarshal float_text LoginResponse (of_json (r_body resp)) =
      Some (Some (token, (id, (sid, (14400, (utf8 (ToUpper (utf8 user)), ("10.37.0"%string, (false, (0, (""%string,
        ((utf8 database, (utf8 schema', (utf8 warehouse, ("SYSADMIN"%string, tt)))), tt)))))))))), (None, (None, (true, tt)))) ∧
    Session.GetSession (sessionMgr s1) token = Some (Session.mkSession id token
      (if decide (database = "") then "miniflake" else database) (if decide (schema' = "") then "main" else schema')
      warehouse "SYSADMIN" (utf8 user) (now 0%nat) (now 0%nat)).
Proof using Hid Htok.
  intros Hm Hs. cbv zeta. apply login_understood with (float_text := float_text) in Hs.
  unfold handleLogin, only. rewrite decide_True, Hs by done. cbv zeta. cbn [LoginName DatabaseName SchemaName WarehouseName].
  unfold bind, on_sessions, Session.CreateSession, modify, ret, next_session_id. cbn [sessionMgr backend sessionIDCounter].
  do 4 eexists. split; [reflexivity|]. split; [reflexivity|]. split.
  - rewrite login_answer_sent. apply login_answer_read; [by apply utf8_ascii, Session.uuid_ascii..|apply wrap64_range].
  - apply lookup_insert_eq.
Qed.
End driver.

(** ** Concrete messages *)

(** A login as [ann], without a schema. *)
Definition ann_login : JsonValue := encode LoginRequest
  (("ann", ("secret", ("acc", ("SALES", (""%string, ("WH", ("", ("app", ("1.0", tt)))))))))%string, tt).
Lemma driver_login_witness : ∃ resp s1,
  handleLogin (W:=Demo) (decode_login (λ _, Some ann_login) (λ _, None)) (λ _, 7) zero_bytes zero_bytes
    (a_request "POST" "/session/v1/login-request" "" "") demo_server = (Ok resp, s1) ∧
  Session.Schema <$> Session.GetSession (sessionMgr s1) (Session.generateUUID zero_bytes) = Some "main"%string.
Proof.
  destruct (driver_login (W:=Demo) (λ _, Some ann_login) (λ _, None) (λ _, 7) zero_bytes zero_bytes ltac:(by repeat constructor) ltac:(by repeat constructor)
    (a_request "POST" "/session/v1/login-request" "" "") demo_server "ann" "secret" "acc" "SALES" "" "WH" "" "app" "1.0" eq_refl eq_refl)
    as (resp & s1 & id & sid & E & _ & _ & Hs).
  exists resp, s1. split; [exact E|]. by rewrite Hs.
Defined.

(** The cells of an answer that are NULL are read as empty texts. *)
Example null_cell_read : Unmarshal (λ _, None) (TSlice (TSlice TString)) (VArr [VArr [VNull; VText "x"]]) = Some (Some [Some [""; "x"]%string]).
Proof. reflexivity. Qed.

(** *** The SQL API *)

Lemma v2_object_unread float_text ms code message ok :
  Unmarshal float_text V2StatementResponse (of_json (snowflakeResponse (JObj ms) code message ok)) = None.
Proof.
  apply struct_fails. apply decode_field_fails. right. apply decode_field_fails. left. reflexivity.
Qed.

(** What the SQL API answers when a statement succeeds is not a [V2StatementResponse] to
    a client that uses the package: it is wrapped like the answers of the other API. *)
Theorem v2_answer_unread {W} float_text queryDB execDB decode_v2 unmarshal_string parse_float now r (s : Server W) resp s1 :
  handleV2Statements queryDB execDB decode_v2 unmarshal_string parse_float now r s = (Ok resp, s1) → r_status resp = 200 →
  Unmarshal float_text V2StatementResponse (of_json (r_body resp)) = None.
Proof.
  intros E Hr. unfold handleV2Statements, only in E. destruct (decide _); [|by injection E as <- <-].
  unfold bind at 1 in E. destruct (touch_session _ _ s) as [[[]|e1] s2]; [|done].
  destruct (decode_v2 (Body r)) as [body|]; [|by injection E as <- <-]. cbv zeta in E.
  destruct (decide _); [by injection E as <- <-|]. destruct (Substitute _ _ _ _) as [sql|e2]; [|by injection E as <- <-].
  unfold catch, bind, ret in E. destruct (on_srv_engine _ s2) as [[[cols rows]|e3] s3]; [injection E as <- <-; apply v2_object_unread|].
  destruct (on_srv_engine _ s3) as [[affected|e4] s4]; injection E as <- <-; [apply v2_object_unread|done].
Qed.
