(* ===== verification/Tls.v ===== *)
(** * TLS beside plain HTTP ([internal/server/tls.go])

    The certificate that the server starts with, and the listener that tells TLS
    from plain HTTP by the first byte of a connection.  Keys, the encodings of
    certificates and files are parameters; the local time zone is UTC. *)

From S2P Require Import Prelude GoStrings GoTime GoPath Network.
From Stdlib Require Import Ascii.
#[local] Open Scope Z_scope.

Definition tlsHandshakeRecord : Z := 0x16.
Definition VersionTLS12 : Z := 0x0303.

(** ** Certificates *)

(** The fields of [x509.Certificate] that the template sets. *)
Record x509Certificate := mkX509 {
  SerialNumber : Z;
  Organization : list string;
  CommonName : string;
  NotBefore : Z;
  NotAfter : Z;
  KeyUsage : Z;
  ExtKeyUsage : list Z;
  IsCA : bool;
  BasicConstraintsValid : bool;
  IPAddresses : list Z;
  DNSNames : list string;
}.

Definition KeyUsageDigitalSignature : Z := 1.
Definition KeyUsageKeyEncipherment : Z := 4.
Definition KeyUsageCertSign : Z := 32.
Definition ExtKeyUsageServerAuth : Z := 1.
Definition day : Z := 24 * Hour.

(** [tls.Certificate]: the chain, leaf first, and the key. *)
Record tlsCertificate (Key : Type) := mkTlsCert { Certificate : list string; PrivateKey : Key }.
Arguments mkTlsCert {Key}.
Arguments Certificate {Key}.
Arguments PrivateKey {Key}.

Record Config (Key : Type) := mkConfig { Certificates : list (tlsCertificate Key); MinVersion : Z }.
Arguments mkConfig {Key}.
Arguments Certificates {Key}.
Arguments MinVersion {Key}.

(** The part of [Server] that this file of the source works on. *)
Record TlsServer (Key : Type) := mkTlsServer {
  host : string;
  tlsConfig : option (Config Key);
  certPath : string;
}.
Arguments mkTlsServer {Key}.
Arguments host {Key}.
Arguments tlsConfig {Key}.
Arguments certPath {Key}.

Definition CertPath {Key} (s : TlsServer Key) : string := certPath s.

Section tls.
Context {Key W : Type}.
(** [crypto/tls], [crypto/x509], [encoding/pem] *)
Context (LoadX509KeyPair : string → string → W → result (tlsCertificate Key)).
Context (X509KeyPair : string → string → result (tlsCertificate Key)).
Context (ParseCertificate : string → result x509Certificate).
Context (CreateCertificate : x509Certificate → Key → result string).
Context (MarshalPKCS1PrivateKey : Key → string) (EncodeToMemory : string → string → string).
(** [os.Stat], whether it is a directory, and [os.WriteFile] *)
Context (Stat : string → W → result bool).
Context (WriteFile : string → string → Z → W → result unit * W).

(** What one call draws from the random source and the clock. *)
Record Draw := mkDraw { d_key : result Key; d_serial : result Z; d_now : nat → Z }.

Definition setTLSCert (cert : tlsCertificate Key) (path : string) : GoM (TlsServer Key * W) unit :=
  modify (λ s, (mkTlsServer (host s.1) (Some (mkConfig [cert] VersionTLS12)) path, s.2)).

Definition fileExists (p : string) (w : W) : bool :=
  match Stat p w with Ok dir => negb dir | Err _ => false end.

Definition certExpired (now : Z) (cert : tlsCertificate Key) : bool :=
  match Certificate cert with
  | [] => true
  | der :: _ => match ParseCertificate der with Err _ => true | Ok leaf => NotAfter leaf <? now end
  end.

(** Each host is an address or a name. *)
Definition add_host (tmpl : x509Certificate) (h : string) : x509Certificate :=
  match ParseIP h with
  | Some ip =>
      mkX509 (SerialNumber tmpl) (Organization tmpl) (CommonName tmpl) (NotBefore tmpl) (NotAfter tmpl) (KeyUsage tmpl)
        (ExtKeyUsage tmpl) (IsCA tmpl) (BasicConstraintsValid tmpl) (IPAddresses tmpl ++ [ip]) (DNSNames tmpl)
  | None =>
      mkX509 (SerialNumber tmpl) (Organization tmpl) (CommonName tmpl) (NotBefore tmpl) (NotAfter tmpl) (KeyUsage tmpl)
        (ExtKeyUsage tmpl) (IsCA tmpl) (BasicConstraintsValid tmpl) (IPAddresses tmpl) (DNSNames tmpl ++ [h])
  end.
Definition template (serial : Z) (dr : Draw) (hosts : list string) : x509Certificate :=
  foldl add_host
    (mkX509 serial ["MiniFlake"] "miniflake" (d_now dr 1 - Hour) (d_now dr 2 + 397 * day)
      (Z.lor (Z.lor KeyUsageDigitalSignature KeyUsageKeyEncipherment) KeyUsageCertSign) [ExtKeyUsageServerAuth] true true [] [])
    hosts.

Definition generateSelfSignedCert (dr : Draw) (hosts : list string) : result (string * string) :=
  match d_key dr with
  | Err e => Err e
  | Ok priv =>
      match d_serial dr with
      | Err e => Err e
      | Ok serial =>
          match CreateCertificate (template serial dr hosts) priv with
          | Err e => Err e
          | Ok der => Ok (EncodeToMemory "CERTIFICATE" der, EncodeToMemory "RSA PRIVATE KEY" (MarshalPKCS1PrivateKey priv))
          end
      end
  end.

Definition cert_file (dataDir : string) : string := PathJoin [dataDir; "miniflake-cert.pem"].
Definition key_file (dataDir : string) : string := PathJoin [dataDir; "miniflake-key.pem"].
Definition cert_hosts (h : string) : list string :=
  ["localhost"; "127.0.0.1"; "::1"] ++ (if decide (h ≠ "" ∧ h ≠ "0.0.0.0" ∧ h ≠ "::") then [h] else []).

(** The pair of an earlier start, when it can still be used. *)
Definition persisted (dr : Draw) (certPath keyPath : string) (w : W) : option (tlsCertificate Key) :=
  if fileExists certPath w && fileExists keyPath w then
    match LoadX509KeyPair certPath keyPath w with
    | Ok cert => if certExpired (d_now dr 0) cert then None else Some cert
    | Err _ => None
    end
  else None.

Definition regenerate (dr : Draw) (certPath keyPath : string) : GoM (TlsServer Key * W) unit :=
  let! s := get in
  let! pems := wrapped "generate self-signed cert" (λ s, (generateSelfSignedCert dr (cert_hosts (host s.1)), s)) in
  wrapped "write cert" (lift (WriteFile certPath pems.1 420)) ;;;
  wrapped "write key" (lift (WriteFile keyPath pems.2 384)) ;;;
  let! cert := wrapped "parse generated cert" (λ s, (X509KeyPair pems.1 pems.2, s)) in
  setTLSCert cert certPath.

Definition EnableTLS (dr : Draw) (certFile keyFile dataDir : string) : GoM (TlsServer Key * W) unit :=
  if decide (certFile ≠ "" ∧ keyFile ≠ "") then
    let! cert := wrapped "load tls key pair" (λ s, (LoadX509KeyPair certFile keyFile s.2, s)) in
    setTLSCert cert certFile
  else
    let certPath := cert_file dataDir in
    let keyPath := key_file dataDir in
    let! s := get in
    match persisted dr certPath keyPath s.2 with
    | Some cert => setTLSCert cert certPath
    | None => regenerate dr certPath keyPath
    end.
End tls.

(** ** The listener *)

(** A connection: the client's bytes, in the portions in which they arrive, and
    whether the first of them arrives before the deadline of the peek. *)
Record Conn := mkConn { conn_id : nat; in_time : bool; arriving : list (list ascii) }.

(** [conn.Read] into a buffer of [n] bytes: what one portion has for it; nothing, with
    the error at the end of the stream, when no portion is left. *)
Fixpoint read_portions (n : nat) (l : list (list ascii)) : result (list ascii) * list (list ascii) :=
  match l with
  | [] => (Err "EOF", [])
  | [] :: l => read_portions n l
  | p :: l => (Ok (take n p), match drop n p with [] => l | p => p :: l end)
  end.
Definition conn_read (n : nat) (c : Conn) : result (list ascii) * Conn :=
  if decide (n = 0%nat) then (Ok [], c)
  else let '(r, l) := read_portions n (arriving c) in (r, mkConn (conn_id c) (in_time c) l).

(** [peekedConn] *)
Record peekedConn := mkPeeked { inner : Conn; prefix : list ascii }.
Definition Read (n : nat) (c : peekedConn) : result (list ascii) * peekedConn :=
  if decide (prefix c ≠ []) then (Ok (take n (prefix c)), mkPeeked (inner c) (drop n (prefix c)))
  else let '(r, i) := conn_read n (inner c) in (r, mkPeeked i (prefix c)).

Inductive Accepted : Type := Secure (c : peekedConn) | Plain (c : peekedConn).

(** The peek: one byte, in time. *)
Definition peek (c : Conn) : result (ascii * Conn) :=
  if in_time c then
    match conn_read 1 c with
    | (Ok [b], c) => Ok (b, c)
    | (Ok _, _) => Err "unexpected EOF"
    | (Err e, _) => Err e
    end
  else Err "i/o timeout".

(** [Accept], on what the listener below will answer in turn: the connection or error,
    and what is left; [None] when it waits for more. *)
Fixpoint Accept (incoming : list (result Conn)) : option (result Accepted * list (result Conn)) :=
  match incoming with
  | [] => None
  | Err e :: rest => Some (Err e, rest)
  | Ok conn :: rest =>
      match peek conn with
      | Err _ => Accept rest
      | Ok (first, conn) =>
          let pc := mkPeeked conn [first] in
          Some (Ok (if Z.of_N (N_of_ascii first) =? tlsHandshakeRecord then Secure pc else Plain pc), rest)
      end
  end.

(** *** What a client sent is what is read *)

Definition sent (c : Conn) : list ascii := concat (arriving c).
Definition unread (c : peekedConn) : list ascii := prefix c ++ sent (inner c).

Lemma read_portions_spec n l : (0 < n)%nat →
  match read_portions n l with
  | (Ok out, l') => out ++ concat l' = concat l ∧ out ≠ [] ∧ (length out ≤ n)%nat
  | (Err _, l') => concat l = [] ∧ concat l' = []
  end.
Proof.
  intros Hn. induction l as [|[|b p] l IH]; [done|exact IH|]. cbn [read_portions].
  destruct n as [|n]; [lia|]. split_all; [|done|rewrite length_take; cbn; lia].
  cbn [concat]. rewrite <- (take_drop (S n) (b :: p)) at 3. destruct (drop (S n) (b :: p)) eqn:E; cbn [concat];
    by rewrite <- ?app_assoc, ?app_nil_r.
Qed.
Lemma conn_read_spec n c : (0 < n)%nat →
  match conn_read n c with
  | (Ok out, c') => out ++ sent c' = sent c ∧ out ≠ [] ∧ (length out ≤ n)%nat
  | (Err _, c') => sent c = [] ∧ sent c' = []
  end.
Proof.
  intros Hn. unfold conn_read. rewrite decide_False by lia. unfold sent. pose proof (read_portions_spec n (arriving c) Hn) as H.
  by destruct (read_portions n (arriving c)) as [[out|e] l].
Qed.
Lemma Read_spec n c : (0 < n)%nat →
  match Read n c with
  | (Ok out, c') => out ++ unread c' = unread c ∧ out ≠ [] ∧ (length out ≤ n)%nat
  | (Err _, c') => unread c = [] ∧ unread c' = []
  end.
Proof.
  intros Hn. unfold Read, unread. case_decide as Hp.
  - cbn. rewrite app_assoc, take_drop. split_all; [done| |rewrite length_take; lia]. destruct n; [lia|]. by destruct (prefix c).
  - rewrite Hp. pose proof (conn_read_spec n (inner c) Hn) as H.
    by destruct (conn_read n (inner c)) as [[out|e] i].
Qed.

(** Reading until the end of the stream, with buffers of the given sizes. *)
Inductive reads : list nat → peekedConn → list ascii → peekedConn → Prop :=
  | reads_none c : reads [] c [] c
  | reads_some n ns c out c1 outs c2 : Read n c = (Ok out, c1) → reads ns c1 outs c2 → reads (n :: ns) c (out ++ outs) c2.

Lemma reads_spec ns c out c' : Forall (λ n, (0 < n)%nat) ns → reads ns c out c' → out ++ unread c' = unread c.
Proof.
  intros Hns Hr. induction Hr as [c|n ns c out c1 outs c2 E Hr IH]; [done|].
  apply Forall_cons in Hns as [Hn Hns]. pose proof (Read_spec n c Hn) as H. rewrite E in H.
  rewrite <- app_assoc, (IH Hns). apply H.
Qed.

Lemma peek_spec c : match peek c with
  | Ok (b, c') => in_time c = true ∧ sent c = b :: sent c'
  | Err _ => in_time c = false ∨ sent c = []
  end.
Proof.
  unfold peek. destruct (in_time c); [|by left]. pose proof (conn_read_spec 1 c ltac:(lia)) as H.
  destruct (conn_read 1 c) as [[out|e] c']; [|by right; apply H].
  destruct H as (H & Hne & Hl). destruct out as [|b [|b' out]]; [done| |cbn in Hl; lia]. by rewrite <- H.
Qed.

Definition wrapped_conn (a : Accepted) : peekedConn := match a with Secure c | Plain c => c end.
Definition is_secure (a : Accepted) : bool := match a with Secure _ => true | Plain _ => false end.

(** A connection whose client sends nothing in time. *)
Definition silent (r : result Conn) : Prop := match r with Ok c => in_time c = false ∨ sent c = [] | Err _ => False end.

(** C20: [Accept] passes over exactly the connections whose client sends nothing in
    time, and answers with the next one, or with the listener's own error.  A
    connection is taken for TLS exactly when its first byte is that of a handshake
    record, and the peek loses nothing: whatever buffers it is read with, the bytes
    come out as the client sent them, in order, until there are no more. *)
Theorem accept_hands_over incoming r rest : Accept incoming = Some (r, rest) →
  ∃ passed x, incoming = passed ++ x :: rest ∧ Forall silent passed ∧
    match x, r with
    | Err e, Err e' => e = e'
    | Ok c, Ok a => ∃ b bs, sent c = b :: bs ∧ is_secure a = bool_decide (b = ascii_of_nat 22) ∧
        ∀ ns out c', Forall (λ n, (0 < n)%nat) ns → reads ns (wrapped_conn a) out c' →
          out ++ unread c' = sent c ∧ ∀ n, (0 < n)%nat → is_ok (Read n c').1 = bool_decide (unread c' ≠ [])
    | _, _ => False
    end.
Proof.
  revert r rest. induction incoming as [|[c|e] incoming IH]; intros r rest; cbn [Accept]; [done| |].
  2:{ intros [= <- <-]. by exists [], (Err e). }
  pose proof (peek_spec c) as Hp. destruct (peek c) as [[b c']|e].
  - intros [= <- <-]. exists [], (Ok c). destruct Hp as [_ Hs]. split_all; [done|constructor|].
    exists b, (sent c'). assert (Hw : ∀ s : bool, wrapped_conn (if s then Secure (mkPeeked c' [b]) else Plain (mkPeeked c' [b])) = mkPeeked c' [b])
      by (by intros []). rewrite Hw. split_all; [done| |].
    + clear. destruct b as [[] [] [] [] [] [] [] []]; reflexivity.
    + intros ns out c2 Hns Hr. apply reads_spec in Hr; [|done]. split; [by rewrite Hr, Hs|]. intros n Hn.
      pose proof (Read_spec n c2 Hn) as H. destruct (Read n c2) as [[o|e] c3]; cbn.
      * symmetry. apply bool_decide_eq_true. intros E. destruct H as (H & Hne & _). rewrite E in H. by apply app_eq_nil in H as [? _].
      * symmetry. apply bool_decide_eq_false. intros Hne. by destruct H as [H _].
  - intros (passed & x & -> & Hf & Hx)%IH. exists (Ok c :: passed), x. split_all; [done|by constructor|done].
Qed.

Definition hello : Conn := mkConn 2 true [[ascii_of_nat 22]; [ascii_of_nat 3; ascii_of_nat 1]].
Definition queue : list (result Conn) := [Ok (mkConn 0 false [["G"%char]]); Ok (mkConn 1 true [[]]); Ok hello; Err "closed"].

Lemma accept_hands_over_witness :
  Accept queue = Some (Ok (Secure (mkPeeked (mkConn 2 true [[ascii_of_nat 3; ascii_of_nat 1]]) [ascii_of_nat 22])), [Err "closed"]) ∧
  ∃ passed, queue = passed ++ [Ok hello; Err "closed"] ∧ Forall silent passed.
Proof.
  assert (E : Accept queue = Some (Ok (Secure (mkPeeked (mkConn 2 true [[ascii_of_nat 3; ascii_of_nat 1]]) [ascii_of_nat 22])), [Err "closed"]))
    by reflexivity.
  split; [exact E|]. destruct (accept_hands_over _ _ _ E) as (passed & x & Hq & Hf & _). exists passed. split; [|exact Hf].
  rewrite Hq. do 2 f_equal. change queue with ([Ok (mkConn 0 false [["G"%char]]); Ok (mkConn 1 true [[]])] ++ [Ok hello; Err "closed"%string]) in Hq.
  apply (f_equal (λ l, list.last (removelast l))) in Hq. rewrite !removelast_app in Hq by done. cbn in Hq. 
  rewrite last_snoc in Hq. injection Hq as <-. reflexivity.
Defined.

(** ** The certificate over restarts *)

Lemma cert_key_differ d : cert_file d ≠ key_file d.
Proof.
  unfold cert_file, key_file. destruct (decide (d = "")) as [->|Hd]; [done|]. intros E. apply (f_equal parts) in E.
  destruct (PathJoin_spec d "miniflake-cert.pem" Hd) as (_ & _ & E1), (PathJoin_spec d "miniflake-key.pem" Hd) as (_ & _ & E2).
  change (SplitByte slash "miniflake-cert.pem") with ["miniflake-cert.pem"%string] in E1.
  change (SplitByte slash "miniflake-key.pem") with ["miniflake-key.pem"%string] in E2.
  rewrite clean_go_plain in E1, E2 by (constructor; [apply (bool_decide_unpack _); vm_compute; exact I|constructor]).
  rewrite E1, E2 in E. apply (f_equal reverse) in E. rewrite !reverse_involutive in E. by injection E.
Qed.

(** What the libraries promise: a pair is loaded from what the two files hold, a write
    that succeeds sets one file, and a certificate that was made from a template parses
    to it, with its times in seconds.  Its chain is the one encoded certificate. *)
Class TlsLaws (Key W : Type) (LoadX509KeyPair : string → string → W → result (tlsCertificate Key))
    (X509KeyPair : string → string → result (tlsCertificate Key)) (ParseCertificate : string → result x509Certificate)
    (CreateCertificate : x509Certificate → Key → result string) (EncodeToMemory : string → string → string)
    (Stat : string → W → result bool) (WriteFile : string → string → Z → W → result unit * W) := {
  content : W → string → option string;
  stat_content : ∀ p w, Stat p w = Ok false ↔ is_Some (content w p);
  load_content : ∀ c k w a b, content w c = Some a → content w k = Some b → LoadX509KeyPair c k w = X509KeyPair a b;
  write_content : ∀ p data mode w w', WriteFile p data mode w = (Ok tt, w') →
    content w' p = Some data ∧ ∀ q, q ≠ p → content w' q = content w q;
  pair_chain : ∀ der key cert, X509KeyPair (EncodeToMemory "CERTIFICATE" der) key = Ok cert → Certificate cert = [der];
  created_parses : ∀ t k der, CreateCertificate t k = Ok der → ∃ leaf, ParseCertificate der = Ok leaf ∧
    IPAddresses leaf = IPAddresses t ∧ DNSNames leaf = DNSNames t ∧
    NotBefore leaf = NotBefore t / Second * Second ∧ NotAfter leaf = NotAfter t / Second * Second;
}.

Section restarts.
Context {Key W : Type} {LoadX509KeyPair : string → string → W → result (tlsCertificate Key)}.
Context {X509KeyPair : string → string → result (tlsCertificate Key)} {ParseCertificate : string → result x509Certificate}.
Context {CreateCertificate : x509Certificate → Key → result string} {MarshalPKCS1PrivateKey : Key → string}.
Context {EncodeToMemory : string → string → string}.
Context {Stat : string → W → result bool} {WriteFile : string → string → Z → W → result unit * W}.
Context `{!TlsLaws Key W LoadX509KeyPair X509KeyPair ParseCertificate CreateCertificate EncodeToMemory Stat WriteFile}.

(** The parts of the source with these libraries. *)
Definition enable : Draw (Key:=Key) → string → string → string → GoM (TlsServer Key * W) unit :=
  EnableTLS LoadX509KeyPair X509KeyPair ParseCertificate CreateCertificate MarshalPKCS1PrivateKey EncodeToMemory Stat WriteFile.
Definition expired : Z → tlsCertificate Key → bool := certExpired ParseCertificate.

(** The server with the certificate of the data directory. *)
Definition with_cert (cert : tlsCertificate Key) (dataDir : string) (s : TlsServer Key) : TlsServer Key :=
  mkTlsServer (host s) (Some (mkConfig [cert] VersionTLS12)) (cert_file dataDir).

Lemma fileExists_content p w : fileExists Stat p w = true ↔ is_Some (content w p).
Proof.
  unfold fileExists. rewrite <- stat_content. destruct (Stat p w) as [[]|e]; cbn; split; intros H; try done; by injection H.
Qed.

Lemma persisted_spec dr d w cert : persisted LoadX509KeyPair ParseCertificate Stat dr (cert_file d) (key_file d) w = Some cert ↔
  ∃ a b, content w (cert_file d) = Some a ∧ content w (key_file d) = Some b ∧ X509KeyPair a b = Ok cert ∧ expired (d_now dr 0) cert = false.
Proof.
  unfold persisted. destruct (fileExists Stat (cert_file d) w && _) eqn:E.
  - apply andb_true_iff in E as [[a Ha]%fileExists_content [b Hb]%fileExists_content]. rewrite (load_content _ _ _ _ _ Ha Hb).
    destruct (X509KeyPair a b) as [c|e] eqn:Ex; [fold (expired (d_now dr 0) c); destruct (expired _ c) eqn:Ee|]; split; try done; try (intros (a' & b' & Ha' & Hb' & Hx & He);
      rewrite Ha in Ha'; rewrite Hb in Hb'; simplify_eq; congruence); intros [= <-]; eauto 6.
  - split; [done|]. intros (a & b & Ha & Hb & _). exfalso. apply andb_false_iff in E as [E|E]; apply not_true_iff_false in E; apply E;
      apply fileExists_content; eauto.
Qed.

(** The regenerated pair is what the files hold. *)
Lemma regenerate_spec dr d s w s1 w1 :
  regenerate X509KeyPair CreateCertificate MarshalPKCS1PrivateKey EncodeToMemory WriteFile dr (cert_file d) (key_file d) (s, w) = (Ok tt, (s1, w1)) →
  ∃ cert a b serial k der, s1 = with_cert cert d s ∧ content w1 (cert_file d) = Some a ∧ content w1 (key_file d) = Some b ∧
    X509KeyPair a b = Ok cert ∧ Certificate cert = [der] ∧ CreateCertificate (template serial dr (cert_hosts (host s))) k = Ok der.
Proof.
  unfold regenerate. intros E. apply bind_ok in E as (x & s0 & [= <- <-] & E). cbn [fst] in E.
  apply bind_ok in E as ([a b] & s2 & E1 & E). unfold wrapped in E1. injection E1 as E1 <-.
  unfold generateSelfSignedCert in E1. destruct (d_key dr) as [k|]; [|done]. destruct (d_serial dr) as [serial|]; [|done].
  destruct (CreateCertificate _ k) as [der|] eqn:Ec; [|done]. injection E1 as <- <-. cbn [fst snd] in E.
  apply bind_ok in E as ([] & s3 & E2 & E). unfold wrapped, lift in E2. destruct (WriteFile (cert_file d) _ _ _) as [[[]|] w2] eqn:Ew1; [|done].
  injection E2 as <-. apply bind_ok in E as ([] & s4 & E3 & E). unfold wrapped, lift in E3. cbn [snd fst] in E3.
  destruct (WriteFile (key_file d) _ _ _) as [[[]|] w3] eqn:Ew2; [|done]. injection E3 as <-.
  apply bind_ok in E as (cert & s5 & E4 & E). unfold wrapped in E4. destruct (X509KeyPair _ _) as [c|] eqn:Ex; [|done].
  injection E4 as <- <-. injection E as <- <-. apply write_content in Ew1 as [Hc _], Ew2 as [Hk Hother].
  eexists _, _, _, serial, k, der. split_all; [reflexivity|rewrite Hother; [exact Hc|apply cert_key_differ]|exact Hk|exact Ex| |exact Ec].
  by eapply pair_chain.
Qed.

Lemma enable_own_spec dr cf kf d s w s1 w1 : cf = "" ∨ kf = "" → enable dr cf kf d (s, w) = (Ok tt, (s1, w1)) →
  ∃ cert a b, s1 = with_cert cert d s ∧ content w1 (cert_file d) = Some a ∧ content w1 (key_file d) = Some b ∧ X509KeyPair a b = Ok cert.
Proof.
  intros Hno. unfold enable, EnableTLS. rewrite decide_False by naive_solver. cbv zeta. unfold bind at 1, get. cbn [snd].
  destruct (persisted _ _ _ _ _ _ _) as [cert|] eqn:Ep.
  - intros [= <- <-]. apply persisted_spec in Ep as (a & b & Ha & Hb & Hx & _). by exists cert, a, b.
  - intros (cert & a & b & serial & k & der & H)%regenerate_spec. exists cert, a, b. tauto.
Qed.

(** The certificate is stable over restarts: after a start that had no pair of its
    own given, whether it found one in the data directory or made one, every later
    start from the same two files, of any server and with any randomness, presents the
    same certificate with the same key and writes nothing, as long as the certificate
    has not expired. *)
Theorem certificate_stable dr cf kf d s w s1 w1 : cf = "" ∨ kf = "" → enable dr cf kf d (s, w) = (Ok tt, (s1, w1)) →
  ∃ cert, s1 = with_cert cert d s ∧
    ∀ dr2 s2 w2, (∀ p, p = cert_file d ∨ p = key_file d → content w2 p = content w1 p) → expired (d_now dr2 0%nat) cert = false →
      enable dr2 cf kf d (s2, w2) = (Ok tt, (with_cert cert d s2, w2)).
Proof.
  intros Hno (cert & a & b & -> & Ha & Hb & Hx)%enable_own_spec; [|done]. exists cert. split; [done|]. intros dr2 s2 w2 Hw He.
  unfold enable, EnableTLS. rewrite decide_False by naive_solver. cbv zeta. unfold bind at 1, get. cbn [snd].
  assert (Hp : persisted LoadX509KeyPair ParseCertificate Stat dr2 (cert_file d) (key_file d) w2 = Some cert).
  { apply persisted_spec. exists a, b. rewrite !Hw by auto. by split_all. }
  by rewrite Hp.
Qed.

(** *** What a fresh certificate covers *)

Definition covers (leaf : x509Certificate) (h : string) : Prop :=
  match ParseIP h with Some ip => ip ∈ IPAddresses leaf | None => h ∈ DNSNames leaf end.

Lemma add_host_covers t h g : covers t g ∨ g = h → covers (add_host t h) g.
Proof.
  unfold covers, add_host. intros [H| ->]; destruct (ParseIP h); cbn [IPAddresses DNSNames];
    try (destruct (ParseIP g); rewrite ?elem_of_app; by eauto); apply elem_of_app; right; by apply list_elem_of_singleton.
Qed.
Lemma template_covers t hosts h : covers t h ∨ h ∈ hosts → covers (foldl add_host t hosts) h.
Proof.
  revert t. induction hosts as [|g hosts IH]; intros t; cbn [foldl].
  - intros [H|H]; [done|by apply elem_of_nil in H].
  - rewrite elem_of_cons. intros H. apply IH. destruct H as [H|[H|H]]; [left..|by right]; apply add_host_covers; auto.
Qed.
Lemma add_host_times t hosts : NotBefore (foldl add_host t hosts) = NotBefore t ∧ NotAfter (foldl add_host t hosts) = NotAfter t.
Proof.
  revert t. induction hosts as [|g hosts IH]; intros t; [done|]. cbn [foldl]. destruct (IH (add_host t g)) as [-> ->].
  unfold add_host. by destruct (ParseIP g).
Qed.

Lemma template_times serial (dr : Draw (Key:=Key)) hosts :
  NotBefore (template serial dr hosts) = d_now dr 1%nat - Hour ∧ NotAfter (template serial dr hosts) = d_now dr 2%nat + 397 * day.
Proof. apply (add_host_times (mkX509 serial _ _ _ _ _ _ _ _ _ _)). Qed.
Lemma floor_second t : t - Second < t / Second * Second ≤ t.
Proof. pose proof (Z.div_mod t Second ltac:(done)). pose proof (Z.mod_pos_bound t Second ltac:(done)). lia. Qed.

(** C33: A start that finds no usable pair, because a file is missing, the pair does not
    load or has expired, presents a new certificate: it
    covers localhost, both loopback addresses and the host that is listened on, and it is
    valid from the start of the server on and throughout the following year, provided
    that the clock is read within the hour. *)
Theorem fresh_certificate dr cf kf d s w s1 w1 : cf = "" ∨ kf = "" → enable dr cf kf d (s, w) = (Ok tt, (s1, w1)) →
  persisted LoadX509KeyPair ParseCertificate Stat dr (cert_file d) (key_file d) w = None →
  d_now dr 1%nat ≤ d_now dr 2%nat ≤ d_now dr 1%nat + Hour →
  ∃ cert der leaf, s1 = with_cert cert d s ∧ Certificate cert = [der] ∧ ParseCertificate der = Ok leaf ∧
    (∀ h, h ∈ ["localhost"; "127.0.0.1"; "::1"]%string ∨ h = host s ∧ h ∉ [""; "0.0.0.0"; "::"]%string → covers leaf h) ∧
    ∀ t, d_now dr 1%nat ≤ t ≤ d_now dr 1%nat + 365 * day → NotBefore leaf ≤ t ≤ NotAfter leaf.
Proof.
  intros Hno E Hp Ht. unfold enable, EnableTLS in E. rewrite decide_False in E by naive_solver. cbv zeta in E. unfold bind at 1, get in E. cbn [snd] in E.
  rewrite Hp in E. apply regenerate_spec in E as (cert & a & b & serial & k & der & -> & _ & _ & _ & Hc & Hcr).
  apply created_parses in Hcr as (leaf & Hl & Hip & Hdns & Hnb & Hna).
  destruct (template_times serial dr (cert_hosts (host s))) as [before after]. exists cert, der, leaf.
  split; [done|]. split; [done|]. split; [done|]. split.
  - intros h Hh. unfold covers. rewrite Hip, Hdns. apply (template_covers _ (cert_hosts (host s)) h). right. unfold cert_hosts. apply elem_of_app.
    destruct Hh as [Hh|[-> Hn]]; [by left|right]. rewrite decide_True; [by apply list_elem_of_singleton|]. set_solver.
  - intros t Hbt. rewrite Hnb, Hna, before, after. pose proof (floor_second (d_now dr 1%nat - Hour)).
    pose proof (floor_second (d_now dr 2%nat + 397 * day)). unfold day, Hour, Minute, Second in *. lia.
Qed.
End restarts.

(** ** A small world of files and certificates *)

#[export] Instance x509_eq_dec : EqDecision x509Certificate.
Proof. solve_decision. Defined.

Definition a_draw : Draw (Key:=string) := mkDraw (Ok "key"%string) (Ok 7) (λ n, Z.of_nat n + 1700000000 * Second).
Definition a_template : x509Certificate := template 7 a_draw (cert_hosts "").

Definition toy_pem (kind data : string) : string := kind +:+ ":" +:+ data.
Definition toy_create (t : x509Certificate) (_ : string) : result string :=
  if decide (t = a_template) then Ok "der"%string else Err "unsupported".
Definition in_seconds (t : x509Certificate) : x509Certificate :=
  mkX509 (SerialNumber t) (Organization t) (CommonName t) (NotBefore t / Second * Second) (NotAfter t / Second * Second) (KeyUsage t)
    (ExtKeyUsage t) (IsCA t) (BasicConstraintsValid t) (IPAddresses t) (DNSNames t).
Definition toy_parse (der : string) : result x509Certificate :=
  if decide (der = "der") then Ok (in_seconds a_template) else Err "malformed".
Definition toy_pair (cert key : string) : result (tlsCertificate string) :=
  match TrimPrefixOpt cert "CERTIFICATE:", TrimPrefixOpt key "RSA PRIVATE KEY:" with
  | Some der, Some k => Ok (mkTlsCert [der] k)
  | _, _ => Err "no PEM data"
  end.
Definition toy_load (c k : string) (w : gmap string string) : result (tlsCertificate string) :=
  match w !! c, w !! k with Some a, Some b => toy_pair a b | _, _ => Err "no such file" end.
Definition toy_stat (p : string) (w : gmap string string) : result bool :=
  match w !! p with Some _ => Ok false | None => Err "no such file" end.
Definition toy_write (p data : string) (_ : Z) (w : gmap string string) : result unit * gmap string string := (Ok tt, <[p := data]> w).

#[export] Program Instance toy_laws : TlsLaws string (gmap string string) toy_load toy_pair toy_parse toy_create toy_pem toy_stat toy_write := {|
  content w p := w !! p;
|}.
Next Obligation. intros p w. unfold toy_stat. destruct (w !! p); cbn; split; intros H; try done. Qed.
Next Obligation. intros c k w a b Hc Hk. unfold toy_load. by rewrite Hc, Hk. Qed.
Next Obligation.
  intros p data mode w w'. unfold toy_write. intros [= <-]. split; [by rewrite lookup_insert_eq|]. intros q Hq. by rewrite lookup_insert_ne.
Qed.
Next Obligation.
  intros der key cert. unfold toy_pair, toy_pem. change ("CERTIFICATE" +:+ ":" +:+ der) with ("CERTIFICATE:" +:+ der).
  rewrite TrimPrefixOpt_app. destruct (TrimPrefixOpt key _); [|done]. by intros [= <-].
Qed.
Next Obligation.
  intros t k der. unfold toy_create. case_decide as Ht; [|done]. intros [= <-]. exists (in_seconds a_template). by rewrite Ht.
Qed.

Definition toy_enable : Draw → string → string → string → GoM (TlsServer string * gmap string string) unit :=
  enable (LoadX509KeyPair:=toy_load) (X509KeyPair:=toy_pair) (ParseCertificate:=toy_parse) (CreateCertificate:=toy_create)
    (MarshalPKCS1PrivateKey:=λ k, k) (EncodeToMemory:=toy_pem) (Stat:=toy_stat) (WriteFile:=toy_write).

Definition first_start : TlsServer string * gmap string string :=
  (toy_enable a_draw "" "" "/d" (mkTlsServer "" None "", ∅)).2.
(** A year later, with a random source that has run dry. *)
Definition later : Draw (Key:=string) := mkDraw (Err "no entropy") (Err "no entropy") (λ _, 1731536000 * Second).

Lemma certificate_stable_witness :
  (toy_enable later "" "" "/d" (mkTlsServer "" None "", first_start.2)).1 = Ok tt ∧
  ∃ cert, tlsConfig first_start.1 = Some (mkConfig [cert] VersionTLS12) ∧
    (toy_enable later "" "" "/d" (mkTlsServer "" None "", first_start.2)).2 =
      (with_cert cert "/d" (mkTlsServer "" None ""), first_start.2).
Proof.
  split; [vm_compute; reflexivity|].
  assert (E : toy_enable a_draw "" "" "/d" (mkTlsServer "" None "", ∅) = (Ok tt, (first_start.1, first_start.2)))
    by (vm_compute; reflexivity).
  destruct (certificate_stable (TlsLaws0:=toy_laws) a_draw "" "" "/d" (mkTlsServer "" None "") ∅ first_start.1 first_start.2 (or_introl eq_refl) E) as (cert & Hs & H).
  exists cert. split; [by rewrite Hs|]. rewrite H; [done|done|].
  apply (f_equal tlsConfig) in Hs. vm_compute in Hs. injection Hs as <-. vm_compute. reflexivity.
Defined.

Lemma fresh_certificate_witness : ∃ leaf, toy_parse "der" = Ok leaf ∧ covers leaf "127.0.0.1" ∧ d_now a_draw 1%nat + 365 * day ≤ NotAfter leaf.
Proof.
  assert (E : toy_enable a_draw "" "" "/d" (mkTlsServer "" None "", ∅) = (Ok tt, (first_start.1, first_start.2)))
    by (vm_compute; reflexivity).
  destruct (fresh_certificate (TlsLaws0:=toy_laws) a_draw "" "" "/d" (mkTlsServer "" None "") ∅ first_start.1 first_start.2 (or_introl eq_refl) E eq_refl
    ltac:(vm_compute; split; discriminate)) as (cert & der & leaf & Hs & Hc & Hl & Hcov & Hv).
  exists leaf. apply (f_equal tlsConfig) in Hs. vm_compute in Hs. injection Hs as Hs. subst cert. injection Hc as <-.
  split_all; [exact Hl| |].
  - apply Hcov. left. apply elem_of_cons. right. apply list_elem_of_here.
  - apply Hv. split; [|apply Z.le_refl]. unfold day, Hour, Minute, Second. lia.
Defined.
