(* ===== verification/System.v ===== *)
(** * The whole program

    The server, its orchestrator and the loops that [main.go] starts beside them, as
    one transition system: requests are served, the scheduler ticks and sessions
    expire, in any order, one after the other; Concurrent.v lets requests overlap. *)

From S2P Require Import Prelude GoStrings GoTime GoPath Regexp Rewriter Rbac Stream Snowpipe Catalog Session TimeTravel Clone Cron Task Binding Udf CopyInto Engine Stage StageRef Parameters Orchestrator Demo OrchestratorSpec Server ServerSpec.
From Stdlib Require Import Ascii.
#[local] Open Scope Z_scope.

(** ** The scheduler on the program's state *)

Section scheduler.
Context {W : Type} `{MapRange}.
Context (execDB : string → list cell → W → result ExecResult * W) (LoadLocation : string → result Location).

(** [taskExec] of [main.go]: the statement of a task runs on the engine. *)
Definition taskExec (e : Engine.Engine) (sql : string) (sw : Stream.Engine * W) : result unit * (Stream.Engine * W) :=
  let '(r, w) := exec_unit execDB e sql sw.2 in (r, (sw.1, w)).

Definition with_tasks (sch : Scheduler (Stream.Engine * W)) (sw : Stream.Engine * W) (o : Orchestrator W) : Orchestrator W :=
  mkOrchestrator (engine o) (catalog o) (stageMgr o) sw.1 sch (timeTravelEng o) (cloneEng o) (udfReg o) (rbacEng o)
    (snowpipeEng o) sw.2.

(** A tick of the loop that [Scheduler.Start] began; the [n]-th iterations over its maps. *)
Definition sched_tick (now : Z) (n : nat) : GoM (Orchestrator W) unit := λ o,
  let '(r, st) := Task.tick LoadLocation (quiet (taskExec (engine o))) now (mkSt (taskSched o) (streamEng o, world o) n) in
  (r, with_tasks (sch st) (Task.world st) o).
End scheduler.


(** ** A tick keeps the scheduler well formed *)

Section tick_wf.
Context {W : Type} `{MapRange} (LoadLocation : string → result Location).
Context (exec : string → W → result unit * W).

(** What the statements keep of the outside world. *)
Context (P : W → Prop) (exec_keeps : ∀ sql w, P w → P (exec sql w).2).

Definition sch_ok (st : St W) : Prop := Task.wf (sch st) ∧ P (Task.world st).

(** What a tick writes to a task. *)
Definition keeps_place (f : Task → Task) : Prop := ∀ t,
  (Task.DatabaseName (f t), Task.SchemaName (f t), Task.Name (f t), stopCh (f t)) =
  (Task.DatabaseName t, Task.SchemaName t, Task.Name t, stopCh t).

Lemma keeps_update_task p f : keeps_place f → keeps sch_ok (update_task p f).
Proof.
  intros Hf. apply keeps_modify. intros st [Hst Hp]. split; [|done]. intros key q Hk. destruct (Hst key q Hk) as (t & Ht & -> & Hc). cbn.
  destruct (decide (p = q)) as [->|Hne].
  - exists (f t). rewrite list_lookup_alter_eq, Ht. specialize (Hf t). injection Hf as E1 E2 E3 E4. by rewrite E1, E2, E3, E4.
  - exists t. by rewrite list_lookup_alter_ne.
Qed.
Lemma keeps_deref p : keeps sch_ok (deref p).
Proof. unfold deref. keeps_auto. Qed.
Lemma keeps_collect sel : keeps sch_ok (collect_tasks sel).
Proof. apply keeps_get_bind. intros st Hst. apply keeps_bind; [by apply keeps_put|]. intros; apply keeps_ret. Qed.
Lemma keeps_quiet sql : keeps sch_ok (quiet exec sql).
Proof. intros st [Hst Hp]. unfold quiet. pose proof (exec_keeps sql _ Hp). by destruct (exec _ _). Qed.
Hint Resolve keeps_deref keeps_collect keeps_quiet : keeps.
Lemma keeps_evaluateWhen p : keeps sch_ok (evaluateWhen p).
Proof. unfold evaluateWhen. keeps_auto. Qed.
Hint Resolve keeps_evaluateWhen : keeps.
Lemma keeps_runTask p now : keeps sch_ok (runTask LoadLocation (quiet exec) p now).
Proof. unfold runTask. keeps_auto. apply keeps_update_task. intros t. by case_decide. Qed.
Hint Resolve keeps_runTask : keeps.
Lemma keeps_runSuccessors fuel db sc n now : keeps sch_ok (runSuccessors LoadLocation (quiet exec) fuel db sc n now).
Proof. revert db sc n. induction fuel as [|fuel IH]; intros db sc n; cbn [runSuccessors]; keeps_auto. Qed.
Hint Resolve keeps_runSuccessors : keeps.
Lemma keeps_tick now : keeps sch_ok (tick LoadLocation (quiet exec) now).
Proof. unfold tick, tick_root, executeDAG. keeps_auto; by apply keeps_update_task. Qed.
End tick_wf.

Lemma keeps_sched_tick {W} `{MapRange} execDB LoadLocation now n : keeps (orch_ok (W:=W)) (sched_tick execDB LoadLocation now n).
Proof.
  intros o []. unfold sched_tick.
  assert (He : ∀ sql sw, Stream.wf sw.1 → Stream.wf (taskExec execDB (engine o) sql sw).2.1)
    by (intros sql sw Hsw; unfold taskExec; by destruct (exec_unit _ _ _ _)).
  destruct (keeps_tick LoadLocation (taskExec execDB (engine o)) _ He now (mkSt (taskSched o) (streamEng o, world o) n) (conj ok_tasks ok_streams))
    as [Ht Hs].
  destruct (tick _ _ _ _) as [r st]. by split.
Qed.

(** ** Requests keep the program well formed *)

(** Every session stands under its own token. *)
Definition sessions_ok (m : Session.Manager) : Prop := ∀ token sess, Session.sessions m !! token = Some sess → Session.Token sess = token.

Record server_ok {W} (s : Server W) : Prop := mkServerOk {
  ok_wired : ∃ o, backend s = Wired o ∧ orch_ok o;
  ok_sessions : sessions_ok (sessionMgr s);
}.

Section handlers.
Context {W : Type} `{MapRange}.
Context (queryDB : string → list cell → W → result Engine.Rows * W).
Context (execDB : string → list cell → W → result ExecResult * W).
Context (ExecuteSQL : string → Session * Orchestrator W → option (result QueryResult * (Session * Orchestrator W))).
Context (ResetAll : GoM (Orchestrator W) unit).
Context (InsertPipeFiles : string → string → string → list string → GoM (Orchestrator W) unit).
Context (decode_login : string → option loginRequestBody) (decode_query : string → option queryRequestBody).
Context (decode_v2 : string → option v2Body) (decode_pipe : string → option (list string)).
Context (unmarshal_string : string → option string) (parse_float : string → option Float).
Context (unmarshal_array : string → option (list string)).
Context (gunzip : string → option string) (now : nat → Z) (idBytes tokenBytes : list Z).
(** What the orchestrator's operations keep. *)
Context (execute_keeps : ∀ sql sess o r sess' o', orch_ok o → ExecuteSQL sql (sess, o) = Some (r, (sess', o')) →
  orch_ok o' ∧ Session.Token sess' = Session.Token sess).
Context (reset_keeps : keeps orch_ok ResetAll) (pipe_keeps : ∀ db sc n fs, keeps orch_ok (InsertPipeFiles db sc n fs)).

Lemma keeps_on_sessions {A} (m : GoM Session.Manager A) : keeps sessions_ok m → keeps (server_ok (W:=W)) (on_sessions m).
Proof. intros Hm s [Hw Hs]. unfold on_sessions. specialize (Hm _ Hs). by destruct (m _). Qed.
Lemma keeps_on_orchestrator {A} (m : GoM (Orchestrator W) A) : keeps orch_ok m → keeps server_ok (on_orchestrator m).
Proof.
  intros Hm s [(o & Hb & Ho) Hs]. unfold on_orchestrator. rewrite Hb. specialize (Hm _ Ho). destruct (m o) as [r o'].
  split; [by exists o'|done].
Qed.
Lemma keeps_on_srv_engine {A} (m : GoM (Engine.Engine * W) A) : keeps server_ok (on_srv_engine m).
Proof.
  intros s [(o & Hb & Ho) Hs]. unfold on_srv_engine. rewrite Hb. pose proof (keeps_on_engine m o Ho) as Hk.
  destruct (on_engine m o) as [r o']. split; [by exists o'|done].
Qed.
Lemma keeps_next_id : keeps (server_ok (W:=W)) next_session_id.
Proof. intros s []. by split. Qed.

Lemma keeps_CreateSession t ib tb u d sc wh ro : keeps sessions_ok (Session.CreateSession t ib tb u d sc wh ro).
Proof.
  intros m Hm. unfold Session.CreateSession. intros token sess. cbn. intros [[<- <-]|[_ Hk]]%lookup_insert_Some; [done|by apply Hm].
Qed.
Lemma keeps_DeleteSession t : keeps sessions_ok (Session.DeleteSession t).
Proof. intros m Hm token sess. cbn. intros [_ Hk]%lookup_delete_Some. by apply Hm. Qed.
Lemma keeps_UpdateActivity t token : keeps sessions_ok (Session.UpdateActivity t token).
Proof.
  apply keeps_get_bind. intros m Hm. destruct (Session.sessions m !! token) as [sess|] eqn:E; [|apply keeps_ret].
  apply keeps_put. intros k x. cbn. intros [[<- <-]|[_ Hk]]%lookup_insert_Some; [by apply Hm in E|by apply Hm].
Qed.
Lemma keeps_session_Reset : keeps sessions_ok Session.Reset.
Proof. intros m _ token sess. cbn. by rewrite lookup_empty. Qed.
Hint Resolve keeps_on_sessions keeps_on_orchestrator keeps_on_srv_engine keeps_next_id keeps_CreateSession keeps_DeleteSession
  keeps_UpdateActivity keeps_session_Reset : keeps.

Lemma keeps_touch token : keeps (server_ok (W:=W)) (touch_session now token).
Proof. unfold touch_session. keeps_auto. Qed.
Lemma keeps_only method r (k : GoM (Server W) Response) : keeps server_ok k → keeps server_ok (only method r k).
Proof. unfold only. intros. keeps_auto. Qed.
Hint Resolve keeps_touch : keeps.

(** What every outcome of a request that comes to an end keeps. *)
Definition pholds {S A} (I : S → Prop) (m : Partial S A) : Prop := ∀ s r s', I s → m s = Some (r, s') → I s'.
Lemma pholds_ended {S A} (I : S → Prop) (m : GoM S A) : keeps I m → pholds I (ended m).
Proof. intros Hm s r s' Hs [= E]. specialize (Hm s Hs). by rewrite E in Hm. Qed.
Lemma pholds_bind {S A B} (I : S → Prop) (m : Partial S A) (k : A → Partial S B) : pholds I m → (∀ a, pholds I (k a)) → pholds I (pbind m k).
Proof.
  intros Hm Hk s r s' Hs. unfold pbind. destruct (m s) as [[[a|e] s1]|] eqn:E; [|by intros [= _ <-]; eapply Hm|done].
  intros E2. eapply Hk; [|done]. by eapply Hm.
Qed.

(** A session in use, and the server. *)
Definition pair_ok (token : string) (st : Session * Server W) : Prop := server_ok st.2 ∧ Session.Token st.1 = token.

Lemma pholds_run_statement token stmt : pholds (pair_ok token) (run_statement ExecuteSQL stmt).
Proof.
  intros [sess s] r st' [[(o & Hb & Ho) Hs] Ht]. unfold run_statement. cbn in *. rewrite Hb.
  destruct (ExecuteSQL stmt (sess, o)) as [[r0 [sess1 o1]]|] eqn:E; [|done]. intros [= _ <-].
  destruct (execute_keeps _ _ _ _ _ _ Ho E) as [Ho1 Ht1]. split; cbn; [|congruence]. split; [by exists o1|done].
Qed.
Lemma pholds_execute_each token stmts total last : pholds (pair_ok token) (execute_each ExecuteSQL total last stmts).
Proof.
  revert total last. induction stmts as [|stmt stmts IH]; intros total last; cbn [execute_each].
  - by intros st r st' Hst [= _ <-].
  - apply pholds_bind; [apply pholds_run_statement|]. intros res. destruct (next_total total res); [apply IH|apply pholds_ended; keeps_auto].
Qed.
Lemma pholds_executeStatements token stmts : pholds (pair_ok token) (executeStatements ExecuteSQL stmts).
Proof. destruct stmts as [|stmt [|]]; [apply pholds_execute_each|apply pholds_run_statement|apply pholds_execute_each]. Qed.

Lemma store_ok token sess s : server_ok s → Session.Token sess = token → server_ok (W:=W) (store_session token sess s).
Proof. intros [Hw Hs] Ht. split; [done|]. intros t x. cbn. intros [[<- <-]|[_ Hk]]%lookup_insert_Some; [done|by apply Hs]. Qed.

Lemma pholds_routed token sqlText d stmts : pholds server_ok (routed ExecuteSQL now token sqlText d stmts).
Proof.
  intros s r s' Hs. unfold routed, session_for. destruct (Session.GetSession (sessionMgr s) token) as [sess|] eqn:E.
  - assert (Ht : Session.Token sess = token) by (by eapply ok_sessions).
    unfold pbind, in_session. destruct (executeStatements ExecuteSQL stmts (sess, s)) as [[r0 [sess1 s1]]|] eqn:Ee; [|done].
    apply (pholds_executeStatements token) in Ee as [Hs1 Ht1]; [|by split]. intros [= _ <-]. by apply store_ok.
  - case_decide; [by intros [= _ <-]|].
    unfold pbind, in_session. destruct (executeStatements ExecuteSQL stmts (temporary, s)) as [[r0 [sess1 s1]]|] eqn:Ee; [|done].
    apply (pholds_executeStatements "") in Ee as [Hs1 Ht1]; [|by split]. by intros [= _ <-].
Qed.

Lemma keeps_exec_all n stmts : keeps server_ok (exec_all execDB n stmts).
Proof. revert n. induction stmts as [|stmt stmts IH]; intros n; cbn [exec_all]; keeps_auto. Qed.
Hint Resolve keeps_exec_all : keeps.

Lemma keeps_prepare r : keeps (server_ok (W:=W)) (prepare decode_query unmarshal_string parse_float unmarshal_array now r).
Proof.
  unfold prepare. case_decide; [apply keeps_ret|]. cbv zeta. apply keeps_bind; [apply keeps_touch|]. intros _.
  destruct (decode_query _) as [body|]; [|apply keeps_ret]. repeat case_decide; try apply keeps_ret.
  all: destruct (DescribeOnly body && _); [apply keeps_ret|]. all: destruct (Expand _ _ _ _ _); apply keeps_ret.
Qed.

Lemma pholds_query r : pholds server_ok
  (handleQueryRequest queryDB execDB ExecuteSQL decode_query unmarshal_string parse_float unmarshal_array now r).
Proof.
  unfold handleQueryRequest. apply pholds_bind; [apply pholds_ended, keeps_prepare|]. intros [resp|p]; [apply pholds_ended; keeps_auto|].
  intros s r0 s' Hs. destruct (has_orchestrator s); [by apply pholds_routed|]. apply pholds_ended; [|done]. unfold direct. keeps_auto.
Qed.

Lemma pholds_serve r : pholds server_ok (serve queryDB execDB ExecuteSQL ResetAll InsertPipeFiles decode_login decode_query decode_v2
  decode_pipe unmarshal_string parse_float unmarshal_array gunzip now idBytes tokenBytes r).
Proof.
  unfold serve. destruct (decompressed gunzip r) as [r0|]; [|apply pholds_ended; keeps_auto]. unfold route.
  repeat (case_decide; [first [apply pholds_query|apply pholds_ended; clear r; rename r0 into r]|]);
    repeat match goal with |- pholds _ (if ?b then _ else _) => destruct b end.
  all: try apply pholds_query; try apply pholds_ended.
  all: unfold handleLogin, handleTokenRefresh, handleAuthenticator, handleSession, handleAbortRequest, handleQueryStatus, handleV2Statements,
    handleV2StatementsID, handleTelemetry, handleHeartbeat, handleHealth, handleReset, handleSnowpipeIngest.
  all: keeps_auto; apply keeps_only; keeps_auto.
Qed.
End handlers.

(** ** The program *)

Section program.
Context {W : Type} `{MapRange}.
Context (queryDB : string → list cell → W → result Engine.Rows * W).
Context (execDB : string → list cell → W → result ExecResult * W).
Context (osMkdirAll osRemoveAll osRemove : string → W → result unit * W).
Context (osFiles : OsFiles W).
Context (osStat : string → W → result Z).
Context (walkDir : string → W → list WalkEntry).
Context (fileMD5 : string → W → string).
Context (glob : string → string → result bool).
Context (compile : string → result (string → bool)).
Context (bad_authority bad_fragment : string → bool).
Context (LoadLocation : string → result Location).
Context (parseTime : string → result Z) (time_string : Z → string).
Context (scanStrings : list cell → result (list string)) (role_time : string → Z).
Context (decode_login : string → option loginRequestBody) (decode_query : string → option queryRequestBody).
Context (decode_v2 : string → option v2Body) (decode_pipe : string → option (list string)).
Context (unmarshal_string : string → option string) (parse_float : string → option Float).
Context (unmarshal_array : string → option (list string)).
Context (gunzip : string → option string).

(** A request, with the readings of the clock and the random bytes while it is served,
    and fuel for its rewriting; a tick of the scheduler; one of the sessions' expiry. *)
Inductive ProgramEvent : Type :=
  | Http (now : nat → Z) (fuel : nat) (idBytes tokenBytes : list Z) (r : Request)
  | SchedTick (now : Z) (n : nat)
  | Expiry (now : Z).

Definition serve_request (now : nat → Z) (fuel : nat) (idBytes tokenBytes : list Z) : Request → Partial (Server W) Response :=
  serve queryDB execDB
    (ExecuteSQL queryDB execDB osMkdirAll osRemoveAll osRemove osFiles osStat walkDir fileMD5 glob compile bad_authority bad_fragment
       LoadLocation parseTime time_string now fuel)
    (reset_all queryDB execDB osMkdirAll osRemoveAll now scanStrings role_time) (InsertPipeFiles execDB now)
    decode_login decode_query decode_v2 decode_pipe unmarshal_string parse_float unmarshal_array gunzip now idBytes tokenBytes.

(** [main]: the orchestrator at its start with its scheduler's loop, no sessions. *)
Definition with_scheduler (o : Orchestrator W) : Orchestrator W := (on_task Task.Start o).2.
Definition started (s : Server W) : Prop := ∃ o, booted role_time o ∧ s = mkServer (Wired (with_scheduler o)) Session.NewManager 0.

Inductive program_step : Server W → ProgramEvent → Server W → Prop :=
  | step_http s now fuel ib tb r res s' : serve_request now fuel ib tb r s = Some (res, s') → program_step s (Http now fuel ib tb r) s'
  | step_tick s now n : program_step s (SchedTick now n) (on_orchestrator (sched_tick execDB LoadLocation now n) s).2
  | step_expiry s now : program_step s (Expiry now) (on_sessions (Session.expire now) s).2.

Definition program_reachable : Server W → Prop := reachable started program_step.

Lemma keeps_expire now : keeps sessions_ok (Session.expire now).
Proof.
  intros m Hm. destruct (Session.expire_spec now m) as (m' & -> & _ & E). intros token sess. cbn. rewrite E.
  destruct (Session.sessions m !! token) as [x|] eqn:Ex; [|done]. destruct (Session.expired now x); [done|]. intros [= <-]. by apply Hm.
Qed.

Lemma keeps_start o : orch_ok o → orch_ok (with_scheduler o).
Proof. intros []. by split. Qed.

Lemma program_ok s : program_reachable s → server_ok s.
Proof.
  apply (reachable_inv _ _ server_ok).
  - intros s0 (o & Ho & ->). split; [|intros token sess; cbn; by rewrite lookup_empty]. exists (with_scheduler o). split; [done|].
    apply keeps_start. eapply (reachable_ok queryDB execDB osMkdirAll osRemoveAll osRemove osFiles osStat walkDir fileMD5 glob compile bad_authority bad_fragment
      LoadLocation parseTime time_string scanStrings role_time). by apply reachable_init.
  - intros s1 ev s2 Hs Hst. destruct Hst as [x now fuel ib tb r res x' E|x now n|x now].
    + eapply pholds_serve; [| | |exact Hs|exact E].
      * intros sql sess o r0 sess' o' Ho Ee. assert (Hb : both_ok (identity sess) (sess, o)) by done. eapply keeps_ExecuteSQL in Ee as [H1 H2]; [|exact Hb].
        split; [exact H1|]. by injection H2.
      * apply keeps_reset.
      * intros. apply keeps_InsertPipeFiles.
    + by apply keeps_on_orchestrator; [apply keeps_sched_tick|].
    + by apply keeps_on_sessions; [apply keeps_expire|].
Qed.

(** C1: Whatever requests the program is sent, well formed or not, whatever the scheduler
    and the expiry loop do between them, and whatever the database, the file system and
    the decoders answer, its state stays well formed: every subsystem of the
    orchestrator ([orch_ok]), and every session stands under its own token, which no
    statement can change. *)
Theorem program_keeps_state s : program_reachable s → server_ok s.
Proof. apply program_ok. Qed.

Lemma taskExec_world e sqls se w : foldl (λ sw sql, (taskExec execDB e sql sw).2) (se, w) sqls =
  (se, foldl (λ w sql, (exec_unit execDB e sql w).2) w sqls).
Proof.
  revert w. induction sqls as [|sql sqls IH]; intros w; [done|]. cbn [foldl]. rewrite <- IH. f_equal. unfold taskExec. cbn [fst snd].
  by destruct (exec_unit _ _ _ _).
Qed.

(** C18: A tick of the scheduler in the running program, after any history in which every
    task that is left has a name: it ends without error, and runs a list of tasks: each
    at most once, each one due or after one that ran before it, and every such task
    whose condition is not about a stream.  Their statements reach the database in that
    order, a failing one holding none up, and nothing else of the orchestrator but the
    tasks' own times is changed. *)
Theorem program_tick_runs_tasks s o now n : program_reachable s → backend s = Wired o → named (taskSched o) →
  ∃ L sch, sched_tick execDB LoadLocation now n o =
      (Ok tt, with_tasks sch (streamEng o, foldl (λ w sql, (exec_unit execDB (engine o) sql w).2) (Orchestrator.world o) (sql_of (taskSched o) <$> L)) o) ∧
    dag_run (taskSched o) (due_root (taskSched o) now) L ∧
    Task.tasks sch = Task.tasks (taskSched o) ∧
    ∀ p t, Task.heap (taskSched o) !! p = Some t → ∃ t', Task.heap sch !! p = Some t' ∧ strip t' = strip t ∧
      LastRunAt t' = (if decide (p ∈ L) then Some now else LastRunAt t).
Proof.
  intros Hr Hb Hn. apply program_ok in Hr as [(o' & Hb' & Ho) _]. rewrite Hb in Hb'. injection Hb' as <-.
  unfold sched_tick. set (st := mkSt _ _ _).
  destruct (tick_spec LoadLocation (taskExec execDB (engine o)) now st (ok_tasks _ Ho) Hn) as (L & T & st' & -> & R & Hd & _).
  exists L, (sch st'). split_all; [|exact Hd|apply (ran_tasks _ _ _ _ _ _ R)|].
  - do 2 f_equal. rewrite (ran_world _ _ _ _ _ _ R), <- taskExec_world, foldl_fmap. done.
  - intros p t Ht. destruct (ran_task _ _ _ _ _ _ R p t Ht) as (t' & Ht' & Es & El & _). by exists t'.
Qed.
End program.

(** ** A task after itself *)

(** A loop that meets an element on which its body fails fails. *)
Lemma for_each_fails {S A} (I : S → Prop) (f : A → GoM S unit) l x s : (∀ a, keeps I (f a)) → (∀ s, I s → is_ok (f x s).1 = false) →
  x ∈ l → I s → is_ok (for_each f l s).1 = false.
Proof.
  intros Hk Hx Hin. revert s. induction l as [|y l IH]; intros s Hs; [by apply elem_of_nil in Hin|]. cbn [for_each]. unfold bind.
  pose proof (Hk y s Hs) as Hy. destruct (f y s) as [[[]|e] s1] eqn:E; [|done]. apply elem_of_cons in Hin as [<-|Hin]; [|by apply IH].
  specialize (Hx s Hs). by rewrite E in Hx.
Qed.

Section own_successor.
Context {W : Type} `{MapRange} (LoadLocation : string → result Location) (exec : string → W → result unit * W).
(** A registered task that its own successors would include, without condition. *)
Context (p : nat) (t0 : Task) (own : is_successor (Task.DatabaseName t0) (Task.SchemaName t0) (Task.Name t0) t0 = true) (no_when : When t0 = ""%string).

Definition still_there (st : St W) : Prop :=
  (∃ key, Task.tasks (sch st) !! key = Some p) ∧ ∃ t, Task.heap (sch st) !! p = Some t ∧ strip t = strip t0.

Lemma there_update q f : (∀ t, strip (f t) = strip t) → keeps still_there (update_task q f).
Proof.
  intros Hf. apply keeps_modify. intros st [Hk (t & Ht & Es)]. split; [done|]. cbn. destruct (decide (q = p)) as [->|Hne].
  - exists (f t). by rewrite list_lookup_alter_eq, Ht, Hf.
  - exists t. by rewrite list_lookup_alter_ne.
Qed.
Lemma there_deref q : keeps still_there (deref q).
Proof. unfold deref. keeps_auto. Qed.
Lemma there_collect sel : keeps still_there (collect_tasks sel).
Proof. apply keeps_get_bind. intros st Hst. apply keeps_bind; [by apply keeps_put|]. intros; apply keeps_ret. Qed.
Lemma there_quiet sql : keeps still_there (quiet exec sql).
Proof. intros st Hst. unfold quiet. by destruct (exec _ _). Qed.
Hint Resolve there_deref there_collect there_quiet : keeps.
Lemma there_when q : keeps still_there (evaluateWhen q).
Proof. unfold evaluateWhen. keeps_auto. Qed.
Lemma there_runTask q now : keeps still_there (runTask LoadLocation (quiet exec) q now).
Proof. unfold runTask. keeps_auto. apply there_update. intros t. by case_decide. Qed.
Hint Resolve there_when there_runTask : keeps.
Lemma there_runSuccessors fuel db sc n now : keeps still_there (runSuccessors LoadLocation (quiet exec) fuel db sc n now).
Proof. revert db sc n. induction fuel as [|fuel IH]; intros db sc n; cbn [runSuccessors]; keeps_auto. Qed.
Hint Resolve there_runSuccessors : keeps.

Lemma deref_there q st t : Task.heap (sch st) !! q = Some t → deref (W:=W) q st = (Ok t, st).
Proof. unfold deref, bind, get. by intros ->. Qed.

Lemma collect_finds sel st t : still_there st → Task.heap (sch st) !! p = Some t → sel t = true →
  ∃ l st', collect_tasks sel st = (Ok l, st') ∧ p ∈ l ∧ still_there st'.
Proof.
  intros Hst Ht Hsel. unfold collect_tasks, bind, get, put, ret. eexists _, _. split; [reflexivity|]. split; [|exact Hst].
  destruct Hst as [[key Hk] _]. apply list_elem_of_fmap. exists (p, t). split; [done|]. apply list_elem_of_filter. split; [exact Hsel|].
  unfold range_tasks. apply list_elem_of_bind. exists (key, p). split; [|by apply elem_of_map_range].
  apply list_elem_of_bind. exists t. split; [by apply list_elem_of_singleton|]. rewrite Ht. by apply list_elem_of_singleton.
Qed.

Lemma own_successor_fails fuel now st : still_there st →
  is_ok (runSuccessors LoadLocation (quiet exec) fuel (Task.DatabaseName t0) (Task.SchemaName t0) (Task.Name t0) now st).1 = false.
Proof.
  revert st. induction fuel as [|fuel IH]; intros st Hst; [done|]. cbn [runSuccessors]. unfold bind at 1.
  destruct Hst as [Hk (t & Ht & Es)]. pose proof (strip_sel t t0 Es) as (Hsel & _).
  destruct (collect_finds (is_successor (Task.DatabaseName t0) (Task.SchemaName t0) (Task.Name t0)) st t) as (l & st1 & -> & Hin & Hst1);
    [split; eauto|done|by rewrite Hsel|].
  apply (for_each_fails still_there _ _ p); [keeps_auto| |done|done]. clear st t Hk Ht Es Hsel l st1 Hin Hst1.
  intros st Hst. pose proof Hst as [_ (t & Ht & Es)]. pose proof (strip_sel t t0 Es) as (_ & _ & En & Ed & Esc & _ & Ew & _).
  unfold evaluateWhen, bind at 1. unfold bind at 1. rewrite (deref_there _ _ _ Ht), decide_True by congruence. cbn [ret negb]. unfold bind at 1.
  pose proof (there_runTask p now st Hst) as Hst1. destruct (runTask _ _ _ _ st) as [[[]|e] st1]; [|done]. cbn [snd] in Hst1.
  pose proof Hst1 as [_ (t1 & Ht1 & Es1)]. unfold bind at 1. rewrite (deref_there _ _ _ Ht1).
  pose proof (strip_sel t1 t0 Es1) as (_ & _ & -> & _). by apply IH.
Qed.
End own_successor.

(** C5: A started task without condition that comes after itself, as every one does that
    has neither a name nor a predecessor, sends the scheduler into a recursion that no
    depth of the stack is enough for, as soon as a task of its own name has run. *)
Theorem own_successor_never_ends {W} `{MapRange} LoadLocation (exec : string → W → result unit * W) p t st now fuel :
  live (sch st) p t → State t = TaskStarted → ToLower (Predecessor t) = ToLower (Task.Name t) → When t = ""%string →
  is_ok (runSuccessors LoadLocation (quiet exec) fuel (Task.DatabaseName t) (Task.SchemaName t) (Task.Name t) now st).1 = false.
Proof.
  intros [Hk Ht] Hs Hp Hw. apply (own_successor_fails _ _ p t); [|done|split; eauto].
  unfold is_successor, EqualFold. by rewrite !bool_decide_true by done.
Qed.

(** ** Concrete runs *)

#[local] Existing Instance key_order.

Definition demo_tick (now : Z) : GoM (Orchestrator Demo) unit := sched_tick demo_exec demo_zone now 0.

(** Statements, then ticks; the outcomes of the ticks, and the texts that the database
    was given. *)
Definition after_ticks (sqls : list string) (ticks : list Z) : list bool * list string :=
  let o := (demo sqls).2.2 in
  let r := foldl (λ ro now, let '(r, o) := demo_tick now ro.2 in (ro.1 ++ [is_ok r], o)) ([], o) ticks in
  (r.1, d_log (Orchestrator.world r.2)).

(** A task runs at the second tick, the first one sets its time. *)
Definition a_task : list string := ["CREATE TASK k SCHEDULE = '1 MINUTE' AS SELECT 1"; "ALTER TASK k RESUME"].
Example task_runs : after_ticks a_task [2 * Minute; 4 * Minute] = ([true; true], ["SELECT 1"%string]).
Proof. vm_compute. reflexivity. Qed.

(** A quoted empty name is stripped of its quotes by CREATE TASK, and by the DDL handler
    that takes an ALTER TASK with a word after it; the second tick then recurses. *)
Definition nameless : list string :=
  ["CREATE TASK " +:+ String dq (String dq " SCHEDULE = '1 MINUTE' AS SELECT 1"); "ALTER TASK " +:+ String dq (String dq " RESUME now")]%string.
Example nameless_task_recurses : (after_ticks nameless [2 * Minute; 4 * Minute]).1 = [true; false].
Proof. vm_compute. reflexivity. Qed.

Definition nameless_state : St (Stream.Engine * Demo) :=
  let o := (demo nameless).2.2 in mkSt (taskSched o) (streamEng o, Orchestrator.world o) 0.

Lemma own_successor_never_ends_witness : ∃ t, Task.heap (sch nameless_state) !! 0%nat = Some t ∧ Task.Name t = ""%string ∧
  is_ok (runSuccessors demo_zone (quiet (taskExec demo_exec (engine (demo nameless).2.2))) 1000 (Task.DatabaseName t) (Task.SchemaName t)
    (Task.Name t) Minute nameless_state).1 = false.
Proof.
  destruct (Task.heap (sch nameless_state) !! 0%nat) as [t|] eqn:E; [|vm_compute in E; discriminate E].
  assert (Ht : (λ t, (State t, Predecessor t, Task.Name t, When t)) <$> Task.heap (sch nameless_state) !! 0%nat = Some (TaskStarted, "", "", "")%string)
    by (vm_compute; reflexivity).
  exists t. split; [done|]. rewrite E in Ht. cbn [fmap option_fmap option_map] in Ht.
  injection Ht as H1 H2 H3 H4. split; [exact H3|].
  apply (own_successor_never_ends demo_zone _ 0); [|exact H1|by rewrite H2, H3|exact H4].
  split; [|exact E]. exists (taskKey "DB" "PUBLIC" ""). vm_compute. reflexivity.
Defined.

(** *** The whole program *)

Definition demo_serve (now : Z) : Request → Partial (Server Demo) Response :=
  serve_request demo_query demo_exec demo_dir demo_dir demo_dir demo_copy (λ _ _, Err "no file") (λ _ _, []) (λ _ _, "")
    (λ _ _, Ok true) (λ _, Err "bad pattern") (λ _, false) (λ _, false) demo_zone (λ _, Err "bad time") Itoa (λ _, Ok []) (λ _, 0)
    demo_login demo_decode (λ _, None) (λ _, None) (λ _, None) (λ _, None) (λ _, None) (λ _, None) (λ _, now) 20 zero_bytes zero_bytes.
Definition demo_program : Server Demo → Prop :=
  program_reachable demo_query demo_exec demo_dir demo_dir demo_dir demo_copy (λ _ _, Err "no file") (λ _ _, []) (λ _ _, "")
    (λ _ _, Ok true) (λ _, Err "bad pattern") (λ _, false) (λ _, false) demo_zone (λ _, Err "bad time") Itoa (λ _, Ok []) (λ _, 0)
    demo_login demo_decode (λ _, None) (λ _, None) (λ _, None) (λ _, None) (λ _, None) (λ _, None).

(** Queries without a token, a second apart. *)
Definition a_query (sql : string) : Request := a_request "POST" "/queries/v1/query-request" "" sql.
Fixpoint demo_serves (now : Z) (sqls : list string) (s : Server Demo) : Server Demo :=
  match sqls with
  | [] => s
  | sql :: sqls => match demo_serve now (a_query sql) s with None => s | Some (_, s) => demo_serves (now + Second) sqls s end
  end.
Definition demo_start : Server Demo := mkServer (Wired (with_scheduler demo_boot)) Session.NewManager 0.

Lemma demo_serves_reachable sqls now s : demo_program s → demo_program (demo_serves now sqls s).
Proof.
  revert now s. induction sqls as [|sql sqls IH]; intros now s Hs; [done|]. cbn [demo_serves].
  destruct (demo_serve now (a_query sql) s) as [[r s1]|] eqn:E; [|done]. apply IH.
  refine (reachable_step _ _ _ (Http (λ _, now) 20 zero_bytes zero_bytes (a_query sql)) _ Hs _). by eapply step_http.
Qed.
Lemma demo_start_reachable : demo_program demo_start.
Proof. apply reachable_init. exists demo_boot. split; [|done]. by eexists _, "/s"%string, (λ _, 0), empty_demo. Qed.

(** A task is made, started and noticed by a first tick. *)
Definition ticking : Server Demo :=
  (on_orchestrator (demo_tick (2 * Minute)) (demo_serves 0 a_task demo_start)).2.
Lemma ticking_reachable : demo_program ticking.
Proof.
  refine (reachable_step _ _ _ (SchedTick (2 * Minute) 0) _ (demo_serves_reachable a_task 0 _ demo_start_reachable) _).
  apply step_tick.
Qed.

Lemma program_keeps_state_witness : demo_program ticking ∧ server_ok ticking.
Proof.
  split; [exact ticking_reachable|].
  exact (program_keeps_state _ _ _ _ _ _ _ _ _ _ _ _ _ _ _ _ _ _ _ _ _ _ _ _ _ _ _ ticking_reachable).
Defined.

Definition ticking_orch : Orchestrator Demo := match backend ticking with Wired o => o | EngineOnly _ _ => demo_boot end.
Lemma named_list {W} (sch : Scheduler W) :
  forallb (λ t, negb (bool_decide (Task.Name t = ""%string))) (Task.heap sch) = true → named sch.
Proof.
  intros Hall p t [_ Ht]. rewrite forallb_forall in Hall. apply list_elem_of_lookup_2, list_elem_of_In, Hall in Ht.
  intros E. by rewrite E in Ht.
Qed.
Lemma ticking_named : named (taskSched ticking_orch).
Proof. apply named_list. vm_compute. reflexivity. Qed.

Lemma program_tick_runs_tasks_witness : ∃ (L : list nat) o', demo_tick (4 * Minute) ticking_orch = (Ok tt, o') ∧ 0%nat ∈ L ∧
  d_log (Orchestrator.world o') = ["SELECT 1"%string].
Proof.
  destruct (program_tick_runs_tasks _ _ _ _ _ _ _ _ _ _ _ _ _ _ _ _ _ _ _ _ _ _ _ _ _ _ ticking ticking_orch (4 * Minute) 0
    ticking_reachable ltac:(vm_compute; reflexivity) ticking_named) as (L & sch & E & (_ & _ & Hdue & _) & _).
  exists L. eexists. split; [exact E|]. split.
  - destruct (Task.heap (taskSched ticking_orch) !! 0%nat) as [t|] eqn:Et; [|vm_compute in Et; discriminate Et].
    assert (Hf : (λ t, (is_root t, NextRunAt t, When t)) <$> Task.heap (taskSched ticking_orch) !! 0%nat = Some (true, Some (3 * Minute), ""%string))
      by (vm_compute; reflexivity).
    rewrite Et in Hf. cbn [fmap option_fmap option_map] in Hf.
    injection Hf as H1 H2 H3. apply Hdue.
    + exists t, (3 * Minute). split_all; [|done|done|by vm_compute]. split; [|exact Et]. exists (taskKey "miniflake" "main" "k"). vm_compute. reflexivity.
    + exists t. auto.
  - transitivity (d_log (Orchestrator.world (demo_tick (4 * Minute) ticking_orch).2)); [|vm_compute; reflexivity].
    unfold demo_tick. by rewrite E.
Defined.
