(* ===== verification/Concurrent.v ===== *)
(** * Requests at the same time

    The program of System.v with the requests overlapping: a request takes the state
    lock, and runs as a sequence of steps between which those of other requests, the
    scheduler and the expiry of sessions happen.  A query request is prepared, runs its
    statements one by one on the session behind its token, which it shares with the
    other requests of that session, and merges their results; the handlers of the other
    paths are one step. *)

From S2P Require Import Prelude GoStrings GoTime GoPath Regexp Rewriter Rbac Stream Snowpipe Catalog Session TimeTravel Clone Cron Task Binding Udf CopyInto Engine Stage StageRef Parameters Orchestrator Demo OrchestratorSpec Server ServerSpec System.
#[local] Open Scope Z_scope.

(** ** Requests in progress *)

(** A query request whose statements are being run: what [handleQueryRequest] and
    [executeStatements] hold in their variables. *)
Record Query := mkQuery {
  q_now : nat → Z;               (* the clock, for the identifier of the query *)
  q_token : string;
  q_sqlText : string;
  q_describe : bool;
  q_many : bool;                 (* more than one statement *)
  q_total : Z;
  q_last : option QueryResult;
  q_todo : list string;
}.

Inductive Phase : Type :=
  | Arrived
  (** with the temporary session, for a request without one *)
  | Executing (q : Query) (temp : Session)
  | Answered (resp : result Response).

(** The server, the sessions that requests still hold and that are no longer in the
    manager, and the requests between the taking and the release of the state lock. *)
Record State (W : Type) := mkState {
  srv : Server W;
  detached : gmap string Session;
  running : gmap nat (Request * Phase);
}.
Arguments mkState {W}.
Arguments srv {W}.
Arguments detached {W}.
Arguments running {W}.

Definition requests {W} (st : State W) : Running := fst <$> running st.

(** What a request draws from the outside: clock, fuel for its rewriting, random bytes. *)
Record Readings := mkReadings { r_now : nat → Z; r_fuel : nat; r_id : list Z; r_token : list Z }.

Inductive Action : Type :=
  | Take (i : nat) (r : Request)
  | Turn (i : nat)
  | Release (i : nat)
  | Beside.

Section requests.
Context {W : Type} `{MapRange}.
Context (queryDB : string → list cell → W → result Engine.Rows * W).
Context (execDB : string → list cell → W → result ExecResult * W).
Context (LoadLocation : string → result Location).
Context (ExecuteSQL : (nat → Z) → nat → string → Session * Orchestrator W → option (result QueryResult * (Session * Orchestrator W))).
Context (ResetAll : (nat → Z) → GoM (Orchestrator W) unit).
Context (InsertPipeFiles : (nat → Z) → string → string → string → list string → GoM (Orchestrator W) unit).
Context (decode_login : string → option loginRequestBody) (decode_query : string → option queryRequestBody).
Context (decode_v2 : string → option v2Body) (decode_pipe : string → option (list string)).
Context (unmarshal_string : string → option string) (parse_float : string → option Float).
Context (unmarshal_array : string → option (list string)).
Context (gunzip : string → option string).

(** A whole request in one step. *)
Definition serve_with (e : Readings) : Request → Partial (Server W) Response :=
  serve queryDB execDB (ExecuteSQL (r_now e) (r_fuel e)) (ResetAll (r_now e)) (InsertPipeFiles (r_now e))
    decode_login decode_query decode_v2 decode_pipe unmarshal_string parse_float unmarshal_array gunzip (r_now e) (r_id e) (r_token e).

(** *** A query request in parts *)

Definition query_path : string := "/queries/v1/query-request".
Definition is_query (r : Request) : bool := bool_decide (Path r = query_path).

(** The session that the request holds: it is found in the manager, or among those that
    have left it. *)
Definition held (token : string) (st : State W) : option Session :=
  match Session.sessions (sessionMgr (srv st)) !! token with Some sess => Some sess | None => detached st !! token end.
Definition session_of (q : Query) (temp : Session) (st : State W) : Session := default temp (held (q_token q) st).

(** What a statement changed in it stays, wherever it is. *)
Definition put_back (token : string) (sess : Session) (s : Server W) (st : State W) : Server W * gmap string Session :=
  match Session.sessions (sessionMgr (srv st)) !! token with
  | Some _ => (store_session token sess s, detached st)
  | None => match detached st !! token with
            | Some _ => (s, <[token := sess]> (detached st))
            | None => (s, detached st)
            end
  end.

(** The query that [prepare] got ready, at its first statement. *)
Definition to_run (now : nat → Z) (p : Prepared) : Query :=
  mkQuery now (p_token p) (p_sqlText p) (p_describe p) (bool_decide (length (p_stmts p) ≠ 1)%nat) 0 None (p_stmts p).

Definition prepared_phase (now : nat → Z) (s : Server W) (res : result (Response + Prepared)) : Phase :=
  match res with
  | Ok (inl resp) => Answered (Ok resp)
  | Ok (inr p) => match session_for (p_token p) s with
                  | None => Answered (Ok invalid_token)
                  | Some _ => Executing (to_run now p) temporary
                  end
  | Err e => Answered (Err e)
  end.

Definition answered (q : Query) (r : result QueryResult) : Phase :=
  Answered (Ok (answer (q_now q) (q_sqlText q) (q_describe q) r)).
(** After a statement, with the rest to do. *)
Definition after_statement (q : Query) (rest : list string) (res : result QueryResult) (temp : Session) : Phase :=
  match res with
  | Err e => answered q (Err e)
  | Ok qr =>
      if negb (q_many q) then answered q (Ok qr)
      else match next_total (q_total q) qr with
           | Err e => answered q (Err e)
           | Ok total => Executing (mkQuery (q_now q) (q_token q) (q_sqlText q) (q_describe q) true total (Some qr) rest) temp
           end
  end.

(** *** Steps *)

(** Sessions that leave the manager stay with those who hold them. *)
Definition leaving (s s' : Server W) (d : gmap string Session) : gmap string Session :=
  (Session.sessions (sessionMgr s) ∖ Session.sessions (sessionMgr s')) ∪ d.
Definition moved (st : State W) (s' : Server W) (i : nat) (rp : Request * Phase) : State W :=
  mkState s' (leaving (srv st) s' (detached st)) (<[i := rp]> (running st)).

Inductive conc_step : State W → Action → State W → Prop :=
  | c_take st i r : running st !! i = None → may_begin (lock_of r) (requests st) →
      conc_step st (Take i r) (mkState (srv st) (detached st) (<[i := (r, Arrived)]> (running st)))
  | c_whole st i r e res s' : running st !! i = Some (r, Arrived) → is_query r = false ∨ decompressed gunzip r = None →
      serve_with e r (srv st) = Some (res, s') → conc_step st (Turn i) (moved st s' i (r, Answered res))
  | c_prepare st i r r' e res s' : running st !! i = Some (r, Arrived) → is_query r = true → decompressed gunzip r = Some r' →
      prepare decode_query unmarshal_string parse_float unmarshal_array (r_now e) r' (srv st) = (res, s') →
      conc_step st (Turn i) (moved st s' i (r, prepared_phase (r_now e) s' res))
  | c_statement st i r q temp o e stmt rest res sess' o' s' d' : running st !! i = Some (r, Executing q temp) → q_todo q = stmt :: rest →
      backend (srv st) = Wired o → ExecuteSQL (r_now e) (r_fuel e) stmt (session_of q temp st, o) = Some (res, (sess', o')) →
      put_back (q_token q) sess' (mkServer (Wired o') (sessionMgr (srv st)) (sessionIDCounter (srv st))) st = (s', d') →
      conc_step st (Turn i) (mkState s' d' (<[i := (r, after_statement q rest res (if decide (held (q_token q) st = None) then sess' else temp))]> (running st)))
  | c_merge st i r q temp : running st !! i = Some (r, Executing q temp) → q_todo q = [] →
      conc_step st (Turn i) (mkState (srv st) (detached st) (<[i := (r, answered q (bulk_result (q_total q) (q_last q)))]> (running st)))
  | c_release st i r resp : running st !! i = Some (r, Answered resp) →
      conc_step st (Release i) (mkState (srv st) (detached st) (delete i (running st)))
  | c_tick st now n : conc_step st Beside
      (mkState (on_orchestrator (sched_tick execDB LoadLocation now n) (srv st)).2 (detached st) (running st))
  | c_expiry st now : conc_step st Beside
      (let s' := (on_sessions (Session.expire now) (srv st)).2 in mkState s' (leaving (srv st) s' (detached st)) (running st)).
End requests.

(** ** What no interleaving breaks *)

Section keeps.
Context {W : Type} `{MapRange}.
Context (queryDB : string → list cell → W → result Engine.Rows * W).
Context (execDB : string → list cell → W → result ExecResult * W).
Context (LoadLocation : string → result Location).
Context (ExecuteSQL : (nat → Z) → nat → string → Session * Orchestrator W → option (result QueryResult * (Session * Orchestrator W))).
Context (ResetAll : (nat → Z) → GoM (Orchestrator W) unit).
Context (InsertPipeFiles : (nat → Z) → string → string → string → list string → GoM (Orchestrator W) unit).
Context (decode_login : string → option loginRequestBody) (decode_query : string → option queryRequestBody).
Context (decode_v2 : string → option v2Body) (decode_pipe : string → option (list string)).
Context (unmarshal_string : string → option string) (parse_float : string → option Float).
Context (unmarshal_array : string → option (list string)).
Context (gunzip : string → option string).
(** What the orchestrator's operations keep. *)
Context (execute_keeps : ∀ now fuel sql sess o r sess' o', orch_ok o → ExecuteSQL now fuel sql (sess, o) = Some (r, (sess', o')) →
  orch_ok o' ∧ Session.Token sess' = Session.Token sess).
Context (reset_keeps : ∀ now, keeps orch_ok (ResetAll now)) (pipe_keeps : ∀ now db sc n fs, keeps orch_ok (InsertPipeFiles now db sc n fs)).

Record conc_ok (st : State W) : Prop := mkConcOk {
  c_server : server_ok (srv st);
  c_detached : ∀ token sess, detached st !! token = Some sess → Session.Token sess = token;
  c_lock : lock_ok (requests st);
  c_shared : ∀ i r q temp, running st !! i = Some (r, Executing q temp) → lock_of r = Shared;
}.

Lemma leaving_ok s s' d : sessions_ok (sessionMgr s) → (∀ token sess, d !! token = Some sess → Session.Token sess = token) →
  ∀ token sess, leaving (W:=W) s s' d !! token = Some sess → Session.Token sess = token.
Proof.
  intros Hs Hd token sess. unfold leaving. rewrite lookup_union_Some_raw, lookup_difference_Some.
  intros [[Hl _]|[_ Hl]]; [by apply Hs|by apply Hd].
Qed.

(** A step of a request that runs leaves the requests under the lock as they are. *)
Lemma same_requests (run : gmap nat (Request * Phase)) i r p p' : run !! i = Some (r, p) → fst <$> <[i := (r, p')]> run = fst <$> run.
Proof. intros Hi. rewrite fmap_insert. apply insert_id. rewrite lookup_fmap, Hi. done. Qed.
Lemma next_phase_ok st s' d' i r p p' : running st !! i = Some (r, p) → conc_ok st → server_ok s' →
  (∀ token sess, d' !! token = Some sess → Session.Token sess = token) →
  (∀ q temp, p' = Executing q temp → lock_of r = Shared) → conc_ok (mkState s' d' (<[i := (r, p')]> (running st))).
Proof.
  intros Hi [_ _ Hl Hsh] Hs Hd Hp. split; [done|done| |].
  - unfold requests in *. cbn [running]. by rewrite (same_requests _ _ _ _ _ Hi).
  - intros j r0 q temp. cbn. intros [[_ [= -> ->]]|[_ Hj]]%lookup_insert_Some; [by eapply Hp|by eapply Hsh].
Qed.

Lemma query_is_shared r : is_query r = true → lock_of r = Shared.
Proof. intros Hq%bool_decide_eq_true. unfold lock_of. by rewrite Hq. Qed.

Lemma session_of_token st token sess : conc_ok st → held token st = Some sess → Session.Token sess = token.
Proof.
  intros [[_ Hs] Hd _ _]. unfold held. destruct (_ !! token) as [x|] eqn:E; [intros [= <-]; by apply Hs|apply Hd].
Qed.

Lemma requests_lookup (st : State W) i : requests st !! i = fst <$> running st !! i.
Proof. apply (lookup_fmap (M:=gmap nat)). Qed.

Lemma conc_step_ok st a st' : conc_ok st →
  conc_step queryDB execDB LoadLocation ExecuteSQL ResetAll InsertPipeFiles decode_login decode_query decode_v2 decode_pipe
    unmarshal_string parse_float unmarshal_array gunzip st a st' → conc_ok st'.
Proof.
  intros Hok Hst. pose proof Hok as [Hs Hd Hl Hsh].
  destruct Hst as [st i r Hi Hmay|st i r e res s' Hi Hq E|st i r r' e res s' Hi Hq Hr E|st i r q temp o e stmt rest res sess' o' s' d' Hi Ht Hb E Ep
    |st i r q temp Hi Ht|st i r resp Hi|st now n|st now].
  - split; [done|done| |].
    + unfold requests. cbn [running]. rewrite fmap_insert. eapply (lock_step_ok _ (Begin i r)); [exact Hl|]. apply step_begin; [|done].
      etransitivity; [apply requests_lookup|]. by rewrite Hi.
    + intros j r0 q temp. cbn. intros [[_ [= ]]|[_ Hj]]%lookup_insert_Some. by eapply Hsh.
  - apply (next_phase_ok st _ _ i r Arrived); [done..| | |done].
    + eapply pholds_serve; [| | |exact Hs|exact E]; [intros; by eapply execute_keeps|apply reset_keeps|intros; apply pipe_keeps].
    + apply leaving_ok; [apply Hs|done].
  - apply (next_phase_ok st _ _ i r Arrived); [done..| | |].
    + pose proof (keeps_prepare decode_query unmarshal_string parse_float unmarshal_array (r_now e) r' _ Hs) as Hk. by rewrite E in Hk.
    + apply leaving_ok; [apply Hs|done].
    + intros q temp _. by apply query_is_shared.
  - destruct (ok_wired _ Hs) as (o1 & Hb1 & Ho). rewrite Hb in Hb1. injection Hb1 as <-.
    destruct (execute_keeps _ _ _ _ _ _ _ _ Ho E) as [Ho' Htok].
    assert (Hs1 : server_ok (mkServer (Wired o') (sessionMgr (srv st)) (sessionIDCounter (srv st)))) by (split; [by exists o'|apply Hs]).
    assert (Hh : ∀ x, held (q_token q) st = Some x → Session.Token sess' = q_token q).
    { intros x Hx. rewrite Htok. unfold session_of. rewrite Hx. by apply (session_of_token st). }
    unfold put_back in Ep. unfold held in Hh.
    destruct (Session.sessions (sessionMgr (srv st)) !! q_token q) as [x|] eqn:Ex;
      [|destruct (detached st !! q_token q) as [x|] eqn:Ed]; injection Ep as <- <-.
    + apply (next_phase_ok st _ _ i r (Executing q temp)); [done..| |done|intros; by eapply Hsh]. apply store_ok; [done|by eapply Hh].
    + apply (next_phase_ok st _ _ i r (Executing q temp)); [done..| |intros; by eapply Hsh].
      intros token sess [[<- <-]|[_ Hk]]%lookup_insert_Some; [by eapply Hh|by apply Hd].
    + apply (next_phase_ok st _ _ i r (Executing q temp)); [done..|intros; by eapply Hsh].
  - apply (next_phase_ok st _ _ i r (Executing q temp)); [done..|]. done.
  - split; [done|done| |].
    + unfold requests. cbn [running]. rewrite fmap_delete. eapply (lock_step_ok _ (Finish i)); [exact Hl|]. apply (step_finish _ _ r).
      etransitivity; [apply requests_lookup|]. by rewrite Hi.
    + intros j r0 q temp. cbn. intros [_ Hj]%lookup_delete_Some. by eapply Hsh.
  - split; [|done..]. cbn. by apply keeps_on_orchestrator; [apply keeps_sched_tick|].
  - split; [|apply leaving_ok; [apply Hs|done]|done..]. cbn. by apply keeps_on_sessions; [apply keeps_expire|].
Qed.
End keeps.

(** ** A request that nothing comes between *)

Section alone.
Context {W : Type} `{MapRange}.
Context (queryDB : string → list cell → W → result Engine.Rows * W).
Context (execDB : string → list cell → W → result ExecResult * W).
Context (LoadLocation : string → result Location).
Context (ExecuteSQL : (nat → Z) → nat → string → Session * Orchestrator W → option (result QueryResult * (Session * Orchestrator W))).
Context (ResetAll : (nat → Z) → GoM (Orchestrator W) unit).
Context (InsertPipeFiles : (nat → Z) → string → string → string → list string → GoM (Orchestrator W) unit).
Context (decode_login : string → option loginRequestBody) (decode_query : string → option queryRequestBody).
Context (decode_v2 : string → option v2Body) (decode_pipe : string → option (list string)).
Context (unmarshal_string : string → option string) (parse_float : string → option Float).
Context (unmarshal_array : string → option (list string)).
Context (gunzip : string → option string).

Definition a_step : State W → Action → State W → Prop :=
  conc_step queryDB execDB LoadLocation ExecuteSQL ResetAll InsertPipeFiles decode_login decode_query decode_v2 decode_pipe
    unmarshal_string parse_float unmarshal_array gunzip.
Definition whole : Readings → Request → Partial (Server W) Response :=
  serve_with queryDB execDB ExecuteSQL ResetAll InsertPipeFiles decode_login decode_query decode_v2 decode_pipe
    unmarshal_string parse_float unmarshal_array gunzip.

Inductive turns (i : nat) : State W → State W → Prop :=
  | turns_none st : turns i st st
  | turns_more st st1 st2 : a_step st (Turn i) st1 → turns i st1 st2 → turns i st st2.

(** The session of a query as [in_session] has it: [s] is the server without the
    statements' changes in it. *)
Definition placed (known : bool) (token : string) (sess temp : Session) (s : Server W) (st : State W) : Prop :=
  if known then srv st = store_session token sess s else srv st = s ∧ held token st = None ∧ temp = sess.
Definition left_with (known : bool) (token : string) (sess : Session) (s : Server W) : Server W :=
  if known then store_session token sess s else s.

Lemma statement_turn e known i r q temp st sess s stmt rest res sess1 s1 :
  running st !! i = Some (r, Executing q temp) → q_todo q = stmt :: rest → placed known (q_token q) sess temp s st → has_orchestrator s →
  run_statement (ExecuteSQL (r_now e) (r_fuel e)) stmt (sess, s) = Some (res, (sess1, s1)) →
  has_orchestrator s1 ∧ ∃ st1 temp1, a_step st (Turn i) st1 ∧
    running st1 = <[i := (r, after_statement q rest res temp1)]> (running st) ∧ placed known (q_token q) sess1 temp1 s1 st1.
Proof.
  intros Hi Ht Hp Ho E. unfold run_statement in E. cbn [fst snd] in E. destruct (backend s) as [|o] eqn:Hb; [by unfold has_orchestrator in Ho; rewrite Hb in Ho|].
  destruct (ExecuteSQL _ _ stmt (sess, o)) as [[res0 [sess' o']]|] eqn:Ee; [|done]. injection E as <- <- <-. split; [done|].
  destruct known; cbn [placed] in *.
  - eexists _, _. split; [|split].
    + eapply (c_statement _ _ _ _ _ _ _ _ _ _ _ _ _ _ st i r q temp o e stmt rest); [done|done|by rewrite Hp| |].
      * unfold session_of, held. rewrite Hp. cbn. rewrite lookup_insert_eq. exact Ee.
      * unfold put_back. rewrite Hp. cbn. rewrite lookup_insert_eq. reflexivity.
    + reflexivity.
    + cbn. unfold store_session. cbn. by rewrite insert_insert_eq.
  - destruct Hp as (Hs & Hn & ->). pose proof Hn as Hn'. unfold held in Hn'. rewrite Hs in Hn'.
    destruct (Session.sessions (sessionMgr s) !! q_token q) eqn:Es; [done|]. eexists _, sess'. split; [|split].
    + eapply (c_statement _ _ _ _ _ _ _ _ _ _ _ _ _ _ st i r q sess o e stmt rest); [done|done|by rewrite Hs| |].
      * unfold session_of. rewrite Hn. exact Ee.
      * unfold put_back. rewrite Hs, Es, Hn'. reflexivity.
    + cbn. by rewrite decide_True.
    + cbn. split; [done|]. split; [|done]. unfold held. cbn. by rewrite Es, Hn'.
Qed.

Lemma execute_each_turns e known i r now token sqlText d total last stmts temp st sess s res sess1 s1 :
  running st !! i = Some (r, Executing (mkQuery now token sqlText d true total last stmts) temp) → placed known token sess temp s st →
  has_orchestrator s → execute_each (ExecuteSQL (r_now e) (r_fuel e)) total last stmts (sess, s) = Some (res, (sess1, s1)) →
  ∃ st1, turns i st st1 ∧ srv st1 = left_with known token sess1 s1 ∧
    running st1 = <[i := (r, Answered (Ok (answer now sqlText d res)))]> (running st).
Proof.
  revert total last temp st sess s. induction stmts as [|stmt stmts IH]; intros total last temp st sess s Hi Hp Ho E; cbn [execute_each] in E.
  - injection E as <- <- <-. eexists. split; [eapply turns_more; [by eapply c_merge|apply turns_none]|]. cbn. split; [|done].
    destruct known; [exact Hp|]. by destruct Hp as [-> _].
  - unfold pbind in E. destruct (run_statement _ stmt (sess, s)) as [[res0 [sess2 s2]]|] eqn:Er; [|done].
    destruct (statement_turn e known i r _ temp st sess s stmt stmts res0 sess2 s2 Hi eq_refl Hp Ho Er) as (Ho2 & st2 & temp2 & Hst & Hrun & Hp2).
    cbn [q_token] in Hp2. assert (Hl : srv st2 = left_with known token sess2 s2).
    { destruct known; [exact Hp2|]. by destruct Hp2 as [-> _]. }
    destruct res0 as [qr|err]; [|injection E as <- <- <-; exists st2; split; [by eapply turns_more; [|apply turns_none]|done]].
    revert Hrun. unfold after_statement. cbn [q_many negb q_now q_token q_sqlText q_describe q_total].
    destruct (next_total total qr) as [total'|err]; intros Hrun.
    2: { injection E as <- <- <-. exists st2. split; [by eapply turns_more; [|apply turns_none]|done]. }
    + eapply IH in E as (st3 & Hts & Hs3 & Hr3); [|by rewrite Hrun, lookup_insert_eq|done|done].
      exists st3. split; [by eapply turns_more|]. split; [done|]. by rewrite Hr3, Hrun, insert_insert_eq.
Qed.

Lemma executeStatements_turns e known i r now token sqlText d stmts temp st sess s res sess1 s1 :
  running st !! i = Some (r, Executing (to_run now (mkPrepared token sqlText d stmts)) temp) → placed known token sess temp s st →
  has_orchestrator s → executeStatements (ExecuteSQL (r_now e) (r_fuel e)) stmts (sess, s) = Some (res, (sess1, s1)) →
  ∃ st1, turns i st st1 ∧ srv st1 = left_with known token sess1 s1 ∧
    running st1 = <[i := (r, Answered (Ok (answer now sqlText d res)))]> (running st).
Proof.
  intros Hi Hp Ho E. destruct stmts as [|stmt [|stmt2 stmts]].
  - by apply (execute_each_turns e known i r now token sqlText d 0 None [] temp st sess s).
  - destruct (statement_turn e known i r _ temp st sess s stmt [] res sess1 s1 Hi eq_refl Hp Ho E) as (_ & st1 & temp1 & Hst & Hrun & Hp1).
    exists st1. split; [by eapply turns_more; [|apply turns_none]|]. split.
    + destruct known; [exact Hp1|]. by destruct Hp1 as [-> _].
    + rewrite Hrun. unfold after_statement. cbn. by destruct res.
  - by apply (execute_each_turns e known i r now token sqlText d 0 None (stmt :: stmt2 :: stmts) temp st sess s).
Qed.

(** The request in its two parts. *)
Lemma touch_keeps_orch now token s : has_orchestrator s → ∃ s1, touch_session now token s = (Ok tt, s1) ∧ has_orchestrator (W:=W) s1.
Proof.
  intros Ho. unfold touch_session. case_decide; [by exists s|]. unfold on_sessions, Session.UpdateActivity, bind, get, put, ret.
  destruct (Session.sessions (sessionMgr s) !! token); eexists; (split; [reflexivity|]); exact Ho.
Qed.
Lemma prepare_keeps now r s r0 s1 : has_orchestrator s →
  prepare decode_query unmarshal_string parse_float unmarshal_array now r s = (r0, s1) →
  has_orchestrator (W:=W) s1 ∧ ∀ t, Session.sessions (sessionMgr s1) !! t = None → Session.sessions (sessionMgr s) !! t = None.
Proof.
  intros Ho. unfold prepare. case_decide; [by intros [= _ <-]|]. cbv zeta. unfold bind at 1.
  assert (Ht : ∃ s2, touch_session now (extractToken (Authorization r)) s = (Ok tt, s2) ∧ has_orchestrator (W:=W) s2 ∧
    ∀ t, Session.sessions (sessionMgr s2) !! t = None → Session.sessions (sessionMgr s) !! t = None).
  { destruct (touch_keeps_orch now (extractToken (Authorization r)) s Ho) as (s2 & E & Ho2). exists s2. split_all; [done..|]. revert E.
    unfold touch_session. case_decide; [by intros [= <-]|]. unfold on_sessions, Session.UpdateActivity, bind, get, put, ret.
    destruct (Session.sessions (sessionMgr s) !! _) as [x|] eqn:Ex; intros [= <-]; [|done]. cbn. intros t [Hn _]%lookup_insert_None. done. }
  destruct Ht as (s2 & -> & Ho2 & Hd). destruct (decode_query _) as [body|]; [|by intros [= _ <-]].
  repeat case_decide; try (by intros [= _ <-]). all: destruct (DescribeOnly body && _); [by intros [= _ <-]|].
  all: destruct (Expand _ _ _ _ _) as [stmts|err]; by intros [= _ <-].
Qed.
Lemma route_query X Y Z' now ib tb r : Path r = query_path →
  route queryDB execDB X Y Z' decode_login decode_query decode_v2 decode_pipe unmarshal_string parse_float unmarshal_array now ib tb r =
  handleQueryRequest queryDB execDB X decode_query unmarshal_string parse_float unmarshal_array now r.
Proof. intros Hp. unfold route. rewrite Hp. rewrite !(decide_False (P:=query_path = _)) by done. by rewrite decide_True. Qed.

(** The steps of a query request that nothing comes between are those of its handler. *)
Lemma alone_as_whole e i r s res s' run : run !! i = Some (r, Arrived) → has_orchestrator s → whole e r s = Some (res, s') →
  ∃ st, turns i (mkState s ∅ run) st ∧ srv st = s' ∧ running st = <[i := (r, Answered res)]> run.
Proof.
  intros Hi Ho E.
  assert (Hwhole : is_query r = false ∨ decompressed gunzip r = None →
    ∃ st, turns i (mkState s ∅ run) st ∧ srv st = s' ∧ running st = <[i := (r, Answered res)]> run).
  { intros Hq. eexists. split; [eapply turns_more; [by eapply c_whole|apply turns_none]|done]. }
  destruct (is_query r) eqn:Hq; [|apply Hwhole; by left]. destruct (decompressed gunzip r) as [r'|] eqn:Hr; [|apply Hwhole; by right].
  assert (Hp : Path r' = query_path).
  { apply bool_decide_eq_true in Hq. revert Hr. unfold decompressed. destruct (hasGzipEncoding _); [|by intros [= <-]].
    destruct (gunzip _); [|done]. by intros [= <-]. }
  unfold whole, serve_with, serve in E. rewrite Hr, route_query in E by done. unfold handleQueryRequest, pbind, ended, ret in E.
  assert (Hstep : ∀ p, prepare decode_query unmarshal_string parse_float unmarshal_array (r_now e) r' s = p →
    a_step (mkState s ∅ run) (Turn i) (moved (mkState s ∅ run) p.2 i (r, prepared_phase (r_now e) p.2 p.1))).
  { intros [p1 p2] Ep. by eapply c_prepare. }
  destruct (prepare _ _ _ _ _ _ s) as [[[resp|p]|err] s1] eqn:Ep; specialize (Hstep _ eq_refl); cbn [prepared_phase fst snd] in Hstep.
  - injection E as <- <-. eexists. split; [eapply turns_more; [exact Hstep|apply turns_none]|done].
  - destruct (prepare_keeps _ _ _ _ _ Ho Ep) as [Ho1 Hdom].
    rewrite (Is_true_true_1 _ Ho1) in E. unfold routed in E. destruct (session_for (p_token p) s1) as [[sess known]|] eqn:Es.
    2: { injection E as <- <-. eexists. split; [eapply turns_more; [exact Hstep|apply turns_none]|done]. }
    unfold pbind, in_session in E.
    destruct (executeStatements _ (p_stmts p) _) as [[rq [sess2 s2]]|] eqn:Ee; [|done]. injection E as <- <-.
    set (st1 := moved (mkState s ∅ run) s1 i (r, Executing (to_run (r_now e) p) temporary)).
    destruct (executeStatements_turns e known i r (r_now e) (p_token p) (p_sqlText p) (p_describe p) (p_stmts p) temporary st1 sess s1 rq sess2 s2)
      as (st2 & Hts & Hs2 & Hr2); [| |done|exact Ee|].
    + unfold st1, moved. cbn [running]. rewrite lookup_insert_eq. by destruct p.
    + unfold session_for, Session.GetSession in Es. unfold placed, st1, moved. cbn [srv].
      destruct (Session.sessions (sessionMgr s1) !! p_token p) as [x|] eqn:Ex.
      * injection Es as <- <-. destruct s1 as [b m c], m as [ss dc]. unfold store_session. cbn in *. by rewrite insert_id.
      * case_decide; [done|]. injection Es as <- <-. split; [done|]. split; [|done]. unfold held. cbn. rewrite Ex. unfold leaving.
        rewrite (right_id_L ∅ (∪)). apply lookup_difference_None. left. by apply Hdom.
    + exists st2. split; [eapply turns_more; [exact Hstep|exact Hts]|]. split; [by rewrite Hs2|].
      rewrite Hr2. unfold st1, moved. cbn [running]. by rewrite insert_insert_eq.
  - injection E as <- <-. eexists. split; [eapply turns_more; [exact Hstep|apply turns_none]|done].
Qed.
End alone.

(** ** The program *)

Section program.
Context {W : Type} `{MapRange}.
Context (queryDB : string → list cell → W → result Engine.Rows * W).
Context (execDB : string → list cell → W → result ExecResult * W).
Context (osMkdirAll osRemoveAll osRemove : string → W → result unit * W).
Context (osFiles : OsFiles W).
Context (osStat : string → W → result Z).
Context (walkDir : string → W → list WalkEntry).
Context (fileMD5 : string → W → string).
Context (glob : string → string → result bool).
Context (compile : string → result (string → bool)).
Context (bad_authority bad_fragment : string → bool).
Context (LoadLocation : string → result Location).
Context (parseTime : string → result Z) (time_string : Z → string).
Context (scanStrings : list cell → result (list string)) (role_time : string → Z).
Context (decode_login : string → option loginRequestBody) (decode_query : string → option queryRequestBody).
Context (decode_v2 : string → option v2Body) (decode_pipe : string → option (list string)).
Context (unmarshal_string : string → option string) (parse_float : string → option Float).
Context (unmarshal_array : string → option (list string)).
Context (gunzip : string → option string).

Definition program_conc_step : State W → Action → State W → Prop :=
  conc_step queryDB execDB LoadLocation
    (λ now fuel, ExecuteSQL queryDB execDB osMkdirAll osRemoveAll osRemove osFiles osStat walkDir fileMD5 glob compile bad_authority
       bad_fragment LoadLocation parseTime time_string now fuel)
    (λ now, reset_all queryDB execDB osMkdirAll osRemoveAll now scanStrings role_time) (λ now, InsertPipeFiles execDB now)
    decode_login decode_query decode_v2 decode_pipe unmarshal_string parse_float unmarshal_array gunzip.
Definition conc_reachable : State W → Prop :=
  reachable (λ st, started role_time (srv st) ∧ detached st = ∅ ∧ running st = ∅) program_conc_step.

(** C6: However requests overlap, statement by statement, with each other, the scheduler
    and the expiry of sessions, every subsystem and every session stays well formed;
    and while a reset is between the taking and the release of the state lock, every
    other request there is a health check or a refused reset: no query is between two
    of its statements. *)
Theorem requests_interleaved st : conc_reachable st → server_ok (srv st) ∧
  ∀ i j r p r' p', running st !! i = Some (r, p) → running st !! j = Some (r', p') → i ≠ j →
    Path r = "/_miniflake/reset"%string → Method r = "POST"%string →
    (∀ q temp, p' ≠ Executing q temp) ∧
    (Path r' = "/_miniflake/health"%string ∨ Path r' = "/_miniflake/reset"%string ∧ Method r' ≠ "POST"%string).
Proof.
  intros Hr. assert (Hok : conc_ok st).
  { revert st Hr. apply (reachable_inv _ _ conc_ok).
    - intros [s d run] (Hs & Hd & Hrun). cbn in *. subst d run. split; cbn.
      + by eapply (program_ok queryDB execDB osMkdirAll osRemoveAll osRemove osFiles osStat walkDir fileMD5 glob compile bad_authority
          bad_fragment LoadLocation parseTime time_string scanStrings role_time decode_login decode_query decode_v2 decode_pipe
          unmarshal_string parse_float unmarshal_array gunzip), reachable_init.
      + intros token sess. by rewrite lookup_empty.
      + intros a b ra rb Ha. exfalso. unfold requests in Ha. cbn in Ha. rewrite fmap_empty in Ha. by apply (lookup_empty_Some (M:=gmap nat)) in Ha.
      + intros i r q temp. by rewrite lookup_empty.
    - intros st a st' Hst Hstep. eapply conc_step_ok; [| | |exact Hst|exact Hstep].
      + intros now fuel sql sess o r0 sess' o' Ho Ee. assert (Hb : both_ok (identity sess) (sess, o)) by done.
        eapply keeps_ExecuteSQL in Ee as [H1 H2]; [|exact Hb]. split; [exact H1|]. by injection H2.
      + intros now. cbv beta. apply keeps_reset.
      + intros now db sc n fs. cbv beta. apply keeps_InsertPipeFiles. }
  split; [apply Hok|]. intros i j r p r' p' Hi Hj Hne Hp Hm.
  assert (Hx : lock_of r = Exclusive).
  { unfold lock_of. rewrite Hp, decide_False, decide_True, decide_False by (done || naive_solver). done. }
  assert (Hu : lock_of r' = Unlocked).
  { eapply (c_lock _ Hok i j r r'); [etransitivity; [apply requests_lookup|]; by rewrite Hi|etransitivity; [apply requests_lookup|]; by rewrite Hj|done..]. }
  split.
  - intros q temp ->. apply (c_shared _ Hok) in Hj. congruence.
  - revert Hu. unfold lock_of. repeat case_decide; naive_solver.
Qed.
End program.

(** ** Concrete requests *)

#[local] Existing Instance key_order.

Definition demo_conc_reachable : State Demo → Prop :=
  conc_reachable demo_query demo_exec demo_dir demo_dir demo_dir demo_copy (λ _ _, Err "no file") (λ _ _, []) (λ _ _, "")
    (λ _ _, Ok true) (λ _, Err "bad pattern") (λ _, false) (λ _, false) demo_zone (λ _, Err "bad time") Itoa (λ _, Ok []) (λ _, 0)
    demo_login demo_decode (λ _, None) (λ _, None) (λ _, None) (λ _, None) (λ _, None) (λ _, None).

Definition reset_request : Request := a_request "POST" "/_miniflake/reset" "" "".
Definition health_request : Request := a_request "GET" "/_miniflake/health" "" "".

(** A reset and a health check at the same time. *)
Definition idle : State Demo := mkState demo_start ∅ ∅.
Definition resetting : State Demo := mkState demo_start ∅ (<[0%nat := (reset_request, Arrived)]> ∅).
Definition both : State Demo := mkState demo_start ∅ (<[1%nat := (health_request, Arrived)]> (<[0%nat := (reset_request, Arrived)]> ∅)).

Lemma idle_reachable : demo_conc_reachable idle.
Proof.
  apply reachable_init. split; [|done]. exists demo_boot. split; [|done]. by eexists _, "/s"%string, (λ _, 0), empty_demo.
Qed.
Lemma both_reachable : demo_conc_reachable both.
Proof.
  refine (reachable_step _ _ resetting (Take 1 health_request) both _ _); [refine (reachable_step _ _ idle (Take 0 reset_request) resetting idle_reachable _)|].
  - apply c_take; [done|]. split; intros (i & r & Hi & _); exact (lookup_empty_Some (M:=gmap nat) i r Hi).
  - by apply c_take.
Qed.

Lemma requests_interleaved_witness : server_ok (srv both) ∧ Path health_request = "/_miniflake/health"%string.
Proof.
  destruct (requests_interleaved _ _ _ _ _ _ _ _ _ _ _ _ _ _ _ _ _ _ _ _ _ _ _ _ _ _ both both_reachable) as [H1 H2].
  split; [exact H1|]. destruct (H2 0%nat 1%nat reset_request Arrived health_request Arrived eq_refl eq_refl ltac:(done) eq_refl eq_refl) as [_ [H3|[H3 _]]];
    [exact H3|discriminate H3].
Defined.
