(* ===== verification/Main.v ===== *)
(** * The process ([cmd/miniflake/main.go])

    [main] from its flags to the serving of requests and from there to its end: the
    directories, the engine, the subsystems with their loops, the certificate, the
    listener, and what the deferred functions stop.  The flags are given as parsed; a
    call of [log.Fatalf] is an error, after which no deferred function runs. *)

From S2P Require Import Prelude GoStrings GoTime Stream Session Task Engine Orchestrator Demo OrchestratorSpec Server Tls System.
#[local] Open Scope Z_scope.

Record Flags := mkFlags {
  f_host : string;
  f_port : Z;
  f_dataDir : string;
  f_stageDir : string;
  f_tlsCert : string;
  f_tlsKey : string;
}.

(** The server with the part of it that tls.go works on. *)
Record Process (W Key : Type) := mkProcess { p_server : Server.Server W; p_tls : TlsServer Key }.
Arguments mkProcess {W Key}.
Arguments p_server {W Key}.
Arguments p_tls {W Key}.

(** What accepts connections: TLS and HTTP on one port ([autoListener]), or HTTP alone. *)
Inductive Listener : Type := AutoListener | PlainListener.

Section main.
Context {Key W : Type} `{MapRange}.
Context (mkdirAll openDB pingDB : string → W → result unit * W) (closeDB : W → W).
Context (LoadX509KeyPair : string → string → W → result (tlsCertificate Key)).
Context (X509KeyPair : string → string → result (tlsCertificate Key)).
Context (ParseCertificate : string → result x509Certificate).
Context (CreateCertificate : x509Certificate → Key → result string).
Context (MarshalPKCS1PrivateKey : Key → string) (EncodeToMemory : string → string → string).
Context (Stat : string → W → result bool) (WriteFile : string → string → Z → W → result unit * W).
Context (listen : string → W → result unit * W).
Context (role_time : string → Z).

Definition enable_tls (dr : Draw (Key:=Key)) (f : Flags) : GoM W (TlsServer Key) := λ w,
  let '(r, (tls, w)) := EnableTLS LoadX509KeyPair X509KeyPair ParseCertificate CreateCertificate MarshalPKCS1PrivateKey
    EncodeToMemory Stat WriteFile dr (f_tlsCert f) (f_tlsKey f) (f_dataDir f) (mkTlsServer (f_host f) None "", w) in
  (result_map (λ _, tls) r, w).

(** Up to the serving.  Between the engine and the certificate the subsystems are made
    and the scheduler is started, which the outside world does not notice. *)
Definition main_start (dr : Draw) (now : nat → Z) (f : Flags) : GoM W (Process W Key) :=
  wrapped ("create data dir " +:+ f_dataDir f) (mkdirAll (f_dataDir f)) ;;;
  wrapped ("create stage dir " +:+ f_stageDir f) (mkdirAll (f_stageDir f)) ;;;
  let! eng := wrapped "init engine" (Engine.New mkdirAll openDB pingDB closeDB (f_dataDir f)) in
  let! tls := wrapped "enable tls" (enable_tls dr f) in
  let! w := get in
  ret (mkProcess (mkServer (Wired (with_scheduler (boot eng (f_stageDir f) now role_time w))) Session.NewManager 0) tls).

(** [httpServer.Addr], and [ListenAndServe] up to its loop. *)
Definition Addr (f : Flags) : string := f_host f +:+ ":" +:+ Itoa (f_port f).
Definition ListenAndServe (f : Flags) (p : Process W Key) : GoM W Listener :=
  listen (Addr f) ;;; ret (match tlsConfig (p_tls p) with Some _ => AutoListener | None => PlainListener end).

(** The deferred functions, last first: [sessMgr.Stop], [taskSched.Stop], [schedCancel], which
    cancels what [Stop] has cancelled, and [eng.Close]. *)
Definition close_engine : GoM (Orchestrator W) unit := λ o, (Ok tt, with_tasks (taskSched o) (streamEng o, closeDB (Orchestrator.world o)) o).
Definition deferred : GoM (Server.Server W) unit :=
  on_sessions Session.Stop ;;;
  on_orchestrator (on_task Task.Stop) ;;;
  on_orchestrator close_engine.

(** The end: an error of the server is fatal; its orderly end, or a signal, after which
    no request is served, leads to the deferred functions. *)
Definition main_end (served : result unit) : GoM (Server.Server W) unit :=
  wrapped "server error" (λ s, (served, s)) ;;; deferred.

(** What [os.MkdirAll] does with the empty path. *)
Context (mkdir_empty : ∀ w, is_ok (mkdirAll "" w).1 = false).

Lemma regenerate_set dr c k s w s1 w1 :
  regenerate X509KeyPair CreateCertificate MarshalPKCS1PrivateKey EncodeToMemory WriteFile dr c k (s, w) = (Ok tt, (s1, w1)) →
  ∃ cert, tlsConfig s1 = Some (mkConfig [cert] VersionTLS12) ∧ host s1 = host s.
Proof.
  unfold regenerate. intros E. apply bind_ok in E as (x & s0 & [= <- <-] & E).
  apply bind_ok in E as (pems & s2 & E1 & E). unfold wrapped in E1. injection E1 as _ <-.
  apply bind_ok in E as ([] & s3 & E2 & E). pose proof (lift_fst "write cert" (WriteFile c pems.1 420) (s, w)) as F2. rewrite E2 in F2.
  apply bind_ok in E as ([] & s4 & E3 & E). pose proof (lift_fst "write key" (WriteFile k pems.2 384) s3) as F3. rewrite E3 in F3.
  apply bind_ok in E as (cert & s5 & E4 & E). unfold wrapped in E4. injection E4 as _ <-.
  exists cert. unfold setTLSCert, modify in E. injection E as <- _. cbn in *. by rewrite F3, F2.
Qed.
Lemma enable_tls_set dr f w tls w' : enable_tls dr f w = (Ok tls, w') → ∃ cert, tlsConfig tls = Some (mkConfig [cert] VersionTLS12) ∧ host tls = f_host f.
Proof.
  unfold enable_tls. destruct (EnableTLS _ _ _ _ _ _ _ _ _ _ _ _ _) as [[[]|e] [s1 w1]] eqn:E; [|done]. intros [= <- <-].
  unfold EnableTLS in E. case_decide.
  - apply bind_ok in E as (cert & s2 & E1 & E). unfold wrapped in E1. injection E1 as _ <-.
    exists cert. unfold setTLSCert, modify in E. by injection E as <- _.
  - cbv zeta in E. apply bind_ok in E as (x & s0 & [= <- <-] & E). destruct (persisted _ _ _ _ _ _ _) as [cert|].
    + exists cert. unfold setTLSCert, modify in E. by injection E as <- _.
    + by apply regenerate_set in E.
Qed.

(** When [main] comes to its serving, the server is as the program is at its start, so
    that all that is proved of the reachable program holds of it; it has a certificate,
    and what it listens with is the listener of tls.go. *)
Theorem main_serves dr now f w p w' : main_start dr now f w = (Ok p, w') →
  started role_time (p_server p) ∧ (∃ cert, tlsConfig (p_tls p) = Some (mkConfig [cert] VersionTLS12)) ∧ host (p_tls p) = f_host f ∧
  ∀ l w2, ListenAndServe f p w' = (Ok l, w2) → l = AutoListener.
Proof.
  unfold main_start. intros E. apply bind_ok in E as ([] & w1 & E1 & E). apply bind_ok in E as ([] & w2 & E2 & E).
  apply bind_ok in E as (eng & w3 & E3 & E). apply bind_ok in E as (tls & w4 & (cert & Hc & Hh)%wrapped_ok%enable_tls_set & E).
  unfold bind, get, ret in E. injection E as <- <-. cbn [p_server p_tls]. split_all.
  - eexists. split; [|reflexivity]. exists eng, (f_stageDir f), now, w4. split; [|done]. intros Hd. rewrite Hd in E2.
    apply wrapped_ok in E2. pose proof (mkdir_empty w1) as Hm. by rewrite E2 in Hm.
  - by exists cert.
  - done.
  - intros l w5 E. unfold ListenAndServe in E. apply bind_ok in E as ([] & w6 & _ & E). cbn in E. rewrite Hc in E. by injection E as <- _.
Qed.

(** An error ends the start where it happens: what comes later has left no trace. *)
Theorem main_fails dr now f w e w' : main_start dr now f w = (Err e, w') →
  (∃ e', mkdirAll (f_dataDir f) w = (Err e', w') ∧ e = "create data dir " +:+ f_dataDir f +:+ ": " +:+ e') ∨
  ∃ w1, mkdirAll (f_dataDir f) w = (Ok tt, w1) ∧
  ((∃ e', mkdirAll (f_stageDir f) w1 = (Err e', w') ∧ e = "create stage dir " +:+ f_stageDir f +:+ ": " +:+ e') ∨
  ∃ w2, mkdirAll (f_stageDir f) w1 = (Ok tt, w2) ∧
  ((∃ e', Engine.New mkdirAll openDB pingDB closeDB (f_dataDir f) w2 = (Err e', w') ∧ e = "init engine: " +:+ e') ∨
  ∃ eng w3 e', Engine.New mkdirAll openDB pingDB closeDB (f_dataDir f) w2 = (Ok eng, w3) ∧ enable_tls dr f w3 = (Err e', w') ∧ e = "enable tls: " +:+ e')).
Proof.
  unfold main_start. intros E. apply bind_err in E as [E|([] & w1 & E1 & E)]; [left|right; exists w1].
  { apply wrapped_err in E as (e' & ? & ->). exists e'. split; [done|apply string_app_assoc]. }
  split; [by apply wrapped_ok in E1|]. apply bind_err in E as [E|([] & w2 & E2 & E)]; [left|right; exists w2].
  { apply wrapped_err in E as (e' & ? & ->). exists e'. split; [done|apply string_app_assoc]. }
  split; [by apply wrapped_ok in E2|]. apply bind_err in E as [E|(eng & w3 & E3 & E)]; [left|right; exists eng, w3].
  { by apply wrapped_err in E. }
  apply bind_err in E as [E|(tls & w4 & E4 & E)]; [|done]. apply wrapped_err in E as (e' & ? & ->).
  exists e'. split; [by apply wrapped_ok in E3|done].
Qed.

(** At the end, when sessions and scheduler have not been stopped before, every loop is
    told to stop, and then the database is closed, with no panic on the way. *)
Theorem main_stops s o i : backend s = Wired o → Session.done_closed (sessionMgr s) = false →
  cancel (taskSched o) = Some i → Task.loops (taskSched o) !! i = Some false →
  (∀ j, j ≠ i → Task.loops (taskSched o) !! j ≠ Some false) →
  ∃ o', deferred s = (Ok tt, mkServer (Wired o') (Session.mkManager (Session.sessions (sessionMgr s)) true) (sessionIDCounter s)) ∧
    (∀ j, Task.loops (taskSched o') !! j ≠ Some false) ∧ Orchestrator.world o' = closeDB (Orchestrator.world o).
Proof.
  intros Hb Hd Hc Hi Hj. unfold deferred, bind, on_sessions, Session.Stop, get, put, on_orchestrator, on_task, Task.Stop, modify.
  cbn. rewrite Hd. cbn. rewrite Hb. cbn. eexists. split; [reflexivity|]. split; [|done]. cbn. rewrite Hc. intros j.
  destruct (decide (j = i)) as [->|Hne].
  - rewrite list_lookup_insert_eq; [done|]. by eapply lookup_lt_Some.
  - rewrite list_lookup_insert_ne by done. by apply Hj.
Qed.
Theorem main_end_fatal e s : main_end (Err e) s = (Err ("server error: " +:+ e), s).
Proof. done. Qed.
End main.
